(** * Case activity and notification orchestration: a shallow embedding

    The development follows the TypeScript sources of the case-management
    backend: the retrying mail sender ([emailNotificationService]), the
    template renderer ([emailTemplateService.renderTemplate]), the case and
    notification repositories together with the SQL triggers of the schema,
    the case, message and document services, and the two scheduled jobs.

    Conventions.
    - Timestamps are integers (microseconds since the epoch, the resolution
      of PostgreSQL); the session time zone is UTC, so that an interval of
      [n] days is [n * 86400000000] microseconds.
    - UUID primary keys are 128-bit numbers, modelled as [N]; a table with a
      primary key is a [gmap] from the key to the row.
    - An [async] function is a computation in a state-and-exception monad: a
      rejected promise is the exceptional result [Exn]. *)

From Stdlib Require Import ZArith QArith Qminmax Lqa Lia String Ascii List.
From Stdlib Require Import DecimalString DecimalN DecimalPos DecimalFacts.
From stdpp Require Import gmap strings list sorting.

Open Scope string_scope.
Open Scope Z_scope.

(** ** Results of computations that may throw *)

Inductive res (E A : Type) : Type :=
| Val (a : A)
| Exn (e : E).
Arguments Val {E A} a.
Arguments Exn {E A} e.

Definition is_val {E A} (r : res E A) : bool :=
  match r with Val _ => true | Exn _ => false end.

(** State-and-exception monad over a state [S]: the state survives a throw,
    as the effects of a JavaScript function do. *)
Definition M (S E A : Type) : Type := S -> res E A * S.

Definition ret {S E A} (a : A) : M S E A := fun s => (Val a, s).

Definition throw {S E A} (e : E) : M S E A := fun s => (Exn e, s).

Definition bind {S E A B} (m : M S E A) (k : A -> M S E B) : M S E B :=
  fun s => match m s with
           | (Val a, s') => k a s'
           | (Exn e, s') => (Exn e, s')
           end.

(** [try { body } catch (err) { handler(err) }] *)
Definition try_catch {S E A} (body : M S E A) (handler : E -> M S E A) : M S E A :=
  fun s => match body s with
           | (Val a, s') => (Val a, s')
           | (Exn e, s') => handler e s'
           end.

Definition get {S E} : M S E S := fun s => (Val s, s).
Definition modify {S E} (f : S -> S) : M S E unit := fun s => (Val tt, f s).

Declare Scope js_scope.
Delimit Scope js_scope with js.
Notation "x <- m ;; k" := (bind m (fun x => k))
  (at level 100, m at next level, right associativity) : js_scope.
Notation "m ;;; k" := (bind m (fun _ => k))
  (at level 100, right associativity) : js_scope.
Open Scope js_scope.

(** Log lines written through [logger]. *)
Inductive LogLine : Type :=
| LogInfo (msg : string)
| LogWarn (msg : string)
| LogError (msg : string).

(** ** DeliveryEngine: [emailNotificationService.sendEmail] *)

Module Delivery.

Record RetryConfig : Type := {
  maxRetries : nat;
  baseDelayMs : Z;
  maxDelayMs : Z
}.

Definition RETRY_CONFIG : RetryConfig :=
  {| maxRetries := 3; baseDelayMs := 1000; maxDelayMs := 10000 |}.

(** [getRetryDelay(attempt)]; [random] is the value [Math.random()]
    returned for this call.  Every double is a rational. *)
Definition getRetryDelay (random : Q) (attempt : nat) : Q :=
  let exponentialDelay :=
    inject_Z (baseDelayMs RETRY_CONFIG * 2 ^ Z.of_nat attempt) in
  let jitter := (random * 1000)%Q in
  Qmin (exponentialDelay + jitter) (inject_Z (maxDelayMs RETRY_CONFIG)).

(** The error objects the sender inspects: [statusCode] and [code], either
    of which may be missing. *)
Record ErrorObj : Type := {
  statusCode : option Z;
  code : option string
}.

(** What one call of [resend.emails.send] does: resolve without error,
    resolve with an [error] field, or throw. *)
Inductive SendOutcome : Type :=
| SendOk
| SendError (error : ErrorObj)
| SendThrows (err : ErrorObj).

(** Truthiness of [error?.statusCode]: present and not zero. *)
Definition truthy_status (sc : option Z) : bool :=
  match sc with
  | Some n => negb (n =? 0)
  | None => false
  end.

Definition status_is (p : Z -> bool) (sc : option Z) : bool :=
  match sc with
  | Some n => p n
  | None => false
  end.

Definition code_is (c : string) (o : option string) : bool :=
  match o with
  | Some c' => (c' =? c)%string
  | None => false
  end.

(** [isRetryableError(error)] *)
Definition isRetryableError (error : ErrorObj) : bool :=
  if truthy_status (statusCode error) then
    status_is (fun n => n =? 429) (statusCode error)
    || status_is (fun n => 500 <=? n) (statusCode error)
  else if code_is "ECONNRESET" (code error)
          || code_is "ETIMEDOUT" (code error)
          || code_is "ENOTFOUND" (code error)
  then true
  else false.

(** Observable effects of one [sendEmail] call: the number of calls of
    [resend.emails.send], the waits performed and the log, oldest first. *)
Record Net : Type := {
  sends : nat;
  delays : list Q;
  log : list LogLine
}.

Definition net0 : Net := {| sends := 0; delays := []; log := [] |}.

Definition logger (l : LogLine) : M Net ErrorObj unit :=
  modify (fun n => {| sends := sends n; delays := delays n; log := log n ++ [l] |}).

Definition delay (ms : Q) : M Net ErrorObj unit :=
  modify (fun n => {| sends := sends n; delays := delays n ++ [ms]; log := log n |}).

(** Control leaving one iteration of the [for] loop. *)
Inductive Step : Type :=
| Return (b : bool)
| Continue.

Section Sender.

(** The environment of one call: the outcome of the [n]-th transport
    call and the [n]-th value of [Math.random()]. *)
Variable transport : nat -> SendOutcome.
Variable random : nat -> Q.

Definition resend_emails_send : M Net ErrorObj (option ErrorObj) :=
  fun n =>
    let n' := {| sends := S (sends n); delays := delays n; log := log n |} in
    match transport (sends n) with
    | SendOk => (Val None, n')
    | SendError e => (Val (Some e), n')
    | SendThrows e => (Exn e, n')
    end.

(** [const retryDelay = getRetryDelay(attempt); logger.warn(..); await delay(retryDelay)] *)
Definition backoff (attempt : nat) (what : string) : M Net ErrorObj unit :=
  n <- get ;;
  let retryDelay := getRetryDelay (random (List.length (delays n))) attempt in
  logger (LogWarn what) ;;;
  delay retryDelay.

(** The body of the loop: the [try] block and its [catch]. *)
Definition iteration (attempt : nat) : M Net ErrorObj Step :=
  try_catch
    (r <- resend_emails_send ;;
     match r with
     | Some error =>
         if negb (isRetryableError error) || (attempt =? maxRetries RETRY_CONFIG)%nat
         then logger (LogError "Failed to send email") ;;; ret (Return false)
         else backoff attempt "Email send failed, retrying" ;;; ret Continue
     | None =>
         logger (LogInfo (if (0 <? attempt)%nat
                          then "Email sent successfully after retries"
                          else "Email sent")) ;;;
         ret (Return true)
     end)
    (fun err =>
       if (attempt =? maxRetries RETRY_CONFIG)%nat
       then logger (LogError "Error sending email") ;;; ret (Return false)
       else backoff attempt "Email send error, retrying" ;;; ret Continue).

(** The [for] loop, over the attempt numbers still to run. *)
Fixpoint attempts_loop (attempts : list nat) : M Net ErrorObj bool :=
  match attempts with
  | [] =>
      logger (LogError "Failed to send email after all retries") ;;;
      ret false
  | attempt :: rest =>
      s <- iteration attempt ;;
      match s with
      | Return b => ret b
      | Continue => attempts_loop rest
      end
  end.

(** [sendEmail(to, subject, html)]; [apiKey] is [config.resend.apiKey],
    falsy when it is missing or empty. *)
Definition sendEmail (apiKey : option string) : M Net ErrorObj bool :=
  match apiKey with
  | Some (String _ _) =>
      attempts_loop (seq 0 (S (maxRetries RETRY_CONFIG)))
  | _ =>
      logger (LogWarn "Resend API key not configured, skipping email") ;;;
      ret false
  end.

End Sender.

End Delivery.

(** ** Template rendering: [emailTemplateService.renderTemplate]

    A string is the sequence of its code units; the characters used here
    are those below 256. *)

Module Template.

Definition code_of (c : ascii) : nat := nat_of_ascii c.

(** The class [\w]: letters, digits and the underscore. *)
Definition is_word_char (c : ascii) : bool :=
  let n := code_of c in
  ((48 <=? n) && (n <=? 57) || (65 <=? n) && (n <=? 90)
   || (97 <=? n) && (n <=? 122) || (n =? 95))%nat.

(** The class [\s] below 256: tab, line feed, vertical tab, form feed,
    carriage return, space and the no-break space. *)
Definition is_space_char (c : ascii) : bool :=
  let n := code_of c in
  ((9 <=? n) && (n <=? 13) || (n =? 32) || (n =? 160))%nat.

(** The syntax characters of a pattern: [^ $ \ . * + ? ( ) [ ] { } |]. *)
Definition is_syntax_char (c : ascii) : bool :=
  existsb (fun n => (code_of c =? n)%nat)
    [94; 36; 92; 46; 42; 43; 63; 40; 41; 91; 93; 123; 125; 124]%nat.

Fixpoint all_chars (p : ascii -> bool) (s : string) : bool :=
  match s with
  | EmptyString => true
  | String c s' => p c && all_chars p s'
  end.

(** [new RegExp(`\\{\\{${key}\\}\\}`, 'g')] splices the key into the
    pattern source.  A key without syntax characters stands for itself and
    the pattern matches the literal text [{{key}}]; any other key is read
    as pattern syntax by the engine, which lies outside this model. *)
Definition key_is_literal (key : string) : bool :=
  all_chars (fun c => negb (is_syntax_char c)) key.

Definition placeholder (key : string) : string := "{{" ++ key ++ "}}".

(** [strip_prefix p s] is the rest of [s] after its prefix [p]. *)
Fixpoint strip_prefix (p s : string) : option string :=
  match p with
  | EmptyString => Some s
  | String a p' =>
      match s with
      | EmptyString => None
      | String b s' => if Ascii.eqb a b then strip_prefix p' s' else None
      end
  end.

(** The expansion of a replacement string for a pattern without capture
    groups (GetSubstitution): [$$] is a dollar, [$&] the match, [$`] and
    [$'] the text before and after it; [$1], [$<] and a lone [$] stand for
    themselves. *)
Fixpoint get_substitution (matched before after template : string) : string :=
  match template with
  | EmptyString => EmptyString
  | String c tl =>
      if (code_of c =? 36)%nat then
        match tl with
        | String d rest =>
            if (code_of d =? 36)%nat then
              String c (get_substitution matched before after rest)
            else if (code_of d =? 96)%nat then
              before ++ get_substitution matched before after rest
            else if (code_of d =? 38)%nat then
              matched ++ get_substitution matched before after rest
            else if (code_of d =? 39)%nat then
              after ++ get_substitution matched before after rest
            else String c (get_substitution matched before after tl)
        | EmptyString => String c EmptyString
        end
      else String c (get_substitution matched before after tl)
  end.

(** [s.replace(/pat/g, repl)] for a literal, non-empty [pat]: the matches
    are found from left to right and do not overlap.  [skip] counts the
    characters of the current match still to be dropped, [before] is the
    text in front of the current position. *)
Fixpoint replace_all_from (pat repl : string) (skip : nat) (before s : string) : string :=
  match s with
  | EmptyString => EmptyString
  | String c s' =>
      match skip with
      | S k => replace_all_from pat repl k (before ++ String c EmptyString) s'
      | O =>
          match strip_prefix pat s with
          | Some after =>
              get_substitution pat before after repl
              ++ replace_all_from pat repl (String.length pat - 1)
                   (before ++ String c EmptyString) s'
          | None =>
              String c (replace_all_from pat repl 0 (before ++ String c EmptyString) s')
          end
      end
  end.

Definition replace_all (pat repl s : string) : string :=
  replace_all_from pat repl 0 EmptyString s.

(** The longest prefix of [s] in the class [p], and the rest. *)
Fixpoint span (p : ascii -> bool) (s : string) : string * string :=
  match s with
  | EmptyString => (EmptyString, EmptyString)
  | String c s' =>
      if p c then let (a, b) := span p s' in (String c a, b)
      else (EmptyString, s)
  end.

(** [{{#if\s+(\w+)\}\}] at the start of [s]: the variable name and the
    rest.  The classes [\s], [\w] and the brace exclude each other, so
    the greedy match is the only one. *)
Definition match_if_open (s : string) : option (string * string) :=
  match strip_prefix "{{#if" s with
  | Some r1 =>
      let (sp, r2) := span is_space_char r1 in
      match sp with
      | EmptyString => None
      | String _ _ =>
          let (w, r3) := span is_word_char r2 in
          match w with
          | EmptyString => None
          | String _ _ =>
              match strip_prefix "}}" r3 with
              | Some r4 => Some (w, r4)
              | None => None
              end
          end
      end
  | None => None
  end.

(** [([\s\S]*?)\{\{\/if\}\}]: the text up to the first [{{/if}}], and
    the rest after it. *)
Fixpoint find_close (s : string) : option (string * string) :=
  match strip_prefix "{{/if}}" s with
  | Some r => Some (EmptyString, r)
  | None =>
      match s with
      | EmptyString => None
      | String c s' =>
          match find_close s' with
          | Some (content, r) => Some (String c content, r)
          | None => None
          end
      end
  end.

(** One match of the whole conditional pattern at the start of [s]. *)
Definition match_if_block (s : string) : option (string * string * string) :=
  match match_if_open s with
  | Some (varName, r) =>
      match find_close r with
      | Some (content, rest) => Some (varName, content, rest)
      | None => None
      end
  | None => None
  end.

(** The variables: the own entries of the object in the order of
    [Object.entries]. *)
Definition Variables : Type := list (string * string).

Fixpoint own_property (variables : Variables) (name : string) : option string :=
  match variables with
  | [] => None
  | (k, v) :: rest => if (k =? name)%string then Some v else own_property rest name
  end.

(** The properties every object inherits from [Object.prototype]; all of
    them are functions or objects, hence truthy. *)
Definition object_prototype_names : list string :=
  ["constructor"; "hasOwnProperty"; "isPrototypeOf"; "propertyIsEnumerable";
   "toLocaleString"; "toString"; "valueOf"; "__defineGetter__";
   "__defineSetter__"; "__lookupGetter__"; "__lookupSetter__"; "__proto__"].

(** Truthiness of [variables[varName]]. *)
Definition truthy_variable (variables : Variables) (varName : string) : bool :=
  match own_property variables varName with
  | Some v => negb (v =? "")%string
  | None => existsb (fun n => (n =? varName)%string) object_prototype_names
  end.

(** The second [replace], with the callback
    [(_match, varName, content) => variables[varName] ? content : '']. *)
Fixpoint replace_if_blocks (variables : Variables) (skip : nat) (s : string) : string :=
  match s with
  | EmptyString => EmptyString
  | String c s' =>
      match skip with
      | S k => replace_if_blocks variables k s'
      | O =>
          match match_if_block s with
          | Some (varName, content, rest) =>
              (if truthy_variable variables varName then content else EmptyString)
              ++ replace_if_blocks variables
                   (String.length s - String.length rest - 1) s'
          | None => String c (replace_if_blocks variables 0 s')
          end
      end
  end.

Inductive Rendering : Type :=
| Output (rendered : string)
| PatternSyntaxKey (key : string).

(** The [for] loop over [Object.entries(variables)]. *)
Fixpoint substitute_entries (entries : Variables) (rendered : string) : Rendering :=
  match entries with
  | [] => Output rendered
  | (key, value) :: rest =>
      if key_is_literal key
      then substitute_entries rest (replace_all (placeholder key) value rendered)
      else PatternSyntaxKey key
  end.

(** [renderTemplate(template, variables)] *)
Definition renderTemplate (template : string) (variables : Variables) : Rendering :=
  match substitute_entries variables template with
  | Output rendered => Output (replace_if_blocks variables 0 rendered)
  | PatternSyntaxKey key => PatternSyntaxKey key
  end.

End Template.

(** ** The database: rows, tables and the triggers of the schema *)

Module UserRole.
Inductive t : Type := ADMIN | LAWYER | CLIENT.
#[global] Instance eq_dec : EqDecision t.
Proof. solve_decision. Defined.
End UserRole.

Module CaseStatus.
Inductive t : Type :=
| NEW | IN_REVIEW | ACTIVE | PENDING_CLIENT | PENDING_DOCUMENTS
| IN_PROGRESS | AWAITING_RESPONSE | RESOLVED | CLOSED | ARCHIVED.
#[global] Instance eq_dec : EqDecision t.
Proof. solve_decision. Defined.
End CaseStatus.

Module CaseEventType.
Inductive t : Type :=
| CASE_CREATED | CASE_UPDATED | STATUS_CHANGED | DOCUMENT_UPLOADED
| DOCUMENT_DOWNLOADED | EMAIL_RECEIVED | EMAIL_SENT | LAWYER_ASSIGNED
| LAWYER_NOTE_ADDED | CLIENT_NOTIFIED | INACTIVITY_ALERT | PENDING
| MESSAGE_SENT.
#[global] Instance eq_dec : EqDecision t.
Proof. solve_decision. Defined.

(** The enum of the TypeScript sources has no member [DEADLINE_REMINDER]:
    the expression [CaseEventType.DEADLINE_REMINDER] is [undefined]. *)
Definition DEADLINE_REMINDER : option t := None.

(** Membership in the SQL enum [case_event_type] (migrations 001 and 003):
    ['pending'] is not a value of it. *)
Definition in_sql_enum (e : t) : bool :=
  match e with
  | PENDING => false
  | _ => true
  end.
End CaseEventType.

Module NotificationType.
Inductive t : Type :=
| NEW_CASE | CASE_UPDATE | DOCUMENT_UPLOADED | MESSAGE_RECEIVED
| CASE_ASSIGNED | DEADLINE_REMINDER | SYSTEM_ALERT.
#[global] Instance eq_dec : EqDecision t.
Proof. solve_decision. Defined.
End NotificationType.

Module CaseType.
Inductive t : Type :=
| PERSONAL_INJURY | FAMILY_LAW | CRIMINAL_DEFENSE | ESTATE_PLANNING
| BUSINESS_LAW | REAL_ESTATE | IMMIGRATION | BANKRUPTCY | EMPLOYMENT | OTHER.

(** The string value of the enum member. *)
Definition value (c : t) : string :=
  match c with
  | PERSONAL_INJURY => "personal_injury"
  | FAMILY_LAW => "family_law"
  | CRIMINAL_DEFENSE => "criminal_defense"
  | ESTATE_PLANNING => "estate_planning"
  | BUSINESS_LAW => "business_law"
  | REAL_ESTATE => "real_estate"
  | IMMIGRATION => "immigration"
  | BANKRUPTCY => "bankruptcy"
  | EMPLOYMENT => "employment"
  | OTHER => "other"
  end.
End CaseType.

Module Db.

Definition Uuid : Type := N.
Definition Timestamp : Type := Z.
Bind Scope N_scope with Uuid.
Bind Scope Z_scope with Timestamp.

(** One day, in microseconds. *)
Definition day : Z := 86400000000.

(** Rows.  Of each table the columns are those some modelled function
    reads or writes; a field carries the name of its column behind the
    initial of its table. *)
Record User : Type := {
  u_id : Uuid;
  u_email : string;
  u_role : UserRole.t;
  u_first_name : string;
  u_last_name : string;
  u_is_active : bool
}.

Record Client : Type := {
  cl_id : Uuid;
  cl_user_id : Uuid
}.

Record Lawyer : Type := {
  l_id : Uuid;
  l_user_id : Uuid;
  l_is_available : bool
}.

Record Case : Type := {
  c_id : Uuid;
  c_case_number : string;
  c_client_id : Uuid;
  c_lawyer_id : option Uuid;
  c_title : string;
  c_description : option string;
  c_status : CaseStatus.t;
  c_priority : Z;
  c_case_type : option string;
  c_closed_at : option Timestamp;
  c_last_activity_at : Timestamp;
  c_created_at : Timestamp;
  c_last_inactivity_notification : option Timestamp
}.

Record CaseEvent : Type := {
  e_case_id : Uuid;
  e_event_type : CaseEventType.t;
  e_actor_id : option Uuid;
  e_description : string;
  e_metadata : list (string * string);
  e_created_at : Timestamp
}.

Record Notification : Type := {
  n_id : Uuid;
  n_user_id : Uuid;
  n_type : NotificationType.t;
  n_title : string;
  n_message : string;
  n_case_id : option Uuid;
  n_is_read : bool;
  n_created_at : Timestamp;
  n_read_at : option Timestamp
}.

Record Message : Type := {
  m_id : Uuid;
  m_case_id : Uuid;
  m_sender_id : Uuid;
  m_content : string;
  m_created_at : Timestamp
}.

Record Document : Type := {
  d_id : Uuid;
  d_case_id : Uuid;
  d_uploaded_by : Uuid;
  d_original_filename : string;
  d_created_at : Timestamp
}.

(** A call of one of the [emailNotificationService.notify...] senders. *)
Record EmailRequest : Type := {
  em_to : string;
  em_template : string;
  em_case_id : option Uuid
}.

(** The state a request or a job runs against: the clock, the calendar
    year it shows, the source of fresh UUIDs, the SQL sequence
    [case_number_seq], the tables, the mails handed to the sender and the
    application log. *)
Record World : Type := {
  now : Timestamp;
  year : N;
  next_uuid : Uuid;
  case_number_seq : N;
  users : gmap Uuid User;
  clients : gmap Uuid Client;
  lawyers : gmap Uuid Lawyer;
  cases : gmap Uuid Case;
  case_events : list CaseEvent;
  notifications : gmap Uuid Notification;
  messages : list Message;
  documents : list Document;
  outbox : list EmailRequest;
  applog : list LogLine
}.

Definition with_now (t : Timestamp) (w : World) : World :=
  {| now := t; year := year w; next_uuid := next_uuid w;
     case_number_seq := case_number_seq w; users := users w;
     clients := clients w; lawyers := lawyers w; cases := cases w;
     case_events := case_events w; notifications := notifications w;
     messages := messages w; documents := documents w; outbox := outbox w;
     applog := applog w |}.

Definition with_next_uuid (u : Uuid) (w : World) : World :=
  {| now := now w; year := year w; next_uuid := u;
     case_number_seq := case_number_seq w; users := users w;
     clients := clients w; lawyers := lawyers w; cases := cases w;
     case_events := case_events w; notifications := notifications w;
     messages := messages w; documents := documents w; outbox := outbox w;
     applog := applog w |}.

Definition with_case_number_seq (n : N) (w : World) : World :=
  {| now := now w; year := year w; next_uuid := next_uuid w;
     case_number_seq := n; users := users w;
     clients := clients w; lawyers := lawyers w; cases := cases w;
     case_events := case_events w; notifications := notifications w;
     messages := messages w; documents := documents w; outbox := outbox w;
     applog := applog w |}.

Definition with_users (m : gmap Uuid User) (w : World) : World :=
  {| now := now w; year := year w; next_uuid := next_uuid w;
     case_number_seq := case_number_seq w; users := m;
     clients := clients w; lawyers := lawyers w; cases := cases w;
     case_events := case_events w; notifications := notifications w;
     messages := messages w; documents := documents w; outbox := outbox w;
     applog := applog w |}.

Definition with_clients (m : gmap Uuid Client) (w : World) : World :=
  {| now := now w; year := year w; next_uuid := next_uuid w;
     case_number_seq := case_number_seq w; users := users w;
     clients := m; lawyers := lawyers w; cases := cases w;
     case_events := case_events w; notifications := notifications w;
     messages := messages w; documents := documents w; outbox := outbox w;
     applog := applog w |}.

Definition with_cases (m : gmap Uuid Case) (w : World) : World :=
  {| now := now w; year := year w; next_uuid := next_uuid w;
     case_number_seq := case_number_seq w; users := users w;
     clients := clients w; lawyers := lawyers w; cases := m;
     case_events := case_events w; notifications := notifications w;
     messages := messages w; documents := documents w; outbox := outbox w;
     applog := applog w |}.

Definition with_case_events (l : list CaseEvent) (w : World) : World :=
  {| now := now w; year := year w; next_uuid := next_uuid w;
     case_number_seq := case_number_seq w; users := users w;
     clients := clients w; lawyers := lawyers w; cases := cases w;
     case_events := l; notifications := notifications w;
     messages := messages w; documents := documents w; outbox := outbox w;
     applog := applog w |}.

Definition with_notifications (m : gmap Uuid Notification) (w : World) : World :=
  {| now := now w; year := year w; next_uuid := next_uuid w;
     case_number_seq := case_number_seq w; users := users w;
     clients := clients w; lawyers := lawyers w; cases := cases w;
     case_events := case_events w; notifications := m;
     messages := messages w; documents := documents w; outbox := outbox w;
     applog := applog w |}.

Definition with_messages (l : list Message) (w : World) : World :=
  {| now := now w; year := year w; next_uuid := next_uuid w;
     case_number_seq := case_number_seq w; users := users w;
     clients := clients w; lawyers := lawyers w; cases := cases w;
     case_events := case_events w; notifications := notifications w;
     messages := l; documents := documents w; outbox := outbox w;
     applog := applog w |}.

Definition with_documents (l : list Document) (w : World) : World :=
  {| now := now w; year := year w; next_uuid := next_uuid w;
     case_number_seq := case_number_seq w; users := users w;
     clients := clients w; lawyers := lawyers w; cases := cases w;
     case_events := case_events w; notifications := notifications w;
     messages := messages w; documents := l; outbox := outbox w;
     applog := applog w |}.

Definition with_outbox (l : list EmailRequest) (w : World) : World :=
  {| now := now w; year := year w; next_uuid := next_uuid w;
     case_number_seq := case_number_seq w; users := users w;
     clients := clients w; lawyers := lawyers w; cases := cases w;
     case_events := case_events w; notifications := notifications w;
     messages := messages w; documents := documents w; outbox := l;
     applog := applog w |}.

Definition with_applog (l : list LogLine) (w : World) : World :=
  {| now := now w; year := year w; next_uuid := next_uuid w;
     case_number_seq := case_number_seq w; users := users w;
     clients := clients w; lawyers := lawyers w; cases := cases w;
     case_events := case_events w; notifications := notifications w;
     messages := messages w; documents := documents w; outbox := outbox w;
     applog := l |}.

(** The errors of [utils/errors] and the errors raised by the database. *)
Inductive AppError : Type :=
| NotFoundError (msg : string)
| ForbiddenError (msg : string)
| BadRequestError (msg : string)
| DatabaseError (msg : string)
| StorageError (msg : string)
| MailError (err : Delivery.ErrorObj).

Definition IO : Type -> Type := M World AppError.

Definition logger (l : LogLine) : IO unit :=
  modify (fun w => with_applog (applog w ++ [l]) w).

(** [uuid_generate_v4()] and [uuidv4()]: a UUID no row carries yet. *)
Definition uuid_generate_v4 : IO Uuid :=
  fun w => (Val (next_uuid w), with_next_uuid (N.succ (next_uuid w)) w).

(** [SELECT * FROM t WHERE col = $1] on a column with a [UNIQUE]
    constraint other than the key. *)
Definition select_where {A} (p : A -> bool) (table : gmap Uuid A) : option A :=
  head (filter (fun r => p r = true) (snd <$> map_to_list table)).

End Db.

Bind Scope N_scope with Db.Uuid.
Bind Scope Z_scope with Db.Timestamp.

(** ** Numbers as text *)

Module Text.

(** The decimal digits of a natural number, as [String(n)] and the SQL
    cast [n::text] print it. *)
Definition string_of_N (n : N) : string :=
  NilZero.string_of_uint (N.to_uint n).

Fixpoint repeat_char (c : ascii) (n : nat) : string :=
  match n with
  | O => EmptyString
  | S k => String c (repeat_char c k)
  end.

Fixpoint take_chars (n : nat) (s : string) : string :=
  match n, s with
  | S k, String c s' => String c (take_chars k s')
  | _, _ => EmptyString
  end.

(** [s.padStart(len, fill)] of JavaScript, for a one-character [fill]:
    a string already long enough is returned as it is. *)
Definition padStart (len : nat) (fill : ascii) (s : string) : string :=
  repeat_char fill (len - String.length s) ++ s.

(** [lpad(s, len, fill)] of PostgreSQL, for a one-character [fill]: a
    string longer than [len] is cut to its first [len] characters. *)
Definition lpad (len : nat) (fill : ascii) (s : string) : string :=
  if (len <? String.length s)%nat then take_chars len s
  else repeat_char fill (len - String.length s) ++ s.

Definition is_digit (c : ascii) : bool :=
  let n := nat_of_ascii c in ((48 <=? n) && (n <=? 57))%nat.

(** [s.split(sep)] for a one-character separator. *)
Fixpoint split_on (sep : ascii) (s : string) : list string :=
  match s with
  | EmptyString => [EmptyString]
  | String c s' =>
      if Ascii.eqb c sep then EmptyString :: split_on sep s'
      else match split_on sep s' with
           | piece :: pieces => String c piece :: pieces
           | [] => [String c EmptyString]
           end
  end.

(** [s.trim()] *)
Fixpoint trim_end (s : string) : string :=
  match s with
  | EmptyString => EmptyString
  | String c s' =>
      match trim_end s' with
      | EmptyString => if Template.is_space_char c then EmptyString
                       else String c EmptyString
      | String d r => String c (String d r)
      end
  end.

Definition trim (s : string) : string :=
  trim_end (snd (Template.span Template.is_space_char s)).

(** A JavaScript number that is an integer or [NaN]. *)
Inductive JsNumber : Type :=
| Int (z : Z)
| NaN.

Definition js_add (a : JsNumber) (b : Z) : JsNumber :=
  match a with
  | Int z => Int (z + b)
  | NaN => NaN
  end.

Definition js_toString (a : JsNumber) : string :=
  match a with
  | Int z => if z <? 0 then "-" ++ string_of_N (Z.to_N (- z))
             else string_of_N (Z.to_N z)
  | NaN => "NaN"
  end.

Definition digits_value (digits : string) : JsNumber :=
  match digits with
  | EmptyString => NaN
  | String _ _ =>
      match NilEmpty.uint_of_string digits with
      | Some d => Int (Z.of_N (N.of_uint d))
      | None => NaN
      end
  end.

(** [parseInt(s, 10)]; [None] is [undefined], which reads as ["undefined"].
    Leading white space is skipped, a sign is read, then the longest run
    of digits; without a digit the result is [NaN]. *)
Definition parseInt10 (s : option string) : JsNumber :=
  match s with
  | None => NaN
  | Some s =>
      let body := snd (Template.span Template.is_space_char s) in
      match body with
      | String c rest =>
          if (nat_of_ascii c =? 45)%nat then
            match digits_value (fst (Template.span is_digit rest)) with
            | Int z => Int (- z)
            | NaN => NaN
            end
          else if (nat_of_ascii c =? 43)%nat then
            digits_value (fst (Template.span is_digit rest))
          else digits_value (fst (Template.span is_digit body))
      | EmptyString => NaN
      end
  end.

End Text.

(** ** Repositories *)

Module Repo.
Import Db.

Definition findById {A} (table : World -> gmap Uuid A) (id : Uuid) : IO (option A) :=
  fun w => (Val (table w !! id), w).

Definition userRepository_findById : Uuid -> IO (option User) := findById users.
Definition clientRepository_findById : Uuid -> IO (option Client) := findById clients.
Definition lawyerRepository_findById : Uuid -> IO (option Lawyer) := findById lawyers.
Definition caseRepository_findById : Uuid -> IO (option Case) := findById cases.

Definition clientRepository_findByUserId (userId : Uuid) : IO (option Client) :=
  fun w => (Val (select_where (fun c => N.eqb (cl_user_id c) userId) (clients w)), w).

Definition lawyerRepository_findByUserId (userId : Uuid) : IO (option Lawyer) :=
  fun w => (Val (select_where (fun l => N.eqb (l_user_id l) userId) (lawyers w)), w).

(** The trigger [update_case_activity_on_event] (and the one on
    [messages]): [UPDATE cases SET last_activity_at = CURRENT_TIMESTAMP
    WHERE id = NEW.case_id]. *)
Definition touch (t : Timestamp) (c : Case) : Case :=
  {| c_id := c_id c; c_case_number := c_case_number c;
     c_client_id := c_client_id c; c_lawyer_id := c_lawyer_id c;
     c_title := c_title c; c_description := c_description c;
     c_status := c_status c; c_priority := c_priority c;
     c_case_type := c_case_type c; c_closed_at := c_closed_at c;
     c_last_activity_at := t; c_created_at := c_created_at c;
     c_last_inactivity_notification := c_last_inactivity_notification c |}.

Definition update_case_last_activity (case_id : Uuid) (w : World) : World :=
  with_cases (alter (touch (now w)) case_id (cases w)) w.

(** [INSERT INTO case_events (case_id, event_type, actor_id, description,
    metadata)].  The column [event_type] is [NOT NULL] and of the enum
    [case_event_type]; [case_id] references [cases].  The row trigger runs
    after the insert, in its transaction. *)
Definition insert_case_event (case_id : Uuid) (event_type : option CaseEventType.t)
    (actor_id : option Uuid) (description : string)
    (metadata : list (string * string)) : IO CaseEvent :=
  fun w =>
    match event_type with
    | None => (Exn (DatabaseError "null value in column event_type"), w)
    | Some ty =>
        if negb (CaseEventType.in_sql_enum ty) then
          (Exn (DatabaseError "invalid input value for enum case_event_type"), w)
        else
          match cases w !! case_id with
          | None => (Exn (DatabaseError "case_events_case_id_fkey"), w)
          | Some _ =>
              let ev := {| e_case_id := case_id; e_event_type := ty;
                           e_actor_id := actor_id; e_description := description;
                           e_metadata := metadata; e_created_at := now w |} in
              (Val ev,
               update_case_last_activity case_id
                 (with_case_events (case_events w ++ [ev]) w))
          end
    end.

(** [caseEventRepository.create(data)] *)
Definition caseEventRepository_create (case_id : Uuid)
    (event_type : option CaseEventType.t) (actor_id : option Uuid)
    (description : string) (metadata : list (string * string)) : IO CaseEvent :=
  insert_case_event case_id event_type actor_id description metadata.

(** The SQL function [generate_case_number()]. *)
Definition generate_case_number : IO string :=
  fun w =>
    let seq_val := N.succ (case_number_seq w) in
    let year_part := Text.string_of_N (year w) in
    (Val ("CASE-" ++ year_part ++ "-" ++ Text.lpad 5 "0" (Text.string_of_N seq_val)),
     with_case_number_seq seq_val w).

Record CreateCaseData : Type := {
  cc_client_id : Uuid;
  cc_lawyer_id : option Uuid;
  cc_title : string;
  cc_description : option string;
  cc_case_type : option string;
  cc_priority : option Z
}.

(** [data.priority || 3] *)
Definition priority_or_default (p : option Z) : Z :=
  match p with
  | Some n => if n =? 0 then 3 else n
  | None => 3
  end.

Definition case_number_taken (number : string) (w : World) : bool :=
  bool_decide (Exists (fun c => c_case_number c = number) (snd <$> map_to_list (cases w))).

(** [INSERT INTO cases (...) RETURNING *]: the columns not listed take
    their defaults; [case_number] is [UNIQUE]. *)
Definition insert_case (id : Uuid) (number : string) (client_id : Uuid)
    (lawyer_id : option Uuid) (title : string) (description : option string)
    (case_type : option string) (status : CaseStatus.t) (priority : Z) : IO Case :=
  fun w =>
    if case_number_taken number w then
      (Exn (DatabaseError "cases_case_number_key"), w)
    else
      let row := {| c_id := id; c_case_number := number;
                    c_client_id := client_id; c_lawyer_id := lawyer_id;
                    c_title := title; c_description := description;
                    c_status := status; c_priority := priority;
                    c_case_type := case_type; c_closed_at := None;
                    c_last_activity_at := now w; c_created_at := now w;
                    c_last_inactivity_notification := None |} in
      (Val row, with_cases (<[id := row]> (cases w)) w).

(** [transaction(callback)]: on a throw the tables are rolled back; the
    sequence, the UUID source and the log are not transactional. *)
Definition transaction {A} (callback : IO A) : IO A :=
  fun w =>
    match callback w with
    | (Val a, w') => (Val a, w')
    | (Exn e, w') =>
        (Exn e, with_applog (applog w')
                  (with_case_number_seq (case_number_seq w')
                     (with_next_uuid (next_uuid w') w)))
    end.

(** [caseRepository.createWithEvent(data, actorId)] *)
Definition caseRepository_createWithEvent (data : CreateCaseData)
    (actorId : option Uuid) : IO Case :=
  transaction
    (id <- uuid_generate_v4 ;;
     number <- generate_case_number ;;
     newCase <- insert_case id number (cc_client_id data) (cc_lawyer_id data)
                  (cc_title data) (cc_description data) (cc_case_type data)
                  CaseStatus.NEW (priority_or_default (cc_priority data)) ;;
     insert_case_event (c_id newCase) (Some CaseEventType.CASE_CREATED) actorId
       ("Case created: " ++ c_title newCase)
       [("case_number", c_case_number newCase); ("title", c_title newCase)] ;;;
     ret newCase).

Record UpdateCaseData : Type := {
  uc_lawyer_id : option Uuid;
  uc_title : option string;
  uc_description : option string;
  uc_status : option CaseStatus.t;
  uc_case_type : option string;
  uc_priority : option Z
}.

Definition no_fields (data : UpdateCaseData) : bool :=
  match uc_lawyer_id data, uc_title data, uc_description data,
        uc_status data, uc_case_type data, uc_priority data with
  | None, None, None, None, None, None => true
  | _, _, _, _, _, _ => false
  end.

Definition or_else {A} (o : option A) (d : A) : A :=
  match o with
  | Some a => a
  | None => d
  end.

(** The [SET] clause [caseRepository.update] assembles. *)
Definition apply_update (t : Timestamp) (data : UpdateCaseData) (c : Case) : Case :=
  {| c_id := c_id c; c_case_number := c_case_number c;
     c_client_id := c_client_id c;
     c_lawyer_id := match uc_lawyer_id data with
                    | Some l => Some l
                    | None => c_lawyer_id c
                    end;
     c_title := or_else (uc_title data) (c_title c);
     c_description := match uc_description data with
                      | Some d => Some d
                      | None => c_description c
                      end;
     c_status := or_else (uc_status data) (c_status c);
     c_priority := or_else (uc_priority data) (c_priority c);
     c_case_type := match uc_case_type data with
                    | Some d => Some d
                    | None => c_case_type c
                    end;
     c_closed_at := match uc_status data with
                    | Some CaseStatus.CLOSED | Some CaseStatus.ARCHIVED => Some t
                    | _ => c_closed_at c
                    end;
     c_last_activity_at := c_last_activity_at c;
     c_created_at := c_created_at c;
     c_last_inactivity_notification := c_last_inactivity_notification c |}.

(** [caseRepository.update(id, data)] *)
Definition caseRepository_update (id : Uuid) (data : UpdateCaseData) : IO (option Case) :=
  if no_fields data then caseRepository_findById id
  else fun w =>
    match cases w !! id with
    | Some c =>
        let c' := apply_update (now w) data c in
        (Val (Some c'), with_cases (<[id := c']> (cases w)) w)
    | None => (Val None, w)
    end.

Definition only_lawyer (lawyerId : Uuid) : UpdateCaseData :=
  {| uc_lawyer_id := Some lawyerId; uc_title := None; uc_description := None;
     uc_status := None; uc_case_type := None; uc_priority := None |}.

(** [caseRepository.assignLawyer(id, lawyerId)] *)
Definition caseRepository_assignLawyer (id lawyerId : Uuid) : IO (option Case) :=
  caseRepository_update id (only_lawyer lawyerId).

(** [messageRepository.create(data)], with the trigger
    [update_case_activity_on_message]. *)
Definition messageRepository_create (case_id sender_id : Uuid) (content : string) : IO Message :=
  id <- uuid_generate_v4 ;;
  fun w =>
    let row := {| m_id := id; m_case_id := case_id; m_sender_id := sender_id;
                  m_content := content; m_created_at := now w |} in
    (Val row, update_case_last_activity case_id (with_messages (messages w ++ [row]) w)).

(** [documentRepository.create(data)] *)
Definition documentRepository_create (case_id uploaded_by : Uuid)
    (original_filename : string) : IO Document :=
  id <- uuid_generate_v4 ;;
  fun w =>
    let row := {| d_id := id; d_case_id := case_id; d_uploaded_by := uploaded_by;
                  d_original_filename := original_filename; d_created_at := now w |} in
    (Val row, with_documents (documents w ++ [row]) w).

End Repo.

(** ** Services *)

Module Services.
Import Db Repo.

(** [promise.catch(err => logger.warn(..))] on a task that is not awaited.
    The task is run here to its end at the point of dispatch, one of the
    schedules the event loop allows: no code of the dispatching function
    that follows the dispatch reads what the task writes. *)
Definition detach_catch (task : IO unit) (warning : string) : IO unit :=
  fun w =>
    match task w with
    | (Val _, w') => (Val tt, w')
    | (Exn _, w') => logger (LogWarn warning) w'
    end.

Section WithEnvironment.

(** The mail transport, the random source and the API key of the
    process, as [Delivery.sendEmail] takes them. *)
Variable transport : EmailRequest -> nat -> Delivery.SendOutcome.
Variable random : nat -> Q.
Variable apiKey : option string.

(** The file store of [storageService]: the allowed types, the size
    limit in bytes, and whether writing a file to disk fails. *)
Variable isAllowedMimeType : string -> bool.
Variable maxSizeBytes : Z.
Variable writeFile_fails : Uuid -> string -> bool.

(** The notification flows of [caseService] and [documentService] whose
    routing no statement below depends on. *)
Variable sendCaseCreationNotifications :
  Uuid -> Uuid -> string -> string -> string -> option Uuid -> option string -> IO unit.
Variable notifyClientCaseStatusUpdate :
  Uuid -> CaseStatus.t -> string -> CaseStatus.t -> IO unit.
Variable notifyLawyerAssignment : Uuid -> string -> Uuid -> IO unit.
Variable sendDocumentUploadNotifications :
  Uuid -> string -> Uuid -> UserRole.t -> string -> IO unit.

(** The notifications [intakeService] sends after an intake. *)
Variable intakeNotifications : Uuid -> Uuid -> string -> option Uuid -> IO unit.

(** Failures of the database connection during a scheduled job: whether
    the statement named by the string fails for the item. *)
Variable fault : string -> Uuid -> bool.

(** One of the senders of [emailNotificationService]: the template is
    filled in and [sendEmail] is run on it. *)
Definition emailNotificationService_send (req : EmailRequest) : IO bool :=
  fun w =>
    let w' := with_outbox (outbox w ++ [req]) w in
    match Delivery.sendEmail (transport req) random apiKey Delivery.net0 with
    | (Val sent, _) => (Val sent, w')
    | (Exn err, _) => (Exn (MailError err), w')
    end.

(** *** notificationService *)

Record CreateNotificationInput : Type := {
  userId : Uuid;
  type : NotificationType.t;
  title : string;
  message : string;
  caseId : option Uuid
}.

(** [notificationService.create(input)] *)
Definition notificationService_create (input : CreateNotificationInput) : IO Notification :=
  id <- uuid_generate_v4 ;;
  w <- get ;;
  let row := {| n_id := id; n_user_id := userId input; n_type := type input;
                n_title := title input; n_message := message input;
                n_case_id := caseId input; n_is_read := false;
                n_created_at := now w; n_read_at := None |} in
  modify (fun w => with_notifications (<[id := row]> (notifications w)) w) ;;;
  logger (LogInfo ("Notification created: " ++ title input)) ;;;
  ret row.

Definition mark_read (t : Timestamp) (n : Notification) : Notification :=
  {| n_id := n_id n; n_user_id := n_user_id n; n_type := n_type n;
     n_title := n_title n; n_message := n_message n; n_case_id := n_case_id n;
     n_is_read := true; n_created_at := n_created_at n; n_read_at := Some t |}.

(** [notificationService.markAsRead(notificationId, userId)]:
    [UPDATE .. WHERE id = $1 AND user_id = $2 RETURNING *] *)
Definition notificationService_markAsRead (notificationId userId : Uuid)
    : IO (option Notification) :=
  fun w =>
    match notifications w !! notificationId with
    | Some n =>
        if N.eqb (n_user_id n) userId then
          let n' := mark_read (now w) n in
          (Val (Some n'), with_notifications (<[notificationId := n']> (notifications w)) w)
        else (Val None, w)
    | None => (Val None, w)
    end.

(** [notificationService.markAllAsRead(userId)]:
    [UPDATE .. WHERE user_id = $1 AND is_read = false].  The statement has
    no [RETURNING] clause, so [result] holds no rows and [result.length]
    is 0. *)
Definition notificationService_markAllAsRead (userId : Uuid) : IO nat :=
  fun w =>
    (Val 0%nat,
     with_notifications
       ((fun n => if N.eqb (n_user_id n) userId && negb (n_is_read n)
                  then mark_read (now w) n else n) <$> notifications w) w).

(** [notificationService.delete(notificationId, userId)]:
    [DELETE .. WHERE id = $1 AND user_id = $2 RETURNING id] *)
Definition notificationService_delete (notificationId userId : Uuid) : IO bool :=
  fun w =>
    match notifications w !! notificationId with
    | Some n =>
        if N.eqb (n_user_id n) userId then
          (Val true, with_notifications (delete notificationId (notifications w)) w)
        else (Val false, w)
    | None => (Val false, w)
    end.

(** The row of the join in [notifyNewMessage]: the case with its client
    and the client's user (inner joins), and the lawyer and the lawyer's
    user when there are such (left joins). *)
Record MessageCaseInfo : Type := {
  title_ : string;
  client_user_id : Uuid;
  client_email : string;
  client_first_name : string;
  client_last_name : string;
  lawyer_user_id : option Uuid;
  lawyer_email : option string;
  lawyer_first_name : option string;
  lawyer_last_name : option string
}.

Definition select_message_case_info (caseId : Uuid) (w : World) : option MessageCaseInfo :=
  match cases w !! caseId with
  | Some c =>
      match clients w !! c_client_id c with
      | Some cl =>
          match users w !! cl_user_id cl with
          | Some cu =>
              let l := match c_lawyer_id c with
                       | Some lid => lawyers w !! lid
                       | None => None
                       end in
              let lu := match l with
                        | Some l => users w !! l_user_id l
                        | None => None
                        end in
              Some {| title_ := c_title c;
                      client_user_id := cl_user_id cl;
                      client_email := u_email cu;
                      client_first_name := u_first_name cu;
                      client_last_name := u_last_name cu;
                      lawyer_user_id := l_user_id <$> l;
                      lawyer_email := u_email <$> lu;
                      lawyer_first_name := u_first_name <$> lu;
                      lawyer_last_name := u_last_name <$> lu |}
          | None => None
          end
      | None => None
      end
  | None => None
  end.

(** A template literal prints a missing column as [null]. *)
Definition or_null (o : option string) : string := or_else o "null".

(** [notificationService.notifyNewMessage(caseId, caseNumber, senderId,
    senderName, messageContent)] *)
Definition notifyNewMessage (caseId : Uuid) (caseNumber : string) (senderId : Uuid)
    (senderName messageContent : string) : IO unit :=
  w <- get ;;
  match select_message_case_info caseId w with
  | None => logger (LogWarn "Case not found for message notification")
  | Some caseInfo =>
      let isFromClient := N.eqb senderId (client_user_id caseInfo) in
      match isFromClient, lawyer_user_id caseInfo with
      | true, Some lawyerUserId =>
          notificationService_create
            {| userId := lawyerUserId;
               type := NotificationType.MESSAGE_RECEIVED;
               title := "New Message";
               message := senderName ++ " sent a message on case " ++ caseNumber ++ ".";
               caseId := Some caseId |} ;;;
          detach_catch
            (emailNotificationService_send
               {| em_to := or_null (lawyer_email caseInfo);
                  em_template := "newMessage";
                  em_case_id := Some caseId |} ;;; ret tt)
            "Failed to send message email to lawyer"
      | true, None => ret tt
      | false, _ =>
          notificationService_create
            {| userId := client_user_id caseInfo;
               type := NotificationType.MESSAGE_RECEIVED;
               title := "New Message";
               message := senderName ++ " sent a message on case " ++ caseNumber ++ ".";
               caseId := Some caseId |} ;;;
          detach_catch
            (emailNotificationService_send
               {| em_to := client_email caseInfo;
                  em_template := "newMessage";
                  em_case_id := Some caseId |} ;;; ret tt)
            "Failed to send message email to client"
      end
  end.

(** *** caseService *)

(** [caseService.checkCaseAccess]; [checkMessageAccess] and
    [checkDocumentAccess] run the same checks on the same two columns. *)
Definition checkCaseAccess (client_id : Uuid) (lawyer_id : option Uuid)
    (userId : Uuid) (userRole : UserRole.t) (denied : string) : IO unit :=
  match userRole with
  | UserRole.ADMIN => ret tt
  | UserRole.CLIENT =>
      client <- clientRepository_findByUserId userId ;;
      match client with
      | Some cl => if N.eqb (cl_id cl) client_id then ret tt
                   else throw (ForbiddenError denied)
      | None => throw (ForbiddenError denied)
      end
  | UserRole.LAWYER =>
      lawyer <- lawyerRepository_findByUserId userId ;;
      match lawyer, lawyer_id with
      | Some l, Some lid => if N.eqb (l_id l) lid then ret tt
                            else throw (ForbiddenError "You are not assigned to this case")
      | _, _ => throw (ForbiddenError "You are not assigned to this case")
      end
  end.

(** [caseService.createCase(data, actorId)] *)
Definition createCase (data : CreateCaseData) (actorId : option Uuid) : IO Case :=
  client <- clientRepository_findById (cc_client_id data) ;;
  match client with
  | None => throw (NotFoundError "Client not found")
  | Some client =>
      (match cc_lawyer_id data with
       | Some lawyer_id =>
           lawyer <- lawyerRepository_findById lawyer_id ;;
           match lawyer with
           | None => throw (NotFoundError "Lawyer not found")
           | Some _ => ret tt
           end
       | None => ret tt
       end) ;;;
      newCase <- caseRepository_createWithEvent data actorId ;;
      logger (LogInfo ("Case created: " ++ c_case_number newCase)) ;;;
      lawyerName <-
        (match cc_lawyer_id data with
         | Some lawyer_id =>
             lawyer <- lawyerRepository_findById lawyer_id ;;
             match lawyer with
             | Some lawyer =>
                 lawyerUser <- userRepository_findById (l_user_id lawyer) ;;
                 match lawyerUser with
                 | Some u => ret (Some (u_first_name u ++ " " ++ u_last_name u))
                 | None => ret None
                 end
             | None => ret None
             end
         | None => ret None
         end) ;;
      detach_catch
        (sendCaseCreationNotifications (cl_user_id client) (c_id newCase)
           (c_case_number newCase)
           (match c_title newCase with
            | EmptyString => "New Case"
            | t => t
            end)
           (match cc_case_type data with
            | Some (String a b) => String a b
            | _ => "other"
            end)
           (cc_lawyer_id data) lawyerName)
        "Failed to send case creation notifications" ;;;
      ret newCase
  end.

Definition status_value (st : CaseStatus.t) : string :=
  match st with
  | CaseStatus.NEW => "new"
  | CaseStatus.IN_REVIEW => "in_review"
  | CaseStatus.ACTIVE => "active"
  | CaseStatus.PENDING_CLIENT => "pending_client"
  | CaseStatus.PENDING_DOCUMENTS => "pending_documents"
  | CaseStatus.IN_PROGRESS => "in_progress"
  | CaseStatus.AWAITING_RESPONSE => "awaiting_response"
  | CaseStatus.RESOLVED => "resolved"
  | CaseStatus.CLOSED => "closed"
  | CaseStatus.ARCHIVED => "archived"
  end.

(** [caseService.updateCase(caseId, data, userId, userRole)] *)
Definition updateCase (caseId : Uuid) (data : UpdateCaseData) (userId : Uuid)
    (userRole : UserRole.t) : IO Case :=
  caseRecord <- caseRepository_findById caseId ;;
  match caseRecord with
  | None => throw (NotFoundError "Case not found")
  | Some caseRecord =>
      (match userRole with
       | UserRole.CLIENT => throw (ForbiddenError "Clients cannot update cases directly")
       | _ => ret tt
       end) ;;;
      checkCaseAccess (c_client_id caseRecord) (c_lawyer_id caseRecord) userId userRole
        "You do not have access to this case" ;;;
      updatedCase <- caseRepository_update caseId data ;;
      match updatedCase with
      | None => throw (NotFoundError "Case not found")
      | Some updatedCase =>
          (match uc_status data with
           | Some status =>
               if bool_decide (status = c_status caseRecord) then ret tt
               else
                 caseEventRepository_create caseId (Some CaseEventType.STATUS_CHANGED)
                   (Some userId)
                   ("Status changed from " ++ status_value (c_status caseRecord)
                    ++ " to " ++ status_value status)
                   [("old_status", status_value (c_status caseRecord));
                    ("new_status", status_value status)] ;;;
                 detach_catch
                   (notifyClientCaseStatusUpdate caseId status
                      (c_case_number caseRecord) (c_status caseRecord))
                   "Failed to notify client about status change"
           | None => ret tt
           end) ;;;
          logger (LogInfo ("Case updated: " ++ c_case_number caseRecord)) ;;;
          ret updatedCase
      end
  end.

(** [caseService.assignLawyer(caseId, lawyerId, assignedBy)] *)
Definition assignLawyer (caseId lawyerId assignedBy : Uuid) : IO Case :=
  caseRecord <- caseRepository_findById caseId ;;
  match caseRecord with
  | None => throw (NotFoundError "Case not found")
  | Some caseRecord =>
      lawyer <- lawyerRepository_findById lawyerId ;;
      match lawyer with
      | None => throw (NotFoundError "Lawyer not found")
      | Some _ =>
          updatedCase <- caseRepository_assignLawyer caseId lawyerId ;;
          match updatedCase with
          | None => throw (NotFoundError "Case not found")
          | Some updatedCase =>
              caseEventRepository_create caseId (Some CaseEventType.LAWYER_ASSIGNED)
                (Some assignedBy) "Lawyer assigned to case"
                [("lawyer_id", Text.string_of_N lawyerId)] ;;;
              logger (LogInfo ("Lawyer assigned to case " ++ c_case_number caseRecord)) ;;;
              detach_catch
                (notifyLawyerAssignment caseId (c_case_number caseRecord) lawyerId)
                "Failed to send lawyer assignment notifications" ;;;
              ret updatedCase
          end
      end
  end.

(** *** messageService *)

(** [messageService.sendMessageNotification] *)
Definition sendMessageNotification (caseId : Uuid) (caseNumber : string)
    (senderId : Uuid) (messageContent : string) : IO unit :=
  sender <- userRepository_findById senderId ;;
  let senderName := match sender with
                    | Some u => u_first_name u ++ " " ++ u_last_name u
                    | None => "Someone"
                    end in
  notifyNewMessage caseId caseNumber senderId senderName
    (match messageContent with
     | EmptyString => "New message received"
     | m => m
     end).

Record MessageWithSender : Type := {
  msg : Message;
  sender_first_name : string;
  sender_last_name : string;
  sender_role : UserRole.t
}.

(** [messageService.sendMessage(caseId, senderId, senderRole, content)] *)
Definition sendMessage (caseId senderId : Uuid) (senderRole : UserRole.t)
    (content : string) : IO MessageWithSender :=
  match Text.trim content with
  | EmptyString => throw (BadRequestError "Message content cannot be empty")
  | String _ _ =>
      caseRecord <- caseRepository_findById caseId ;;
      match caseRecord with
      | None => throw (NotFoundError "Case not found")
      | Some caseRecord =>
          checkCaseAccess (c_client_id caseRecord) (c_lawyer_id caseRecord)
            senderId senderRole "You do not have access to this case" ;;;
          message <- messageRepository_create caseId senderId (Text.trim content) ;;
          caseEventRepository_create caseId (Some CaseEventType.MESSAGE_SENT)
            (Some senderId) "Message sent"
            [("message_id", Text.string_of_N (m_id message))] ;;;
          sender <- userRepository_findById senderId ;;
          let messageWithSender :=
            {| msg := message;
               sender_first_name := match sender with
                                    | Some u => match u_first_name u with
                                                | EmptyString => "Unknown"
                                                | n => n
                                                end
                                    | None => "Unknown"
                                    end;
               sender_last_name := match sender with
                                   | Some u => match u_last_name u with
                                               | EmptyString => "User"
                                               | n => n
                                               end
                                   | None => "User"
                                   end;
               sender_role := match sender with
                              | Some u => u_role u
                              | None => UserRole.CLIENT
                              end |} in
          logger (LogInfo ("Message sent in case " ++ c_case_number caseRecord)) ;;;
          detach_catch
            (sendMessageNotification caseId (c_case_number caseRecord) senderId
               (Text.trim content))
            "Failed to send message notification" ;;;
          ret messageWithSender
      end
  end.

(** *** documentService *)

Record UploadedFile : Type := {
  originalname : string;
  mimetype : string;
  size : Z
}.

(** [storageService.saveFile(caseId, file)]; the result is the original
    name of the stored file. *)
Definition saveFile (caseId : Uuid) (file : UploadedFile) : IO string :=
  if maxSizeBytes <? size file then
    throw (StorageError "File size exceeds maximum allowed")
  else if writeFile_fails caseId (originalname file) then
    throw (StorageError "writeFile")
  else ret (originalname file).

(** [documentService.uploadDocument(caseId, file, uploaderId, userRole)] *)
Definition uploadDocument (caseId : Uuid) (file : UploadedFile) (uploaderId : Uuid)
    (userRole : UserRole.t) : IO Document :=
  caseRecord <- caseRepository_findById caseId ;;
  match caseRecord with
  | None => throw (NotFoundError "Case not found")
  | Some caseRecord =>
      checkCaseAccess (c_client_id caseRecord) (c_lawyer_id caseRecord)
        uploaderId userRole "You do not have access to these documents" ;;;
      if negb (isAllowedMimeType (mimetype file)) then
        throw (BadRequestError "File type is not allowed")
      else
        originalFilename <- saveFile caseId file ;;
        document <- documentRepository_create caseId uploaderId originalFilename ;;
        caseEventRepository_create caseId (Some CaseEventType.DOCUMENT_UPLOADED)
          (Some uploaderId) ("Document uploaded: " ++ originalFilename)
          [("document_id", Text.string_of_N (d_id document));
           ("filename", originalFilename)] ;;;
        logger (LogInfo ("Document uploaded to case " ++ c_case_number caseRecord)) ;;;
        detach_catch
          (sendDocumentUploadNotifications caseId (c_case_number caseRecord)
             uploaderId userRole originalFilename)
          "Failed to send document upload notifications" ;;;
        ret document
  end.

(** *** intakeService *)

(** [intakeService.getCaseTypePrefix(caseType)] *)
Definition getCaseTypePrefix (caseType : CaseType.t) : string :=
  match caseType with
  | CaseType.PERSONAL_INJURY => "PI"
  | CaseType.FAMILY_LAW => "FL"
  | CaseType.CRIMINAL_DEFENSE => "CD"
  | CaseType.ESTATE_PLANNING => "EP"
  | CaseType.BUSINESS_LAW => "BL"
  | CaseType.REAL_ESTATE => "RE"
  | CaseType.IMMIGRATION => "IM"
  | CaseType.BANKRUPTCY => "BK"
  | CaseType.EMPLOYMENT => "EM"
  | CaseType.OTHER => "OT"
  end.

(** [ORDER BY created_at DESC LIMIT 1]: a row no other row is later than. *)
Definition later (a b : Case) : Case :=
  if c_created_at a <? c_created_at b then b else a.

Definition latest (rows : list Case) : option Case :=
  match rows with
  | [] => None
  | c :: rest => Some (fold_left later rest c)
  end.

(** [SELECT case_number FROM cases WHERE case_number LIKE $1 ORDER BY
    created_at DESC LIMIT 1], for a pattern [prefix%] whose prefix holds
    no wildcard. *)
Definition select_last_case_number (prefix : string) (w : World) : option string :=
  c_case_number <$>
    latest (filter (fun c => String.prefix prefix (c_case_number c) = true)
              (snd <$> map_to_list (cases w))).

Definition next_sequence (last : option string) : Text.JsNumber :=
  match last with
  | Some lastNumber =>
      let lastSequence := Text.parseInt10 (Text.split_on "-" lastNumber !! 2%nat) in
      Text.js_add lastSequence 1
  | None => Text.Int 1
  end.

(** [intakeService.generateCaseNumber(caseType, client)] *)
Definition generateCaseNumber (caseType : CaseType.t) : IO string :=
  w <- get ;;
  let year := Text.string_of_N (Db.year w) in
  let typePrefix := getCaseTypePrefix caseType in
  let sequence :=
    next_sequence (select_last_case_number (year ++ "-" ++ typePrefix ++ "-") w) in
  ret (year ++ "-" ++ typePrefix ++ "-"
       ++ Text.padStart 4 "0" (Text.js_toString sequence)).

Record IntakeFormData : Type := {
  email : string;
  firstName : string;
  lastName : string;
  caseType : CaseType.t;
  description : string;
  lawyerId : option Uuid;
  files : list UploadedFile
}.

Record IntakeResult : Type := {
  r_clientId : Uuid;
  r_userId : Uuid;
  r_caseId : Uuid;
  r_caseNumber : string;
  documentsUploaded : nat
}.

(** [caseType.replace(/_/g, ' ')] *)
Fixpoint underscores_to_spaces (s : string) : string :=
  match s with
  | EmptyString => EmptyString
  | String c s' =>
      String (if (nat_of_ascii c =? 95)%nat then " "%char else c)
        (underscores_to_spaces s')
  end.

(** [a.toLowerCase()] on the letters A to Z. *)
Fixpoint toLowerCase (s : string) : string :=
  match s with
  | EmptyString => EmptyString
  | String c s' =>
      let n := nat_of_ascii c in
      String (if ((65 <=? n) && (n <=? 90))%nat then ascii_of_nat (n + 32) else c)
        (toLowerCase s')
  end.

(** [userRepository.findByEmail(email)] *)
Definition userRepository_findByEmail (email : string) : IO (option User) :=
  fun w => (Val (select_where (fun u => (u_email u =? toLowerCase email)%string) (users w)), w).

(** The loop over [data.files]: a failed upload is logged and skipped. *)
Fixpoint upload_files (caseId userId : Uuid) (files : list UploadedFile)
    (documentsUploaded : nat) : IO nat :=
  match files with
  | [] => ret documentsUploaded
  | file :: rest =>
      uploaded <- try_catch
                    (uploadDocument caseId file userId UserRole.CLIENT ;;; ret true)
                    (fun _ => logger (LogWarn "Failed to upload document") ;;; ret false) ;;
      upload_files caseId userId rest
        (if uploaded then S documentsUploaded else documentsUploaded)
  end.

(** [intakeService.processIntakeForm(data)] *)
Definition processIntakeForm (data : IntakeFormData) : IO IntakeResult :=
  existingUser <- userRepository_findByEmail (email data) ;;
  match existingUser with
  | Some _ => throw (BadRequestError "An account with this email already exists")
  | None =>
      result <- transaction
        (userId <- uuid_generate_v4 ;;
         modify (fun w => with_users
                   (<[userId := {| u_id := userId; u_email := email data;
                                   u_role := UserRole.CLIENT;
                                   u_first_name := firstName data;
                                   u_last_name := lastName data;
                                   u_is_active := true |}]> (users w)) w) ;;;
         clientId <- uuid_generate_v4 ;;
         modify (fun w => with_clients
                   (<[clientId := {| cl_id := clientId; cl_user_id := userId |}]>
                      (clients w)) w) ;;;
         caseNumber <- generateCaseNumber (caseType data) ;;
         caseId <- uuid_generate_v4 ;;
         insert_case caseId caseNumber clientId (lawyerId data)
           (underscores_to_spaces (CaseType.value (caseType data)) ++ " - "
            ++ firstName data ++ " " ++ lastName data)
           (Some (description data)) (Some (CaseType.value (caseType data)))
           CaseStatus.NEW 3 ;;;
         insert_case_event caseId (Some CaseEventType.CASE_CREATED) (Some userId)
           "Case created via intake form"
           [("source", "intake_form");
            ("client_name", firstName data ++ " " ++ lastName data)] ;;;
         ret (clientId, userId, caseId, caseNumber)) ;;
      let '(clientId, userId, caseId, caseNumber) := result in
      uploaded <- upload_files caseId userId (files data) 0 ;;
      logger (LogInfo ("Intake form processed: Case " ++ caseNumber)) ;;;
      detach_catch (intakeNotifications userId caseId caseNumber (lawyerId data))
        "Error sending intake notifications" ;;;
      ret {| r_clientId := clientId; r_userId := userId; r_caseId := caseId;
             r_caseNumber := caseNumber; documentsUploaded := uploaded |}
  end.

(** *** Scheduled jobs *)

(** A statement that fails when the connection does. *)
Definition faulty {A} (stmt : string) (item : Uuid) (m : IO A) : IO A :=
  fun w => if fault stmt item then (Exn (DatabaseError stmt), w) else m w.

(** A timestamp as a JavaScript [Date] holds it, in milliseconds. *)
Definition getTime (t : Timestamp) : Z := t / 1000.

Record InactiveCase : Type := {
  ic_id : Uuid;
  ic_case_number : string;
  ic_title : string;
  ic_status : CaseStatus.t;
  ic_last_activity_at : Timestamp;
  ic_last_inactivity_notification : option Timestamp;
  ic_client_user_id : Uuid;
  ic_client_email : string;
  ic_client_first_name : string;
  ic_client_last_name : string;
  ic_lawyer_name : string
}.

(** [config.business.inactivityDaysThreshold || fallback] *)
Definition inactivityDaysThreshold_or (configured : option Z) (fallback : Z) : Z :=
  match configured with
  | Some d => if d =? 0 then fallback else d
  | None => fallback
  end.

(** The [WHERE] clause of [getInactiveCasesForNotification]. *)
Definition needs_notification (daysThreshold : Z) (t : Timestamp) (c : Case) : bool :=
  negb (bool_decide (c_status c = CaseStatus.CLOSED)
        || bool_decide (c_status c = CaseStatus.ARCHIVED)
        || bool_decide (c_status c = CaseStatus.RESOLVED))
  && (c_last_activity_at c <? t - day * daysThreshold)
  && match c_last_inactivity_notification c with
     | None => true
     | Some last => last <? t - 7 * day
     end.

(** The joins of the query: the client and its user must exist, the
    lawyer and its user may; [CONCAT] skips the missing names. *)
Definition inactive_row (w : World) (c : Case) : option InactiveCase :=
  match clients w !! c_client_id c with
  | Some cl =>
      match users w !! cl_user_id cl with
      | Some u =>
          let lu := match c_lawyer_id c with
                    | Some lid =>
                        match lawyers w !! lid with
                        | Some l => users w !! l_user_id l
                        | None => None
                        end
                    | None => None
                    end in
          Some {| ic_id := c_id c; ic_case_number := c_case_number c;
                  ic_title := c_title c; ic_status := c_status c;
                  ic_last_activity_at := c_last_activity_at c;
                  ic_last_inactivity_notification := c_last_inactivity_notification c;
                  ic_client_user_id := cl_user_id cl; ic_client_email := u_email u;
                  ic_client_first_name := u_first_name u;
                  ic_client_last_name := u_last_name u;
                  ic_lawyer_name := or_else (u_first_name <$> lu) "" ++ " "
                                    ++ or_else (u_last_name <$> lu) "" |}
      | None => None
      end
  | None => None
  end.

(** [ORDER BY c.last_activity_at ASC] *)
Definition by_last_activity (a b : Case) : Prop :=
  c_last_activity_at a <= c_last_activity_at b.

#[global] Instance by_last_activity_dec : RelDecision by_last_activity.
Proof. intros a b. unfold by_last_activity. apply _. Defined.

(** The rows of the query of [getInactiveCasesForNotification]. *)
Definition select_inactive_cases (daysThreshold : Z) (w : World) : list InactiveCase :=
  omap (inactive_row w)
    (merge_sort by_last_activity
       (filter (fun c => needs_notification daysThreshold (now w) c = true)
          (snd <$> map_to_list (cases w)))).

(** [inactivityCheckJob.getInactiveCasesForNotification(daysThreshold)] *)
Definition getInactiveCasesForNotification (daysThreshold : Z) : IO (list InactiveCase) :=
  fun w => (Val (select_inactive_cases daysThreshold w), w).

Definition daysSinceActivity (w : World) (last_activity_at : Timestamp) : Z :=
  (getTime (now w) - getTime last_activity_at) / (24 * 60 * 60 * 1000).

(** [inactivityCheckJob.sendInactivityNotification(caseRecord, daysThreshold)] *)
Definition sendInactivityNotification (caseRecord : InactiveCase) : IO unit :=
  faulty "INSERT INTO notifications" (ic_id caseRecord)
    (notificationService_create
       {| userId := ic_client_user_id caseRecord;
          type := NotificationType.SYSTEM_ALERT;
          title := "Case Update Needed";
          message := "Your case " ++ ic_case_number caseRecord ++ " has had no activity";
          caseId := Some (ic_id caseRecord) |}) ;;;
  emailNotificationService_send
    {| em_to := ic_client_email caseRecord;
       em_template := "inactivityReminder";
       em_case_id := Some (ic_id caseRecord) |} ;;;
  ret tt.

Definition stamp (t : Timestamp) (c : Case) : Case :=
  {| c_id := c_id c; c_case_number := c_case_number c;
     c_client_id := c_client_id c; c_lawyer_id := c_lawyer_id c;
     c_title := c_title c; c_description := c_description c;
     c_status := c_status c; c_priority := c_priority c;
     c_case_type := c_case_type c; c_closed_at := c_closed_at c;
     c_last_activity_at := c_last_activity_at c; c_created_at := c_created_at c;
     c_last_inactivity_notification := Some t |}.

(** [inactivityCheckJob.updateNotificationTimestamp(caseId)] *)
Definition updateNotificationTimestamp (caseId : Uuid) : IO unit :=
  faulty "UPDATE cases" caseId
    (modify (fun w => with_cases (alter (stamp (now w)) caseId (cases w)) w)).

(** [inactivityCheckJob.logInactivityEvent(caseRecord)] *)
Definition logInactivityEvent (caseRecord : InactiveCase) : IO unit :=
  faulty "INSERT INTO case_events" (ic_id caseRecord)
    (caseEventRepository_create (ic_id caseRecord) CaseEventType.DEADLINE_REMINDER None
       "Inactivity reminder sent to client"
       [("notification_type", "inactivity_reminder");
        ("client_email", ic_client_email caseRecord)]) ;;;
  ret tt.

(** The body of the [try] block for one case. *)
Definition process_inactive_case (caseRecord : InactiveCase) : IO unit :=
  sendInactivityNotification caseRecord ;;;
  updateNotificationTimestamp (ic_id caseRecord) ;;;
  logInactivityEvent caseRecord.

(** The [try] block of [inactivityCheckJob.run] and its [catch]. *)
Definition inactivity_try (caseRecord : InactiveCase) : IO bool :=
  process_inactive_case caseRecord ;;;
  logger (LogInfo ("Inactivity notification sent for case "
                   ++ ic_case_number caseRecord)) ;;;
  ret true.

Definition inactivity_catch (caseRecord : InactiveCase) : LogLine :=
  LogError ("Failed to send inactivity notification for case "
            ++ ic_case_number caseRecord).

(** The [for] loop of [inactivityCheckJob.run] with its two counters. *)
Fixpoint inactivity_loop (inactiveCases : list InactiveCase)
    (successCount failCount : nat) : IO (nat * nat) :=
  match inactiveCases with
  | [] => ret (successCount, failCount)
  | caseRecord :: rest =>
      ok <- try_catch (inactivity_try caseRecord)
              (fun _ => logger (inactivity_catch caseRecord) ;;; ret false) ;;
      if ok then inactivity_loop rest (S successCount) failCount
      else inactivity_loop rest successCount (S failCount)
  end.

Definition show_nat (n : nat) : string := Text.string_of_N (N.of_nat n).

(** [inactivityCheckJob.run()]; [configured] is
    [config.business.inactivityDaysThreshold]. *)
Definition inactivityCheckJob_run (configured : option Z) : IO unit :=
  let daysThreshold := inactivityDaysThreshold_or configured 21 in
  logger (LogInfo "Starting inactivity check job") ;;;
  inactiveCases <- getInactiveCasesForNotification daysThreshold ;;
  logger (LogInfo ("Found " ++ show_nat (List.length inactiveCases)
                   ++ " inactive cases needing notification")) ;;;
  counts <- inactivity_loop inactiveCases 0 0 ;;
  logger (LogInfo ("Inactivity check completed: " ++ show_nat (fst counts)
                   ++ " notifications sent, " ++ show_nat (snd counts) ++ " failed")).

Record ActiveLawyer : Type := {
  al_id : Uuid;
  al_user_id : Uuid;
  al_email : string;
  al_first_name : string;
  al_last_name : string
}.

(** [ORDER BY u.last_name, u.first_name], in the order of the code units. *)
Definition by_name (a b : ActiveLawyer) : Prop :=
  (if (al_last_name a =? al_last_name b)%string
   then String.leb (al_first_name a) (al_first_name b)
   else String.ltb (al_last_name a) (al_last_name b)) = true.

#[global] Instance by_name_dec : RelDecision by_name.
Proof. intros a b. unfold by_name. apply _. Defined.

Definition active_lawyer_row (w : World) (l : Lawyer) : option ActiveLawyer :=
  match users w !! l_user_id l with
  | Some u =>
      if u_is_active u && l_is_available l
      then Some {| al_id := l_id l; al_user_id := l_user_id l; al_email := u_email u;
                   al_first_name := u_first_name u; al_last_name := u_last_name u |}
      else None
  | None => None
  end.

(** The rows of the query of [getActiveLawyers]. *)
Definition select_active_lawyers (w : World) : list ActiveLawyer :=
  merge_sort by_name (omap (active_lawyer_row w) (snd <$> map_to_list (lawyers w))).

(** [weeklySummaryJob.getActiveLawyers()] *)
Definition getActiveLawyers : IO (list ActiveLawyer) :=
  fun w => (Val (select_active_lawyers w), w).

Record LawyerSummary : Type := {
  s_lawyerId : Uuid;
  s_email : string;
  totalCases : nat;
  activeCases : nat;
  newCasesThisWeek : nat;
  closedCasesThisWeek : nat;
  casesNeedingAttention : nat
}.

Definition count_if {A} (p : A -> bool) (l : list A) : nat :=
  List.length (List.filter p l).

(** [activeStatuses.includes(c.status)]: of the four entries of the
    array, [PENDING_REVIEW] and [ON_HOLD] are not members of the enum. *)
Definition isActive (c : Case) : bool :=
  bool_decide (c_status c = CaseStatus.NEW)
  || bool_decide (c_status c = CaseStatus.IN_PROGRESS).

(** The rows of the query of [getLawyerSummary]: the cases of the lawyer
    whose client and client user exist. *)
Definition lawyer_cases (lawyerId : Uuid) (w : World) : list Case :=
  filter (fun c => c_lawyer_id c = Some lawyerId /\ is_Some (inactive_row w c))
    (snd <$> map_to_list (cases w)).

(** [weeklySummaryJob.getLawyerSummary(lawyerId, userId, email, ..)] *)
Definition getLawyerSummary (lawyer : ActiveLawyer) : IO LawyerSummary :=
  faulty "SELECT cases of lawyer" (al_id lawyer)
    (fun w =>
       let rows := lawyer_cases (al_id lawyer) w in
       let oneWeekAgo := getTime (now w) - 7 * 24 * 60 * 60 * 1000 in
       (Val {| s_lawyerId := al_id lawyer;
               s_email := al_email lawyer;
               totalCases := List.length rows;
               activeCases := count_if isActive rows;
               newCasesThisWeek :=
                 count_if (fun c => oneWeekAgo <=? getTime (c_created_at c)) rows;
               closedCasesThisWeek :=
                 count_if (fun c => match c_closed_at c with
                                    | Some t => oneWeekAgo <=? getTime t
                                    | None => false
                                    end) rows;
               casesNeedingAttention :=
                 count_if (fun c => isActive c
                                    && (7 <? daysSinceActivity w (c_last_activity_at c)))
                   rows |}, w)).

(** [weeklySummaryJob.sendSummaryEmail(summary)]; the body of the mail is
    not part of the model. *)
Definition sendSummaryEmail (summary : LawyerSummary) : IO unit :=
  emailNotificationService_send
    {| em_to := s_email summary; em_template := "weeklySummary"; em_case_id := None |} ;;;
  ret tt.

(** What the [try] block did for one lawyer. *)
Inductive ItemResult : Type :=
| Sent
| Skipped
| Failed.

(** The [try] block of [weeklySummaryJob.run] and its [catch]. *)
Definition weekly_try (lawyer : ActiveLawyer) : IO ItemResult :=
  summary <- getLawyerSummary lawyer ;;
  if (totalCases summary =? 0)%nat then
    logger (LogInfo ("Skipping " ++ al_email lawyer ++ " - no assigned cases")) ;;;
    ret Skipped
  else
    sendSummaryEmail summary ;;;
    logger (LogInfo ("Weekly summary sent to " ++ al_email lawyer)) ;;;
    ret Sent.

Definition weekly_catch (lawyer : ActiveLawyer) : LogLine :=
  LogError ("Failed to send weekly summary to " ++ al_email lawyer).

(** The [for] loop of [weeklySummaryJob.run] with its two counters. *)
Fixpoint weekly_loop (lawyers : list ActiveLawyer) (successCount failCount : nat)
    : IO (nat * nat) :=
  match lawyers with
  | [] => ret (successCount, failCount)
  | lawyer :: rest =>
      r <- try_catch (weekly_try lawyer)
             (fun _ => logger (weekly_catch lawyer) ;;; ret Failed) ;;
      match r with
      | Sent => weekly_loop rest (S successCount) failCount
      | Skipped => weekly_loop rest successCount failCount
      | Failed => weekly_loop rest successCount (S failCount)
      end
  end.

(** [weeklySummaryJob.run()] *)
Definition weeklySummaryJob_run : IO unit :=
  logger (LogInfo "Starting weekly summary job") ;;;
  lawyers <- getActiveLawyers ;;
  logger (LogInfo ("Found " ++ show_nat (List.length lawyers) ++ " active lawyers")) ;;;
  counts <- weekly_loop lawyers 0 0 ;;
  logger (LogInfo ("Weekly summary job completed: " ++ show_nat (fst counts)
                   ++ " sent, " ++ show_nat (snd counts) ++ " failed")).

End WithEnvironment.
End Services.

(** ** Templates as the specification describes them

    Text with named placeholders [{{variable}}] and conditional blocks
    [{{#if var}}...{{/if}}]. *)

Module Markup.
Import Template.

Inductive Piece : Type :=
| Text (t : string)
| Var (name : string).

Inductive Segment : Type :=
| Plain (p : Piece)
| If (name : string) (body : list Piece).

(** The template string of a piece, a block and a template. *)
Definition piece_text (p : Piece) : string :=
  match p with
  | Text t => t
  | Var name => placeholder name
  end.

Fixpoint pieces_text (ps : list Piece) : string :=
  match ps with
  | [] => EmptyString
  | p :: rest => piece_text p ++ pieces_text rest
  end.

Definition segment_text (s : Segment) : string :=
  match s with
  | Plain p => piece_text p
  | If name body => "{{#if " ++ name ++ "}}" ++ pieces_text body ++ "{{/if}}"
  end.

Fixpoint template_text (segs : list Segment) : string :=
  match segs with
  | [] => EmptyString
  | s :: rest => segment_text s ++ template_text rest
  end.

(** What rendering makes of them: a placeholder becomes the value of its
    variable and stays as it is when the variable is missing; a block
    becomes its rendered body or nothing. *)
Definition render_piece (variables : Variables) (p : Piece) : string :=
  match p with
  | Text t => t
  | Var name =>
      match own_property variables name with
      | Some value => value
      | None => placeholder name
      end
  end.

Fixpoint render_pieces (variables : Variables) (ps : list Piece) : string :=
  match ps with
  | [] => EmptyString
  | p :: rest => render_piece variables p ++ render_pieces variables rest
  end.

(** The condition of a block is looked up in [truth]; rendering passes
    the variables themselves. *)
Definition render_segment (truth variables : Variables) (s : Segment) : string :=
  match s with
  | Plain p => render_piece variables p
  | If name body =>
      if truthy_variable truth name then render_pieces variables body
      else EmptyString
  end.

Fixpoint render_with (truth variables : Variables) (segs : list Segment) : string :=
  match segs with
  | [] => EmptyString
  | s :: rest => render_segment truth variables s ++ render_with truth variables rest
  end.

Definition render (variables : Variables) (segs : list Segment) : string :=
  render_with variables variables segs.

(** Text holds no opening brace, names are words, and values hold
    neither an opening brace nor a dollar. *)
Definition no_brace (c : ascii) : bool := negb (code_of c =? 123)%nat.

Definition plain_char (c : ascii) : bool := no_brace c && negb (code_of c =? 36)%nat.

Definition is_name (name : string) : bool :=
  match name with
  | EmptyString => false
  | String _ _ => all_chars is_word_char name
  end.

Definition piece_ok (p : Piece) : bool :=
  match p with
  | Text t => all_chars no_brace t
  | Var name => is_name name
  end.

Definition segment_ok (s : Segment) : bool :=
  match s with
  | Plain p => piece_ok p
  | If name body => is_name name && forallb piece_ok body
  end.

Definition well_formed (segs : list Segment) : bool := forallb segment_ok segs.

Definition plain_variables (variables : Variables) : bool :=
  forallb (fun entry => is_name (fst entry) && all_chars plain_char (snd entry)) variables.

(** The pieces after the entry [(key, value)] of the loop. *)
Definition fill_piece (key value : string) (p : Piece) : Piece :=
  match p with
  | Text t => Text t
  | Var name => if (name =? key)%string then Text value else Var name
  end.

Definition fill_segment (key value : string) (s : Segment) : Segment :=
  match s with
  | Plain p => Plain (fill_piece key value p)
  | If name body => If name (fill_piece key value <$> body)
  end.

(** No match of [pat] starts inside [a], whatever follows [a]. *)
Fixpoint never_starts (pat a : string) : Prop :=
  match a with
  | EmptyString => True
  | String c a' =>
      (forall rest, strip_prefix pat (String c (a' ++ rest)) = None)
      /\ never_starts pat a'
  end.

End Markup.

(** ** Statements read off the specification

    Each of these follows the words of the specification; it is compared
    below with what the functions above do. *)

Module Stated.
Import Delivery.

(** The error of a failed send, returned or thrown. *)
Definition failure_of (o : SendOutcome) : option ErrorObj :=
  match o with
  | SendOk => None
  | SendError e => Some e
  | SendThrows e => Some e
  end.

Definition is_ok (o : SendOutcome) : bool :=
  match o with
  | SendOk => true
  | _ => false
  end.

(** Whether the loop goes on to another attempt after the outcome [o] of
    attempt number [attempt]. *)
Definition retried (attempt : nat) (o : SendOutcome) : bool :=
  match o with
  | SendOk => false
  | SendError e => isRetryableError e && negb (attempt =? maxRetries RETRY_CONFIG)%nat
  | SendThrows _ => negb (attempt =? maxRetries RETRY_CONFIG)%nat
  end.

(** The delays a run adds: one for each of the attempts [a, a+1, ..]
    that was followed by another. *)
Definition backoffs (random : nat -> Q) (a m : nat) : list Q :=
  List.map (fun k => getRetryDelay (random k) k) (seq a m).

(** After [notifyNewMessage] on [w]: one new in-app notification of type
    [MESSAGE_RECEIVED] for [user] about the case, and one mail of the
    template [newMessage] handed to the sender for [mail_to]. *)
Definition message_notified (w w' : Db.World) (user caseId : Db.Uuid)
    (mail_to : string) : Prop :=
  exists row,
    Db.notifications w' = <[Db.next_uuid w := row]> (Db.notifications w)
    /\ Db.n_id row = Db.next_uuid w
    /\ Db.n_user_id row = user
    /\ Db.n_type row = NotificationType.MESSAGE_RECEIVED
    /\ Db.n_case_id row = Some caseId
    /\ Db.n_is_read row = false
    /\ Db.outbox w' = (Db.outbox w
                       ++ [{| Db.em_to := mail_to; Db.em_template := "newMessage";
                              Db.em_case_id := Some caseId |}])%list.

(** No case was active later than the clock shows. *)
Definition clock_ok (w : Db.World) : Prop :=
  forall id c, Db.cases w !! id = Some c -> Db.c_last_activity_at c <= Db.now w.

(** From [w] to [w']: no case lost activity time, and every event added
    to the log is not younger than the last activity of its case. *)
Definition activity_advanced (w w' : Db.World) : Prop :=
  (forall id c, Db.cases w !! id = Some c ->
     exists c', Db.cases w' !! id = Some c'
                /\ Db.c_last_activity_at c <= Db.c_last_activity_at c')
  /\ exists evs,
       Db.case_events w' = (Db.case_events w ++ evs)%list
       /\ forall ev, ev ∈ evs ->
            exists c', Db.cases w' !! Db.e_case_id ev = Some c'
                       /\ Db.e_created_at ev <= Db.c_last_activity_at c'.

(** The case [id] was last active at the time [t]. *)
Definition active_at (t : Db.Timestamp) (id : Db.Uuid) (w : Db.World) : Prop :=
  exists c, Db.cases w !! id = Some c /\ Db.c_last_activity_at c = t.

(** From [w] to [w']: every case kept its number and its status, and no
    event of the type [case_created] was added to the log. *)
Definition nothing_created (w w' : Db.World) : Prop :=
  (forall id c, Db.cases w !! id = Some c ->
     exists c', Db.cases w' !! id = Some c'
                /\ Db.c_case_number c' = Db.c_case_number c
                /\ Db.c_status c' = Db.c_status c)
  /\ exists evs,
       Db.case_events w' = (Db.case_events w ++ evs)%list
       /\ forall ev, ev ∈ evs -> Db.e_event_type ev <> CaseEventType.CASE_CREATED.

(** A notification flow writes notifications, mails and log lines only. *)
Definition notification_only {A} (task : Db.IO A) : Prop :=
  forall w, Db.cases (snd (task w)) = Db.cases w
            /\ Db.case_events (snd (task w)) = Db.case_events w
            /\ Db.now (snd (task w)) = Db.now w.

(** The decimal number [d] behind [k] zeros. *)
Fixpoint zeros_then (k : nat) (d : Decimal.uint) : Decimal.uint :=
  match k with
  | O => d
  | S k => Decimal.D0 (zeros_then k d)
  end.

(** "For every send failure, the error is classified and a retry occurs
    if and only if the error is retryable", for the first failure of a
    configured sender. *)
Definition retry_iff_retryable : Prop :=
  forall (transport : nat -> SendOutcome) (random : nat -> Q) (key : string)
         (e : ErrorObj),
    key <> EmptyString ->
    failure_of (transport 0%nat) = Some e ->
    (1 < sends (snd (sendEmail transport random (Some key) net0)))%nat
    <-> isRetryableError e = true.

(** The part of an intake case number before the sequence. *)
Definition year_prefix (year : N) (caseType : CaseType.t) : string :=
  Text.string_of_N year ++ "-" ++ Services.getCaseTypePrefix caseType ++ "-".

Definition type_prefixes : list string :=
  Services.getCaseTypePrefix <$>
    [CaseType.PERSONAL_INJURY; CaseType.FAMILY_LAW; CaseType.CRIMINAL_DEFENSE;
     CaseType.ESTATE_PLANNING; CaseType.BUSINESS_LAW; CaseType.REAL_ESTATE;
     CaseType.IMMIGRATION; CaseType.BANKRUPTCY; CaseType.EMPLOYMENT; CaseType.OTHER].

(** "A case number of the form {year}-{type-prefix}-{4-digit sequence}". *)
Definition stated_form (year : N) (number : string) : bool :=
  match Text.split_on "-" number with
  | [y; p; d] =>
      String.eqb y (Text.string_of_N year)
      && bool_decide (p ∈ type_prefixes)
      && (String.length d =? 4)%nat
      && Template.all_chars Text.is_digit d
  | _ => false
  end.

(** "[create(caseInput, actor)] allocates a case number" of that form. *)
Definition case_number_scheme : Prop :=
  forall notify (data : Repo.CreateCaseData) (actorId : option Db.Uuid)
         (w w' : Db.World) (r : Db.Case),
    Services.createCase notify data actorId w = (Val r, w') ->
    stated_form (Db.year w) (Db.c_case_number r) = true.

(** The primary key of [cases] and its foreign key into [clients] and
    theirs into [users]. *)
Definition consistent (w : Db.World) : Prop :=
  forall id c, Db.cases w !! id = Some c ->
    Db.c_id c = id
    /\ exists cl u, Db.clients w !! Db.c_client_id c = Some cl
                    /\ Db.users w !! Db.cl_user_id cl = Some u.

(** "Status not in {closed, archived, resolved} AND now - last_activity_at
    > thresholdDays AND (last_inactivity_notification is null OR now -
    last_inactivity_notification > 7 days)". *)
Definition due (thresholdDays : Z) (t : Db.Timestamp) (c : Db.Case) : Prop :=
  (Db.c_status c ∉ [CaseStatus.CLOSED; CaseStatus.ARCHIVED; CaseStatus.RESOLVED])
  /\ t - Db.c_last_activity_at c > thresholdDays * Db.day
  /\ (Db.c_last_inactivity_notification c = None
      \/ exists last, Db.c_last_inactivity_notification c = Some last
                      /\ t - last > 7 * Db.day).

(** From [w] to [w']: no notification about the case was stored and no
    mail about it was handed to the sender. *)
Definition no_new_notification (id : Db.Uuid) (w w' : Db.World) : Prop :=
  (forall k n, Db.notifications w' !! k = Some n -> Db.n_case_id n = Some id ->
               Db.notifications w !! k = Some n)
  /\ filter (fun m => Db.em_case_id m = Some id) (Db.outbox w')
     = filter (fun m => Db.em_case_id m = Some id) (Db.outbox w).

(** "A failure while processing one item is caught at the item boundary
    and never prevents the remaining items from being processed": the
    items are attempted in turn, each in the world its predecessors left;
    an item that fails is recorded as [None] and leaves its log line. *)
Fixpoint outcomes {Item R} (attempt : Item -> Db.IO R) (failed : Item -> LogLine)
    (items : list Item) (w : Db.World) : list (option R) * Db.World :=
  match items with
  | [] => ([], w)
  | item :: rest =>
      match attempt item w with
      | (Val x, w1) =>
          let (outs, w') := outcomes attempt failed rest w1 in (Some x :: outs, w')
      | (Exn _, w1) =>
          let (outs, w') :=
            outcomes attempt failed rest
              (Db.with_applog (Db.applog w1 ++ [failed item]) w1) in
          (None :: outs, w')
      end
  end.

Definition tally {R} (p : option R -> bool) (outs : list (option R)) : nat :=
  List.length (List.filter p outs).

Definition succeeded {R} (o : option R) : bool :=
  match o with Some _ => true | None => false end.

Definition sent (o : option Services.ItemResult) : bool :=
  match o with Some Services.Sent => true | _ => false end.

Definition failed {R} (o : option R) : bool := negb (succeeded o).

Fixpoint contains (pat s : string) : bool :=
  match Template.strip_prefix pat s with
  | Some _ => true
  | None =>
      match s with
      | EmptyString => false
      | String _ s' => contains pat s'
      end
  end.

(** "A placeholder whose variable is missing is removed/blank in the
    output rather than left literal". *)
Definition missing_placeholder_removed : Prop :=
  forall (template : string) (variables : Template.Variables) (name rendered : string),
    Template.own_property variables name = None ->
    Template.renderTemplate template variables = Template.Output rendered ->
    contains (Template.placeholder name) rendered = false.

End Stated.

(** ** Sample data *)

Module Sample.
Import Db.

(** 1 January 2027, 00:00 UTC. *)
Definition t0 : Timestamp := 1798761600000000.

Definition ana : User :=
  {| u_id := 1; u_email := "ana@example.com"; u_role := UserRole.CLIENT;
     u_first_name := "Ana"; u_last_name := "Lopez"; u_is_active := true |}.

Definition luis : User :=
  {| u_id := 2; u_email := "luis@example.com"; u_role := UserRole.LAWYER;
     u_first_name := "Luis"; u_last_name := "Vega"; u_is_active := true |}.

Definition root : User :=
  {| u_id := 3; u_email := "admin@example.com"; u_role := UserRole.ADMIN;
     u_first_name := "Ada"; u_last_name := "Admin"; u_is_active := true |}.

(** A case without a lawyer, last active 25 days ago. *)
Definition case_a : Case :=
  {| c_id := 101; c_case_number := "2027-PI-0005"; c_client_id := 11;
     c_lawyer_id := None; c_title := "personal injury - Ana Lopez";
     c_description := None; c_status := CaseStatus.NEW; c_priority := 3;
     c_case_type := Some "personal_injury"; c_closed_at := None;
     c_last_activity_at := t0 - 25 * day; c_created_at := t0 - 30 * day;
     c_last_inactivity_notification := None |}.

(** A case of the same client with a lawyer, created later under a
    smaller number. *)
Definition case_b : Case :=
  {| c_id := 102; c_case_number := "2027-PI-0002"; c_client_id := 11;
     c_lawyer_id := Some 21%N; c_title := "personal injury - Ana Lopez";
     c_description := None; c_status := CaseStatus.IN_PROGRESS; c_priority := 3;
     c_case_type := Some "personal_injury"; c_closed_at := None;
     c_last_activity_at := t0 - 2 * day; c_created_at := t0 - 10 * day;
     c_last_inactivity_notification := None |}.

Definition note_for (id user : Uuid) : Notification :=
  {| n_id := id; n_user_id := user; n_type := NotificationType.CASE_UPDATE;
     n_title := "Case Status Updated"; n_message := "Your case status has been updated";
     n_case_id := Some 101%N; n_is_read := false; n_created_at := t0 - day;
     n_read_at := None |}.

Definition world : World :=
  {| now := t0; year := 2027; next_uuid := 1000; case_number_seq := 0;
     users := <[1%N := ana]> (<[2%N := luis]> (<[3%N := root]> ∅));
     clients := <[11%N := {| cl_id := 11; cl_user_id := 1 |}]> ∅;
     lawyers := <[21%N := {| l_id := 21; l_user_id := 2; l_is_available := true |}]> ∅;
     cases := <[101%N := case_a]> (<[102%N := case_b]> ∅);
     case_events := [];
     notifications := <[201%N := note_for 201 1]> (<[202%N := note_for 202 2]> ∅);
     messages := []; documents := []; outbox := []; applog := [] |}.

(** A mail service that is down, a constant jitter, a configured key. *)
Definition transport_down (_ : EmailRequest) (_ : nat) : Delivery.SendOutcome :=
  Delivery.SendError {| Delivery.statusCode := Some 503; Delivery.code := None |}.

Definition no_jitter (_ : nat) : Q := 0%Q.

(** A notification flow that fails at its first query. *)
Definition flow_down : IO unit := throw (DatabaseError "connection refused").

Definition key : option string := Some "re_key".

(** A case the admin opens for Ana, and the intake form of a new client. *)
Definition new_case : Repo.CreateCaseData :=
  {| Repo.cc_client_id := 11; Repo.cc_lawyer_id := None;
     Repo.cc_title := "Contract review"; Repo.cc_description := None;
     Repo.cc_case_type := Some "business_law"; Repo.cc_priority := None |}.

Definition intake : Services.IntakeFormData :=
  {| Services.email := "eva@example.com"; Services.firstName := "Eva";
     Services.lastName := "Ruiz"; Services.caseType := CaseType.PERSONAL_INJURY;
     Services.description := "Fall at work"; Services.lawyerId := None;
     Services.files := [] |}.

(** A database connection that never fails. *)
Definition no_fault (_ : string) (_ : Uuid) : bool := false.

(** Three days later, case 101 carrying the stamp of the first run. *)
Definition world_later : World :=
  with_cases (<[101%N := Services.stamp t0 case_a]> (cases world))
    (with_now (t0 + 3 * day) world).

(** A connection that fails when the notification of case 101 is stored. *)
Definition fault_101 (stmt : string) (item : Uuid) : bool :=
  (stmt =? "INSERT INTO notifications")%string && (item =? 101)%N.

End Sample.

(** ** Steps of the state

    What a run leaves behind, as the proofs below follow it through the
    functions. *)

Module Steps.
Import Db.

(** One step of a mutation, seen from the cases and the event log: the
    clock stands still, a case keeps its activity time or takes the time
    of the clock, and the events added carry the time of the clock, which
    is then also the activity time of their case. *)
Definition step_ok (w w' : World) : Prop :=
  now w' = now w
  /\ (forall id c, cases w !! id = Some c ->
        exists c', cases w' !! id = Some c'
                   /\ (c_last_activity_at c' = c_last_activity_at c
                       \/ c_last_activity_at c' = now w))
  /\ exists evs,
       case_events w' = (case_events w ++ evs)%list
       /\ forall ev, ev ∈ evs ->
            e_created_at ev = now w
            /\ exists c', cases w' !! e_case_id ev = Some c'
                          /\ c_last_activity_at c' = now w.

(** A computation all of whose runs are such steps. *)
Definition io_ok {A} (m : IO A) : Prop :=
  forall w, step_ok w (snd (m w)).

(** A computation all of whose runs respect the relation [R]. *)
Definition io_rel (R : World -> World -> Prop) {A} (m : IO A) : Prop :=
  forall w, R w (snd (m w)).

(** A character of a piece of a case number. *)
Definition not_dash (c : ascii) : bool := negb (Ascii.eqb c "-").

End Steps.

(** ** What a request leaves behind *)

Module Effects.
Import Db.

(** The rows of every table are the same in [w] and [w']; the sequence,
    the UUID source, the outbox and the log may differ. *)
Definition same_tables (w w' : World) : Prop :=
  users w' = users w /\ clients w' = clients w /\ lawyers w' = lawyers w
  /\ cases w' = cases w /\ case_events w' = case_events w
  /\ notifications w' = notifications w /\ messages w' = messages w
  /\ documents w' = documents w.

(** A computation that leaves the part [f] of the world as it is. *)
Definition keeps {X A} (f : World -> X) (task : IO A) : Prop :=
  forall w, f (snd (task w)) = f w.


(** The user is a party to the case: an administrator, the user of the
    client of the case, or the user of the lawyer assigned to it. *)
Definition party (w : World) (c : Case) (userId : Uuid) (userRole : UserRole.t) : Prop :=
  match userRole with
  | UserRole.ADMIN => True
  | UserRole.CLIENT =>
      exists cl, select_where (fun cl => N.eqb (cl_user_id cl) userId) (clients w) = Some cl
                 /\ cl_id cl = c_client_id c
  | UserRole.LAWYER =>
      exists l, select_where (fun l => N.eqb (l_user_id l) userId) (lawyers w) = Some l
                /\ c_lawyer_id c = Some (l_id l)
  end.

End Effects.

(** ** caseService: the reads *)

Module CaseReads.
Import Db Repo Services.

(** [caseService.getCaseById(caseId, userId, userRole)] *)
Definition getCaseById (caseId userId : Uuid) (userRole : UserRole.t) : IO Case :=
  caseRecord <- caseRepository_findById caseId ;;
  match caseRecord with
  | None => throw (NotFoundError "Case not found")
  | Some caseRecord =>
      checkCaseAccess (c_client_id caseRecord) (c_lawyer_id caseRecord) userId userRole
        "You do not have access to this case" ;;;
      ret caseRecord
  end.

(** A row of [caseEventRepository.getTimeline]: the event and, when the
    actor is a user, the actor's name and address (a left join). *)
Record TimelineRow : Type := {
  tl_event : CaseEvent;
  tl_first_name : option string;
  tl_last_name : option string;
  tl_actor_email : option string
}.

Definition timeline_row (w : World) (ev : CaseEvent) : TimelineRow :=
  let u := match e_actor_id ev with
           | Some id => users w !! id
           | None => None
           end in
  {| tl_event := ev; tl_first_name := u_first_name <$> u;
     tl_last_name := u_last_name <$> u; tl_actor_email := u_email <$> u |}.

(** [ORDER BY ce.created_at DESC] *)
Definition newest_first (a b : CaseEvent) : Prop := e_created_at b <= e_created_at a.

#[global] Instance newest_first_dec : RelDecision newest_first.
Proof. intros a b. unfold newest_first. apply _. Defined.

#[global] Instance newest_first_total : Total newest_first.
Proof. intros a b. unfold newest_first. lia. Qed.

#[global] Instance newest_first_trans : Transitive newest_first.
Proof. intros a b c. unfold newest_first. lia. Qed.

(** [caseEventRepository.getTimeline(caseId, limit = 50)] *)
Definition caseEventRepository_getTimeline (caseId : Uuid) (limit : nat)
    : IO (list TimelineRow) :=
  fun w =>
    (Val (timeline_row w <$>
            take limit (merge_sort newest_first
                          (filter (fun ev => e_case_id ev = caseId) (case_events w)))),
     w).

(** [caseService.getCaseTimeline(caseId, userId, userRole)] *)
Definition getCaseTimeline (caseId userId : Uuid) (userRole : UserRole.t)
    : IO (list TimelineRow) :=
  caseRecord <- caseRepository_findById caseId ;;
  match caseRecord with
  | None => throw (NotFoundError "Case not found")
  | Some caseRecord =>
      checkCaseAccess (c_client_id caseRecord) (c_lawyer_id caseRecord) userId userRole
        "You do not have access to this case" ;;;
      caseEventRepository_getTimeline caseId 50
  end.

(** [caseService.addCaseEvent(caseId, eventType, description, actorId,
    metadata)] *)
Definition addCaseEvent (caseId : Uuid) (eventType : CaseEventType.t)
    (description : string) (actorId : option Uuid) (metadata : list (string * string))
    : IO CaseEvent :=
  caseEventRepository_create caseId (Some eventType) actorId description metadata.

End CaseReads.


(** ** The read state of messages

    The table [messages] with the columns [is_read] and [read_at], which
    the functions of [messageRepository] below read and write. *)

Module Inbox.
Import Db Repo Services.

Record Row : Type := {
  message : Message;
  is_read : bool;
  read_at : option Timestamp
}.

(** The database of the requests below: the world and the table. *)
Definition Store : Type := (World * list Row)%type.
Definition IOS : Type -> Type := M Store AppError.

(** A computation on the world, run in the store. *)
Definition on_world {A} (m : IO A) : IOS A :=
  fun s => let (r, w') := m (fst s) in (r, (w', snd s)).

(** [SET is_read = true, read_at = CURRENT_TIMESTAMP] *)
Definition mark (t : Timestamp) (r : Row) : Row :=
  {| message := message r; is_read := true; read_at := Some t |}.

(** [WHERE case_id = $1 AND sender_id != $2 AND is_read = false] *)
Definition unread_for (caseId userId : Uuid) (r : Row) : bool :=
  N.eqb (m_case_id (message r)) caseId
  && negb (N.eqb (m_sender_id (message r)) userId)
  && negb (is_read r).

(** [parseInt(result?.count || '0', 10)] on the text of a row count. *)
Definition count_result (n : nat) : Text.JsNumber :=
  Text.parseInt10 (Some (Text.string_of_N (N.of_nat n))).

(** [messageRepository.markAsRead(messageId)] *)
Definition messageRepository_markAsRead (messageId : Uuid) : IOS (option Row) :=
  fun s =>
    let t := now (fst s) in
    let hit (r : Row) := N.eqb (m_id (message r)) messageId in
    (Val (head (mark t <$> filter (fun r => hit r = true) (snd s))),
     (fst s, (fun r => if hit r then mark t r else r) <$> snd s)).

(** [messageRepository.markAllAsReadForCase(caseId, recipientId)]: the
    number of rows the [UPDATE] returned. *)
Definition messageRepository_markAllAsReadForCase (caseId recipientId : Uuid) : IOS nat :=
  fun s =>
    let t := now (fst s) in
    (Val (List.length (filter (fun r => unread_for caseId recipientId r = true) (snd s))),
     (fst s,
      (fun r => if unread_for caseId recipientId r then mark t r else r) <$> snd s)).

(** [messageRepository.getUnreadCountForCase(caseId, userId)] *)
Definition messageRepository_getUnreadCountForCase (caseId userId : Uuid)
    : IOS Text.JsNumber :=
  fun s =>
    (Val (count_result
            (List.length (filter (fun r => unread_for caseId userId r = true) (snd s)))),
     s).

(** [WHERE case_id IN (..) AND sender_id != $1 AND is_read = false] *)
Definition unread_in (caseIds : list Uuid) (userId : Uuid) (r : Row) : bool :=
  existsb (N.eqb (m_case_id (message r))) caseIds
  && negb (N.eqb (m_sender_id (message r)) userId)
  && negb (is_read r).

(** [messageRepository.getUnreadCountForUser(userId, caseIds)] *)
Definition messageRepository_getUnreadCountForUser (userId : Uuid) (caseIds : list Uuid)
    : IOS Text.JsNumber :=
  match caseIds with
  | [] => ret (Text.Int 0)
  | _ :: _ =>
      fun s =>
        (Val (count_result
                (List.length (filter (fun r => unread_in caseIds userId r = true) (snd s)))),
         s)
  end.

(** [messageRepository.delete(id)] *)
Definition messageRepository_delete (id : Uuid) : IOS bool :=
  fun s =>
    let hit (r : Row) := N.eqb (m_id (message r)) id in
    (Val (negb (Nat.eqb (List.length (filter (fun r => hit r = true) (snd s))) 0)),
     (fst s, filter (fun r => hit r = false) (snd s))).

(** A row of [findByCaseId]: the message with the name and the role of
    its sender (an inner join). *)
Record RowWithSender : Type := {
  shown : Row;
  shown_first_name : string;
  shown_last_name : string;
  shown_role : UserRole.t
}.

Definition with_sender (w : World) (r : Row) : option RowWithSender :=
  match users w !! m_sender_id (message r) with
  | Some u => Some {| shown := r; shown_first_name := u_first_name u;
                      shown_last_name := u_last_name u; shown_role := u_role u |}
  | None => None
  end.

(** [ORDER BY m.created_at ASC] *)
Definition oldest_first (a b : Row) : Prop :=
  m_created_at (message a) <= m_created_at (message b).

#[global] Instance oldest_first_dec : RelDecision oldest_first.
Proof. intros a b. unfold oldest_first. apply _. Defined.

#[global] Instance oldest_first_total : Total oldest_first.
Proof. intros a b. unfold oldest_first. lia. Qed.

#[global] Instance oldest_first_trans : Transitive oldest_first.
Proof. intros a b c. unfold oldest_first. lia. Qed.

(** [messageRepository.findByCaseId(caseId)] *)
Definition messageRepository_findByCaseId (caseId : Uuid) : IOS (list RowWithSender) :=
  fun s =>
    (Val (omap (with_sender (fst s))
            (merge_sort oldest_first
               (filter (fun r => m_case_id (message r) = caseId) (snd s)))),
     s).

(** [messageService.getMessagesByCaseId(caseId, userId, userRole)] *)
Definition getMessagesByCaseId (caseId userId : Uuid) (userRole : UserRole.t)
    : IOS (list RowWithSender) :=
  caseRecord <- on_world (caseRepository_findById caseId) ;;
  match caseRecord with
  | None => throw (NotFoundError "Case not found")
  | Some caseRecord =>
      on_world (checkCaseAccess (c_client_id caseRecord) (c_lawyer_id caseRecord)
                  userId userRole "You do not have access to this case") ;;;
      messages <- messageRepository_findByCaseId caseId ;;
      messageRepository_markAllAsReadForCase caseId userId ;;;
      ret messages
  end.

(** [messageService.getUnreadCountForCase(caseId, userId, userRole)] *)
Definition getUnreadCountForCase (caseId userId : Uuid) (userRole : UserRole.t)
    : IOS Text.JsNumber :=
  caseRecord <- on_world (caseRepository_findById caseId) ;;
  match caseRecord with
  | None => throw (NotFoundError "Case not found")
  | Some caseRecord =>
      on_world (checkCaseAccess (c_client_id caseRecord) (c_lawyer_id caseRecord)
                  userId userRole "You do not have access to this case") ;;;
      messageRepository_getUnreadCountForCase caseId userId
  end.

(** [messageService.markMessagesAsRead(caseId, userId, userRole)] *)
Definition markMessagesAsRead (caseId userId : Uuid) (userRole : UserRole.t) : IOS nat :=
  caseRecord <- on_world (caseRepository_findById caseId) ;;
  match caseRecord with
  | None => throw (NotFoundError "Case not found")
  | Some caseRecord =>
      on_world (checkCaseAccess (c_client_id caseRecord) (c_lawyer_id caseRecord)
                  userId userRole "You do not have access to this case") ;;;
      messageRepository_markAllAsReadForCase caseId userId
  end.

End Inbox.


(** ** notificationService: the reads *)

Module Notices.
Import Db Repo Services.

(** [WHERE user_id = $1 AND is_read = false] *)
Definition unread_of (userId : Uuid) (n : Notification) : bool :=
  N.eqb (n_user_id n) userId && negb (n_is_read n).

(** [notificationService.getUnreadCount(userId)]: the count arrives as
    text and is parsed. *)
Definition notificationService_getUnreadCount (userId : Uuid) : IO Text.JsNumber :=
  fun w =>
    (Val (Text.parseInt10
            (Some (Text.string_of_N
                     (N.of_nat (List.length
                                  (filter (fun n => unread_of userId n = true)
                                     (snd <$> map_to_list (notifications w)))))))),
     w).

(** [ORDER BY created_at DESC] *)
Definition latest_first (a b : Notification) : Prop := n_created_at b <= n_created_at a.

#[global] Instance latest_first_dec : RelDecision latest_first.
Proof. intros a b. unfold latest_first. apply _. Defined.

#[global] Instance latest_first_total : Total latest_first.
Proof. intros a b. unfold latest_first. lia. Qed.

#[global] Instance latest_first_trans : Transitive latest_first.
Proof. intros a b c. unfold latest_first. lia. Qed.

(** [WHERE user_id = $1], with [AND is_read = false] when [unreadOnly]. *)
Definition listed (userId : Uuid) (unreadOnly : bool) (n : Notification) : bool :=
  N.eqb (n_user_id n) userId && (if unreadOnly then negb (n_is_read n) else true).

(** [notificationService.getByUserId(userId, unreadOnly = false)] *)
Definition notificationService_getByUserId (userId : Uuid) (unreadOnly : bool)
    : IO (list Notification) :=
  fun w =>
    (Val (take 50 (merge_sort latest_first
                     (filter (fun n => listed userId unreadOnly n = true)
                        (snd <$> map_to_list (notifications w))))),
     w).

End Notices.


(** ** caseService: lists and statistics *)

Module CaseLists.
Import Db Repo Services.

(** [status?: CaseStatus | CaseStatus[]] *)
Inductive StatusFilter : Type :=
| One (status : CaseStatus.t)
| AnyOf (statuses : list CaseStatus.t).

Record CaseFilters : Type := {
  f_client_id : option Uuid;
  f_lawyer_id : option Uuid;
  f_status : option StatusFilter;
  f_case_type : option string;
  f_search : option string
}.


(** A string that is present and not empty is truthy. *)
Definition truthy (o : option string) : option string :=
  match o with
  | Some (String c s) => Some (String c s)
  | _ => None
  end.








(** The conditions on [client_id] and [lawyer_id], which [findAll] and
    [getStats] share. *)
Definition scoped (filters : CaseFilters) (c : Case) : bool :=
  match f_client_id filters with
  | Some id => N.eqb (c_client_id c) id
  | None => true
  end
  && match f_lawyer_id filters with
     | Some id => match c_lawyer_id c with
                  | Some l => N.eqb l id
                  | None => false
                  end
     | None => true
     end.



Definition no_filters : CaseFilters :=
  {| f_client_id := None; f_lawyer_id := None; f_status := None; f_case_type := None;
     f_search := None |}.

Section WithDatabase.

(** [text ILIKE '%' || search || '%'] and the [ORDER BY column ASC|DESC]
    of PostgreSQL, under the collation of the database. *)
Variable ilike : string -> string -> bool.
Variable order_by : string -> bool -> list Case -> list Case.








End WithDatabase.

(** The statuses of the enum. *)
Definition statuses : list CaseStatus.t :=
  [CaseStatus.NEW; CaseStatus.IN_REVIEW; CaseStatus.ACTIVE; CaseStatus.PENDING_CLIENT;
   CaseStatus.PENDING_DOCUMENTS; CaseStatus.IN_PROGRESS; CaseStatus.AWAITING_RESPONSE;
   CaseStatus.RESOLVED; CaseStatus.CLOSED; CaseStatus.ARCHIVED].




End CaseLists.


(** ** documentService: reading, downloading and removing *)

Module Documents.
Import Db Repo Services.

(** [documentRepository.findById(id)] *)
Definition documentRepository_findById (id : Uuid) : IO (option Document) :=
  fun w => (Val (head (filter (fun d => d_id d = id) (documents w))), w).

(** [ORDER BY created_at DESC] *)
Definition newest_upload_first (a b : Document) : Prop := d_created_at b <= d_created_at a.

#[global] Instance newest_upload_first_dec : RelDecision newest_upload_first.
Proof. intros a b. unfold newest_upload_first. apply _. Defined.

#[global] Instance newest_upload_first_total : Total newest_upload_first.
Proof. intros a b. unfold newest_upload_first. lia. Qed.

#[global] Instance newest_upload_first_trans : Transitive newest_upload_first.
Proof. intros a b c. unfold newest_upload_first. lia. Qed.

(** [documentRepository.findByCaseId(caseId)] *)
Definition documentRepository_findByCaseId (caseId : Uuid) : IO (list Document) :=
  fun w =>
    (Val (merge_sort newest_upload_first
            (filter (fun d => d_case_id d = caseId) (documents w))),
     w).

(** [documentRepository.delete(id)]: [DELETE .. RETURNING id] and
    [result.length > 0]. *)
Definition documentRepository_delete (id : Uuid) : IO bool :=
  fun w =>
    (Val (negb (Nat.eqb (List.length (filter (fun d => d_id d = id) (documents w))) 0)),
     with_documents (filter (fun d => d_id d <> id) (documents w)) w).

Section WithStorage.

Variable isAllowedMimeType : string -> bool.
Variable maxSizeBytes : Z.
Variable writeFile_fails : Uuid -> string -> bool.
Variable sendDocumentUploadNotifications :
  Uuid -> string -> Uuid -> UserRole.t -> string -> IO unit.

(** The disk as a request meets it: whether the file of a document is
    there, and whether unlinking or reading it fails. *)
Variable fileExists : Document -> bool.
Variable unlink_fails : Document -> bool.
Variable readFile_fails : Document -> bool.

(** [storageService.deleteFile(storagePath)], on the path of the
    document; the log lines are cut to their fixed part. *)
Definition deleteFile (document : Document) : IO bool :=
  if fileExists document then
    if unlink_fails document then
      logger (LogError "Error deleting file") ;;;
      throw (StorageError "unlink")
    else
      logger (LogInfo "File deleted") ;;;
      ret true
  else ret false.

(** [storageService.getFileBuffer(storagePath)]; the bytes are not part
    of the model. *)
Definition getFileBuffer (document : Document) : IO unit :=
  if negb (fileExists document) then throw (StorageError "File not found")
  else if readFile_fails document then throw (StorageError "readFile")
  else ret tt.

(** [documentService.getDocumentById(documentId, userId, userRole)] *)
Definition getDocumentById (documentId userId : Uuid) (userRole : UserRole.t)
    : IO Document :=
  document <- documentRepository_findById documentId ;;
  match document with
  | None => throw (NotFoundError "Document not found")
  | Some document =>
      caseRecord <- caseRepository_findById (d_case_id document) ;;
      match caseRecord with
      | None => throw (NotFoundError "Case not found")
      | Some caseRecord =>
          checkCaseAccess (c_client_id caseRecord) (c_lawyer_id caseRecord)
            userId userRole "You do not have access to these documents" ;;;
          ret document
      end
  end.

(** [documentService.getDocumentsByCaseId(caseId, userId, userRole)] *)
Definition getDocumentsByCaseId (caseId userId : Uuid) (userRole : UserRole.t)
    : IO (list Document) :=
  caseRecord <- caseRepository_findById caseId ;;
  match caseRecord with
  | None => throw (NotFoundError "Case not found")
  | Some caseRecord =>
      checkCaseAccess (c_client_id caseRecord) (c_lawyer_id caseRecord)
        userId userRole "You do not have access to these documents" ;;;
      documentRepository_findByCaseId caseId
  end.

(** [documentService.downloadDocument(documentId, userId, userRole)];
    the result is the document, without the bytes. *)
Definition downloadDocument (documentId userId : Uuid) (userRole : UserRole.t)
    : IO Document :=
  document <- getDocumentById documentId userId userRole ;;
  if negb (fileExists document) then
    throw (NotFoundError "Document file not found")
  else
    getFileBuffer document ;;;
    caseRecord <- caseRepository_findById (d_case_id document) ;;
    match caseRecord with
    | Some _ =>
        caseEventRepository_create (d_case_id document)
          (Some CaseEventType.DOCUMENT_DOWNLOADED) (Some userId)
          ("Document downloaded: " ++ d_original_filename document)
          [("document_id", Text.string_of_N (d_id document));
           ("filename", d_original_filename document)] ;;;
        ret document
    | None => ret document
    end.

(** [documentService.deleteDocument(documentId, userId, userRole)] *)
Definition deleteDocument (documentId userId : Uuid) (userRole : UserRole.t) : IO unit :=
  document <- documentRepository_findById documentId ;;
  match document with
  | None => throw (NotFoundError "Document not found")
  | Some document =>
      if negb (bool_decide (userRole = UserRole.ADMIN))
         && negb (N.eqb (d_uploaded_by document) userId) then
        throw (ForbiddenError "You do not have permission to delete this document")
      else
        deleteFile document ;;;
        documentRepository_delete documentId ;;;
        logger (LogInfo ("Document deleted: " ++ d_original_filename document))
  end.

(** The [for] loop of [uploadDocuments], with the array it fills. *)
Fixpoint uploadDocuments_loop (caseId : Uuid) (files : list UploadedFile)
    (uploaderId : Uuid) (userRole : UserRole.t) (documents : list Document)
    : IO (list Document) :=
  match files with
  | [] => ret documents
  | file :: rest =>
      document <- uploadDocument isAllowedMimeType maxSizeBytes writeFile_fails
                    sendDocumentUploadNotifications caseId file uploaderId userRole ;;
      uploadDocuments_loop caseId rest uploaderId userRole (documents ++ [document])
  end.

(** [documentService.uploadDocuments(caseId, files, uploaderId, userRole)] *)
Definition uploadDocuments (caseId : Uuid) (files : list UploadedFile)
    (uploaderId : Uuid) (userRole : UserRole.t) : IO (list Document) :=
  uploadDocuments_loop caseId files uploaderId userRole [].

End WithStorage.

End Documents.

(** ** The settings of the jobs *)

Module Config.
Import Db Services.

(** [process.env.NAME || fallback]: an unset or empty variable gives the
    fallback. *)
Definition env_or (value : option string) (fallback : string) : string :=
  match value with
  | Some (String c s) => String c s
  | _ => fallback
  end.

(** [config.business.inactivityDaysThreshold]:
    [parseInt(process.env.INACTIVITY_DAYS_THRESHOLD || '21', 10)] *)
Definition inactivityDaysThreshold (env : option string) : Text.JsNumber :=
  Text.parseInt10 (Some (env_or env "21")).

(** The number as [inactivityCheckJob.run] takes it: [NaN] is no number
    of days. *)
Definition configured (n : Text.JsNumber) : option Z :=
  match n with
  | Text.Int z => Some z
  | Text.NaN => None
  end.

(** [const daysThreshold = config.business.inactivityDaysThreshold || 21] *)
Definition daysThreshold (env : option string) : Z :=
  inactivityDaysThreshold_or (configured (inactivityDaysThreshold env)) 21.

End Config.


(** ** The notifications of a new case *)

Module CaseNotices.
Import Db Repo Services.

(** A character of the class [\w] of a regular expression. *)
Definition is_word_char (c : ascii) : bool :=
  let n := nat_of_ascii c in
  ((48 <=? n) && (n <=? 57) || (65 <=? n) && (n <=? 90)
   || (97 <=? n) && (n <=? 122) || (n =? 95))%nat.

(** [l.toUpperCase()] on the letters a to z. *)
Definition upper (c : ascii) : ascii :=
  let n := nat_of_ascii c in
  if ((97 <=? n) && (n <=? 122))%nat then ascii_of_nat (n - 32) else c.

(** [s.replace(/\b\w/g, l => l.toUpperCase())]: a word character that
    follows no word character is put in upper case; [inside] says that
    the character before is a word character. *)
Fixpoint capitalize_from (inside : bool) (s : string) : string :=
  match s with
  | EmptyString => EmptyString
  | String c s' =>
      String (if is_word_char c && negb inside then upper c else c)
        (capitalize_from (is_word_char c) s')
  end.

(** [caseType.replace(/_/g, ' ').replace(/\b\w/g, l => l.toUpperCase())] *)
Definition caseTypeFormatted (caseType : string) : string :=
  capitalize_from false (underscores_to_spaces caseType).

(** [SELECT id FROM users WHERE role = 'admin' AND is_active = true] *)
Definition select_active_admins (w : World) : list Uuid :=
  u_id <$> filter (fun u => u_role u = UserRole.ADMIN /\ u_is_active u = true)
             (snd <$> map_to_list (users w)).

(** The row of the join in [notifyLawyerNewCase]: the lawyer and the
    lawyer's user. *)
Definition select_lawyer_user (lawyerId : Uuid) (w : World) : option (Lawyer * User) :=
  match lawyers w !! lawyerId with
  | Some l =>
      match users w !! l_user_id l with
      | Some u => Some (l, u)
      | None => None
      end
  | None => None
  end.

(** [for (const item of items) { await body(item) }] *)
Fixpoint for_each {A} (body : A -> IO unit) (items : list A) : IO unit :=
  match items with
  | [] => ret tt
  | item :: rest => body item ;;; for_each body rest
  end.

(** The users a new case is announced to, in the order of the calls:
    the client, the active administrators, the lawyer given with the
    case when the lawyer and the lawyer's user exist. *)
Definition recipients (clientUserId : Uuid) (lawyerId : option Uuid) (w : World)
    : list Uuid :=
  clientUserId :: select_active_admins w
  ++ match lawyerId with
     | Some lawyerId =>
         match select_lawyer_user lawyerId w with
         | Some (l, _) => [l_user_id l]
         | None => []
         end
     | None => []
     end.

(** From [w] to [w'] the users [to] were sent one notification each, of
    the type [NEW_CASE] and about the case: the rows are stored under the
    next identifiers, in the order of [to], every other notification is
    as before, and so are the other tables and the clock. *)
Definition announced (caseId : Uuid) (to : list Uuid) (w w' : World) : Prop :=
  next_uuid w' = (next_uuid w + N.of_nat (List.length to))%N
  /\ (forall k, (k < next_uuid w)%N \/ (next_uuid w' <= k)%N ->
                notifications w' !! k = notifications w !! k)
  /\ (forall (i : nat) user,
        to !! i = Some user ->
        exists n, notifications w' !! (next_uuid w + N.of_nat i)%N = Some n
                  /\ n_user_id n = user
                  /\ n_type n = NotificationType.NEW_CASE
                  /\ n_case_id n = Some caseId
                  /\ n_is_read n = false
                  /\ n_created_at n = now w)
  /\ users w' = users w /\ clients w' = clients w /\ lawyers w' = lawyers w
  /\ cases w' = cases w /\ case_events w' = case_events w
  /\ messages w' = messages w /\ documents w' = documents w
  /\ now w' = now w.

Section WithMail.

Variable transport : EmailRequest -> nat -> Delivery.SendOutcome.
Variable random : nat -> Q.
Variable apiKey : option string.

(** [notificationService.notifyClientCaseCreated(userId, caseNumber,
    caseType, caseId, lawyerName)] *)
Definition notifyClientCaseCreated (userId : Uuid) (caseNumber caseType : string)
    (caseId : Uuid) (lawyerName : option string) : IO unit :=
  let assignedMsg :=
    match CaseLists.truthy lawyerName with
    | Some lawyerName => "Your attorney " ++ lawyerName ++ " will be in touch soon."
    | None => "A lawyer will be assigned to your case shortly."
    end in
  notificationService_create
    {| userId := userId;
       type := NotificationType.NEW_CASE;
       title := "Case Submitted Successfully";
       message := "Your " ++ caseTypeFormatted caseType ++ " case (" ++ caseNumber
                  ++ ") has been submitted. " ++ assignedMsg;
       caseId := Some caseId |} ;;;
  ret tt.

(** [notificationService.notifyAdminsNewCase(clientName, caseNumber,
    caseType, caseId, lawyerName)] *)
Definition notifyAdminsNewCase (clientName caseNumber caseType : string)
    (caseId : Uuid) (lawyerName : option string) : IO unit :=
  w <- get ;;
  let admins := select_active_admins w in
  let assignedTo :=
    match CaseLists.truthy lawyerName with
    | Some lawyerName => " Assigned to " ++ lawyerName ++ "."
    | None => " No lawyer assigned yet."
    end in
  for_each
    (fun admin =>
       notificationService_create
         {| userId := admin;
            type := NotificationType.NEW_CASE;
            title := "New Case Submitted";
            message := "New " ++ caseTypeFormatted caseType ++ " case (" ++ caseNumber
                       ++ ") submitted by " ++ clientName ++ "." ++ assignedTo;
            caseId := Some caseId |} ;;;
       ret tt)
    admins.

(** [notificationService.notifyLawyerNewCase(lawyerId, clientName,
    caseNumber, caseType, caseId)]; the title of the case is read for the
    mail only. *)
Definition notifyLawyerNewCase (lawyerId : Uuid) (clientName caseNumber caseType : string)
    (caseId : Uuid) : IO unit :=
  w <- get ;;
  match select_lawyer_user lawyerId w with
  | None => logger (LogWarn "Lawyer not found for notification")
  | Some (l, u) =>
      notificationService_create
        {| userId := l_user_id l;
           type := NotificationType.NEW_CASE;
           title := "New Case Assigned";
           message := "You have been assigned a new " ++ caseTypeFormatted caseType
                      ++ " case (" ++ caseNumber ++ ") from " ++ clientName ++ ".";
           caseId := Some caseId |} ;;;
      detach_catch
        (emailNotificationService_send transport random apiKey
           {| em_to := u_email u;
              em_template := "caseAssignedToLawyer";
              em_case_id := Some caseId |} ;;; ret tt)
        "Failed to send email to lawyer"
  end.

(** [caseService.sendCaseCreationNotifications(clientUserId, caseId,
    caseNumber, caseTitle, caseType, lawyerId, lawyerName)] *)
Definition sendCaseCreationNotifications (clientUserId caseId : Uuid)
    (caseNumber caseTitle caseType : string) (lawyerId : option Uuid)
    (lawyerName : option string) : IO unit :=
  user <- userRepository_findById clientUserId ;;
  match user with
  | None => ret tt
  | Some user =>
      let clientName := u_first_name user ++ " " ++ u_last_name user in
      notifyClientCaseCreated clientUserId caseNumber caseType caseId lawyerName ;;;
      emailNotificationService_send transport random apiKey
        {| em_to := u_email user; em_template := "caseSubmitted"; em_case_id := None |} ;;;
      notifyAdminsNewCase clientName caseNumber caseType caseId lawyerName ;;;
      match lawyerId with
      | Some lawyerId => notifyLawyerNewCase lawyerId clientName caseNumber caseType caseId
      | None => ret tt
      end
  end.

End WithMail.

End CaseNotices.


(** ** Sample requests *)

Module Requests.
Import Db.

(** The request to close a case, and a small PDF file. *)
Definition close : Repo.UpdateCaseData :=
  {| Repo.uc_lawyer_id := None; Repo.uc_title := None; Repo.uc_description := None;
     Repo.uc_status := Some CaseStatus.CLOSED; Repo.uc_case_type := None;
     Repo.uc_priority := None |}.

Definition pdf : Services.UploadedFile :=
  {| Services.originalname := "a.pdf"; Services.mimetype := "application/pdf";
     Services.size := 1 |}.

(** A file store that takes every file of at most 10 MB. *)
Definition any_type (_ : string) : bool := true.
Definition ten_megabytes : Z := 10 * 1024 * 1024.
Definition disk_ok (_ : Uuid) (_ : string) : bool := false.

(** The sample database with a third case that carries the number the
    sequence gives out next. *)
Definition case_c : Case :=
  {| c_id := 103; c_case_number := "CASE-2027-00001"; c_client_id := 11;
     c_lawyer_id := None; c_title := "Lease"; c_description := None;
     c_status := CaseStatus.NEW; c_priority := 3; c_case_type := None;
     c_closed_at := None; c_last_activity_at := Sample.t0 - day;
     c_created_at := Sample.t0 - day; c_last_inactivity_notification := None |}.

Definition world_taken : World :=
  with_cases (<[103%N := case_c]> (cases Sample.world)) Sample.world.

(** The sample database with an older case that carries the number
    [generateCaseNumber] computes next, 2027-PI-0003. *)
Definition case_d : Case :=
  {| c_id := 104; c_case_number := "2027-PI-0003"; c_client_id := 11;
     c_lawyer_id := None; c_title := "personal injury - Ana Lopez"; c_description := None;
     c_status := CaseStatus.NEW; c_priority := 3; c_case_type := Some "personal_injury";
     c_closed_at := None; c_last_activity_at := Sample.t0 - 20 * day;
     c_created_at := Sample.t0 - 20 * day; c_last_inactivity_notification := None |}.

Definition world_clash : World :=
  with_cases (<[104%N := case_d]> (cases Sample.world)) Sample.world.

(** The intake form of Eva with a capital letter in the address, and
    with one file. *)
Definition intake_capital : Services.IntakeFormData :=
  {| Services.email := "Eva@example.com"; Services.firstName := "Eva";
     Services.lastName := "Ruiz"; Services.caseType := CaseType.PERSONAL_INJURY;
     Services.description := "Fall at work"; Services.lawyerId := None;
     Services.files := [pdf] |}.

(** The message Ana sends on her case 101, as it is returned. *)
Definition ana_asks : Services.MessageWithSender :=
  {| Services.msg := {| m_id := 1000; m_case_id := 101; m_sender_id := 1;
                        m_content := "Any news?"; m_created_at := Sample.t0 |};
     Services.sender_first_name := "Ana"; Services.sender_last_name := "Lopez";
     Services.sender_role := UserRole.CLIENT |}.

(** Three messages on case 102: two of Ana, the second of them read, and
    one of Luis. *)
Definition note (id sender : Uuid) (text : string) (t : Timestamp) : Message :=
  {| m_id := id; m_case_id := 102; m_sender_id := sender; m_content := text;
     m_created_at := t |}.

Definition inbox : list Inbox.Row :=
  [ {| Inbox.message := note 301 1 "Hello" (Sample.t0 - 3 * day);
       Inbox.is_read := false; Inbox.read_at := None |};
    {| Inbox.message := note 302 2 "Good morning" (Sample.t0 - 2 * day);
       Inbox.is_read := false; Inbox.read_at := None |};
    {| Inbox.message := note 303 1 "Any news?" (Sample.t0 - 4 * day);
       Inbox.is_read := true; Inbox.read_at := Some (Sample.t0 - day) |} ].





(** Flows that send nothing. *)
Definition quiet4 {A B C D} (_ : A) (_ : B) (_ : C) (_ : D) : IO unit := ret tt.
Definition quiet3 {A B C} (_ : A) (_ : B) (_ : C) : IO unit := ret tt.
Definition quiet5 {A B C D E} (_ : A) (_ : B) (_ : C) (_ : D) (_ : E) : IO unit := ret tt.
Definition quiet7 {A B C D E F G} (_ : A) (_ : B) (_ : C) (_ : D) (_ : E) (_ : F) (_ : G)
    : IO unit := ret tt.

End Requests.


(** ** Sample documents *)

Module Papers.
Import Db.

(** A memo Luis uploaded to case 101, which has no lawyer, and a
    contract Ana uploaded to her case 102. *)
Definition memo : Document :=
  {| d_id := 401; d_case_id := 101; d_uploaded_by := 2;
     d_original_filename := "memo.pdf"; d_created_at := Sample.t0 - 2 * day |}.

Definition contract : Document :=
  {| d_id := 402; d_case_id := 102; d_uploaded_by := 1;
     d_original_filename := "contract.pdf"; d_created_at := Sample.t0 - day |}.

Definition world : World := with_documents [memo; contract] Sample.world.

(** A disk that holds every file and never fails, and a disk on which
    no file can be removed. *)
Definition there (_ : Document) : bool := true.
Definition sound (_ : Document) : bool := false.
Definition stuck (_ : Document) : bool := true.

(** A volume that takes files of at most one byte. *)
Definition one_byte : Z := 1.

Definition scan : Services.UploadedFile :=
  {| Services.originalname := "scan.png"; Services.mimetype := "image/png";
     Services.size := 2 |}.

End Papers.

(** * Theorems *)

(** * Properties of the delivery engine *)

Section DeliveryFacts.
Import Delivery Stated.
Local Open Scope nat_scope.

Variable transport : nat -> SendOutcome.
Variable random : nat -> Q.

(** One pass through the loop body: it never throws, makes one transport
    call, and either leaves the loop or waits and goes on. *)
Lemma iteration_spec (attempt : nat) (n : Net) :
  exists n',
    iteration transport random attempt n
    = (Val (if retried attempt (transport (sends n)) then Continue
            else Return (is_ok (transport (sends n)))), n')
    /\ sends n' = S (sends n)
    /\ delays n' = (if retried attempt (transport (sends n))
                    then delays n ++ [getRetryDelay (random (List.length (delays n))) attempt]
                    else delays n)%list.
Proof.
  unfold iteration, try_catch, bind, resend_emails_send, backoff, bind, get, retried.
  change (maxRetries RETRY_CONFIG) with 3.
  destruct (transport (sends n)) as [|e|e]; cbn.
  - eexists. repeat split.
  - destruct (isRetryableError e), (attempt =? 3); cbn; eexists; repeat split.
  - destruct (attempt =? 3); cbn; eexists; repeat split.
Qed.

Lemma retried_last (o : SendOutcome) : retried (maxRetries RETRY_CONFIG) o = false.
Proof. destruct o; cbn; auto using andb_false_r. Qed.

(** The loop stops at the first attempt that is not retried, which is
    the last one at the latest. *)
Lemma attempts_loop_spec (k a : nat) (n : Net) :
  List.length (delays n) = a ->
  a + S k = S (maxRetries RETRY_CONFIG) ->
  exists n' m,
    attempts_loop transport random (seq a (S k)) n
    = (Val (is_ok (transport (sends n + m))), n')
    /\ delays n' = (delays n ++ backoffs random a m)%list
    /\ a + m <= maxRetries RETRY_CONFIG
    /\ sends n' = sends n + S m
    /\ retried (a + m) (transport (sends n + m)) = false
    /\ (forall i, i < m -> retried (a + i) (transport (sends n + i)) = true).
Proof.
  revert a n. induction k as [|k IH]; intros a n Hlen Hak;
    cbn [seq attempts_loop]; unfold bind at 1;
    destruct (iteration_spec a n) as (n1 & -> & Hs & Hd);
    destruct (retried a (transport (sends n))) eqn:Hr.
  - assert (a = maxRetries RETRY_CONFIG) as -> by (cbn in *; lia).
    rewrite retried_last in Hr. discriminate.
  - exists n1, 0. unfold backoffs. cbn in *.
    rewrite app_nil_r, !Nat.add_0_r. repeat split; auto; lia.
  - destruct (IH (S a) n1) as (n' & m & Hrun & Hdel & Ham & Hsn & Hlast & Hall).
    { rewrite Hd, length_app. cbn. lia. }
    { lia. }
    exists n', (S m).
    replace (sends n + S m) with (sends n1 + m) by lia.
    replace (a + S m) with (S a + m) by lia.
    split; [exact Hrun|]. cbn in Hak, Ham |- *.
    repeat split; try lia; auto.
    + rewrite Hdel, Hd, <- app_assoc. unfold backoffs. cbn. rewrite Hlen. reflexivity.
    + intros i Hi. destruct i as [|i].
      * rewrite !Nat.add_0_r. exact Hr.
      * replace (sends n + S i) with (sends n1 + i) by lia.
        replace (a + S i) with (S a + i) by lia. apply Hall. lia.
  - exists n1, 0. unfold backoffs. cbn in *.
    rewrite app_nil_r, !Nat.add_0_r. repeat split; auto; lia.
Qed.

Lemma sendEmail_spec (key : string) :
  key <> EmptyString ->
  exists n' m,
    sendEmail transport random (Some key) net0 = (Val (is_ok (transport m)), n')
    /\ delays n' = backoffs random 0 m
    /\ m <= maxRetries RETRY_CONFIG
    /\ sends n' = S m
    /\ retried m (transport m) = false
    /\ (forall i, i < m -> retried i (transport i) = true).
Proof.
  intros Hkey. destruct key as [|c key]; [congruence|].
  destruct (attempts_loop_spec (maxRetries RETRY_CONFIG) 0 net0)
    as (n' & m & Hrun & Hdel & Hm & Hs & Hlast & Hall); [reflexivity..|].
  exists n', m. repeat split; auto.
Qed.

Lemma sendEmail_not_configured (apiKey : option string) (n : Net) :
  apiKey = None \/ apiKey = Some EmptyString ->
  exists n', sendEmail transport random apiKey n = (Val false, n')
             /\ sends n' = sends n /\ delays n' = delays n.
Proof.
  intros [-> | ->]; cbn; eexists; split; try reflexivity; auto.
Qed.



End DeliveryFacts.



Section ClassificationFacts.
Import Delivery Stated.
Local Open Scope nat_scope.

Variable transport : nat -> SendOutcome.
Variable random : nat -> Q.

Lemma isRetryableError_spec (e : ErrorObj) :
  isRetryableError e = true <->
  (exists sc, statusCode e = Some sc /\ sc <> 0%Z /\ (sc = 429%Z \/ (500 <= sc)%Z))
  \/ ((statusCode e = None \/ statusCode e = Some 0%Z)
      /\ (code e = Some "ECONNRESET" \/ code e = Some "ETIMEDOUT"
          \/ code e = Some "ENOTFOUND")).
Proof.
  unfold isRetryableError, truthy_status, status_is, code_is.
  destruct (statusCode e) as [sc|]; [destruct (Z.eqb_spec sc 0) as [->|Hsc]|]; cbn.
  - destruct (code e) as [c|]; cbn.
    + destruct (String.eqb_spec c "ECONNRESET") as [->|H1]; cbn.
      { split; auto. }
      destruct (String.eqb_spec c "ETIMEDOUT") as [->|H2]; cbn.
      { split; auto 6. }
      destruct (String.eqb_spec c "ENOTFOUND") as [->|H3]; cbn.
      { split; auto 6. }
      split; [discriminate|].
      intros [(sc & [= <-] & Hne & _) | (_ & [[= ?] | [[= ?] | [= ?]]])]; congruence.
    + split; [discriminate|].
      intros [(sc & [= <-] & Hne & _) | (_ & [[= ?] | [[= ?] | [= ?]]])]; congruence.
  - destruct (Z.eqb_spec sc 429) as [->|H4]; cbn.
    { split; auto. intros _. left. exists 429%Z. auto. }
    destruct (Z.leb_spec 500 sc) as [H5|H5]; cbn.
    { split; auto. intros _. left. exists sc. auto. }
    split; [discriminate|].
    intros [(sc' & [= <-] & _ & [?|?]) | ([[= ?] | [= ?]] & _)]; try congruence; lia.
  - destruct (code e) as [c|]; cbn.
    + destruct (String.eqb_spec c "ECONNRESET") as [->|H1]; cbn.
      { split; auto. }
      destruct (String.eqb_spec c "ETIMEDOUT") as [->|H2]; cbn.
      { split; auto 6. }
      destruct (String.eqb_spec c "ENOTFOUND") as [->|H3]; cbn.
      { split; auto 6. }
      split; [discriminate|].
      intros [(sc & [= ?] & _) | (_ & [[= ?] | [[= ?] | [= ?]]])]; congruence.
    + split; [discriminate|].
      intros [(sc & [= ?] & _) | (_ & [[= ?] | [[= ?] | [= ?]]])]; congruence.
Qed.

(** The first failure of a configured sender: no retry when the loop does
    not go on, a second call when it does. *)
Lemma first_outcome_decides (key : string) :
  key <> EmptyString ->
  exists n',
    snd (sendEmail transport random (Some key) net0) = n'
    /\ (retried 0 (transport 0) = false ->
        sendEmail transport random (Some key) net0 = (Val (is_ok (transport 0)), n')
        /\ sends n' = 1 /\ delays n' = [])
    /\ (retried 0 (transport 0) = true -> 2 <= sends n').
Proof.
  intros Hkey.
  destruct (sendEmail_spec transport random key Hkey)
    as (n' & m & Hrun & Hd & Hm & Hs & Hlast & Hall).
  exists n'. rewrite Hrun. split; [reflexivity|]. split.
  - intros Hr. destruct m as [|m].
    + rewrite Hd. auto.
    + rewrite (Hall 0) in Hr by lia. discriminate.
  - intros Hr. destruct m as [|m]; [congruence|lia].
Qed.

End ClassificationFacts.

(** [C3, as stated] A thrown error is retried without being classified:
    a transport that throws an error with status 400 and then accepts the
    mail is called twice, although [isRetryableError] rejects that error. *)
Lemma retry_iff_retryable_fails : ~ Stated.retry_iff_retryable.
Proof.
  intros H.
  specialize (H (fun i => match i with
                          | O => Delivery.SendThrows
                                   {| Delivery.statusCode := Some 400;
                                      Delivery.code := None |}
                          | S _ => Delivery.SendOk
                          end)
                (fun _ => 0%Q) "re_key"
                {| Delivery.statusCode := Some 400; Delivery.code := None |}).
  assert (Hkey : "re_key" <> EmptyString) by discriminate.
  destruct (H Hkey eq_refl) as [Hretry _].
  assert (Hfalse : Delivery.isRetryableError
                     {| Delivery.statusCode := Some 400; Delivery.code := None |} = false)
    by reflexivity.
  rewrite Hretry in Hfalse; [discriminate|].
  vm_compute. lia.
Qed.

(** [C3, amended] [isRetryableError] accepts a non-zero status that is
    429 or at least 500 and, when the status is missing or zero, the codes
    ECONNRESET, ETIMEDOUT and ENOTFOUND, and nothing else.  An error in the
    response is retried exactly when it is accepted and an attempt is
    left; otherwise the call returns [false] at once.  An error thrown by
    the transport is retried whenever an attempt is left.  Without an API
    key no transport call is made and the result is [false]. *)
Theorem retry_follows_classification :
  (forall e : Delivery.ErrorObj,
     Delivery.isRetryableError e = true <->
     (exists sc, Delivery.statusCode e = Some sc /\ sc <> 0
                 /\ (sc = 429 \/ 500 <= sc))
     \/ ((Delivery.statusCode e = None \/ Delivery.statusCode e = Some 0)
         /\ (Delivery.code e = Some "ECONNRESET" \/ Delivery.code e = Some "ETIMEDOUT"
             \/ Delivery.code e = Some "ENOTFOUND")))
  /\ (forall transport random attempt n,
        exists n',
          Delivery.iteration transport random attempt n
          = (Val (match transport (Delivery.sends n) with
                  | Delivery.SendOk => Delivery.Return true
                  | Delivery.SendError e =>
                      if Delivery.isRetryableError e
                         && negb (attempt =? Delivery.maxRetries Delivery.RETRY_CONFIG)%nat
                      then Delivery.Continue else Delivery.Return false
                  | Delivery.SendThrows _ =>
                      if negb (attempt =? Delivery.maxRetries Delivery.RETRY_CONFIG)%nat
                      then Delivery.Continue else Delivery.Return false
                  end), n')
          /\ Delivery.sends n' = S (Delivery.sends n))
  /\ (forall transport random key e,
        key <> EmptyString ->
        transport 0%nat = Delivery.SendError e ->
        Delivery.isRetryableError e = false ->
        exists n',
          Delivery.sendEmail transport random (Some key) Delivery.net0 = (Val false, n')
          /\ Delivery.sends n' = 1%nat /\ Delivery.delays n' = [])
  /\ (forall transport random key e,
        key <> EmptyString ->
        transport 0%nat = Delivery.SendError e ->
        Delivery.isRetryableError e = true ->
        (2 <= Delivery.sends
                (snd (Delivery.sendEmail transport random (Some key) Delivery.net0)))%nat)
  /\ (forall transport random key e,
        key <> EmptyString ->
        transport 0%nat = Delivery.SendThrows e ->
        (2 <= Delivery.sends
                (snd (Delivery.sendEmail transport random (Some key) Delivery.net0)))%nat)
  /\ (forall transport random apiKey n,
        apiKey = None \/ apiKey = Some EmptyString ->
        exists n',
          Delivery.sendEmail transport random apiKey n = (Val false, n')
          /\ Delivery.sends n' = Delivery.sends n).
Proof.
  split; [exact isRetryableError_spec|].
  split.
  { intros transport random attempt n.
    destruct (iteration_spec transport random attempt n) as (n' & Hrun & Hs & _).
    exists n'. split; [|exact Hs]. rewrite Hrun. unfold Stated.retried.
    destruct (transport (Delivery.sends n)); cbn; reflexivity. }
  split.
  { intros transport random key e Hkey Ht Hr.
    destruct (first_outcome_decides transport random key Hkey) as (n' & _ & Hstop & _).
    exists n'. rewrite Ht in Hstop. cbn in Hstop. rewrite Hr in Hstop.
    destruct (Hstop eq_refl) as (Hrun & Hs & Hd). auto. }
  split.
  { intros transport random key e Hkey Ht Hr.
    destruct (first_outcome_decides transport random key Hkey) as (n' & <- & _ & Hgo).
    apply Hgo. rewrite Ht. cbn. rewrite Hr. reflexivity. }
  split.
  { intros transport random key e Hkey Ht.
    destruct (first_outcome_decides transport random key Hkey) as (n' & <- & _ & Hgo).
    apply Hgo. rewrite Ht. reflexivity. }
  intros transport random apiKey n Hk.
  destruct (sendEmail_not_configured transport random apiKey n Hk) as (n' & Hrun & Hs & _).
  eauto.
Qed.

(** A 400 response to the first attempt: one call, no wait, [false]. *)
Lemma retry_follows_classification_witness :
  "re_key" <> EmptyString
  /\ exists n',
       Delivery.sendEmail
         (fun _ => Delivery.SendError
                     {| Delivery.statusCode := Some 400; Delivery.code := None |})
         (fun _ => 0%Q) (Some "re_key") Delivery.net0 = (Val false, n')
       /\ Delivery.sends n' = 1%nat /\ Delivery.delays n' = [].
Proof.
  assert (Hkey : "re_key" <> EmptyString) by discriminate.
  split; [exact Hkey|].
  exact (proj1 (proj2 (proj2 retry_follows_classification))
           (fun _ => Delivery.SendError
                       {| Delivery.statusCode := Some 400; Delivery.code := None |})
           (fun _ => 0%Q) "re_key"
           {| Delivery.statusCode := Some 400; Delivery.code := None |}
           Hkey eq_refl eq_refl).
Defined.

(** * The delivery path and the mutation that triggers it *)

Section NeverThrows.
Import Delivery Stated.

Variable transport : nat -> SendOutcome.
Variable random : nat -> Q.

Lemma attempts_loop_returns (attempts : list nat) (n : Net) :
  exists b n', attempts_loop transport random attempts n = (Val b, n').
Proof.
  revert n. induction attempts as [|attempt rest IH]; intros n.
  - cbn. eauto.
  - cbn [attempts_loop]. unfold bind at 1.
    destruct (iteration_spec transport random attempt n) as (n1 & -> & _).
    destruct (retried attempt (transport (sends n))); [apply IH|].
    cbn. eauto.
Qed.

Lemma sendEmail_returns (apiKey : option string) (n : Net) :
  exists b n', sendEmail transport random apiKey n = (Val b, n').
Proof.
  destruct apiKey as [[|c key]|]; cbn [sendEmail].
  - cbn. eauto.
  - apply attempts_loop_returns.
  - cbn. eauto.
Qed.

(** When no attempt succeeds the result is [false]. *)
Lemma sendEmail_exhausted (apiKey : option string) :
  (forall i, (i <= maxRetries RETRY_CONFIG)%nat -> transport i <> SendOk) ->
  fst (sendEmail transport random apiKey net0) = Val false.
Proof.
  intros Hfail.
  destruct apiKey as [[|c key]|]; try reflexivity.
  destruct (sendEmail_spec transport random (String c key))
    as (n' & m & Hrun & _ & Hm & _); [discriminate|].
  rewrite Hrun. cbn. specialize (Hfail m Hm).
  destruct (transport m); cbn; congruence.
Qed.

End NeverThrows.

Section Dispatch.
Import Db Repo Services.

(** Case analysis on whatever the computation in the goal branches on. *)
Ltac break_match :=
  match goal with
  | |- context [match ?x with _ => _ end] =>
      lazymatch x with
      | context [match _ with _ => _ end] => fail
      | _ => destruct x eqn:?
      end
  end.

Lemma detach_catch_returns (task : IO unit) (warning : string) (w : World) :
  exists w', detach_catch task warning w = (Val tt, w').
Proof.
  unfold detach_catch. destruct (task w) as [[[]|e] w']; cbn; eauto.
Qed.

Ltac step_io :=
  match goal with
  | |- context [detach_catch ?t ?m ?w] =>
      let w' := fresh "w" in
      let H := fresh "H" in
      destruct (detach_catch_returns t m w) as [w' H]; rewrite H; clear H
  | _ => break_match
  end.

(** The value a mutation returns does not depend on what the detached
    notification flow does. *)
Lemma createCase_ignores_notifications P1 P2 data actorId (w : World) :
  fst (createCase P1 data actorId w) = fst (createCase P2 data actorId w).
Proof.
  unfold createCase, bind, ret, throw.
  repeat (step_io; cbn; try reflexivity; try congruence).
Qed.

Lemma updateCase_ignores_notifications P1 P2 caseId data userId userRole (w : World) :
  fst (updateCase P1 caseId data userId userRole w)
  = fst (updateCase P2 caseId data userId userRole w).
Proof.
  unfold updateCase, bind, ret, throw.
  repeat (step_io; cbn; try reflexivity; try congruence).
Qed.

Lemma assignLawyer_ignores_notifications P1 P2 caseId lawyerId assignedBy (w : World) :
  fst (assignLawyer P1 caseId lawyerId assignedBy w)
  = fst (assignLawyer P2 caseId lawyerId assignedBy w).
Proof.
  unfold assignLawyer, bind, ret, throw.
  repeat (step_io; cbn; try reflexivity; try congruence).
Qed.

End Dispatch.

(** [C1] [sendEmail] returns a boolean whatever the transport does and
    never throws; when every attempt fails the boolean is [false].  In
    [createCase], [updateCase] and [assignLawyer] the notification flow is
    dispatched through [detach_catch], which turns a rejection into a
    warning in the log: the result of the mutation, value or error, is the
    same whatever the flow does. *)
Theorem delivery_failure_is_isolated :
  (forall transport random apiKey n,
     exists b n', Delivery.sendEmail transport random apiKey n = (Val b, n'))
  /\ (forall transport random apiKey,
        (forall i, (i <= Delivery.maxRetries Delivery.RETRY_CONFIG)%nat ->
                   transport i <> Delivery.SendOk) ->
        fst (Delivery.sendEmail transport random apiKey Delivery.net0) = Val false)
  /\ (forall task warning w,
        exists w', Services.detach_catch task warning w = (Val tt, w'))
  /\ (forall P1 P2 data actorId w,
        fst (Services.createCase P1 data actorId w)
        = fst (Services.createCase P2 data actorId w))
  /\ (forall P1 P2 caseId data userId userRole w,
        fst (Services.updateCase P1 caseId data userId userRole w)
        = fst (Services.updateCase P2 caseId data userId userRole w))
  /\ (forall P1 P2 caseId lawyerId assignedBy w,
        fst (Services.assignLawyer P1 caseId lawyerId assignedBy w)
        = fst (Services.assignLawyer P2 caseId lawyerId assignedBy w)).
Proof.
  split; [exact sendEmail_returns|].
  split; [exact sendEmail_exhausted|].
  split; [exact detach_catch_returns|].
  split; [exact createCase_ignores_notifications|].
  split; [exact updateCase_ignores_notifications|].
  exact assignLawyer_ignores_notifications.
Qed.

(** A transport that answers 503 to every attempt. *)
Lemma delivery_failure_is_isolated_witness :
  (forall i, (i <= Delivery.maxRetries Delivery.RETRY_CONFIG)%nat ->
             (fun _ : nat => Delivery.SendError
                               {| Delivery.statusCode := Some 503;
                                  Delivery.code := None |}) i
             <> Delivery.SendOk)
  /\ fst (Delivery.sendEmail
            (fun _ => Delivery.SendError
                        {| Delivery.statusCode := Some 503; Delivery.code := None |})
            (fun _ => 0%Q) (Some "re_key") Delivery.net0) = Val false.
Proof.
  assert (H : forall i, (i <= Delivery.maxRetries Delivery.RETRY_CONFIG)%nat ->
                        (fun _ : nat => Delivery.SendError
                                          {| Delivery.statusCode := Some 503;
                                             Delivery.code := None |}) i
                        <> Delivery.SendOk).
  { intros i _. discriminate. }
  split; [exact H|].
  exact (proj1 (proj2 delivery_failure_is_isolated) _ (fun _ => 0%Q) (Some "re_key") H).
Defined.

(** * The notification store *)

Section NotificationFacts.
Import Db Repo Services.

Lemma markAsRead_spec (notificationId userId : Uuid) (w : World) :
  (forall id n, notifications w !! id = Some n -> n_user_id n <> userId ->
                notifications (snd (notificationService_markAsRead notificationId userId w)) !! id
                = Some n)
  /\ (forall n, notifications w !! notificationId = Some n -> n_user_id n <> userId ->
                notificationService_markAsRead notificationId userId w = (Val None, w)).
Proof.
  unfold notificationService_markAsRead. split.
  - intros id n Hid Hne.
    destruct (notifications w !! notificationId) as [n0|] eqn:Hn0; [|exact Hid].
    destruct (N.eqb_spec (n_user_id n0) userId) as [Heq|Hneq]; [|exact Hid].
    cbn. destruct (decide (notificationId = id)) as [->|Hd].
    + rewrite Hid in Hn0. congruence.
    + rewrite lookup_insert_ne; auto.
  - intros n Hn Hne. rewrite Hn.
    destruct (N.eqb_spec (n_user_id n) userId); [contradiction|reflexivity].
Qed.

Lemma markAllAsRead_spec (userId : Uuid) (w : World) :
  forall id n, notifications w !! id = Some n -> n_user_id n <> userId ->
               notifications (snd (notificationService_markAllAsRead userId w)) !! id = Some n.
Proof.
  intros id n Hid Hne. unfold notificationService_markAllAsRead. cbn.
  rewrite lookup_fmap, Hid. cbn.
  destruct (N.eqb_spec (n_user_id n) userId); [contradiction|reflexivity].
Qed.

Lemma delete_spec (notificationId userId : Uuid) (w : World) :
  (forall id n, notifications w !! id = Some n -> n_user_id n <> userId ->
                notifications (snd (notificationService_delete notificationId userId w)) !! id
                = Some n)
  /\ (forall n, notifications w !! notificationId = Some n -> n_user_id n <> userId ->
                notificationService_delete notificationId userId w = (Val false, w)).
Proof.
  unfold notificationService_delete. split.
  - intros id n Hid Hne.
    destruct (notifications w !! notificationId) as [n0|] eqn:Hn0; [|exact Hid].
    destruct (N.eqb_spec (n_user_id n0) userId) as [Heq|Hneq]; [|exact Hid].
    cbn. destruct (decide (notificationId = id)) as [->|Hd].
    + rewrite Hid in Hn0. congruence.
    + rewrite lookup_delete_ne; auto.
  - intros n Hn Hne. rewrite Hn.
    destruct (N.eqb_spec (n_user_id n) userId); [contradiction|reflexivity].
Qed.

End NotificationFacts.

(** [C10] [markAsRead], [markAllAsRead] and [delete] called for the user
    [userId] leave every notification of another user as it is; called
    with the id of a notification of another user, [markAsRead] returns
    [null] and [delete] returns [false], and the store is unchanged. *)
Theorem notifications_are_owner_scoped (userId : Db.Uuid) (w : Db.World) :
  (forall notificationId id n,
     Db.notifications w !! id = Some n -> Db.n_user_id n <> userId ->
     Db.notifications (snd (Services.notificationService_markAsRead notificationId userId w)) !! id
     = Some n)
  /\ (forall id n,
        Db.notifications w !! id = Some n -> Db.n_user_id n <> userId ->
        Db.notifications (snd (Services.notificationService_markAllAsRead userId w)) !! id
        = Some n)
  /\ (forall notificationId id n,
        Db.notifications w !! id = Some n -> Db.n_user_id n <> userId ->
        Db.notifications (snd (Services.notificationService_delete notificationId userId w)) !! id
        = Some n)
  /\ (forall notificationId n,
        Db.notifications w !! notificationId = Some n -> Db.n_user_id n <> userId ->
        Services.notificationService_markAsRead notificationId userId w = (Val None, w)
        /\ Services.notificationService_delete notificationId userId w = (Val false, w)).
Proof.
  split; [intros nid; apply markAsRead_spec|].
  split; [apply markAllAsRead_spec|].
  split; [intros nid; apply delete_spec|].
  intros nid n Hn Hne. split.
  - eapply markAsRead_spec; eauto.
  - eapply delete_spec; eauto.
Qed.

(** Luis asks to mark, and to delete, a notification that belongs to Ana. *)
Lemma notifications_are_owner_scoped_witness :
  Db.notifications Sample.world !! 201%N = Some (Sample.note_for 201 1)
  /\ Db.n_user_id (Sample.note_for 201 1) <> 2%N
  /\ Services.notificationService_markAsRead 201 2 Sample.world = (Val None, Sample.world)
  /\ Services.notificationService_delete 201 2 Sample.world = (Val false, Sample.world).
Proof.
  assert (H1 : Db.notifications Sample.world !! 201%N = Some (Sample.note_for 201 1))
    by (vm_compute; reflexivity).
  assert (H2 : Db.n_user_id (Sample.note_for 201 1) <> 2%N) by (cbn; lia).
  split; [exact H1|]. split; [exact H2|].
  exact (proj2 (proj2 (proj2 (notifications_are_owner_scoped 2%N Sample.world)))
           201%N (Sample.note_for 201 1) H1 H2).
Defined.

(** * Routing of a message notification *)

Section MessageRouting.
Import Db Repo Services.

Variable transport : EmailRequest -> nat -> Delivery.SendOutcome.
Variable random : nat -> Q.
Variable apiKey : option string.

Lemma detached_mail (req : EmailRequest) (warning : string) (w : World) :
  exists w',
    detach_catch (emailNotificationService_send transport random apiKey req ;;; ret tt)
      warning w = (Val tt, w')
    /\ outbox w' = (outbox w ++ [req])%list
    /\ notifications w' = notifications w
    /\ cases w' = cases w
    /\ case_events w' = case_events w.
Proof.
  unfold detach_catch, emailNotificationService_send, bind, ret.
  destruct (sendEmail_returns (transport req) random apiKey Delivery.net0)
    as (b & n' & ->).
  cbn. eexists. repeat split.
Qed.

Lemma notifyNewMessage_routes (caseId : Uuid) (caseNumber : string) (senderId : Uuid)
    (senderName messageContent : string) (w : World) (info : MessageCaseInfo) :
  select_message_case_info caseId w = Some info ->
  exists w',
    notifyNewMessage transport random apiKey caseId caseNumber senderId senderName
      messageContent w = (Val tt, w')
    /\ (senderId = client_user_id info ->
        forall lawyerUserId, lawyer_user_id info = Some lawyerUserId ->
        Stated.message_notified w w' lawyerUserId caseId (or_null (lawyer_email info)))
    /\ (senderId = client_user_id info -> lawyer_user_id info = None -> w' = w)
    /\ (senderId <> client_user_id info ->
        Stated.message_notified w w' (client_user_id info) caseId (client_email info)).
Proof.
  intros Hinfo. unfold notifyNewMessage. unfold bind at 1, get. rewrite Hinfo.
  destruct (N.eqb_spec senderId (client_user_id info)) as [Heq|Hne].
  - destruct (lawyer_user_id info) as [l|] eqn:Hl.
    + unfold bind at 1.
      unfold notificationService_create, uuid_generate_v4, bind, get, modify, logger, ret.
      cbn.
      match goal with
      | |- context [detach_catch ?t ?m ?w0] =>
          destruct (detached_mail
                      {| em_to := or_null (lawyer_email info); em_template := "newMessage";
                         em_case_id := Some caseId |} m w0)
            as (w' & Hrun & Hout & Hnot & _)
      end.
      exists w'. split; [exact Hrun|]. split; [|split].
      * intros _ l' [= <-]. eexists. rewrite Hnot, Hout. cbn. repeat split.
      * intros _ [=].
      * intros Hc. contradiction.
    + exists w. cbn. repeat split; try congruence.
  - unfold bind at 1.
    unfold notificationService_create, uuid_generate_v4, bind, get, modify, logger, ret.
    cbn.
    match goal with
    | |- context [detach_catch ?t ?m ?w0] =>
        destruct (detached_mail
                    {| em_to := client_email info; em_template := "newMessage";
                       em_case_id := Some caseId |} m w0)
          as (w' & Hrun & Hout & Hnot & _)
    end.
    exists w'. split; [exact Hrun|]. split; [|split].
    + intros Hc. contradiction.
    + intros Hc. contradiction.
    + intros _. eexists. rewrite Hnot, Hout. cbn. repeat split.
Qed.

Lemma select_message_case_info_rows caseId (w : World) c cl cu :
  cases w !! caseId = Some c ->
  clients w !! c_client_id c = Some cl ->
  users w !! cl_user_id cl = Some cu ->
  exists info,
    select_message_case_info caseId w = Some info
    /\ client_user_id info = cl_user_id cl
    /\ client_email info = u_email cu
    /\ (c_lawyer_id c = None -> lawyer_user_id info = None)
    /\ (forall lid l, c_lawyer_id c = Some lid -> lawyers w !! lid = Some l ->
        lawyer_user_id info = Some (l_user_id l)
        /\ lawyer_email info = u_email <$> users w !! l_user_id l).
Proof.
  intros Hc Hcl Hcu. unfold select_message_case_info. rewrite Hc, Hcl, Hcu.
  eexists. split; [reflexivity|]. cbn. split; [reflexivity|]. split; [reflexivity|].
  split.
  - intros ->. reflexivity.
  - intros lid l Hlid Hl. rewrite Hlid, Hl. split; reflexivity.
Qed.

End MessageRouting.

(** [C7] [notifyNewMessage] picks the recipient by comparing the sender's
    user id with the user id of the case's client; the role of the sender
    is not an input.  A message of the client yields one in-app
    notification for the user of the assigned lawyer and one mail to that
    user's address; a message of anybody else yields one in-app
    notification for the client's user and one mail to the client's
    address; a message of the client on a case without a lawyer changes
    nothing and raises no error. *)
Theorem message_goes_to_other_party
    (transport : Db.EmailRequest -> nat -> Delivery.SendOutcome) (random : nat -> Q)
    (apiKey : option string) (caseId : Db.Uuid) (caseNumber : string)
    (senderId : Db.Uuid) (senderName messageContent : string)
    (w : Db.World) (c : Db.Case) (cl : Db.Client) (cu : Db.User) :
  Db.cases w !! caseId = Some c ->
  Db.clients w !! Db.c_client_id c = Some cl ->
  Db.users w !! Db.cl_user_id cl = Some cu ->
  exists w',
    Services.notifyNewMessage transport random apiKey caseId caseNumber senderId
      senderName messageContent w = (Val tt, w')
    /\ (senderId = Db.cl_user_id cl ->
        forall lid l,
          Db.c_lawyer_id c = Some lid -> Db.lawyers w !! lid = Some l ->
          Stated.message_notified w w' (Db.l_user_id l) caseId
            (Services.or_null (Db.u_email <$> Db.users w !! Db.l_user_id l)))
    /\ (senderId = Db.cl_user_id cl -> Db.c_lawyer_id c = None -> w' = w)
    /\ (senderId <> Db.cl_user_id cl ->
        Stated.message_notified w w' (Db.cl_user_id cl) caseId (Db.u_email cu)).
Proof.
  intros Hc Hcl Hcu.
  destruct (select_message_case_info_rows caseId w c cl cu Hc Hcl Hcu)
    as (info & Hinfo & Hcu_id & Hmail & Hnone & Hsome).
  destruct (notifyNewMessage_routes transport random apiKey caseId caseNumber senderId
              senderName messageContent w info Hinfo)
    as (w' & Hrun & Hlawyer & Hnobody & Hclient).
  exists w'. split; [exact Hrun|]. rewrite Hcu_id, Hmail in *. split; [|split].
  - intros Hs lid l Hlid Hl. destruct (Hsome lid l Hlid Hl) as [Hu He].
    rewrite <- He. apply Hlawyer; auto.
  - intros Hs Hlid. apply Hnobody; auto.
  - exact Hclient.
Qed.

(** Ana writes on her case 102, which Luis handles: Luis is notified. *)
Lemma message_goes_to_other_party_witness :
  Db.cases Sample.world !! 102%N = Some Sample.case_b
  /\ Db.clients Sample.world !! Db.c_client_id Sample.case_b
     = Some {| Db.cl_id := 11; Db.cl_user_id := 1 |}
  /\ Db.users Sample.world !! 1%N = Some Sample.ana
  /\ exists w',
       Services.notifyNewMessage Sample.transport_down Sample.no_jitter Sample.key
         102 "2027-PI-0002" 1 "Ana Lopez" "Hello" Sample.world = (Val tt, w')
       /\ Stated.message_notified Sample.world w' 2%N 102%N "luis@example.com".
Proof.
  assert (H1 : Db.cases Sample.world !! 102%N = Some Sample.case_b)
    by (vm_compute; reflexivity).
  assert (H2 : Db.clients Sample.world !! Db.c_client_id Sample.case_b
               = Some {| Db.cl_id := 11; Db.cl_user_id := 1 |})
    by (vm_compute; reflexivity).
  assert (H3 : Db.users Sample.world !! 1%N = Some Sample.ana)
    by (vm_compute; reflexivity).
  split; [exact H1|]. split; [exact H2|]. split; [exact H3|].
  destruct (message_goes_to_other_party Sample.transport_down Sample.no_jitter Sample.key
              102 "2027-PI-0002" 1 "Ana Lopez" "Hello" Sample.world
              Sample.case_b {| Db.cl_id := 11; Db.cl_user_id := 1 |} Sample.ana H1 H2 H3)
    as (w' & Hrun & Hlawyer & _).
  exists w'. split; [exact Hrun|].
  exact (Hlawyer eq_refl 21%N
           {| Db.l_id := 21; Db.l_user_id := 2; Db.l_is_available := true |}
           eq_refl ltac:(vm_compute; reflexivity)).
Defined.

(** * Activity timestamps *)

Import Db Repo Services Steps.

Lemma step_ok_refl (w : World) : step_ok w w.
Proof.
  split; [reflexivity|]. split.
  - intros id c Hc. eauto.
  - exists []. rewrite app_nil_r. split; [reflexivity|].
    intros ev Hev. inversion Hev.
Qed.

Lemma step_ok_same (w w' : World) :
  now w' = now w -> cases w' = cases w -> case_events w' = case_events w ->
  step_ok w w'.
Proof.
  intros Hn Hc He. unfold step_ok. rewrite Hn, Hc, He. apply step_ok_refl.
Qed.

Lemma step_ok_trans (w1 w2 w3 : World) :
  step_ok w1 w2 -> step_ok w2 w3 -> step_ok w1 w3.
Proof.
  intros (Hn1 & Hc1 & evs1 & He1 & Hev1) (Hn2 & Hc2 & evs2 & He2 & Hev2).
  split; [congruence|]. split.
  - intros id c Hc. destruct (Hc1 id c Hc) as (c' & Hc' & Hl').
    destruct (Hc2 id c' Hc') as (c'' & Hc'' & Hl'').
    exists c''. split; [exact Hc''|]. rewrite Hn1 in Hl''.
    destruct Hl' as [Hl'|Hl'], Hl'' as [Hl''|Hl'']; rewrite Hl''; auto.
  - exists (evs1 ++ evs2)%list. split.
    + rewrite He2, He1, app_assoc. reflexivity.
    + intros ev Hev. apply elem_of_app in Hev as [Hev|Hev].
      * destruct (Hev1 ev Hev) as (Ht & c' & Hc' & Hl').
        split; [exact Ht|].
        destruct (Hc2 _ c' Hc') as (c'' & Hc'' & Hl'').
        exists c''. split; [exact Hc''|]. rewrite Hn1 in Hl''.
        destruct Hl'' as [Hl''|Hl'']; congruence.
      * destruct (Hev2 ev Hev) as (Ht & c' & Hc' & Hl').
        split; [congruence|]. exists c'. split; [exact Hc'|congruence].
Qed.

(** Under [clock_ok] such a step advances the activity. *)
Lemma step_ok_advanced (w w' : World) :
  Stated.clock_ok w -> step_ok w w' -> Stated.activity_advanced w w'.
Proof.
  intros Hclock (Hn & Hc & evs & He & Hev). split.
  - intros id c Hid. destruct (Hc id c Hid) as (c' & Hc' & Hl).
    exists c'. split; [exact Hc'|]. specialize (Hclock id c Hid).
    destruct Hl as [-> | ->]; lia.
  - exists evs. split; [exact He|].
    intros ev Hin. destruct (Hev ev Hin) as (Ht & c' & Hc' & Hl).
    exists c'. split; [exact Hc'|]. lia.
Qed.

Lemma io_ok_ret {A} (a : A) : io_ok (ret a).
Proof. intros w. apply step_ok_refl. Qed.

Lemma io_ok_throw {A} (e : AppError) : io_ok (@throw World AppError A e).
Proof. intros w. apply step_ok_refl. Qed.

Lemma io_ok_get : io_ok (@get World AppError).
Proof. intros w. apply step_ok_refl. Qed.

Lemma io_ok_bind {A B} (m : IO A) (k : A -> IO B) :
  io_ok m -> (forall a, io_ok (k a)) -> io_ok (bind m k).
Proof.
  intros Hm Hk w. unfold bind. specialize (Hm w).
  destruct (m w) as [[a|e] w1]; cbn in *; [|exact Hm].
  eapply step_ok_trans; [exact Hm|]. apply Hk.
Qed.

Lemma io_ok_try_catch {A} (m : IO A) (h : AppError -> IO A) :
  io_ok m -> (forall e, io_ok (h e)) -> io_ok (try_catch m h).
Proof.
  intros Hm Hh w. unfold try_catch. specialize (Hm w).
  destruct (m w) as [[a|e] w1]; cbn in *; [exact Hm|].
  eapply step_ok_trans; [exact Hm|]. apply Hh.
Qed.

Lemma io_ok_logger (l : LogLine) : io_ok (logger l).
Proof. intros w. apply step_ok_same; reflexivity. Qed.

Lemma io_ok_findById {A} (table : World -> gmap Uuid A) (id : Uuid) :
  io_ok (findById table id).
Proof. intros w. apply step_ok_refl. Qed.

Lemma io_ok_uuid : io_ok uuid_generate_v4.
Proof. intros w. apply step_ok_same; reflexivity. Qed.

Lemma io_ok_detach (task : IO unit) (warning : string) :
  Stated.notification_only task -> io_ok (detach_catch task warning).
Proof.
  intros Hframe w. unfold detach_catch. destruct (Hframe w) as (Hc & He & Hn).
  destruct (task w) as [[u|e] w1]; cbn in *; apply step_ok_same; auto.
Qed.

Lemma io_ok_transaction {A} (m : IO A) : io_ok m -> io_ok (transaction m).
Proof.
  intros Hm w. unfold transaction. specialize (Hm w).
  destruct (m w) as [[a|e] w1]; cbn in *; [exact Hm|].
  destruct Hm as (Hn & _). apply step_ok_same; reflexivity.
Qed.

Lemma io_ok_generate_case_number : io_ok generate_case_number.
Proof. intros w. apply step_ok_same; reflexivity. Qed.

(** The trigger sets the activity time of the case to the clock. *)
Lemma lookup_touched (w : World) (caseId id : Uuid) (c : Case) :
  cases w !! id = Some c ->
  exists c', alter (touch (now w)) caseId (cases w) !! id = Some c'
             /\ (c_last_activity_at c' = c_last_activity_at c
                 \/ c_last_activity_at c' = now w)
             /\ (id = caseId -> c_last_activity_at c' = now w).
Proof.
  intros Hc. destruct (decide (caseId = id)) as [->|Hne].
  - rewrite lookup_alter_eq, Hc. cbn. eexists. split; [reflexivity|]. cbn. auto.
  - rewrite lookup_alter_ne, Hc by auto. eexists. split; [reflexivity|].
    split; auto. congruence.
Qed.

Lemma io_ok_insert_case_event caseId ty actor description metadata :
  io_ok (insert_case_event caseId ty actor description metadata).
Proof.
  intros w. unfold insert_case_event.
  destruct ty as [ty|]; [|apply step_ok_refl].
  destruct (CaseEventType.in_sql_enum ty); cbn; [|apply step_ok_refl].
  destruct (cases w !! caseId) as [c0|] eqn:Hc0; cbn; [|apply step_ok_refl].
  split; [reflexivity|]. split.
  - intros id c Hc. destruct (lookup_touched w caseId id c Hc) as (c' & H1 & H2 & _).
    eauto.
  - eexists. split; [reflexivity|].
    intros ev Hev. apply list_elem_of_singleton in Hev as ->. cbn.
    split; [reflexivity|].
    destruct (lookup_touched w caseId caseId c0 Hc0) as (c' & H1 & _ & H3).
    exists c'. auto.
Qed.

Lemma io_ok_insert_case id number client_id lawyer_id title description case_type
    status priority :
  io_ok (insert_case id number client_id lawyer_id title description case_type
           status priority).
Proof.
  intros w. unfold insert_case.
  destruct (case_number_taken number w); cbn; [apply step_ok_refl|].
  split; [reflexivity|]. split.
  - intros id' c Hc. cbn. destruct (decide (id = id')) as [->|Hne].
    + rewrite lookup_insert_eq. eexists. split; [reflexivity|]. cbn. auto.
    + rewrite lookup_insert_ne by auto. eauto.
  - exists []. rewrite app_nil_r. split; [reflexivity|].
    intros ev Hev. inversion Hev.
Qed.

Lemma io_ok_update (id : Uuid) (data : UpdateCaseData) :
  io_ok (caseRepository_update id data).
Proof.
  intros w. unfold caseRepository_update.
  destruct (no_fields data); [apply step_ok_refl|].
  destruct (cases w !! id) as [c0|] eqn:Hc0; cbn; [|apply step_ok_refl].
  split; [reflexivity|]. split.
  - intros id' c Hc. cbn. destruct (decide (id = id')) as [->|Hne].
    + rewrite lookup_insert_eq. eexists. split; [reflexivity|]. cbn.
      left. congruence.
    + rewrite lookup_insert_ne by auto. eauto.
  - exists []. rewrite app_nil_r. split; [reflexivity|].
    intros ev Hev. inversion Hev.
Qed.

Lemma io_ok_message_create (case_id sender_id : Uuid) (content : string) :
  io_ok (messageRepository_create case_id sender_id content).
Proof.
  apply io_ok_bind; [apply io_ok_uuid|]. intros id w. cbn.
  split; [reflexivity|]. split.
  - intros id' c Hc. destruct (lookup_touched w case_id id' c Hc) as (c' & H1 & H2 & _).
    eauto.
  - exists []. rewrite app_nil_r. split; [reflexivity|].
    intros ev Hev. inversion Hev.
Qed.

Lemma io_ok_document_create (case_id uploaded_by : Uuid) (name : string) :
  io_ok (documentRepository_create case_id uploaded_by name).
Proof.
  apply io_ok_bind; [apply io_ok_uuid|]. intros id w. cbn.
  apply step_ok_same; reflexivity.
Qed.

Lemma io_ok_state_kept {A} (m : IO A) :
  (forall w, snd (m w) = w) -> io_ok m.
Proof. intros H w. rewrite H. apply step_ok_refl. Qed.

Lemma io_ok_modify (f : World -> World) :
  (forall w, now (f w) = now w /\ cases (f w) = cases w
             /\ case_events (f w) = case_events w) ->
  io_ok (modify f).
Proof. intros H w. cbn. destruct (H w) as (? & ? & ?). apply step_ok_same; auto. Qed.

Create HintDb io_ok.
#[export] Hint Resolve io_ok_ret io_ok_throw io_ok_get io_ok_logger io_ok_findById io_ok_uuid
  io_ok_generate_case_number io_ok_insert_case_event io_ok_insert_case io_ok_update
  io_ok_message_create io_ok_document_create io_ok_transaction : io_ok.

(** Decompose a computation into its steps. *)
Ltac io_ok_steps :=
  repeat first
    [ solve [eauto with io_ok]
    | apply io_ok_bind; [|intros ?]
    | apply io_ok_try_catch; [|intros ?]
    | apply io_ok_transaction
    | match goal with
      | |- io_ok (match ?x with _ => _ end) => destruct x
      | |- io_ok (let (_, _) := ?x in _) => destruct x
      end ].

Lemma io_ok_checkCaseAccess client_id lawyer_id userId userRole denied :
  io_ok (checkCaseAccess client_id lawyer_id userId userRole denied).
Proof.
  unfold checkCaseAccess, clientRepository_findByUserId, lawyerRepository_findByUserId.
  destruct userRole; io_ok_steps; apply io_ok_state_kept; reflexivity.
Qed.

Lemma io_ok_createWithEvent data actorId :
  io_ok (caseRepository_createWithEvent data actorId).
Proof. unfold caseRepository_createWithEvent. io_ok_steps. Qed.

#[export] Hint Resolve io_ok_checkCaseAccess io_ok_createWithEvent : io_ok.

(** Computations that leave the cases, the event log and the clock alone. *)
Lemma frame_ret {A} (a : A) : Stated.notification_only (@ret World AppError A a).
Proof. intros w. auto. Qed.

Lemma frame_throw {A} (e : AppError) : Stated.notification_only (@throw World AppError A e).
Proof. intros w. auto. Qed.

Lemma frame_get : Stated.notification_only (@get World AppError).
Proof. intros w. auto. Qed.

Lemma frame_bind {A B} (m : IO A) (k : A -> IO B) :
  Stated.notification_only m -> (forall a, Stated.notification_only (k a)) ->
  Stated.notification_only (bind m k).
Proof.
  intros Hm Hk w. unfold bind. destruct (Hm w) as (H1 & H2 & H3).
  destruct (m w) as [[a|e] w1]; cbn in *; auto.
  destruct (Hk a w1) as (H4 & H5 & H6). repeat split; congruence.
Qed.

Lemma frame_try_catch {A} (m : IO A) (h : AppError -> IO A) :
  Stated.notification_only m -> (forall e, Stated.notification_only (h e)) ->
  Stated.notification_only (try_catch m h).
Proof.
  intros Hm Hh w. unfold try_catch. destruct (Hm w) as (H1 & H2 & H3).
  destruct (m w) as [[a|e] w1]; cbn in *; auto.
  destruct (Hh e w1) as (H4 & H5 & H6). repeat split; congruence.
Qed.

Lemma frame_logger (l : LogLine) : Stated.notification_only (logger l).
Proof. intros w. auto. Qed.

Lemma frame_findById {A} (table : World -> gmap Uuid A) (id : Uuid) :
  Stated.notification_only (findById table id).
Proof. intros w. auto. Qed.

Lemma frame_uuid : Stated.notification_only uuid_generate_v4.
Proof. intros w. auto. Qed.

Lemma frame_detach (task : IO unit) (warning : string) :
  Stated.notification_only task -> Stated.notification_only (detach_catch task warning).
Proof.
  intros Hframe w. unfold detach_catch. destruct (Hframe w) as (Hc & He & Hn).
  destruct (task w) as [[u|e] w1]; cbn in *; auto.
Qed.

Lemma frame_create (input : CreateNotificationInput) :
  Stated.notification_only (notificationService_create input).
Proof. intros w. cbn. auto. Qed.

Lemma frame_send transport random apiKey (req : EmailRequest) :
  Stated.notification_only (emailNotificationService_send transport random apiKey req).
Proof.
  intros w. unfold emailNotificationService_send.
  destruct (Delivery.sendEmail (transport req) random apiKey Delivery.net0) as [[b|e] n];
    cbn; auto.
Qed.

Create HintDb frame.
#[export] Hint Resolve frame_ret frame_throw frame_get frame_logger frame_findById frame_uuid
  frame_create frame_send : frame.

Ltac frame_steps :=
  repeat first
    [ solve [eauto with frame]
    | apply frame_bind; [|intros ?]
    | apply frame_try_catch; [|intros ?]
    | apply frame_detach
    | match goal with
      | |- Stated.notification_only (match ?x with _ => _ end) => destruct x
      | |- Stated.notification_only (if ?x then _ else _) => destruct x
      end ].

Lemma frame_notifyNewMessage transport random apiKey caseId caseNumber senderId
    senderName messageContent :
  Stated.notification_only
    (notifyNewMessage transport random apiKey caseId caseNumber senderId senderName
       messageContent).
Proof. unfold notifyNewMessage. frame_steps. Qed.

Lemma frame_sendMessageNotification transport random apiKey caseId caseNumber senderId
    messageContent :
  Stated.notification_only
    (sendMessageNotification transport random apiKey caseId caseNumber senderId
       messageContent).
Proof.
  unfold sendMessageNotification, userRepository_findById.
  apply frame_bind; [eauto with frame|]. intros sender.
  apply frame_notifyNewMessage.
Qed.

(** Reading a successful run backwards. *)
Lemma bind_val {A B} (m : IO A) (k : A -> IO B) (w w' : World) (b : B) :
  bind m k w = (Val b, w') ->
  exists a w1, m w = (Val a, w1) /\ k a w1 = (Val b, w').
Proof.
  unfold bind. destruct (m w) as [[a|e] w1]; [eauto|discriminate].
Qed.

Lemma ret_val {A} (a b : A) (w w' : World) :
  @ret World AppError A a w = (Val b, w') -> a = b /\ w = w'.
Proof. unfold ret. intros [= -> ->]. auto. Qed.

Lemma io_ok_run {A} (m : IO A) (w w' : World) (r : res AppError A) :
  io_ok m -> m w = (r, w') -> step_ok w w'.
Proof. intros Hm Hrun. specialize (Hm w). rewrite Hrun in Hm. exact Hm. Qed.

Lemma active_at_kept (w w' : World) (id : Uuid) :
  step_ok w w' -> Stated.active_at (now w) id w -> Stated.active_at (now w) id w'.
Proof.
  intros (Hn & Hc & _) (c & Hid & Hl).
  destruct (Hc id c Hid) as (c' & Hid' & Hl').
  exists c'. split; [exact Hid'|]. destruct Hl'; congruence.
Qed.

(** What a successful append does: the event closes the log and carries
    the time of the clock, which becomes the activity time of its case. *)
Lemma event_append_bumps caseId ty actor description metadata (w w' : World) ev :
  caseEventRepository_create caseId ty actor description metadata w = (Val ev, w') ->
  case_events w' = (case_events w ++ [ev])%list
  /\ e_case_id ev = caseId
  /\ e_created_at ev = now w
  /\ now w' = now w
  /\ Stated.active_at (e_created_at ev) caseId w'.
Proof.
  unfold caseEventRepository_create, insert_case_event.
  destruct ty as [ty|]; [|discriminate].
  destruct (CaseEventType.in_sql_enum ty); cbn; [|discriminate].
  destruct (cases w !! caseId) as [c0|] eqn:Hc0; [|discriminate].
  intros [= <- <-]. cbn. repeat split.
  destruct (lookup_touched w caseId caseId c0 Hc0) as (c' & H1 & _ & H3).
  exists c'. auto.
Qed.

Lemma transaction_val {A} (m : IO A) (w w' : World) (a : A) :
  transaction m w = (Val a, w') -> m w = (Val a, w').
Proof.
  unfold transaction. destruct (m w) as [[a'|e] w1]; [auto|discriminate].
Qed.

(** Split a successful run into the successful runs of its steps. *)
Ltac run_inv :=
  repeat match goal with
    | H : bind _ _ _ = (Val _, _) |- _ =>
        let a := fresh "a" in
        let w1 := fresh "w" in
        let H1 := fresh "Hrun" in
        let H2 := fresh "Hrun" in
        apply bind_val in H; destruct H as (a & w1 & H1 & H2)
    | H : transaction _ _ = (Val _, _) |- _ => apply transaction_val in H
    | H : ret _ _ = (Val _, _) |- _ => apply ret_val in H; destruct H; subst
    | H : throw _ _ = (Val _, _) |- _ => discriminate H
    | H : (Exn _, _) = (Val _, _) |- _ => discriminate H
    | H : (match ?x with _ => _ end) _ = (Val _, _) |- _ => destruct x eqn:?
    end.

Section Flows.

Variable transport : EmailRequest -> nat -> Delivery.SendOutcome.
Variable random : nat -> Q.
Variable apiKey : option string.
Variable isAllowedMimeType : string -> bool.
Variable maxSizeBytes : Z.
Variable writeFile_fails : Uuid -> string -> bool.
Variable sendCaseCreationNotifications :
  Uuid -> Uuid -> string -> string -> string -> option Uuid -> option string -> IO unit.
Variable notifyClientCaseStatusUpdate :
  Uuid -> CaseStatus.t -> string -> CaseStatus.t -> IO unit.
Variable notifyLawyerAssignment : Uuid -> string -> Uuid -> IO unit.
Variable sendDocumentUploadNotifications :
  Uuid -> string -> Uuid -> UserRole.t -> string -> IO unit.

Hypothesis creation_flow :
  forall a b c d e f g,
    Stated.notification_only (sendCaseCreationNotifications a b c d e f g).
Hypothesis status_flow :
  forall a b c d, Stated.notification_only (notifyClientCaseStatusUpdate a b c d).
Hypothesis assignment_flow :
  forall a b c, Stated.notification_only (notifyLawyerAssignment a b c).
Hypothesis upload_flow :
  forall a b c d e,
    Stated.notification_only (sendDocumentUploadNotifications a b c d e).

Lemma io_ok_createCase data actorId :
  io_ok (createCase sendCaseCreationNotifications data actorId).
Proof.
  unfold createCase, clientRepository_findById, lawyerRepository_findById,
    userRepository_findById.
  io_ok_steps; apply io_ok_detach, creation_flow.
Qed.

Lemma io_ok_updateCase caseId data userId userRole :
  io_ok (updateCase notifyClientCaseStatusUpdate caseId data userId userRole).
Proof.
  unfold updateCase, caseRepository_findById, caseEventRepository_create.
  io_ok_steps; apply io_ok_detach, status_flow.
Qed.

Lemma io_ok_assignLawyer caseId lawyerId assignedBy :
  io_ok (assignLawyer notifyLawyerAssignment caseId lawyerId assignedBy).
Proof.
  unfold assignLawyer, caseRepository_findById, lawyerRepository_findById,
    caseRepository_assignLawyer, caseEventRepository_create.
  io_ok_steps; apply io_ok_detach, assignment_flow.
Qed.

Lemma io_ok_saveFile caseId file :
  io_ok (saveFile maxSizeBytes writeFile_fails caseId file).
Proof. unfold saveFile. io_ok_steps. Qed.

#[local] Hint Resolve io_ok_saveFile : io_ok.

(** The flows of this section are steps. *)
Ltac flow_ok :=
  first [ apply io_ok_detach;
          first [ apply creation_flow | apply status_flow | apply assignment_flow
                | apply upload_flow | apply frame_sendMessageNotification ]
        | io_ok_steps ].

(** Every run among the hypotheses is a step. *)
Ltac steps_ok :=
  repeat match goal with
    | H : ?m ?w = (?r, ?w') |- _ =>
        lazymatch goal with
        | _ : step_ok w w' |- _ => fail
        | _ => assert (step_ok w w') by (eapply io_ok_run; [|exact H]; flow_ok)
        end
    end.

Lemma active_at_step (w w' : World) (id : Uuid) (t : Timestamp) :
  step_ok w w' -> now w = t -> Stated.active_at t id w -> Stated.active_at t id w'.
Proof. intros Hs <- Ha. eapply active_at_kept; eauto. Qed.

(** The activity time an append gave the case is still there at the end
    of the run. *)
Ltac still_active :=
  match goal with
  | Hev : ?append _ _ _ _ _ _ = (Val _, _) |- _ =>
      first [ unify append caseEventRepository_create | unify append insert_case_event ];
      let Hb := fresh "Hb" in
      let Hact := fresh "Hact" in
      pose proof (event_append_bumps _ _ _ _ _ _ _ _ Hev) as (_ & _ & Hb & _ & Hact);
      steps_ok;
      repeat match goal with
        | H : step_ok ?a ?b |- _ =>
            lazymatch goal with
            | _ : now b = now a |- _ => fail
            | _ => pose proof (proj1 H)
            end
        end;
      repeat first
        [ match goal with
          | Ha : Stated.active_at ?t' ?id ?b |- Stated.active_at ?t ?id ?b =>
              replace t with t' by congruence; exact Ha
          end
        | match goal with
          | H : step_ok ?a ?b |- Stated.active_at ?t ?id ?b =>
              apply (active_at_step a b id t H); [congruence|]
          end ]
  end.

Lemma assignLawyer_bumps caseId lawyerId assignedBy (w w' : World) r :
  assignLawyer notifyLawyerAssignment caseId lawyerId assignedBy w = (Val r, w') ->
  Stated.active_at (now w) caseId w'.
Proof.
  unfold assignLawyer, caseRepository_findById, lawyerRepository_findById.
  intros H. run_inv. still_active.
Qed.

Lemma updateCase_bumps caseId data userId userRole (w w' : World) r c status :
  updateCase notifyClientCaseStatusUpdate caseId data userId userRole w = (Val r, w') ->
  cases w !! caseId = Some c ->
  uc_status data = Some status ->
  status <> c_status c ->
  Stated.active_at (now w) caseId w'.
Proof.
  unfold updateCase, caseRepository_findById.
  intros H Hc Hst Hne. rewrite Hst in H.
  unfold bind at 1, findById in H. rewrite Hc in H. run_inv.
  all: try match goal with
         | H : bool_decide _ = true |- _ => apply bool_decide_eq_true in H; contradiction
         end.
  all: still_active.
Qed.

Lemma createCase_bumps data actorId (w w' : World) r :
  createCase sendCaseCreationNotifications data actorId w = (Val r, w') ->
  Stated.active_at (now w) (c_id r) w'.
Proof.
  unfold createCase, clientRepository_findById, lawyerRepository_findById,
    userRepository_findById, caseRepository_createWithEvent.
  intros H. run_inv; still_active.
Qed.

Lemma io_ok_sendMessage caseId senderId senderRole content :
  io_ok (sendMessage transport random apiKey caseId senderId senderRole content).
Proof.
  unfold sendMessage, caseRepository_findById, caseEventRepository_create,
    userRepository_findById.
  io_ok_steps. apply io_ok_detach, frame_sendMessageNotification.
Qed.

Lemma io_ok_uploadDocument caseId file uploaderId userRole :
  io_ok (uploadDocument isAllowedMimeType maxSizeBytes writeFile_fails
           sendDocumentUploadNotifications caseId file uploaderId userRole).
Proof.
  unfold uploadDocument, saveFile, caseRepository_findById, caseEventRepository_create.
  io_ok_steps; apply io_ok_detach, upload_flow.
Qed.

Lemma sendMessage_bumps caseId senderId senderRole content (w w' : World) r :
  sendMessage transport random apiKey caseId senderId senderRole content w = (Val r, w') ->
  Stated.active_at (now w) caseId w'.
Proof.
  unfold sendMessage, caseRepository_findById, userRepository_findById.
  intros H. run_inv; still_active.
Qed.

Lemma uploadDocument_bumps caseId file uploaderId userRole (w w' : World) r :
  uploadDocument isAllowedMimeType maxSizeBytes writeFile_fails
    sendDocumentUploadNotifications caseId file uploaderId userRole w = (Val r, w') ->
  Stated.active_at (now w) caseId w'.
Proof.
  unfold uploadDocument, caseRepository_findById.
  intros H. run_inv; still_active.
Qed.

End Flows.

Section ActivityClaim.
Import Db Repo Services.

Variable transport : EmailRequest -> nat -> Delivery.SendOutcome.
Variable random : nat -> Q.
Variable apiKey : option string.
Variable isAllowedMimeType : string -> bool.
Variable maxSizeBytes : Z.
Variable writeFile_fails : Uuid -> string -> bool.
Variable sendCaseCreationNotifications :
  Uuid -> Uuid -> string -> string -> string -> option Uuid -> option string -> IO unit.
Variable notifyClientCaseStatusUpdate :
  Uuid -> CaseStatus.t -> string -> CaseStatus.t -> IO unit.
Variable notifyLawyerAssignment : Uuid -> string -> Uuid -> IO unit.
Variable sendDocumentUploadNotifications :
  Uuid -> string -> Uuid -> UserRole.t -> string -> IO unit.

(** [C5] An append to the event log of a case sets the case's
    [last_activity_at] to the time of the append, the [created_at] of the
    event.  Hence, when the notification flows write no case and no event
    and no case was active in the future, a successful [createCase],
    [updateCase], [assignLawyer], [sendMessage] or [uploadDocument] leaves
    no case with an earlier [last_activity_at] than before, leaves every
    event it appended not younger than the [last_activity_at] of its case,
    and (for [updateCase]: when the status changes) leaves the case it
    worked on active at the time of the mutation. *)
Theorem last_activity_follows_events :
  (forall a b c d e f g,
     Stated.notification_only (sendCaseCreationNotifications a b c d e f g)) ->
  (forall a b c d, Stated.notification_only (notifyClientCaseStatusUpdate a b c d)) ->
  (forall a b c, Stated.notification_only (notifyLawyerAssignment a b c)) ->
  (forall a b c d e,
     Stated.notification_only (sendDocumentUploadNotifications a b c d e)) ->
  (forall caseId ty actor description metadata w w' ev,
     caseEventRepository_create caseId ty actor description metadata w = (Val ev, w') ->
     case_events w' = (case_events w ++ [ev])%list
     /\ e_case_id ev = caseId
     /\ e_created_at ev = now w
     /\ Stated.active_at (e_created_at ev) caseId w')
  /\ (forall data actorId w w' r,
        Stated.clock_ok w ->
        createCase sendCaseCreationNotifications data actorId w = (Val r, w') ->
        Stated.activity_advanced w w' /\ Stated.active_at (now w) (c_id r) w')
  /\ (forall caseId data userId userRole w w' r,
        Stated.clock_ok w ->
        updateCase notifyClientCaseStatusUpdate caseId data userId userRole w
        = (Val r, w') ->
        Stated.activity_advanced w w'
        /\ (forall c status,
              cases w !! caseId = Some c -> uc_status data = Some status ->
              status <> c_status c -> Stated.active_at (now w) caseId w'))
  /\ (forall caseId lawyerId assignedBy w w' r,
        Stated.clock_ok w ->
        assignLawyer notifyLawyerAssignment caseId lawyerId assignedBy w = (Val r, w') ->
        Stated.activity_advanced w w' /\ Stated.active_at (now w) caseId w')
  /\ (forall caseId senderId senderRole content w w' r,
        Stated.clock_ok w ->
        sendMessage transport random apiKey caseId senderId senderRole content w
        = (Val r, w') ->
        Stated.activity_advanced w w' /\ Stated.active_at (now w) caseId w')
  /\ (forall caseId file uploaderId userRole w w' r,
        Stated.clock_ok w ->
        uploadDocument isAllowedMimeType maxSizeBytes writeFile_fails
          sendDocumentUploadNotifications caseId file uploaderId userRole w
        = (Val r, w') ->
        Stated.activity_advanced w w' /\ Stated.active_at (now w) caseId w').
Proof.
  intros Hcreate Hstatus Hassign Hupload.
  split.
  { intros caseId ty actor description metadata w w' ev Hrun.
    destruct (event_append_bumps _ _ _ _ _ _ _ _ Hrun) as (H1 & H2 & H3 & _ & H5).
    auto. }
  split.
  { intros data actorId w w' r Hclock Hrun. split.
    - apply step_ok_advanced; [exact Hclock|].
      eapply io_ok_run; [|exact Hrun]. apply io_ok_createCase, Hcreate.
    - eapply createCase_bumps; eauto. }
  split.
  { intros caseId data userId userRole w w' r Hclock Hrun. split.
    - apply step_ok_advanced; [exact Hclock|].
      eapply io_ok_run; [|exact Hrun]. apply io_ok_updateCase, Hstatus.
    - intros c status Hc Hst Hne. eapply updateCase_bumps; eauto. }
  split.
  { intros caseId lawyerId assignedBy w w' r Hclock Hrun. split.
    - apply step_ok_advanced; [exact Hclock|].
      eapply io_ok_run; [|exact Hrun]. apply io_ok_assignLawyer, Hassign.
    - eapply assignLawyer_bumps; eauto. }
  split.
  { intros caseId senderId senderRole content w w' r Hclock Hrun. split.
    - apply step_ok_advanced; [exact Hclock|].
      eapply io_ok_run; [|exact Hrun]. apply io_ok_sendMessage.
    - eapply sendMessage_bumps; eauto. }
  intros caseId file uploaderId userRole w w' r Hclock Hrun. split.
  - apply step_ok_advanced; [exact Hclock|].
    eapply io_ok_run; [|exact Hrun]. apply io_ok_uploadDocument, Hupload.
  - eapply uploadDocument_bumps; eauto.
Qed.

End ActivityClaim.

Lemma sample_clock_ok : Stated.clock_ok Sample.world.
Proof.
  intros id c H. unfold Sample.world in H. cbn [Db.cases] in H.
  apply lookup_insert_Some in H as [[_ <-]|[_ H]]; [cbn; vm_compute; discriminate|].
  apply lookup_insert_Some in H as [[_ <-]|[_ H]]; [cbn; vm_compute; discriminate|].
  rewrite lookup_empty in H. discriminate.
Defined.

(** The admin assigns Luis to case 101 while the notification flows are
    down: the case is active at the time of the assignment. *)
Lemma last_activity_follows_events_witness :
  Stated.notification_only Sample.flow_down
  /\ Stated.clock_ok Sample.world
  /\ exists r w',
       Services.assignLawyer (fun _ _ _ => Sample.flow_down) 101 21 3 Sample.world
       = (Val r, w')
       /\ Stated.activity_advanced Sample.world w'
       /\ Stated.active_at (Db.now Sample.world) 101%N w'.
Proof.
  assert (Hdown : Stated.notification_only Sample.flow_down).
  { intros w. cbn. auto. }
  split; [exact Hdown|]. split; [exact sample_clock_ok|].
  eexists _, _. split; [vm_compute; reflexivity|].
  refine (proj1 (proj2 (proj2 (proj2
    (last_activity_follows_events Sample.transport_down Sample.no_jitter Sample.key
       (fun _ => true) 1000 (fun _ _ => false)
       (fun _ _ _ _ _ _ _ => Sample.flow_down) (fun _ _ _ _ => Sample.flow_down)
       (fun _ _ _ => Sample.flow_down) (fun _ _ _ _ _ => Sample.flow_down)
       (fun _ _ _ _ _ _ _ => Hdown) (fun _ _ _ _ => Hdown)
       (fun _ _ _ => Hdown) (fun _ _ _ _ _ => Hdown))))) 101%N 21%N 3%N _ _ _
    sample_clock_ok _).
  vm_compute. reflexivity.
Defined.

(** * Numbers as text *)

Section TextFacts.
Import Text Stated.

Lemma all_digits_string_of_uint (d : Decimal.uint) :
  Template.all_chars is_digit (NilEmpty.string_of_uint d) = true.
Proof. induction d; cbn; auto. Qed.

Lemma to_uint_nonnil (n : N) : N.to_uint n <> Decimal.Nil.
Proof.
  destruct n as [|p]; cbn; [discriminate|].
  apply DecimalPos.Unsigned.to_uint_nonnil.
Qed.

Lemma string_of_N_eq (n : N) :
  string_of_N n = NilEmpty.string_of_uint (N.to_uint n).
Proof.
  unfold string_of_N, NilZero.string_of_uint.
  destruct (N.to_uint n) eqn:H; try reflexivity.
  exfalso. eapply to_uint_nonnil; eauto.
Qed.

Lemma string_of_N_digits (n : N) : Template.all_chars is_digit (string_of_N n) = true.
Proof. rewrite string_of_N_eq. apply all_digits_string_of_uint. Qed.

Lemma string_of_N_nonempty (n : N) : string_of_N n <> EmptyString.
Proof.
  rewrite string_of_N_eq. pose proof (to_uint_nonnil n) as H.
  destruct (N.to_uint n); cbn; congruence.
Qed.

Lemma span_all (p : ascii -> bool) (s : string) :
  Template.all_chars p s = true -> Template.span p s = (s, EmptyString).
Proof.
  induction s as [|c s IH]; cbn; [auto|].
  intros H. apply andb_true_iff in H as [Hc Hs]. rewrite Hc, (IH Hs). reflexivity.
Qed.

Lemma digit_not_space (c : ascii) : is_digit c = true -> Template.is_space_char c = false.
Proof.
  unfold is_digit, Template.is_space_char, Template.code_of.
  intros H. apply andb_true_iff in H as [H1 H2].
  apply Nat.leb_le in H1, H2.
  repeat match goal with
         | |- context [(?a <=? ?b)%nat] => destruct (Nat.leb_spec a b)
         | |- context [(?a =? ?b)%nat] => destruct (Nat.eqb_spec a b)
         end; cbn; auto; lia.
Qed.

Lemma append_cons (c : ascii) (a b : string) : String c a ++ b = String c (a ++ b).
Proof. reflexivity. Qed.

Lemma append_nil (b : string) : EmptyString ++ b = b.
Proof. reflexivity. Qed.

Lemma all_digits_app (a b : string) :
  Template.all_chars is_digit (a ++ b) = Template.all_chars is_digit a && Template.all_chars is_digit b.
Proof.
  induction a as [|c a IH]; [reflexivity|].
  rewrite append_cons. cbn [Template.all_chars]. rewrite IH, andb_assoc. reflexivity.
Qed.

Lemma all_digits_zeros (k : nat) : Template.all_chars is_digit (repeat_char "0" k) = true.
Proof. induction k; cbn; auto. Qed.

Lemma string_of_zeros_then k d :
  NilEmpty.string_of_uint (zeros_then k d) = repeat_char "0" k ++ NilEmpty.string_of_uint d.
Proof.
  induction k; [reflexivity|]. cbn [zeros_then NilEmpty.string_of_uint repeat_char].
  rewrite append_cons. congruence.
Qed.

Lemma of_uint_zeros_then k d : N.of_uint (zeros_then k d) = N.of_uint d.
Proof. induction k; cbn; auto. Qed.

Lemma digits_value_padded (k : nat) (n : N) :
  digits_value (repeat_char "0" k ++ string_of_N n) = Int (Z.of_N n).
Proof.
  unfold digits_value.
  destruct (repeat_char "0" k ++ string_of_N n) eqn:E.
  - destruct k; cbn in E; [|discriminate]. exfalso. eapply string_of_N_nonempty; eauto.
  - rewrite <- E, string_of_N_eq, <- string_of_zeros_then, NilEmpty.usu.
    rewrite of_uint_zeros_then, DecimalN.Unsigned.of_to. reflexivity.
Qed.

Lemma parseInt10_padded (len : nat) (n : N) :
  parseInt10 (Some (padStart len "0" (string_of_N n))) = Int (Z.of_N n).
Proof.
  unfold parseInt10, padStart.
  set (s := repeat_char "0" _ ++ string_of_N n).
  assert (Hd : Template.all_chars is_digit s = true).
  { subst s. rewrite all_digits_app, all_digits_zeros, string_of_N_digits. reflexivity. }
  assert (Hv : digits_value s = Int (Z.of_N n)) by apply digits_value_padded.
  destruct s as [|c s'] eqn:Es.
  - cbn in Hv. discriminate.
  - assert (Hc : is_digit c = true) by (cbn in Hd; apply andb_true_iff in Hd; tauto).
    cbn [Template.span]. rewrite (digit_not_space c Hc). cbn [snd].
    assert (H45 : (nat_of_ascii c =? 45)%nat = false).
    { unfold is_digit in Hc. apply andb_true_iff in Hc as [H1 H2].
      apply Nat.leb_le in H1, H2. apply Nat.eqb_neq. lia. }
    assert (H43 : (nat_of_ascii c =? 43)%nat = false).
    { unfold is_digit in Hc. apply andb_true_iff in Hc as [H1 H2].
      apply Nat.leb_le in H1, H2. apply Nat.eqb_neq. lia. }
    rewrite H45, H43. rewrite (span_all _ _ Hd). cbn [fst]. exact Hv.
Qed.

Lemma split_on_no_dash (s : string) :
  Template.all_chars not_dash s = true -> split_on "-" s = [s].
Proof.
  induction s as [|c s IH]; [reflexivity|].
  cbn [Template.all_chars split_on]. intros H.
  apply andb_true_iff in H as [Hc Hs]. unfold not_dash in Hc.
  apply negb_true_iff in Hc. rewrite Hc, (IH Hs). reflexivity.
Qed.

Lemma split_on_dash (a rest : string) :
  Template.all_chars not_dash a = true ->
  split_on "-" (a ++ String "-" rest) = a :: split_on "-" rest.
Proof.
  induction a as [|c a IH]; intros H.
  - rewrite append_nil. cbn [split_on]. rewrite Ascii.eqb_refl. reflexivity.
  - cbn [Template.all_chars] in H. apply andb_true_iff in H as [Hc Ha].
    rewrite append_cons. cbn [split_on]. unfold not_dash in Hc.
    apply negb_true_iff in Hc. rewrite Hc, (IH Ha). reflexivity.
Qed.

Lemma all_chars_impl (p q : ascii -> bool) (s : string) :
  (forall c, p c = true -> q c = true) ->
  Template.all_chars p s = true -> Template.all_chars q s = true.
Proof.
  intros Hpq. induction s as [|c s IH]; [auto|].
  cbn. intros H. apply andb_true_iff in H as [Hc Hs].
  rewrite (Hpq c Hc), (IH Hs). reflexivity.
Qed.

Lemma digit_not_dash (c : ascii) : is_digit c = true -> not_dash c = true.
Proof.
  unfold is_digit, not_dash. intros H. apply andb_true_iff in H as [H1 H2].
  apply Nat.leb_le in H1, H2. apply negb_true_iff.
  destruct (Ascii.eqb_spec c "-") as [->|]; [|reflexivity].
  change (nat_of_ascii "-") with 45%nat in H1. lia.
Qed.

Lemma digits_no_dash (s : string) :
  Template.all_chars is_digit s = true -> Template.all_chars not_dash s = true.
Proof. apply all_chars_impl, digit_not_dash. Qed.

(** The third piece of [year-prefix-digits]. *)
Lemma third_piece (y p d : string) :
  Template.all_chars not_dash y = true ->
  Template.all_chars not_dash p = true ->
  Template.all_chars not_dash d = true ->
  split_on "-" (y ++ "-" ++ p ++ "-" ++ d) !! 2%nat = Some d.
Proof.
  intros Hy Hp Hd.
  change (y ++ "-" ++ p ++ "-" ++ d) with (y ++ String "-" (p ++ String "-" d)).
  rewrite (split_on_dash _ _ Hy), (split_on_dash _ _ Hp), (split_on_no_dash _ Hd).
  reflexivity.
Qed.

Lemma js_toString_succ (n : N) :
  js_toString (js_add (Int (Z.of_N n)) 1) = string_of_N (N.succ n).
Proof.
  cbn [js_add js_toString].
  destruct (Z.ltb_spec (Z.of_N n + 1) 0) as [H|H]; [lia|].
  f_equal. lia.
Qed.

End TextFacts.

(** * Case numbers *)

Section CaseNumberFacts.
Import Db Repo Services.

Lemma elem_of_rows {A} (table : gmap Uuid A) (x : A) :
  x ∈ (snd <$> map_to_list table) <-> exists id, table !! id = Some x.
Proof.
  rewrite list_elem_of_fmap. split.
  - intros ([id y] & -> & Hin). apply elem_of_map_to_list in Hin. eauto.
  - intros (id & Hid). exists (id, x). split; [reflexivity|].
    apply elem_of_map_to_list. exact Hid.
Qed.

Lemma fold_later_spec (rest : list Case) (c : Case) :
  let best := fold_left later rest c in
  (best = c \/ best ∈ rest)
  /\ c_created_at c <= c_created_at best
  /\ forall c', c' ∈ rest -> c_created_at c' <= c_created_at best.
Proof.
  revert c. induction rest as [|x rest IH]; intros c; cbn.
  - split; [auto|]. split; [lia|]. intros c' H. inversion H.
  - destruct (IH (later c x)) as (Hin & Hle & Hall).
    assert (Hl : c_created_at c <= c_created_at (later c x)
                 /\ c_created_at x <= c_created_at (later c x)
                 /\ (later c x = c \/ later c x = x)).
    { unfold later. destruct (Z.ltb_spec (c_created_at c) (c_created_at x)); lia || auto.
      - split; [lia|]. split; [lia|]. auto.
      - split; [lia|]. split; [lia|]. auto. }
    destruct Hl as (Hl1 & Hl2 & Hl3).
    split; [|split].
    + destruct Hin as [->|Hin].
      * destruct Hl3 as [->| ->]; [auto|]. right. constructor.
      * right. constructor. exact Hin.
    + lia.
    + intros c' Hc'. apply elem_of_cons in Hc' as [->|Hc']; [lia|auto].
Qed.

(** [latest] is a row none of the rows is younger than. *)
Lemma latest_spec (rows : list Case) :
  match latest rows with
  | Some c => c ∈ rows /\ forall c', c' ∈ rows -> c_created_at c' <= c_created_at c
  | None => rows = []
  end.
Proof.
  destruct rows as [|c rest]; cbn; [reflexivity|].
  destruct (fold_later_spec rest c) as (Hin & Hle & Hall). cbn in *.
  split.
  - destruct Hin as [->|Hin]; [constructor|]. constructor. exact Hin.
  - intros c' Hc'. apply elem_of_cons in Hc' as [->|Hc']; auto.
Qed.

(** The row the query of [generateCaseNumber] returns: the case number
    of a case that carries the prefix and that no case with the prefix
    was created after. *)
Lemma select_last_case_number_spec (prefix : string) (w : World) :
  match select_last_case_number prefix w with
  | Some number =>
      exists id c,
        cases w !! id = Some c /\ c_case_number c = number
        /\ String.prefix prefix number = true
        /\ forall id' c', cases w !! id' = Some c' ->
                          String.prefix prefix (c_case_number c') = true ->
                          c_created_at c' <= c_created_at c
  | None =>
      forall id c, cases w !! id = Some c -> String.prefix prefix (c_case_number c) = false
  end.
Proof.
  unfold select_last_case_number.
  match goal with |- context [latest ?rows] => pose proof (latest_spec rows) as H end.
  destruct (latest _) as [c|]; cbn.
  - destruct H as (Hin & Hall).
    apply list_elem_of_filter in Hin as (Hp & Hin).
    apply elem_of_rows in Hin as (id & Hid).
    exists id, c. repeat split; auto.
    intros id' c' Hid' Hp'. apply Hall. apply list_elem_of_filter. split; [exact Hp'|].
    apply elem_of_rows. eauto.
  - intros id c Hid. destruct (String.prefix prefix (c_case_number c)) eqn:Hp; [|reflexivity].
    assert (Hin : c ∈ filter (fun c => String.prefix prefix (c_case_number c) = true)
                        (snd <$> map_to_list (cases w))).
    { apply list_elem_of_filter. split; [exact Hp|]. apply elem_of_rows. eauto. }
    rewrite H in Hin. inversion Hin.
Qed.

Lemma prefix_no_dash (t : CaseType.t) :
  Template.all_chars not_dash (getCaseTypePrefix t) = true.
Proof. destruct t; reflexivity. Qed.

Lemma generateCaseNumber_run (caseType : CaseType.t) (w : World) :
  generateCaseNumber caseType w
  = (Val (Text.string_of_N (year w) ++ "-" ++ getCaseTypePrefix caseType ++ "-"
          ++ Text.padStart 4 "0"
               (Text.js_toString
                  (next_sequence
                     (select_last_case_number
                        (Text.string_of_N (year w) ++ "-"
                         ++ getCaseTypePrefix caseType ++ "-") w)))), w).
Proof. reflexivity. Qed.

(** The sequence after a number this function has produced is the next
    natural number. *)
Lemma next_sequence_after (y : N) (t : CaseType.t) (len : nat) (n : N) :
  next_sequence
    (Some (Text.string_of_N y ++ "-" ++ getCaseTypePrefix t ++ "-"
           ++ Text.padStart len "0" (Text.string_of_N n)))
  = Text.Int (Z.of_N (N.succ n)).
Proof.
  unfold next_sequence.
  rewrite third_piece.
  - rewrite parseInt10_padded. cbn. f_equal. lia.
  - apply digits_no_dash, string_of_N_digits.
  - apply prefix_no_dash.
  - apply digits_no_dash. unfold Text.padStart.
    rewrite all_digits_app, all_digits_zeros, string_of_N_digits. reflexivity.
Qed.

(** What the steps of a creation leave behind. *)
Lemma insert_case_val id number client_id lawyer_id title description case_type
    status priority (w w' : World) (row : Case) :
  insert_case id number client_id lawyer_id title description case_type status priority w
  = (Val row, w') ->
  c_id row = id /\ c_case_number row = number /\ c_status row = status
  /\ w' = with_cases (<[id := row]> (cases w)) w.
Proof.
  unfold insert_case. destruct (case_number_taken number w); [discriminate|].
  intros [= <- <-]. auto.
Qed.

Lemma insert_case_event_val caseId ty actor description metadata (w w' : World) ev :
  insert_case_event caseId ty actor description metadata w = (Val ev, w') ->
  ty = Some (e_event_type ev) /\ e_case_id ev = caseId
  /\ w' = update_case_last_activity caseId (with_case_events (case_events w ++ [ev]) w).
Proof.
  unfold insert_case_event.
  destruct ty as [ty|]; [|discriminate].
  destruct (CaseEventType.in_sql_enum ty); cbn; [|discriminate].
  destruct (cases w !! caseId); [|discriminate].
  intros [= <- <-]. auto.
Qed.

Lemma detach_frame (task : IO unit) (warning : string) (w w' : World) (r : res AppError unit) :
  Stated.notification_only task ->
  detach_catch task warning w = (r, w') ->
  cases w' = cases w /\ case_events w' = case_events w.
Proof.
  intros Hframe Hrun. unfold detach_catch in Hrun. destruct (Hframe w) as (Hc & He & _).
  destruct (task w) as [[u|e] w1]; cbn in *; injection Hrun as <- <-; auto.
Qed.

(** Unfold the runs of the steps that only read, log or draw a number. *)
Ltac prim_inv :=
  repeat match goal with
    | H : findById _ _ _ = (Val _, _) |- _ =>
        unfold findById in H; injection H as ? ?; subst
    | H : logger _ _ = (Val _, _) |- _ =>
        unfold logger, modify in H; injection H as ? ?; subst
    | H : modify _ _ = (Val _, _) |- _ =>
        unfold modify in H; injection H as ? ?; subst
    | H : get _ = (Val _, _) |- _ =>
        unfold get in H; injection H as ? ?; subst
    | H : uuid_generate_v4 _ = (Val _, _) |- _ =>
        unfold uuid_generate_v4 in H; injection H as ? ?; subst
    | H : generate_case_number _ = (Val _, _) |- _ =>
        unfold generate_case_number in H; injection H as ? ?; subst
    | H : insert_case _ _ _ _ _ _ _ _ _ _ = (Val _, _) |- _ =>
        apply insert_case_val in H; destruct H as (? & ? & ? & ?); subst
    | H : insert_case_event _ _ _ _ _ _ = (Val _, _) |- _ =>
        apply insert_case_event_val in H; destruct H as (? & ? & ?); subst
    end.

(** [createCase]: the number comes from the SQL sequence, the row starts
    in the status [new], and one event, of the type [case_created], is
    appended. *)
Lemma createCase_creates P data actorId (w w' : World) (r : Case) :
  (forall a b c d e f g, Stated.notification_only (P a b c d e f g)) ->
  createCase P data actorId w = (Val r, w') ->
  c_case_number r
  = "CASE-" ++ Text.string_of_N (year w) ++ "-"
    ++ Text.lpad 5 "0" (Text.string_of_N (N.succ (case_number_seq w)))
  /\ c_status r = CaseStatus.NEW
  /\ (exists c', cases w' !! c_id r = Some c'
                 /\ c_case_number c' = c_case_number r
                 /\ c_status c' = CaseStatus.NEW)
  /\ exists ev,
       case_events w' = (case_events w ++ [ev])%list
       /\ e_event_type ev = CaseEventType.CASE_CREATED
       /\ e_case_id ev = c_id r.
Proof.
  intros Hframe.
  unfold createCase, clientRepository_findById, lawyerRepository_findById,
    userRepository_findById, caseRepository_createWithEvent.
  intros H. run_inv.
  all: match goal with
       | Hd : detach_catch _ _ _ = _ |- _ =>
           apply detach_frame in Hd; [destruct Hd as (Hc & He)|apply Hframe]
       end.
  all: prim_inv.
  all: rewrite Hc, He; cbn.
  all: split; [assumption|]; split; [assumption|]; split.
  all: try (match goal with
            | Hid : c_id _ = next_uuid _ |- _ => rewrite Hid
            end;
            rewrite lookup_alter_eq, lookup_insert_eq; cbn; eauto).
  all: eexists; split; [reflexivity|]; split; congruence.
Qed.

(** Steps that respect a relation between the world before and after. *)
Section Steps.

Variable R : World -> World -> Prop.
Hypothesis R_same :
  forall w w', cases w' = cases w -> case_events w' = case_events w -> R w w'.
Hypothesis R_trans : forall w1 w2 w3, R w1 w2 -> R w2 w3 -> R w1 w3.

Ltac case_split :=
  match goal with
  | |- context [match ?x with _ => _ end] =>
      lazymatch x with
      | context [match _ with _ => _ end] => fail
      | _ => destruct x eqn:?
      end
  end.

Lemma rel_kept {A} (m : IO A) :
  (forall w, cases (snd (m w)) = cases w /\ case_events (snd (m w)) = case_events w) ->
  io_rel R m.
Proof. intros H w. destruct (H w). apply R_same; auto. Qed.

Lemma rel_ret {A} (a : A) : io_rel R (@ret World AppError A a).
Proof. apply rel_kept. auto. Qed.

Lemma rel_throw {A} (e : AppError) : io_rel R (@throw World AppError A e).
Proof. apply rel_kept. auto. Qed.

Lemma rel_logger (l : LogLine) : io_rel R (logger l).
Proof. apply rel_kept. auto. Qed.

Lemma rel_findById {A} (table : World -> gmap Uuid A) (id : Uuid) :
  io_rel R (findById table id).
Proof. apply rel_kept. auto. Qed.

Lemma rel_uuid : io_rel R uuid_generate_v4.
Proof. apply rel_kept. auto. Qed.

Lemma rel_bind {A B} (m : IO A) (k : A -> IO B) :
  io_rel R m -> (forall a, io_rel R (k a)) -> io_rel R (bind m k).
Proof.
  intros Hm Hk w. unfold bind. specialize (Hm w).
  destruct (m w) as [[a|e] w1]; cbn in *; [|exact Hm].
  eapply R_trans; [exact Hm|]. apply Hk.
Qed.

Lemma rel_try_catch {A} (m : IO A) (h : AppError -> IO A) :
  io_rel R m -> (forall e, io_rel R (h e)) -> io_rel R (try_catch m h).
Proof.
  intros Hm Hh w. unfold try_catch. specialize (Hm w).
  destruct (m w) as [[a|e] w1]; cbn in *; [exact Hm|].
  eapply R_trans; [exact Hm|]. apply Hh.
Qed.

Lemma rel_detach (task : IO unit) (warning : string) :
  Stated.notification_only task -> io_rel R (detach_catch task warning).
Proof.
  intros Hframe. apply rel_kept. intros w.
  destruct (detach_frame task warning w _ _ Hframe (surjective_pairing _)). auto.
Qed.

Lemma rel_document_create (case_id uploaded_by : Uuid) (name : string) :
  io_rel R (documentRepository_create case_id uploaded_by name).
Proof. apply rel_kept. auto. Qed.

Lemma rel_checkCaseAccess client_id lawyer_id userId userRole denied :
  io_rel R (checkCaseAccess client_id lawyer_id userId userRole denied).
Proof.
  apply rel_kept. intros w.
  unfold checkCaseAccess, clientRepository_findByUserId, lawyerRepository_findByUserId,
    bind, ret, throw.
  repeat (case_split; cbn; auto).
Qed.

Lemma rel_saveFile maxSizeBytes writeFile_fails caseId file :
  io_rel R (saveFile maxSizeBytes writeFile_fails caseId file).
Proof.
  apply rel_kept. intros w. unfold saveFile, ret, throw.
  repeat (case_split; cbn; auto).
Qed.

End Steps.

Lemma nothing_created_same (w w' : World) :
  cases w' = cases w -> case_events w' = case_events w -> Stated.nothing_created w w'.
Proof.
  intros Hc He. split.
  - intros id c Hid. rewrite Hc. eauto.
  - exists []. rewrite app_nil_r. split; [exact He|]. intros ev H. inversion H.
Qed.

Lemma nothing_created_trans (w1 w2 w3 : World) :
  Stated.nothing_created w1 w2 -> Stated.nothing_created w2 w3 ->
  Stated.nothing_created w1 w3.
Proof.
  intros (Hc1 & evs1 & He1 & Hev1) (Hc2 & evs2 & He2 & Hev2). split.
  - intros id c Hid. destruct (Hc1 id c Hid) as (c' & Hid' & Hn' & Hs').
    destruct (Hc2 id c' Hid') as (c'' & Hid'' & Hn'' & Hs'').
    exists c''. repeat split; congruence.
  - exists (evs1 ++ evs2)%list. split.
    + rewrite He2, He1, app_assoc. reflexivity.
    + intros ev Hev. apply elem_of_app in Hev as [Hev|Hev]; auto.
Qed.

Lemma nothing_created_by_event caseId ty actor description metadata :
  ty <> Some CaseEventType.CASE_CREATED ->
  io_rel Stated.nothing_created
    (insert_case_event caseId ty actor description metadata).
Proof.
  intros Hty w. unfold insert_case_event.
  destruct ty as [ty|]; [|apply nothing_created_same; reflexivity].
  destruct (CaseEventType.in_sql_enum ty); cbn;
    [|apply nothing_created_same; reflexivity].
  destruct (cases w !! caseId) as [c0|] eqn:Hc0; cbn;
    [|apply nothing_created_same; reflexivity].
  split.
  - intros id c Hid. cbn. destruct (decide (caseId = id)) as [->|Hne].
    + rewrite lookup_alter_eq, Hid. cbn. eauto.
    + rewrite lookup_alter_ne, Hid by auto. eauto.
  - eexists. split; [reflexivity|].
    intros ev Hev. apply list_elem_of_singleton in Hev as ->. cbn. congruence.
Qed.

Section Uploads.

Variable isAllowedMimeType : string -> bool.
Variable maxSizeBytes : Z.
Variable writeFile_fails : Uuid -> string -> bool.
Variable sendDocumentUploadNotifications :
  Uuid -> string -> Uuid -> UserRole.t -> string -> IO unit.
Hypothesis upload_flow :
  forall a b c d e,
    Stated.notification_only (sendDocumentUploadNotifications a b c d e).

Ltac rel_steps :=
  repeat first
    [ exact nothing_created_same | exact nothing_created_trans
    | apply upload_flow
    | apply rel_ret | apply rel_throw | apply rel_logger | apply rel_findById
    | apply rel_uuid | apply rel_document_create | apply rel_checkCaseAccess
    | apply rel_saveFile | apply rel_detach
    | apply nothing_created_by_event; discriminate
    | apply rel_bind | apply rel_try_catch
    | match goal with
      | |- forall _, _ => intros ?
      | |- io_rel _ (match ?x with _ => _ end) => destruct x
      end ].

Lemma uploadDocument_creates_nothing caseId file uploaderId userRole :
  io_rel Stated.nothing_created
    (uploadDocument isAllowedMimeType maxSizeBytes writeFile_fails
       sendDocumentUploadNotifications caseId file uploaderId userRole).
Proof.
  unfold uploadDocument, caseRepository_findById, caseEventRepository_create.
  rel_steps.
Qed.

Lemma upload_files_creates_nothing caseId userId files n :
  io_rel Stated.nothing_created
    (upload_files isAllowedMimeType maxSizeBytes writeFile_fails
       sendDocumentUploadNotifications caseId userId files n).
Proof.
  revert n. induction files as [|file rest IH]; intros n; cbn [upload_files].
  - rel_steps.
  - apply rel_bind; [exact nothing_created_trans| |intros uploaded; apply IH].
    apply rel_try_catch; [exact nothing_created_trans| |].
    + apply rel_bind; [exact nothing_created_trans| |rel_steps].
      apply uploadDocument_creates_nothing.
    + rel_steps.
Qed.

End Uploads.

(** [generateCaseNumber] reads the year and the cases only. *)
Lemma generateCaseNumber_reads (caseType : CaseType.t) (w1 w2 : World) :
  year w1 = year w2 -> cases w1 = cases w2 ->
  fst (generateCaseNumber caseType w1) = fst (generateCaseNumber caseType w2).
Proof.
  intros Hy Hc. rewrite !generateCaseNumber_run. cbn [fst].
  unfold select_last_case_number. rewrite Hy, Hc. reflexivity.
Qed.

(** [processIntakeForm]: the number is the one [generateCaseNumber]
    computes from the cases present, the row starts in the status [new],
    and of the events appended the first, and only the first, is of the
    type [case_created]. *)
Lemma processIntakeForm_creates mime maxSize writeFails U I data (w w' : World)
    (r : IntakeResult) :
  (forall a b c d e, Stated.notification_only (U a b c d e)) ->
  (forall a b c d, Stated.notification_only (I a b c d)) ->
  processIntakeForm mime maxSize writeFails U I data w = (Val r, w') ->
  fst (generateCaseNumber (caseType data) w) = Val (r_caseNumber r)
  /\ (exists c', cases w' !! r_caseId r = Some c'
                 /\ c_case_number c' = r_caseNumber r
                 /\ c_status c' = CaseStatus.NEW)
  /\ exists ev evs,
       case_events w' = (case_events w ++ ev :: evs)%list
       /\ e_event_type ev = CaseEventType.CASE_CREATED
       /\ e_case_id ev = r_caseId r
       /\ forall ev', ev' ∈ evs -> e_event_type ev' <> CaseEventType.CASE_CREATED.
Proof.
  intros HU HI. unfold processIntakeForm, userRepository_findByEmail.
  intros H. run_inv. injection Hrun as _ <-.
  apply detach_frame in Hrun10; [destruct Hrun10 as (Hc & He)|apply HI].
  pose proof (upload_files_creates_nothing mime maxSize writeFails U HU
                a6 a1 (files data) 0%nat w1) as Hup.
  rewrite Hrun9 in Hup. cbn [snd] in Hup. destruct Hup as (Hkeep & evs & Hevs & Hno).
  pose proof (generateCaseNumber_reads (caseType data) w w5) as Hread.
  rewrite Hrun5 in Hread. cbn [fst] in Hread.
  rewrite generateCaseNumber_run in Hrun5. injection Hrun5 as _ <-.
  prim_inv. cbn in *.
  split; [apply Hread; reflexivity|].
  rewrite Hc, He. cbn. split.
  - edestruct Hkeep as (c' & Hc' & Hn' & Hs').
    { rewrite lookup_alter_eq, lookup_insert_eq. reflexivity. }
    exists c'. cbn in *. split; [exact Hc'|]. split; congruence.
  - eexists _, evs. rewrite Hevs. cbn. rewrite <- app_assoc. cbn.
    split; [reflexivity|]. split; [congruence|]. split; [congruence|]. exact Hno.
Qed.

Lemma append_assoc (a b c : string) : (a ++ b) ++ c = a ++ b ++ c.
Proof.
  induction a as [|x a IH]; [reflexivity|].
  rewrite !append_cons, IH. reflexivity.
Qed.

Lemma prefix_append (a b : string) : String.prefix a (a ++ b) = true.
Proof.
  induction a as [|x a IH]; [rewrite append_nil; destruct b; reflexivity|].
  rewrite append_cons. cbn [String.prefix].
  destruct (ascii_dec x x); [exact IH|congruence].
Qed.

Lemma year_prefix_append (y : N) (t : CaseType.t) (d : string) :
  Stated.year_prefix y t ++ d
  = Text.string_of_N y ++ "-" ++ getCaseTypePrefix t ++ "-" ++ d.
Proof. unfold Stated.year_prefix. rewrite !append_assoc. reflexivity. Qed.

Lemma generateCaseNumber_prefix (caseType : CaseType.t) (w : World) :
  fst (generateCaseNumber caseType w)
  = Val (Stated.year_prefix (year w) caseType
         ++ Text.padStart 4 "0"
              (Text.js_toString
                 (next_sequence
                    (select_last_case_number (Stated.year_prefix (year w) caseType) w)))).
Proof. rewrite generateCaseNumber_run, year_prefix_append. reflexivity. Qed.

(** The first number of a year and type. *)
Lemma generateCaseNumber_first (caseType : CaseType.t) (w : World) :
  (forall id c, cases w !! id = Some c ->
                String.prefix (Stated.year_prefix (year w) caseType) (c_case_number c) = false) ->
  fst (generateCaseNumber caseType w)
  = Val (Stated.year_prefix (year w) caseType ++ "0001").
Proof.
  intros Hnone. rewrite generateCaseNumber_prefix.
  pose proof (select_last_case_number_spec (Stated.year_prefix (year w) caseType) w) as Hsel.
  destruct (select_last_case_number _ w) as [number|].
  - destruct Hsel as (id & c & Hid & <- & Hp & _).
    rewrite (Hnone id c Hid) in Hp. discriminate.
  - reflexivity.
Qed.

(** The number after the one of the case created last. *)
Lemma generateCaseNumber_next (caseType : CaseType.t) (w : World) (id : Uuid) (c : Case)
    (len : nat) (n : N) :
  cases w !! id = Some c ->
  c_case_number c
  = Stated.year_prefix (year w) caseType ++ Text.padStart len "0" (Text.string_of_N n) ->
  (forall id' c', id' <> id -> cases w !! id' = Some c' ->
     String.prefix (Stated.year_prefix (year w) caseType) (c_case_number c') = true ->
     c_created_at c' < c_created_at c) ->
  fst (generateCaseNumber caseType w)
  = Val (Stated.year_prefix (year w) caseType
         ++ Text.padStart 4 "0" (Text.string_of_N (N.succ n))).
Proof.
  intros Hid Hnum Hlast. rewrite generateCaseNumber_prefix.
  pose proof (select_last_case_number_spec (Stated.year_prefix (year w) caseType) w) as Hsel.
  assert (Hpc : String.prefix (Stated.year_prefix (year w) caseType) (c_case_number c) = true).
  { rewrite Hnum. apply prefix_append. }
  destruct (select_last_case_number _ w) as [number|].
  - destruct Hsel as (id0 & c0 & Hid0 & <- & Hp & Hmax).
    assert (c0 = c) as ->.
    { destruct (decide (id0 = id)) as [->|Hne]; [congruence|].
      pose proof (Hlast id0 c0 Hne Hid0 Hp). pose proof (Hmax id c Hid Hpc). lia. }
    rewrite Hnum, (year_prefix_append _ _ (Text.padStart len _ _)), next_sequence_after.
    do 3 f_equal. cbn [Text.js_toString].
    destruct (Z.ltb_spec (Z.of_N (N.succ n)) 0) as [H|H]; [lia|].
    rewrite N2Z.id. reflexivity.
  - rewrite (Hsel id c Hid) in Hpc. discriminate.
Qed.

End CaseNumberFacts.

(** [C6, as stated] A case the admin opens for a client of the sample
    database gets the number [CASE-2027-00001] of the SQL function
    [generate_case_number()], which is not of the form
    [{year}-{type-prefix}-{4-digit sequence}]. *)
Lemma case_number_scheme_fails : ~ Stated.case_number_scheme.
Proof.
  intros H.
  destruct (Services.createCase (fun _ _ _ _ _ _ _ => Sample.flow_down)
              Sample.new_case (Some 3%N) Sample.world) as [[r|e] w'] eqn:Hrun;
    [|vm_compute in Hrun; discriminate].
  specialize (H _ _ _ _ _ _ Hrun).
  vm_compute in Hrun. injection Hrun as <- _.
  vm_compute in H. discriminate.
Qed.

(** [C6, amended] The two ways to create a case number their cases
    differently.  [caseService.createCase] takes the number from the SQL
    function: [CASE-], the year, and the next value of one global sequence
    padded to five digits.  [intakeService.processIntakeForm] builds
    [{year}-{type-prefix}-{sequence}]: the sequence is 0001 when no case
    carries the year and prefix, and otherwise one more than the sequence
    of the case with that year and prefix that was created last, padded to
    at least four digits.  Either way the new case is stored with the
    status [new] and one event of the type [case_created] is appended for
    it; the events the uploads of an intake append after it are of other
    types. *)
Theorem case_numbers_by_creation_path
    (isAllowedMimeType : string -> bool) (maxSizeBytes : Z)
    (writeFile_fails : Db.Uuid -> string -> bool)
    (sendCaseCreationNotifications :
       Db.Uuid -> Db.Uuid -> string -> string -> string -> option Db.Uuid ->
       option string -> Db.IO unit)
    (sendDocumentUploadNotifications :
       Db.Uuid -> string -> Db.Uuid -> UserRole.t -> string -> Db.IO unit)
    (intakeNotifications : Db.Uuid -> Db.Uuid -> string -> option Db.Uuid -> Db.IO unit) :
  (forall a b c d e f g,
     Stated.notification_only (sendCaseCreationNotifications a b c d e f g)) ->
  (forall a b c d e,
     Stated.notification_only (sendDocumentUploadNotifications a b c d e)) ->
  (forall a b c d, Stated.notification_only (intakeNotifications a b c d)) ->
  (forall data actorId w w' r,
     Services.createCase sendCaseCreationNotifications data actorId w = (Val r, w') ->
     Db.c_case_number r
     = "CASE-" ++ Text.string_of_N (Db.year w) ++ "-"
       ++ Text.lpad 5 "0" (Text.string_of_N (N.succ (Db.case_number_seq w)))
     /\ Db.c_status r = CaseStatus.NEW
     /\ (exists c', Db.cases w' !! Db.c_id r = Some c'
                    /\ Db.c_case_number c' = Db.c_case_number r
                    /\ Db.c_status c' = CaseStatus.NEW)
     /\ exists ev,
          Db.case_events w' = (Db.case_events w ++ [ev])%list
          /\ Db.e_event_type ev = CaseEventType.CASE_CREATED
          /\ Db.e_case_id ev = Db.c_id r)
  /\ (forall data w w' r,
        Services.processIntakeForm isAllowedMimeType maxSizeBytes writeFile_fails
          sendDocumentUploadNotifications intakeNotifications data w = (Val r, w') ->
        ((forall id c, Db.cases w !! id = Some c ->
            String.prefix (Stated.year_prefix (Db.year w) (Services.caseType data))
              (Db.c_case_number c) = false) ->
         Services.r_caseNumber r
         = Stated.year_prefix (Db.year w) (Services.caseType data) ++ "0001")
        /\ (forall id c len n,
              Db.cases w !! id = Some c ->
              Db.c_case_number c
              = Stated.year_prefix (Db.year w) (Services.caseType data)
                ++ Text.padStart len "0" (Text.string_of_N n) ->
              (forall id' c', id' <> id -> Db.cases w !! id' = Some c' ->
                 String.prefix (Stated.year_prefix (Db.year w) (Services.caseType data))
                   (Db.c_case_number c') = true ->
                 Db.c_created_at c' < Db.c_created_at c) ->
              Services.r_caseNumber r
              = Stated.year_prefix (Db.year w) (Services.caseType data)
                ++ Text.padStart 4 "0" (Text.string_of_N (N.succ n)))
        /\ (exists c', Db.cases w' !! Services.r_caseId r = Some c'
                       /\ Db.c_case_number c' = Services.r_caseNumber r
                       /\ Db.c_status c' = CaseStatus.NEW)
        /\ exists ev evs,
             Db.case_events w' = (Db.case_events w ++ ev :: evs)%list
             /\ Db.e_event_type ev = CaseEventType.CASE_CREATED
             /\ Db.e_case_id ev = Services.r_caseId r
             /\ forall ev', ev' ∈ evs ->
                            Db.e_event_type ev' <> CaseEventType.CASE_CREATED).
Proof.
  intros Hcreate Hupload Hintake. split.
  - intros data actorId w w' r Hrun.
    exact (createCase_creates _ _ _ _ _ _ Hcreate Hrun).
  - intros data w w' r Hrun.
    destruct (processIntakeForm_creates _ _ _ _ _ _ _ _ _ Hupload Hintake Hrun)
      as (Hnum & Hrow & Hev).
    split; [|split; [|split; [exact Hrow|exact Hev]]].
    + intros Hnone. apply generateCaseNumber_first in Hnone. congruence.
    + intros id c len n Hid Hc Hlast.
      pose proof (generateCaseNumber_next _ _ _ _ _ _ Hid Hc Hlast). congruence.
Qed.

(** In the sample database the case created last under 2027-PI carries
    the sequence 0002, an older one 0005: an intake numbers its case
    2027-PI-0003, and the admin's case is numbered CASE-2027-00001. *)
Lemma case_numbers_by_creation_path_witness :
  Stated.notification_only Sample.flow_down
  /\ (exists r w',
        Services.createCase (fun _ _ _ _ _ _ _ => Sample.flow_down)
          Sample.new_case (Some 3%N) Sample.world = (Val r, w')
        /\ Db.c_case_number r = "CASE-2027-00001")
  /\ exists r w',
       Services.processIntakeForm (fun _ => true) 1000 (fun _ _ => false)
         (fun _ _ _ _ _ => Sample.flow_down) (fun _ _ _ _ => Sample.flow_down)
         Sample.intake Sample.world = (Val r, w')
       /\ Services.r_caseNumber r = "2027-PI-0003".
Proof.
  assert (Hdown : Stated.notification_only Sample.flow_down).
  { intros w. cbn. auto. }
  pose proof (case_numbers_by_creation_path (fun _ => true) 1000 (fun _ _ => false)
                (fun _ _ _ _ _ _ _ => Sample.flow_down)
                (fun _ _ _ _ _ => Sample.flow_down) (fun _ _ _ _ => Sample.flow_down)
                (fun _ _ _ _ _ _ _ => Hdown) (fun _ _ _ _ _ => Hdown)
                (fun _ _ _ _ => Hdown)) as [Hcreate Hintake].
  split; [exact Hdown|]. split.
  - eexists _, _. split; [vm_compute; reflexivity|].
    refine (proj1 (Hcreate Sample.new_case (Some 3%N) Sample.world _ _ _)).
    vm_compute. reflexivity.
  - eexists _, _. split; [vm_compute; reflexivity|].
    refine (proj1 (proj2 (Hintake Sample.intake Sample.world _ _ _))
              102%N Sample.case_b 4%nat 2%N _ _ _).
    + vm_compute. reflexivity.
    + reflexivity.
    + reflexivity.
    + intros id' c' Hne H. unfold Sample.world in H. cbn [Db.cases] in H.
      apply lookup_insert_Some in H as [[_ <-]|[_ H]]; [intros _; vm_compute; reflexivity|].
      apply lookup_insert_Some in H as [[Heq _]|[_ H]]; [congruence|].
      rewrite lookup_empty in H. discriminate.
Defined.

(** * The inactivity scan *)

Section InactivityFacts.
Import Db Repo Services.

Variable transport : EmailRequest -> nat -> Delivery.SendOutcome.
Variable random : nat -> Q.
Variable apiKey : option string.
Variable fault : string -> Uuid -> bool.

(** The [WHERE] clause says what the specification says. *)
Lemma needs_notification_due (d : Z) (t : Timestamp) (c : Case) :
  needs_notification d t c = true <-> Stated.due d t c.
Proof.
  unfold needs_notification, Stated.due.
  rewrite !andb_true_iff, negb_true_iff, !orb_false_iff, !bool_decide_eq_false.
  rewrite Z.ltb_lt, !not_elem_of_cons.
  assert (Hn : (match c_last_inactivity_notification c with
                | Some last => last <? t - 7 * day
                | None => true
                end = true)
               <-> (c_last_inactivity_notification c = None
                    \/ exists last, c_last_inactivity_notification c = Some last
                                    /\ t - last > 7 * day)).
  { destruct (c_last_inactivity_notification c) as [last|].
    - rewrite Z.ltb_lt. split.
      + intros H. right. exists last. split; [reflexivity|lia].
      + intros [H|(l & [= <-] & H)]; [discriminate|lia].
    - split; auto. }
  rewrite Hn. unfold day. split.
  - intros ((((H1 & H2) & H3) & H4) & H5).
    split; [repeat split; auto; apply not_elem_of_nil|]. split; [lia|exact H5].
  - intros ((H1 & H2 & H3 & _) & H4 & H5).
    split; [split; [auto|lia]|exact H5].
Qed.

Lemma inactive_row_id (w : World) (c : Case) (ic : InactiveCase) :
  inactive_row w c = Some ic -> ic_id ic = c_id c.
Proof.
  unfold inactive_row.
  destruct (clients w !! c_client_id c) as [cl|]; [|discriminate].
  destruct (users w !! cl_user_id cl) as [u|]; [|discriminate].
  intros [= <-]. reflexivity.
Qed.

Lemma inactive_row_joined (w : World) (c : Case) (cl : Client) (u : User) :
  clients w !! c_client_id c = Some cl -> users w !! cl_user_id cl = Some u ->
  is_Some (inactive_row w c).
Proof. unfold inactive_row. intros -> ->. eauto. Qed.

(** The scan returns the cases that are due, each once it is a row of
    [cases]. *)
Lemma select_inactive_cases_spec (d : Z) (w : World) :
  Stated.consistent w ->
  forall id, id ∈ ic_id <$> select_inactive_cases d w
             <-> exists c, cases w !! id = Some c /\ Stated.due d (now w) c.
Proof.
  intros Hcons id. unfold select_inactive_cases.
  rewrite list_elem_of_fmap. split.
  - intros (ic & -> & Hin).
    apply list_elem_of_omap in Hin as (c & Hin & Hrow).
    rewrite merge_sort_Permutation in Hin.
    apply list_elem_of_filter in Hin as (Hneeds & Hin).
    apply elem_of_rows in Hin as (key & Hkey).
    destruct (Hcons key c Hkey) as (Hid & _).
    exists c. rewrite (inactive_row_id _ _ _ Hrow), Hid. split; [exact Hkey|].
    apply needs_notification_due, Hneeds.
  - intros (c & Hc & Hdue).
    destruct (Hcons id c Hc) as (Hid & cl & u & Hcl & Hu).
    destruct (inactive_row_joined w c cl u Hcl Hu) as (ic & Hrow).
    exists ic. split; [rewrite (inactive_row_id _ _ _ Hrow); auto|].
    apply list_elem_of_omap. exists c. split; [|exact Hrow].
    rewrite merge_sort_Permutation. apply list_elem_of_filter. split.
    + apply needs_notification_due, Hdue.
    + apply elem_of_rows. eauto.
Qed.

Lemma alter_stamp_lookup (t : Timestamp) (k id : Uuid) (m : gmap Uuid Case) (c : Case) :
  m !! id = Some c ->
  exists c', alter (stamp t) k m !! id = Some c'
             /\ (c_last_inactivity_notification c' = c_last_inactivity_notification c
                 \/ c_last_inactivity_notification c' = Some t).
Proof.
  intros Hc. destruct (decide (k = id)) as [->|Hne].
  - rewrite lookup_alter_eq, Hc. cbn. eauto.
  - rewrite lookup_alter_ne, Hc by auto. eauto.
Qed.

Lemma alter_stamp_at (t : Timestamp) (id : Uuid) (m : gmap Uuid Case) (c : Case) :
  m !! id = Some c ->
  exists c', alter (stamp t) id m !! id = Some c'
             /\ c_last_inactivity_notification c' = Some t.
Proof. intros Hc. rewrite lookup_alter_eq, Hc. cbn. eauto. Qed.

Lemma no_new_notification_refl (id : Uuid) (w w' : World) :
  notifications w' = notifications w -> outbox w' = outbox w ->
  Stated.no_new_notification id w w'.
Proof. intros Hn Ho. split; [rewrite Hn; auto|rewrite Ho; reflexivity]. Qed.

Lemma no_new_notification_trans (id : Uuid) (w1 w2 w3 : World) :
  Stated.no_new_notification id w1 w2 -> Stated.no_new_notification id w2 w3 ->
  Stated.no_new_notification id w1 w3.
Proof. intros (Hn1 & Ho1) (Hn2 & Ho2). split; [auto|congruence]. Qed.

(** A notification and a mail about another case. *)
Lemma no_new_notification_other (id : Uuid) (w w' : World) (k : Uuid) (n : Notification)
    (m : EmailRequest) :
  n_case_id n <> Some id -> em_case_id m <> Some id ->
  notifications w' = <[k := n]> (notifications w) ->
  outbox w' = (outbox w ++ [m])%list ->
  Stated.no_new_notification id w w'.
Proof.
  intros Hn Hm Hins Hout. unfold Stated.no_new_notification. rewrite Hins, Hout. split.
  - intros k' n' Hk Hid. apply lookup_insert_Some in Hk as [[_ <-]|[_ Hk]]; [contradiction|auto].
  - rewrite filter_app, filter_cons_False, filter_nil, app_nil_r by exact Hm. reflexivity.
Qed.

(** One case of the batch: the clock stands still, a case keeps its stamp
    or gets the time of the run, the case at hand gets it when its two
    statements succeed, and no other case is notified. *)
Lemma process_inactive_case_run (ic : InactiveCase) (w : World) :
  let w' := snd (process_inactive_case transport random apiKey fault ic w) in
  now w' = now w
  /\ (forall id c, cases w !! id = Some c ->
        exists c', cases w' !! id = Some c'
                   /\ (c_last_inactivity_notification c' = c_last_inactivity_notification c
                       \/ c_last_inactivity_notification c' = Some (now w)))
  /\ (fault "INSERT INTO notifications" (ic_id ic) = false ->
      fault "UPDATE cases" (ic_id ic) = false ->
      forall c, cases w !! ic_id ic = Some c ->
        exists c', cases w' !! ic_id ic = Some c'
                   /\ c_last_inactivity_notification c' = Some (now w))
  /\ (forall id, ic_id ic <> id -> Stated.no_new_notification id w w').
Proof.
  unfold process_inactive_case, sendInactivityNotification, updateNotificationTimestamp,
    logInactivityEvent, faulty, notificationService_create, emailNotificationService_send,
    caseEventRepository_create, insert_case_event, bind, ret, get, modify, logger,
    uuid_generate_v4.
  destruct (fault "INSERT INTO notifications" (ic_id ic)) eqn:F1; cbn.
  { split; [reflexivity|]. split; [eauto|]. split; [discriminate|].
    intros id _. apply no_new_notification_refl; reflexivity. }
  assert (Hother : forall id w',
            ic_id ic <> id ->
            notifications w'
            = <[next_uuid w := {| n_id := next_uuid w; n_user_id := ic_client_user_id ic;
                                  n_type := NotificationType.SYSTEM_ALERT;
                                  n_title := "Case Update Needed";
                                  n_message := "Your case " ++ ic_case_number ic
                                               ++ " has had no activity";
                                  n_case_id := Some (ic_id ic); n_is_read := false;
                                  n_created_at := now w; n_read_at := None |}]>
                (notifications w) ->
            outbox w' = (outbox w ++ [{| em_to := ic_client_email ic;
                                         em_template := "inactivityReminder";
                                         em_case_id := Some (ic_id ic) |}])%list ->
            Stated.no_new_notification id w w').
  { intros id w' Hne Hn Ho.
    eapply no_new_notification_other; [| |exact Hn|exact Ho]; cbn; congruence. }
  destruct (sendEmail_returns
              (transport {| em_to := ic_client_email ic;
                            em_template := "inactivityReminder";
                            em_case_id := Some (ic_id ic) |})
              random apiKey Delivery.net0) as (b & n & ->); cbn.
  destruct (fault "UPDATE cases" (ic_id ic)) eqn:F2; cbn.
  + split; [reflexivity|]. split; [eauto|]. split; [discriminate|].
    intros id Hne. apply Hother; auto.
  + destruct (fault "INSERT INTO case_events" (ic_id ic)) eqn:F3; cbn.
    all: split; [reflexivity|].
    all: split; [intros id c; apply alter_stamp_lookup|].
    all: split; [intros _ _ c; apply alter_stamp_at|].
    all: intros id Hne; apply Hother; auto.
Qed.

(** The [try] block and its [catch]: one of the two counters goes up,
    and the world is the one the case left, with one more log line. *)
Lemma inactivity_item_run (ic : InactiveCase) (w : World) :
  exists (ok : bool) (line : LogLine),
    try_catch (inactivity_try transport random apiKey fault ic)
      (fun _ => logger (inactivity_catch ic) ;;; ret false) w
    = (Val ok,
       let w1 := snd (process_inactive_case transport random apiKey fault ic w) in
       with_applog (applog w1 ++ [line]) w1)
    /\ ok = is_val (fst (process_inactive_case transport random apiKey fault ic w)).
Proof.
  unfold try_catch, inactivity_try, bind, logger, modify, ret.
  destruct (process_inactive_case transport random apiKey fault ic w) as [[[]|e] w1]; cbn;
    eexists _, _; split; reflexivity.
Qed.

Lemma inactivity_loop_cons (ic : InactiveCase) (rest : list InactiveCase) (s f : nat)
    (w : World) :
  exists (ok : bool) (line : LogLine),
    inactivity_loop transport random apiKey fault (ic :: rest) s f w
    = inactivity_loop transport random apiKey fault rest
        (if ok then S s else s) (if ok then f else S f)
        (let w1 := snd (process_inactive_case transport random apiKey fault ic w) in
         with_applog (applog w1 ++ [line]) w1)
    /\ ok = is_val (fst (process_inactive_case transport random apiKey fault ic w)).
Proof.
  cbn [inactivity_loop]. unfold bind at 1.
  destruct (inactivity_item_run ic w) as (ok & line & -> & Hok).
  exists ok, line. split; [destruct ok; reflexivity|exact Hok].
Qed.

(** The loop: every case of the batch whose two statements succeed is
    stamped with the time of the run, every other stamp is kept or is
    that time, and cases outside the batch are not notified. *)
Lemma inactivity_loop_run (rows : list InactiveCase) (s f : nat) (w : World) :
  let w' := snd (inactivity_loop transport random apiKey fault rows s f w) in
  now w' = now w
  /\ (forall id c, cases w !! id = Some c ->
        exists c', cases w' !! id = Some c'
                   /\ (c_last_inactivity_notification c' = c_last_inactivity_notification c
                       \/ c_last_inactivity_notification c' = Some (now w)))
  /\ (forall id c,
        id ∈ ic_id <$> rows ->
        fault "INSERT INTO notifications" id = false ->
        fault "UPDATE cases" id = false ->
        cases w !! id = Some c ->
        exists c', cases w' !! id = Some c'
                   /\ c_last_inactivity_notification c' = Some (now w))
  /\ (forall id, id ∉ ic_id <$> rows -> Stated.no_new_notification id w w').
Proof.
  revert s f w. induction rows as [|ic rest IH]; intros s f w; cbn zeta.
  - cbn. split; [reflexivity|]. split; [eauto|]. split.
    + intros id c Hin. inversion Hin.
    + intros id _. apply no_new_notification_refl; reflexivity.
  - destruct (inactivity_loop_cons ic rest s f w) as (ok & line & -> & _).
    destruct (process_inactive_case_run ic w) as (Hnow & Hkeep & Hstamp & Hquiet).
    set (w1 := snd (process_inactive_case transport random apiKey fault ic w)) in *.
    cbn zeta in *.
    set (w2 := with_applog (applog w1 ++ [line]) w1).
    assert (Hrest : forall s' f',
              let w' := snd (inactivity_loop transport random apiKey fault rest s' f' w2) in
              now w' = now w
              /\ (forall id c, cases w !! id = Some c ->
                    exists c', cases w' !! id = Some c'
                      /\ (c_last_inactivity_notification c'
                          = c_last_inactivity_notification c
                          \/ c_last_inactivity_notification c' = Some (now w)))
              /\ (forall id c,
                    id ∈ ic_id <$> ic :: rest ->
                    fault "INSERT INTO notifications" id = false ->
                    fault "UPDATE cases" id = false ->
                    cases w !! id = Some c ->
                    exists c', cases w' !! id = Some c'
                               /\ c_last_inactivity_notification c' = Some (now w))
              /\ (forall id, id ∉ ic_id <$> ic :: rest ->
                             Stated.no_new_notification id w w')).
    { intros s' f'. destruct (IH s' f' w2) as (Hnow' & Hkeep' & Hstamp' & Hquiet').
      cbn zeta in *. change (now w2) with (now w1) in *. change (cases w2) with (cases w1) in *.
      rewrite Hnow in *.
      split; [exact Hnow'|]. split; [|split].
      - intros id c Hc. destruct (Hkeep id c Hc) as (c1 & Hc1 & Hs1).
        destruct (Hkeep' id c1 Hc1) as (c2 & Hc2 & Hs2).
        exists c2. split; [exact Hc2|]. destruct Hs1, Hs2; [left|right|right|right]; congruence.
      - intros id c Hin F1 F2 Hc. rewrite fmap_cons in Hin.
        destruct (decide (id = ic_id ic)) as [->|Hne].
        + destruct (Hstamp F1 F2 c Hc) as (c1 & Hc1 & Hs1).
          destruct (Hkeep' _ c1 Hc1) as (c2 & Hc2 & Hs2).
          exists c2. split; [exact Hc2|]. destruct Hs2; congruence.
        + apply elem_of_cons in Hin as [Hin|Hin]; [contradiction|].
          destruct (Hkeep id c Hc) as (c1 & Hc1 & _).
          exact (Hstamp' id c1 Hin F1 F2 Hc1).
      - intros id Hnot. rewrite fmap_cons in Hnot. apply not_elem_of_cons in Hnot as (Hne & Hnot).
        eapply no_new_notification_trans; [apply Hquiet; auto|].
        eapply no_new_notification_trans; [|apply Hquiet'; exact Hnot].
        apply no_new_notification_refl; reflexivity. }
    apply Hrest.
Qed.

Lemma inactivity_try_true (ic : InactiveCase) (w w1 : World) (b : bool) :
  inactivity_try transport random apiKey fault ic w = (Val b, w1) -> b = true.
Proof.
  unfold inactivity_try, bind, logger, modify, ret.
  destruct (process_inactive_case transport random apiKey fault ic w) as [[[]|e] w0]; cbn;
    congruence.
Qed.

(** The loop counts the outcomes of its items. *)
Lemma inactivity_loop_outcomes (rows : list InactiveCase) (s f : nat) (w : World) :
  inactivity_loop transport random apiKey fault rows s f w
  = (Val (s + Stated.tally Stated.succeeded
                (fst (Stated.outcomes (inactivity_try transport random apiKey fault)
                        inactivity_catch rows w)),
          f + Stated.tally Stated.failed
                (fst (Stated.outcomes (inactivity_try transport random apiKey fault)
                        inactivity_catch rows w)))%nat,
     snd (Stated.outcomes (inactivity_try transport random apiKey fault)
            inactivity_catch rows w)).
Proof.
  revert s f w. induction rows as [|ic rest IH]; intros s f w.
  - cbn. rewrite !Nat.add_0_r. reflexivity.
  - cbn [inactivity_loop Stated.outcomes]. unfold bind at 1, try_catch.
    destruct (inactivity_try transport random apiKey fault ic w) as [[b|e] w1] eqn:Htry.
    + rewrite (inactivity_try_true _ _ _ _ Htry). rewrite IH.
      destruct (Stated.outcomes _ _ rest w1) as [outs w']. cbn.
      do 2 f_equal. unfold Stated.tally. cbn. f_equal; lia.
    + cbn. rewrite IH.
      destruct (Stated.outcomes _ _ rest _) as [outs w']. cbn.
      do 2 f_equal. unfold Stated.tally. cbn. f_equal; lia.
Qed.

Lemma bind_logger {A} (line : LogLine) (k : unit -> IO A) (w : World) :
  bind (logger line) k w = k tt (with_applog (applog w ++ [line]) w).
Proof. reflexivity. Qed.

(** The run: two log lines, the scan, the loop, and the line with the
    two counts. *)
Lemma inactivityCheckJob_run_eq (configured : option Z) (w : World) :
  let rows := select_inactive_cases (inactivityDaysThreshold_or configured 21) w in
  let w0 := with_applog (applog w ++ [LogInfo "Starting inactivity check job"]) w in
  let w1 := with_applog
              (applog w0 ++ [LogInfo ("Found " ++ show_nat (List.length rows)
                                      ++ " inactive cases needing notification")]) w0 in
  let r := Stated.outcomes (inactivity_try transport random apiKey fault)
             inactivity_catch rows w1 in
  inactivityCheckJob_run transport random apiKey fault configured w
  = (Val tt,
     with_applog
       (applog (snd r)
        ++ [LogInfo ("Inactivity check completed: "
                     ++ show_nat (Stated.tally Stated.succeeded (fst r))
                     ++ " notifications sent, "
                     ++ show_nat (Stated.tally Stated.failed (fst r)) ++ " failed")])
       (snd r)).
Proof.
  cbn zeta. unfold inactivityCheckJob_run. cbn zeta.
  rewrite bind_logger. unfold bind at 1, getInactiveCasesForNotification at 1.
  rewrite bind_logger. unfold bind at 1. rewrite inactivity_loop_outcomes.
  reflexivity.
Qed.

(** What a run of the job does to the stamps and notifications. *)
Lemma inactivityCheckJob_run_stamps (configured : option Z) (w : World) :
  let rows := select_inactive_cases (inactivityDaysThreshold_or configured 21) w in
  let w' := snd (inactivityCheckJob_run transport random apiKey fault configured w) in
  now w' = now w
  /\ (forall id c,
        id ∈ ic_id <$> rows ->
        fault "INSERT INTO notifications" id = false ->
        fault "UPDATE cases" id = false ->
        cases w !! id = Some c ->
        exists c', cases w' !! id = Some c'
                   /\ c_last_inactivity_notification c' = Some (now w))
  /\ (forall id, id ∉ ic_id <$> rows -> Stated.no_new_notification id w w').
Proof.
  cbn zeta. rewrite inactivityCheckJob_run_eq. cbn zeta. cbn [snd].
  set (rows := select_inactive_cases _ w).
  set (w1 := with_applog _ (with_applog _ w)).
  pose proof (inactivity_loop_run rows 0 0 w1) as Hloop. cbn zeta in Hloop.
  rewrite inactivity_loop_outcomes in Hloop. cbn [snd] in Hloop.
  destruct Hloop as (Hnow & _ & Hstamp & Hquiet).
  split; [exact Hnow|]. split; [exact Hstamp|].
  intros id Hid. destruct (Hquiet id Hid) as (Hn & Ho). split; assumption.
Qed.

End InactivityFacts.

(** * The batch jobs *)

Section BatchFacts.
Import Db Repo Services.

Variable transport : EmailRequest -> nat -> Delivery.SendOutcome.
Variable random : nat -> Q.
Variable apiKey : option string.
Variable fault : string -> Uuid -> bool.

Lemma outcomes_length {Item R} (attempt : Item -> IO R) (failed : Item -> LogLine)
    (items : list Item) (w : World) :
  List.length (fst (Stated.outcomes attempt failed items w)) = List.length items.
Proof.
  revert w. induction items as [|item rest IH]; intros w; [reflexivity|].
  cbn [Stated.outcomes].
  destruct (attempt item w) as [[x|e] w1].
  - specialize (IH w1). destruct (Stated.outcomes attempt failed rest w1). cbn in *. lia.
  - specialize (IH (with_applog (applog w1 ++ [failed item]) w1)).
    destruct (Stated.outcomes attempt failed rest _). cbn in *. lia.
Qed.

Lemma tally_split {R} (outs : list (option R)) :
  (Stated.tally Stated.succeeded outs + Stated.tally Stated.failed outs
   = List.length outs)%nat.
Proof.
  unfold Stated.tally, Stated.failed.
  induction outs as [|[x|] outs IH]; cbn; lia.
Qed.

Lemma tally_sent_le (outs : list (option ItemResult)) :
  (Stated.tally Stated.sent outs <= Stated.tally Stated.succeeded outs)%nat.
Proof.
  unfold Stated.tally.
  induction outs as [|[[]|] outs IH]; cbn; lia.
Qed.

(** The [try] block of the weekly job returns [Sent] or [Skipped]. *)
Lemma weekly_try_not_failed (lawyer : ActiveLawyer) (w w1 : World) (r : ItemResult) :
  weekly_try transport random apiKey fault lawyer w = (Val r, w1) -> r <> Failed.
Proof.
  unfold weekly_try, bind. 
  destruct (getLawyerSummary fault lawyer w) as [[summary|e] w0]; [|discriminate].
  destruct (totalCases summary =? 0)%nat.
  - unfold logger, modify, ret. intros [= <- _]. discriminate.
  - destruct (sendSummaryEmail transport random apiKey summary w0) as [[[]|e] w2];
      [|discriminate].
    unfold logger, modify, ret. intros [= <- _]. discriminate.
Qed.

(** The loop counts the outcomes of its items. *)
Lemma weekly_loop_outcomes (lawyers : list ActiveLawyer) (s f : nat) (w : World) :
  weekly_loop transport random apiKey fault lawyers s f w
  = (Val (s + Stated.tally Stated.sent
                (fst (Stated.outcomes (weekly_try transport random apiKey fault)
                        weekly_catch lawyers w)),
          f + Stated.tally Stated.failed
                (fst (Stated.outcomes (weekly_try transport random apiKey fault)
                        weekly_catch lawyers w)))%nat,
     snd (Stated.outcomes (weekly_try transport random apiKey fault)
            weekly_catch lawyers w)).
Proof.
  revert s f w. induction lawyers as [|lawyer rest IH]; intros s f w.
  - cbn. rewrite !Nat.add_0_r. reflexivity.
  - cbn [weekly_loop Stated.outcomes]. unfold bind at 1, try_catch.
    destruct (weekly_try transport random apiKey fault lawyer w) as [[r|e] w1] eqn:Htry.
    + pose proof (weekly_try_not_failed _ _ _ _ Htry) as Hr.
      destruct r; [| |contradiction]; rewrite IH;
        destruct (Stated.outcomes _ _ rest w1) as [outs w']; cbn;
        do 2 f_equal; unfold Stated.tally; cbn; f_equal; lia.
    + cbn. rewrite IH.
      destruct (Stated.outcomes _ _ rest _) as [outs w']. cbn.
      do 2 f_equal. unfold Stated.tally. cbn. f_equal; lia.
Qed.

(** The run: two log lines, the query, the loop, and the line with the
    two counts. *)
Lemma weeklySummaryJob_run_eq (w : World) :
  let lawyers := select_active_lawyers w in
  let w0 := with_applog (applog w ++ [LogInfo "Starting weekly summary job"]) w in
  let w1 := with_applog
              (applog w0 ++ [LogInfo ("Found " ++ show_nat (List.length lawyers)
                                      ++ " active lawyers")]) w0 in
  let r := Stated.outcomes (weekly_try transport random apiKey fault)
             weekly_catch lawyers w1 in
  weeklySummaryJob_run transport random apiKey fault w
  = (Val tt,
     with_applog
       (applog (snd r)
        ++ [LogInfo ("Weekly summary job completed: "
                     ++ show_nat (Stated.tally Stated.sent (fst r))
                     ++ " sent, "
                     ++ show_nat (Stated.tally Stated.failed (fst r)) ++ " failed")])
       (snd r)).
Proof.
  cbn zeta. unfold weeklySummaryJob_run.
  rewrite bind_logger. unfold bind at 1, getActiveLawyers at 1.
  rewrite bind_logger. unfold bind at 1. rewrite weekly_loop_outcomes.
  reflexivity.
Qed.

End BatchFacts.

(** [C4] The scan selects the cases that are due: those whose status is
    none of closed, archived and resolved, whose last activity is more
    than the threshold of days back, and whose last inactivity
    notification is missing or more than seven days back.  A run of the
    job stamps every selected case whose notification and stamp are
    written with the time of the run; and while such a case keeps its row,
    a scan at most seven days after that time does not select it, and a
    run of the job then stores no notification and hands no mail to the
    sender for it. *)
Theorem inactivity_scan_is_idempotent
    (transport transport2 : Db.EmailRequest -> nat -> Delivery.SendOutcome)
    (random random2 : nat -> Q) (apiKey apiKey2 : option string)
    (fault fault2 : string -> Db.Uuid -> bool) :
  (forall d w,
     Stated.consistent w ->
     exists rows,
       Services.getInactiveCasesForNotification d w = (Val rows, w)
       /\ forall id, id ∈ Services.ic_id <$> rows
                     <-> exists c, Db.cases w !! id = Some c /\ Stated.due d (Db.now w) c)
  /\ (forall configured w id c,
        Stated.consistent w ->
        Db.cases w !! id = Some c ->
        Stated.due (Services.inactivityDaysThreshold_or configured 21) (Db.now w) c ->
        fault "INSERT INTO notifications" id = false ->
        fault "UPDATE cases" id = false ->
        let w1 := snd (Services.inactivityCheckJob_run transport random apiKey fault
                         configured w) in
        (exists c1, Db.cases w1 !! id = Some c1
                    /\ Db.c_last_inactivity_notification c1 = Some (Db.now w))
        /\ forall configured2 w2,
             Stated.consistent w2 ->
             Db.cases w2 !! id = Db.cases w1 !! id ->
             Db.now w2 - Db.now w <= 7 * Db.day ->
             (forall d2 rows2,
                Services.getInactiveCasesForNotification d2 w2 = (Val rows2, w2) ->
                id ∉ Services.ic_id <$> rows2)
             /\ Stated.no_new_notification id w2
                  (snd (Services.inactivityCheckJob_run transport2 random2 apiKey2 fault2
                          configured2 w2))).
Proof.
  split.
  - intros d w Hcons. eexists. split; [reflexivity|].
    apply select_inactive_cases_spec, Hcons.
  - intros configured w id c Hcons Hc Hdue F1 F2 w1.
    destruct (inactivityCheckJob_run_stamps transport random apiKey fault configured w)
      as (_ & Hstamp & _).
    destruct (Hstamp id c) as (c1 & Hc1 & Hs1); auto.
    { apply select_inactive_cases_spec; eauto. }
    split; [eauto|].
    intros configured2 w2 Hcons2 Hsame Hwindow.
    assert (Hnot : forall d2, id ∉ Services.ic_id <$> Services.select_inactive_cases d2 w2).
    { intros d2 Hin. apply select_inactive_cases_spec in Hin as (c2 & Hc2 & Hdue2); [|exact Hcons2].
      unfold w1 in Hsame. rewrite Hsame, Hc1 in Hc2. injection Hc2 as <-.
      destruct Hdue2 as (_ & _ & [Hnone|(last & Hlast & Hgt)]); [congruence|].
      rewrite Hs1 in Hlast. injection Hlast as <-. lia. }
    split.
    + intros d2 rows2 [= <-]. apply Hnot.
    + apply (inactivityCheckJob_run_stamps transport2 random2 apiKey2 fault2 configured2 w2),
        Hnot.
Qed.

Lemma sample_consistent : Stated.consistent Sample.world.
Proof.
  intros id c H. unfold Sample.world in H. cbn [Db.cases] in H.
  apply lookup_insert_Some in H as [[<- <-]|[_ H]].
  { split; [reflexivity|]. exists {| Db.cl_id := 11; Db.cl_user_id := 1 |}, Sample.ana.
    split; vm_compute; reflexivity. }
  apply lookup_insert_Some in H as [[<- <-]|[_ H]].
  { split; [reflexivity|]. exists {| Db.cl_id := 11; Db.cl_user_id := 1 |}, Sample.ana.
    split; vm_compute; reflexivity. }
  rewrite lookup_empty in H. discriminate.
Defined.

Lemma sample_later_consistent : Stated.consistent Sample.world_later.
Proof.
  intros id c H. unfold Sample.world_later, Sample.world in H. cbn [Db.cases Db.with_cases] in H.
  apply lookup_insert_Some in H as [[<- <-]|[_ H]].
  { split; [reflexivity|]. exists {| Db.cl_id := 11; Db.cl_user_id := 1 |}, Sample.ana.
    split; vm_compute; reflexivity. }
  apply lookup_insert_Some in H as [[<- <-]|[_ H]].
  { split; [reflexivity|]. exists {| Db.cl_id := 11; Db.cl_user_id := 1 |}, Sample.ana.
    split; vm_compute; reflexivity. }
  apply lookup_insert_Some in H as [[<- <-]|[_ H]].
  { split; [reflexivity|]. exists {| Db.cl_id := 11; Db.cl_user_id := 1 |}, Sample.ana.
    split; vm_compute; reflexivity. }
  rewrite lookup_empty in H. discriminate.
Defined.

(** Case 101 of the sample database has been inactive for 25 days: a run
    with the threshold of 21 days stamps it, and a run three days later
    neither selects it nor notifies its client. *)
Lemma inactivity_scan_is_idempotent_witness :
  Stated.consistent Sample.world
  /\ Stated.due 21 (Db.now Sample.world) Sample.case_a
  /\ (exists c1,
        Db.cases (snd (Services.inactivityCheckJob_run Sample.transport_down
                         Sample.no_jitter Sample.key Sample.no_fault None Sample.world))
          !! 101%N = Some c1
        /\ Db.c_last_inactivity_notification c1 = Some Sample.t0)
  /\ (101%N ∉ Services.ic_id <$> Services.select_inactive_cases 21 Sample.world_later)
  /\ Stated.no_new_notification 101 Sample.world_later
       (snd (Services.inactivityCheckJob_run Sample.transport_down Sample.no_jitter
               Sample.key Sample.no_fault None Sample.world_later)).
Proof.
  assert (Hdue : Stated.due 21 (Db.now Sample.world) Sample.case_a).
  { split; [|split; [vm_compute; reflexivity|left; reflexivity]].
    repeat (apply not_elem_of_cons; split; [discriminate|]). apply not_elem_of_nil. }
  split; [exact sample_consistent|]. split; [exact Hdue|].
  destruct (proj2 (inactivity_scan_is_idempotent
                     Sample.transport_down Sample.transport_down
                     Sample.no_jitter Sample.no_jitter Sample.key Sample.key
                     Sample.no_fault Sample.no_fault)
              None Sample.world 101%N Sample.case_a sample_consistent
              ltac:(vm_compute; reflexivity) Hdue eq_refl eq_refl) as (Hstamped & Hlater).
  split; [exact Hstamped|].
  destruct (Hlater None Sample.world_later sample_later_consistent
              ltac:(vm_compute; reflexivity) ltac:(vm_compute; discriminate))
    as (Hnot & Hquiet).
  split; [exact (Hnot 21 _ eq_refl)|exact Hquiet].
Defined.

(** [C9] Both batch jobs return, whatever fails inside their loops.  An
    item whose [try] block throws is caught there: the failure counter
    goes up by one, the line of the [catch] is logged, and the loop goes
    on with the remaining items.  The counters of a run are the numbers
    of items that succeeded (were sent) and that failed among the
    outcomes of all items of the batch, attempted in turn, and the last
    line a run logs carries the two counts. *)
Theorem batch_failures_are_isolated
    (transport : Db.EmailRequest -> nat -> Delivery.SendOutcome) (random : nat -> Q)
    (apiKey : option string) (fault : string -> Db.Uuid -> bool) :
  (forall ic rest s f w e w1,
     Services.inactivity_try transport random apiKey fault ic w = (Exn e, w1) ->
     Services.inactivity_loop transport random apiKey fault (ic :: rest) s f w
     = Services.inactivity_loop transport random apiKey fault rest s (S f)
         (Db.with_applog (Db.applog w1 ++ [Services.inactivity_catch ic]) w1))
  /\ (forall lawyer rest s f w e w1,
        Services.weekly_try transport random apiKey fault lawyer w = (Exn e, w1) ->
        Services.weekly_loop transport random apiKey fault (lawyer :: rest) s f w
        = Services.weekly_loop transport random apiKey fault rest s (S f)
            (Db.with_applog (Db.applog w1 ++ [Services.weekly_catch lawyer]) w1))
  /\ (forall configured w,
        let rows := Services.select_inactive_cases
                      (Services.inactivityDaysThreshold_or configured 21) w in
        let w0 := Db.with_applog
                    (Db.applog w ++ [LogInfo "Starting inactivity check job"]) w in
        let w1 := Db.with_applog
                    (Db.applog w0
                     ++ [LogInfo ("Found " ++ Services.show_nat (List.length rows)
                                  ++ " inactive cases needing notification")]) w0 in
        let r := Stated.outcomes (Services.inactivity_try transport random apiKey fault)
                   Services.inactivity_catch rows w1 in
        Services.inactivityCheckJob_run transport random apiKey fault configured w
        = (Val tt,
           Db.with_applog
             (Db.applog (snd r)
              ++ [LogInfo ("Inactivity check completed: "
                           ++ Services.show_nat (Stated.tally Stated.succeeded (fst r))
                           ++ " notifications sent, "
                           ++ Services.show_nat (Stated.tally Stated.failed (fst r))
                           ++ " failed")])
             (snd r))
        /\ List.length (fst r) = List.length rows
        /\ (Stated.tally Stated.succeeded (fst r) + Stated.tally Stated.failed (fst r)
            = List.length rows)%nat)
  /\ (forall w,
        let lawyers := Services.select_active_lawyers w in
        let w0 := Db.with_applog
                    (Db.applog w ++ [LogInfo "Starting weekly summary job"]) w in
        let w1 := Db.with_applog
                    (Db.applog w0
                     ++ [LogInfo ("Found " ++ Services.show_nat (List.length lawyers)
                                  ++ " active lawyers")]) w0 in
        let r := Stated.outcomes (Services.weekly_try transport random apiKey fault)
                   Services.weekly_catch lawyers w1 in
        Services.weeklySummaryJob_run transport random apiKey fault w
        = (Val tt,
           Db.with_applog
             (Db.applog (snd r)
              ++ [LogInfo ("Weekly summary job completed: "
                           ++ Services.show_nat (Stated.tally Stated.sent (fst r))
                           ++ " sent, "
                           ++ Services.show_nat (Stated.tally Stated.failed (fst r))
                           ++ " failed")])
             (snd r))
        /\ List.length (fst r) = List.length lawyers
        /\ (Stated.tally Stated.sent (fst r) + Stated.tally Stated.failed (fst r)
            <= List.length lawyers)%nat).
Proof.
  split; [|split; [|split]].
  - intros ic rest s f w e w1 Htry.
    cbn [Services.inactivity_loop]. unfold bind at 1, try_catch. rewrite Htry. reflexivity.
  - intros lawyer rest s f w e w1 Htry.
    cbn [Services.weekly_loop]. unfold bind at 1, try_catch. rewrite Htry. reflexivity.
  - intros configured w. cbn zeta. split; [apply inactivityCheckJob_run_eq|].
    rewrite tally_split, outcomes_length. split; reflexivity.
  - intros w. cbn zeta. split; [apply weeklySummaryJob_run_eq|].
    split; [apply outcomes_length|].
    match goal with
    | |- (Stated.tally Stated.sent ?outs + _ <= _)%nat =>
        pose proof (tally_sent_le outs) as Hle; pose proof (tally_split outs) as Hsum
    end.
    rewrite outcomes_length in Hsum. lia.
Qed.

(** With a threshold of one day both cases of the sample database are
    due.  The notification of case 101, the first of the two, cannot be
    stored: the loop counts the failure and goes on with case 102, and the
    run ends with the line of the two counts. *)
Lemma batch_failures_are_isolated_witness :
  exists ic rest w1 w',
    Services.select_inactive_cases 1 Sample.world = ic :: rest
    /\ Services.ic_id ic = 101%N
    /\ Services.ic_id <$> rest = [102%N]
    /\ Services.inactivity_loop Sample.transport_down Sample.no_jitter Sample.key
         Sample.fault_101 (ic :: rest) 0 0 Sample.world
       = Services.inactivity_loop Sample.transport_down Sample.no_jitter Sample.key
           Sample.fault_101 rest 0 1 w1
    /\ Services.inactivityCheckJob_run Sample.transport_down Sample.no_jitter Sample.key
         Sample.fault_101 (Some 1) Sample.world = (Val tt, w')
    /\ last (Db.applog w')
       = Some (LogInfo "Inactivity check completed: 0 notifications sent, 2 failed")
    /\ exists k n, Db.notifications w' !! k = Some n /\ Db.n_case_id n = Some 102%N
                   /\ Db.n_title n = "Case Update Needed".
Proof.
  eexists _, _, _, _.
  split; [vm_compute; reflexivity|].
  split; [reflexivity|]. split; [reflexivity|].
  split.
  { refine (proj1 (batch_failures_are_isolated Sample.transport_down Sample.no_jitter
                     Sample.key Sample.fault_101) _ _ 0%nat 0%nat Sample.world _ _ _).
    vm_compute. reflexivity. }
  split; [vm_compute; reflexivity|].
  split; [vm_compute; reflexivity|].
  exists 1000%N. eexists. split; [vm_compute; reflexivity|]. split; reflexivity.
Defined.

(** * Rendering of templates *)

Section TemplateFacts.
Import Template Markup.

Lemma append_nil_r (s : string) : s ++ "" = s.
Proof. induction s as [|c s IH]; [reflexivity|]. rewrite append_cons, IH. reflexivity. Qed.

Lemma length_append (a b : string) :
  String.length (a ++ b) = (String.length a + String.length b)%nat.
Proof. induction a as [|c a IH]; [reflexivity|]. rewrite append_cons. cbn. rewrite IH. reflexivity. Qed.

Lemma strip_prefix_append (p rest : string) : strip_prefix p (p ++ rest) = Some rest.
Proof.
  induction p as [|c p IH]; [reflexivity|].
  rewrite append_cons. cbn [strip_prefix]. rewrite Ascii.eqb_refl. exact IH.
Qed.

Lemma word_char_other (c d : ascii) :
  is_word_char c = true -> is_word_char d = false -> Ascii.eqb c d = false.
Proof. intros Hc Hd. destruct (Ascii.eqb_spec c d) as [->|]; congruence. Qed.

Lemma word_char_no_brace (c : ascii) : is_word_char c = true -> no_brace c = true.
Proof.
  intros H. unfold no_brace. apply negb_true_iff, Nat.eqb_neq. intros Hc.
  assert (c = "{"%char) as ->.
  { rewrite <- (ascii_nat_embedding c). unfold code_of in Hc. rewrite Hc. reflexivity. }
  vm_compute in H. discriminate.
Qed.

Lemma no_brace_neq (c : ascii) : no_brace c = true -> Ascii.eqb "{" c = false.
Proof.
  intros H. destruct (Ascii.eqb_spec "{"%char c) as [<-|]; [|reflexivity].
  vm_compute in H. discriminate.
Qed.

Lemma plain_char_no_brace (c : ascii) : plain_char c = true -> no_brace c = true.
Proof. unfold plain_char. intros H. apply andb_true_iff in H as [H _]. exact H. Qed.

Lemma is_name_word (name : string) : is_name name = true -> all_chars is_word_char name = true.
Proof. destruct name; [discriminate|auto]. Qed.

(** ** The first pass: one entry of the variables *)

Lemma get_substitution_plain (matched before after repl : string) :
  all_chars plain_char repl = true ->
  get_substitution matched before after repl = repl.
Proof.
  induction repl as [|c tl IH]; [reflexivity|].
  cbn [all_chars]. intros H. apply andb_true_iff in H as [Hc Htl].
  cbn [get_substitution].
  unfold plain_char in Hc. apply andb_true_iff in Hc as [_ Hc].
  apply negb_true_iff in Hc. rewrite Hc, (IH Htl). reflexivity.
Qed.

Section OneEntry.

Variable pat repl : string.
Hypothesis repl_plain : all_chars plain_char repl = true.

Lemma replace_all_from_before (skip : nat) (b b' s : string) :
  replace_all_from pat repl skip b s = replace_all_from pat repl skip b' s.
Proof.
  revert skip b b'. induction s as [|c s IH]; intros skip b b'; [reflexivity|].
  cbn [replace_all_from]. destruct skip as [|k]; [|apply IH].
  destruct (strip_prefix pat (String c s)) as [after|].
  - rewrite !get_substitution_plain by exact repl_plain. f_equal. apply IH.
  - f_equal. apply IH.
Qed.

Lemma replace_all_from_drop (a rest b : string) :
  replace_all_from pat repl (String.length a) b (a ++ rest)
  = replace_all_from pat repl 0 EmptyString rest.
Proof.
  revert b. induction a as [|c a IH]; intros b.
  - rewrite append_nil. apply replace_all_from_before.
  - rewrite append_cons. cbn [String.length replace_all_from]. apply IH.
Qed.

Lemma replace_all_from_run (a rest b : string) :
  never_starts pat a ->
  replace_all_from pat repl 0 b (a ++ rest)
  = a ++ replace_all_from pat repl 0 EmptyString rest.
Proof.
  revert b. induction a as [|c a IH]; intros b Ha.
  - rewrite !append_nil. apply replace_all_from_before.
  - destruct Ha as [Hc Ha]. rewrite !append_cons. cbn [replace_all_from].
    rewrite (Hc rest). f_equal. apply IH, Ha.
Qed.

Lemma replace_all_from_match (c : ascii) (p rest b : string) :
  pat = String c p ->
  replace_all_from pat repl 0 b (pat ++ rest)
  = repl ++ replace_all_from pat repl 0 EmptyString rest.
Proof.
  intros Hpat. pose proof (strip_prefix_append pat rest) as Hstrip.
  rewrite Hpat in *. rewrite append_cons in *. cbn [replace_all_from].
  rewrite Hstrip, get_substitution_plain by exact repl_plain.
  f_equal. cbn [String.length]. rewrite Nat.sub_succ, Nat.sub_0_r, <- Hpat.
  apply replace_all_from_drop.
Qed.

End OneEntry.

Lemma all_chars_append (p : ascii -> bool) (a b : string) :
  all_chars p (a ++ b) = all_chars p a && all_chars p b.
Proof.
  induction a as [|c a IH]; [reflexivity|].
  rewrite append_cons. cbn [all_chars]. rewrite IH, andb_assoc. reflexivity.
Qed.

Lemma never_starts_append (pat a b : string) :
  never_starts pat a -> never_starts pat b -> never_starts pat (a ++ b).
Proof.
  intros Ha Hb. induction a as [|c a IH]; [rewrite append_nil; exact Hb|].
  destruct Ha as [Hc Ha]. rewrite append_cons. split; [|apply IH, Ha].
  intros rest. rewrite append_assoc. apply Hc.
Qed.

Lemma never_starts_plain (p a : string) :
  all_chars no_brace a = true -> never_starts (String "{" p) a.
Proof.
  induction a as [|c a IH]; [constructor|].
  cbn [all_chars]. intros H. apply andb_true_iff in H as [Hc Ha].
  split; [|apply IH, Ha].
  intros rest. cbn [strip_prefix]. rewrite (no_brace_neq c Hc). reflexivity.
Qed.

(** A marker [{{a] is passed over by a pattern [{{p] that does not match
    at its start. *)
Lemma never_starts_marker (p : string) (c : ascii) (a : string) :
  all_chars no_brace (String c a) = true ->
  (forall rest, strip_prefix p (String c a ++ rest) = None) ->
  never_starts (String "{" (String "{" p)) (String "{" (String "{" (String c a))).
Proof.
  intros Ha Hp. split; [|split].
  - intros rest. rewrite append_cons. cbn [strip_prefix]. rewrite !Ascii.eqb_refl. apply Hp.
  - intros rest. rewrite append_cons. cbn [strip_prefix]. rewrite Ascii.eqb_refl.
    cbn [all_chars] in Ha. apply andb_true_iff in Ha as [Hc _].
    rewrite (no_brace_neq c Hc). reflexivity.
  - apply never_starts_plain, Ha.
Qed.

Lemma name_mismatch (k k' rest : string) :
  all_chars is_word_char k = true -> all_chars is_word_char k' = true -> k <> k' ->
  strip_prefix (k ++ "}}") (k' ++ "}}" ++ rest) = None.
Proof.
  revert k'. induction k as [|c k IH]; intros [|c' k'] Hk Hk' Hne.
  - congruence.
  - rewrite append_nil, append_cons. cbn [strip_prefix].
    cbn [all_chars] in Hk'. apply andb_true_iff in Hk' as [Hc' _].
    rewrite Ascii.eqb_sym, (word_char_other c' "}" Hc' eq_refl). reflexivity.
  - rewrite append_nil, append_cons. cbn [all_chars] in Hk. apply andb_true_iff in Hk as [Hc _].
    change ("}}" ++ rest) with (String "}" (String "}" rest)). cbn [strip_prefix].
    rewrite (word_char_other c "}" Hc eq_refl). reflexivity.
  - rewrite !append_cons. cbn [strip_prefix].
    cbn [all_chars] in Hk, Hk'.
    apply andb_true_iff in Hk as [_ Hk]. apply andb_true_iff in Hk' as [_ Hk'].
    destruct (Ascii.eqb_spec c c') as [->|]; [|reflexivity].
    apply IH; auto. congruence.
Qed.

Lemma name_not_at (k : string) (d : ascii) (tail : string) :
  is_name k = true -> is_word_char d = false ->
  strip_prefix (k ++ "}}") (String d tail) = None.
Proof.
  destruct k as [|c k]; [discriminate|]. cbn [is_name all_chars].
  intros Hk Hd. apply andb_true_iff in Hk as [Hc _].
  rewrite append_cons. cbn [strip_prefix]. rewrite (word_char_other c d Hc Hd). reflexivity.
Qed.

Lemma name_no_brace (k tail : string) :
  is_name k = true -> all_chars no_brace tail = true ->
  all_chars no_brace (k ++ tail) = true.
Proof.
  intros Hk Ht. rewrite all_chars_append, Ht, andb_true_r.
  eapply all_chars_impl; [exact word_char_no_brace|]. apply is_name_word, Hk.
Qed.

Section OnePass.

Variable key value : string.
Hypothesis key_name : is_name key = true.
Hypothesis value_plain : all_chars plain_char value = true.

(** A placeholder of another name, the opening and the closing marker
    of a block are passed over. *)
Lemma pass_other_name (k rest : string) :
  is_name k = true -> k <> key ->
  replace_all (placeholder key) value (placeholder k ++ rest)
  = placeholder k ++ replace_all (placeholder key) value rest.
Proof.
  intros Hk Hne. apply replace_all_from_run; [exact value_plain|].
  change (placeholder key) with (String "{" (String "{" (key ++ "}}"))).
  change (placeholder k) with (String "{" (String "{" (k ++ "}}"))).
  assert (Hc : exists c0 a0, k ++ "}}" = String c0 a0).
  { destruct k as [|c0 k0]; [discriminate|]. rewrite append_cons. eauto. }
  destruct Hc as (c0 & a0 & Hc). rewrite Hc.
  apply never_starts_marker.
  - rewrite <- Hc. apply name_no_brace; [exact Hk|reflexivity].
  - intros rest'. rewrite <- Hc, append_assoc.
    apply name_mismatch; auto using is_name_word.
Qed.

Lemma pass_same_name (rest : string) :
  replace_all (placeholder key) value (placeholder key ++ rest)
  = value ++ replace_all (placeholder key) value rest.
Proof.
  eapply replace_all_from_match; [exact value_plain|].
  change (placeholder key) with (String "{" (String "{" (key ++ "}}"))). reflexivity.
Qed.

Lemma pass_text (t rest : string) :
  all_chars no_brace t = true ->
  replace_all (placeholder key) value (t ++ rest)
  = t ++ replace_all (placeholder key) value rest.
Proof.
  intros Ht. apply replace_all_from_run; [exact value_plain|].
  change (placeholder key) with (String "{" (String "{" (key ++ "}}"))).
  apply never_starts_plain, Ht.
Qed.

Lemma pass_open (name rest : string) :
  is_name name = true ->
  replace_all (placeholder key) value (("{{#if " ++ name ++ "}}") ++ rest)
  = ("{{#if " ++ name ++ "}}") ++ replace_all (placeholder key) value rest.
Proof.
  intros Hn. apply replace_all_from_run; [exact value_plain|].
  change (placeholder key) with (String "{" (String "{" (key ++ "}}"))).
  change ("{{#if " ++ name ++ "}}")
    with (String "{" (String "{" (String "#" ("if " ++ name ++ "}}")))).
  apply never_starts_marker.
  - change (String "#" ("if " ++ name ++ "}}")) with ("#if " ++ name ++ "}}").
    rewrite all_chars_append, name_no_brace; auto.
  - intros rest'. rewrite append_cons. apply name_not_at; [exact key_name|reflexivity].
Qed.

Lemma pass_close (rest : string) :
  replace_all (placeholder key) value ("{{/if}}" ++ rest)
  = "{{/if}}" ++ replace_all (placeholder key) value rest.
Proof.
  apply replace_all_from_run; [exact value_plain|].
  change (placeholder key) with (String "{" (String "{" (key ++ "}}"))).
  change "{{/if}}" with (String "{" (String "{" (String "/" "if}}"))).
  apply never_starts_marker; [reflexivity|].
  intros rest'. rewrite append_cons. apply name_not_at; [exact key_name|reflexivity].
Qed.

Lemma pass_piece (p : Piece) (rest : string) :
  piece_ok p = true ->
  replace_all (placeholder key) value (piece_text p ++ rest)
  = piece_text (fill_piece key value p) ++ replace_all (placeholder key) value rest.
Proof.
  destruct p as [t|k]; cbn [piece_ok piece_text fill_piece]; intros Hp.
  - apply pass_text, Hp.
  - destruct (String.eqb_spec k key) as [->|Hne].
    + apply pass_same_name.
    + apply pass_other_name; auto.
Qed.

Lemma pass_pieces (ps : list Piece) (rest : string) :
  forallb piece_ok ps = true ->
  replace_all (placeholder key) value (pieces_text ps ++ rest)
  = pieces_text (fill_piece key value <$> ps) ++ replace_all (placeholder key) value rest.
Proof.
  induction ps as [|p ps IH]; cbn [forallb pieces_text fmap list_fmap]; intros Hps.
  - rewrite !append_nil. reflexivity.
  - apply andb_true_iff in Hps as [Hp Hps].
    rewrite !append_assoc, pass_piece, IH by assumption. reflexivity.
Qed.

Lemma segment_text_if (name : string) (body : list Piece) (rest : string) :
  segment_text (If name body) ++ rest
  = ("{{#if " ++ name ++ "}}") ++ pieces_text body ++ "{{/if}}" ++ rest.
Proof. cbn [segment_text]. rewrite !append_assoc. reflexivity. Qed.

Lemma pass_segment (s : Segment) (rest : string) :
  segment_ok s = true ->
  replace_all (placeholder key) value (segment_text s ++ rest)
  = segment_text (fill_segment key value s) ++ replace_all (placeholder key) value rest.
Proof.
  destruct s as [p|name body]; cbn [segment_ok fill_segment]; intros Hs.
  - apply pass_piece, Hs.
  - apply andb_true_iff in Hs as [Hn Hb].
    rewrite !segment_text_if, pass_open, pass_pieces, pass_close by assumption.
    reflexivity.
Qed.

Lemma pass_template (segs : list Segment) :
  well_formed segs = true ->
  replace_all (placeholder key) value (template_text segs)
  = template_text (fill_segment key value <$> segs).
Proof.
  induction segs as [|s segs IH]; cbn [well_formed forallb template_text fmap list_fmap];
    intros Hs; [reflexivity|].
  apply andb_true_iff in Hs as [Hs Hsegs].
  rewrite pass_segment, IH by assumption. reflexivity.
Qed.

Lemma fill_piece_ok (p : Piece) : piece_ok p = true -> piece_ok (fill_piece key value p) = true.
Proof.
  destruct p as [t|k]; cbn [fill_piece]; [auto|].
  destruct (k =? key)%string; [|auto]. intros _. cbn [piece_ok].
  eapply all_chars_impl; [exact plain_char_no_brace|exact value_plain].
Qed.

Lemma fill_segment_ok (s : Segment) :
  segment_ok s = true -> segment_ok (fill_segment key value s) = true.
Proof.
  destruct s as [p|name body]; cbn [fill_segment segment_ok]; [apply fill_piece_ok|].
  intros H. apply andb_true_iff in H as [Hn Hb]. rewrite Hn. cbn.
  induction body as [|p body IH]; [reflexivity|].
  cbn [forallb fmap list_fmap] in *. apply andb_true_iff in Hb as [Hp Hb].
  rewrite fill_piece_ok, IH by assumption. reflexivity.
Qed.

Lemma fill_template_ok (segs : list Segment) :
  well_formed segs = true -> well_formed (fill_segment key value <$> segs) = true.
Proof.
  unfold well_formed. induction segs as [|s segs IH]; [reflexivity|].
  cbn [forallb fmap list_fmap]. intros H. apply andb_true_iff in H as [Hs Hsegs].
  rewrite fill_segment_ok, IH by assumption. reflexivity.
Qed.

End OnePass.

(** ** The second pass: the conditional blocks *)

Lemma word_not_space (c : ascii) : is_word_char c = true -> is_space_char c = false.
Proof.
  intros H. destruct (is_space_char c) eqn:Hs; [|reflexivity].
  unfold is_space_char, is_word_char in *.
  repeat match goal with
         | H : context [(?a <=? ?b)%nat] |- _ => destruct (Nat.leb_spec a b)
         | H : context [(?a =? ?b)%nat] |- _ => destruct (Nat.eqb_spec a b)
         end; cbn in *; try discriminate; lia.
Qed.

Lemma span_stop (p : ascii -> bool) (c : ascii) (s : string) :
  p c = false -> span p (String c s) = (EmptyString, String c s).
Proof. intros H. cbn [span]. rewrite H. reflexivity. Qed.

Lemma span_append (p : ascii -> bool) (a : string) (c : ascii) (b : string) :
  all_chars p a = true -> p c = false -> span p (a ++ String c b) = (a, String c b).
Proof.
  intros Ha Hc. induction a as [|x a IH].
  - rewrite append_nil. apply span_stop, Hc.
  - cbn [all_chars] in Ha. apply andb_true_iff in Ha as [Hx Ha].
    rewrite append_cons. cbn [span]. rewrite Hx, (IH Ha). reflexivity.
Qed.

Lemma name_head (name : string) :
  is_name name = true -> exists c tl, name = String c tl /\ is_word_char c = true.
Proof.
  destruct name as [|c tl]; [discriminate|]. cbn. intros H.
  apply andb_true_iff in H as [Hc _]. eauto.
Qed.

Lemma match_if_open_marker (name tail : string) :
  is_name name = true ->
  match_if_open (("{{#if " ++ name ++ "}}") ++ tail) = Some (name, tail).
Proof.
  intros Hn. destruct (name_head name Hn) as (c & tl & Hname & Hc).
  assert (Hsp : span is_space_char (name ++ "}}" ++ tail)
                = (EmptyString, name ++ "}}" ++ tail)).
  { rewrite Hname, append_cons. apply span_stop, word_not_space, Hc. }
  assert (Hw : span is_word_char (name ++ "}}" ++ tail) = (name, "}}" ++ tail)).
  { apply (span_append is_word_char name "}" (String "}" tail));
      [apply is_name_word, Hn|reflexivity]. }
  replace (("{{#if " ++ name ++ "}}") ++ tail)
    with ("{{#if" ++ String " " (name ++ "}}" ++ tail))
    by (rewrite !append_assoc; reflexivity).
  unfold match_if_open. rewrite strip_prefix_append.
  cbn [span]. change (is_space_char " ") with true. cbv iota.
  rewrite Hsp. cbv iota beta. rewrite Hw. cbv iota beta.
  rewrite strip_prefix_append. destruct name; [discriminate|reflexivity].
Qed.

Lemma find_close_run (a rest : string) :
  never_starts "{{/if}}" a -> find_close (a ++ "{{/if}}" ++ rest) = Some (a, rest).
Proof.
  induction a as [|c a IH]; intros Ha.
  - rewrite append_nil.
    change ("{{/if}}" ++ rest) with (String "{" ("{/if}}" ++ rest)).
    cbn [find_close].
    change (String "{" ("{/if}}" ++ rest)) with ("{{/if}}" ++ rest).
    rewrite strip_prefix_append. reflexivity.
  - destruct Ha as [Hc Ha]. rewrite append_cons. cbn [find_close].
    rewrite (Hc ("{{/if}}" ++ rest)), (IH Ha). reflexivity.
Qed.

Lemma never_starts_placeholder (p : string) (d : ascii) (p' : string) (k : string) :
  p = String d p' -> is_word_char d = false -> is_name k = true ->
  never_starts (String "{" (String "{" p)) (placeholder k).
Proof.
  intros Hp Hd Hk. destruct (name_head k Hk) as (c & tl & Hname & Hc).
  change (placeholder k) with (String "{" (String "{" (k ++ "}}"))).
  assert (Hform : k ++ "}}" = String c (tl ++ "}}")) by (rewrite Hname; reflexivity).
  rewrite Hform. apply never_starts_marker.
  - rewrite <- Hform. apply name_no_brace; [exact Hk|reflexivity].
  - intros rest. rewrite Hp, append_cons. cbn [strip_prefix].
    rewrite Ascii.eqb_sym, (word_char_other c d Hc Hd). reflexivity.
Qed.

Lemma never_starts_piece (p : string) (d : ascii) (p' : string) (piece : Piece) :
  p = String d p' -> is_word_char d = false -> piece_ok piece = true ->
  never_starts (String "{" (String "{" p)) (piece_text piece).
Proof.
  intros Hp Hd Hok. destruct piece as [t|k]; cbn [piece_text piece_ok] in *.
  - apply never_starts_plain, Hok.
  - eapply never_starts_placeholder; eauto.
Qed.

Lemma never_starts_pieces (p : string) (d : ascii) (p' : string) (ps : list Piece) :
  p = String d p' -> is_word_char d = false -> forallb piece_ok ps = true ->
  never_starts (String "{" (String "{" p)) (pieces_text ps).
Proof.
  intros Hp Hd. induction ps as [|piece ps IH]; cbn [forallb pieces_text]; intros Hok.
  - constructor.
  - apply andb_true_iff in Hok as [H1 H2].
    apply never_starts_append; [eapply never_starts_piece; eauto|auto].
Qed.

Lemma match_if_block_marker (name : string) (body : list Piece) (rest : string) :
  is_name name = true -> forallb piece_ok body = true ->
  match_if_block (segment_text (If name body) ++ rest)
  = Some (name, pieces_text body, rest).
Proof.
  intros Hn Hb. rewrite segment_text_if. unfold match_if_block.
  rewrite match_if_open_marker by exact Hn.
  rewrite find_close_run; [reflexivity|].
  exact (never_starts_pieces "/if}}" "/" "if}}" body eq_refl eq_refl Hb).
Qed.

Section Blocks.

Variable truth : Variables.

Lemma replace_if_blocks_drop (a rest : string) :
  replace_if_blocks truth (String.length a) (a ++ rest) = replace_if_blocks truth 0 rest.
Proof.
  induction a as [|c a IH]; [reflexivity|].
  rewrite append_cons. cbn [String.length replace_if_blocks]. exact IH.
Qed.

Lemma replace_if_blocks_run (a rest : string) :
  never_starts "{{#if" a ->
  replace_if_blocks truth 0 (a ++ rest) = a ++ replace_if_blocks truth 0 rest.
Proof.
  induction a as [|c a IH]; intros Ha; [reflexivity|].
  destruct Ha as [Hc Ha]. rewrite !append_cons. cbn [replace_if_blocks].
  unfold match_if_block, match_if_open. rewrite (Hc rest). f_equal. apply IH, Ha.
Qed.

Lemma replace_if_blocks_piece (p : Piece) (rest : string) :
  piece_ok p = true ->
  replace_if_blocks truth 0 (piece_text p ++ rest)
  = piece_text p ++ replace_if_blocks truth 0 rest.
Proof.
  intros Hp. apply replace_if_blocks_run.
  exact (never_starts_piece "#if" "#" "if" p eq_refl eq_refl Hp).
Qed.

Lemma replace_if_blocks_block (name : string) (body : list Piece) (rest : string) :
  is_name name = true -> forallb piece_ok body = true ->
  replace_if_blocks truth 0 (segment_text (If name body) ++ rest)
  = (if truthy_variable truth name then pieces_text body else EmptyString)
    ++ replace_if_blocks truth 0 rest.
Proof.
  intros Hn Hb. pose proof (match_if_block_marker name body rest Hn Hb) as Hm.
  assert (Hform : exists m, segment_text (If name body) = String "{" m).
  { cbn [segment_text]. eexists. reflexivity. }
  destruct Hform as (m & Hform). rewrite Hform in *. rewrite append_cons in *.
  cbn [replace_if_blocks]. rewrite Hm. f_equal.
  cbn [String.length]. rewrite length_append.
  replace (S (String.length m + String.length rest) - String.length rest - 1)%nat
    with (String.length m) by lia.
  apply replace_if_blocks_drop.
Qed.

Lemma render_pieces_none (ps : list Piece) : render_pieces [] ps = pieces_text ps.
Proof.
  induction ps as [|[t|k] ps IH]; cbn [render_pieces pieces_text render_piece piece_text];
    [reflexivity|rewrite IH; reflexivity..].
Qed.

Lemma replace_if_blocks_template (segs : list Segment) :
  well_formed segs = true ->
  replace_if_blocks truth 0 (template_text segs) = render_with truth [] segs.
Proof.
  unfold well_formed.
  induction segs as [|s segs IH]; cbn [forallb template_text render_with]; intros Hs;
    [reflexivity|].
  apply andb_true_iff in Hs as [Hs Hsegs].
  destruct s as [p|name body]; cbn [segment_ok render_segment] in *.
  - cbn [segment_text]. rewrite replace_if_blocks_piece, (IH Hsegs) by exact Hs.
    destruct p; reflexivity.
  - apply andb_true_iff in Hs as [Hn Hb].
    rewrite replace_if_blocks_block, (IH Hsegs), render_pieces_none by assumption.
    reflexivity.
Qed.

(** One entry of the variables, seen from the rendering. *)
Lemma render_piece_fill (key value : string) (variables : Variables) (p : Piece) :
  render_piece ((key, value) :: variables) p
  = render_piece variables (fill_piece key value p).
Proof.
  destruct p as [t|k]; cbn [render_piece fill_piece own_property]; [reflexivity|].
  rewrite String.eqb_sym. destruct (k =? key)%string; reflexivity.
Qed.

Lemma render_pieces_fill (key value : string) (variables : Variables) (ps : list Piece) :
  render_pieces ((key, value) :: variables) ps
  = render_pieces variables (fill_piece key value <$> ps).
Proof.
  induction ps as [|p ps IH]; [reflexivity|].
  cbn [render_pieces fmap list_fmap]. rewrite render_piece_fill, IH. reflexivity.
Qed.

Lemma render_with_fill (key value : string) (variables : Variables) (segs : list Segment) :
  render_with truth ((key, value) :: variables) segs
  = render_with truth variables (fill_segment key value <$> segs).
Proof.
  induction segs as [|s segs IH]; [reflexivity|].
  cbn [render_with fmap list_fmap]. rewrite IH. f_equal.
  destruct s as [p|name body]; cbn [render_segment fill_segment].
  - apply render_piece_fill.
  - rewrite render_pieces_fill. reflexivity.
Qed.

Lemma name_is_literal (key : string) : is_name key = true -> key_is_literal key = true.
Proof.
  intros Hk. unfold key_is_literal. eapply all_chars_impl; [|apply is_name_word, Hk].
  intros c Hc. destruct (is_syntax_char c) eqn:Hs; [|reflexivity].
  unfold is_syntax_char in Hs. cbn [existsb] in Hs.
  repeat (apply orb_true_iff in Hs as [Hs|Hs];
          [apply Nat.eqb_eq in Hs;
           assert (Hcode : c = ascii_of_nat (code_of c)) by (symmetry; apply ascii_nat_embedding);
           rewrite Hs in Hcode; subst c; vm_compute in Hc; discriminate|]).
  discriminate.
Qed.

(** The loop over the entries, followed by the pass over the blocks. *)
Lemma substitute_entries_template (variables : Variables) (segs : list Segment) :
  well_formed segs = true -> plain_variables variables = true ->
  exists rendered,
    substitute_entries variables (template_text segs) = Output rendered
    /\ replace_if_blocks truth 0 rendered = render_with truth variables segs.
Proof.
  revert segs. induction variables as [|[key value] variables IH]; intros segs Hs Hv.
  - exists (template_text segs). split; [reflexivity|].
    apply replace_if_blocks_template, Hs.
  - cbn [plain_variables forallb fst snd] in Hv.
    apply andb_true_iff in Hv as [Hkv Hv]. apply andb_true_iff in Hkv as [Hk Hval].
    cbn [substitute_entries]. rewrite (name_is_literal key Hk).
    rewrite pass_template by assumption.
    destruct (IH (fill_segment key value <$> segs)) as (rendered & Hrun & Hblocks);
      [apply fill_template_ok; assumption|exact Hv|].
    exists rendered. split; [exact Hrun|]. rewrite Hblocks, render_with_fill. reflexivity.
Qed.

End Blocks.

Lemma renderTemplate_template (variables : Variables) (segs : list Segment) :
  well_formed segs = true -> plain_variables variables = true ->
  renderTemplate (template_text segs) variables = Output (render variables segs).
Proof.
  intros Hs Hv. unfold renderTemplate, render.
  destruct (substitute_entries_template variables variables segs Hs Hv)
    as (rendered & -> & ->).
  reflexivity.
Qed.

(** Rendering returns when no key holds pattern syntax. *)
Lemma substitute_entries_total (variables : Variables) (template : string) :
  forallb (fun entry => key_is_literal (fst entry)) variables = true ->
  exists rendered, substitute_entries variables template = Output rendered.
Proof.
  revert template. induction variables as [|[key value] variables IH]; intros template Hv.
  - eexists. reflexivity.
  - cbn [forallb fst] in Hv. apply andb_true_iff in Hv as [Hk Hv].
    cbn [substitute_entries]. rewrite Hk. apply IH, Hv.
Qed.

End TemplateFacts.

(** [C8, as stated] A placeholder whose variable is missing is left in
    the output as it is: ["Hello {{name}}"] without variables renders to
    itself. *)
Lemma missing_placeholder_is_kept : ~ Stated.missing_placeholder_removed.
Proof.
  intros H.
  specialize (H "Hello {{name}}" [] "name" "Hello {{name}}" eq_refl eq_refl).
  vm_compute in H. discriminate.
Qed.

(** [C8, amended] Rendering returns for every template when no key of
    the variables holds a syntax character of regular expressions.  For a
    template made of text without opening braces, placeholders and
    conditional blocks of text and placeholders, with words as names and
    values that hold neither an opening brace nor a dollar: a placeholder
    whose variable is supplied becomes its value, the empty one included;
    a placeholder whose variable is missing stays in the output as it
    is; a block becomes its rendered body when its variable is truthy and
    nothing otherwise.  ["Hello {{name}}"] with the name Ana renders to
    ["Hello Ana"], and without variables to itself. *)
Theorem renderTemplate_follows_markup :
  (forall variables segs,
     Markup.well_formed segs = true -> Markup.plain_variables variables = true ->
     Template.renderTemplate (Markup.template_text segs) variables
     = Template.Output (Markup.render variables segs))
  /\ (forall variables template,
        forallb (fun entry => Template.key_is_literal (fst entry)) variables = true ->
        exists rendered,
          Template.renderTemplate template variables = Template.Output rendered)
  /\ Template.renderTemplate "Hello {{name}}" [("name", "Ana")]
     = Template.Output "Hello Ana"
  /\ Template.renderTemplate "Hello {{name}}" [] = Template.Output "Hello {{name}}".
Proof.
  split; [exact renderTemplate_template|]. split; [|split; reflexivity].
  intros variables template Hv. unfold Template.renderTemplate.
  destruct (substitute_entries_total variables template Hv) as (rendered & ->).
  eexists. reflexivity.
Qed.

(** A template with a supplied name, a missing number and a block whose
    variable is empty. *)
Lemma renderTemplate_follows_markup_witness :
  Template.renderTemplate
    "Hello {{name}}, case {{number}}{{#if lawyer}} with {{lawyer}}{{/if}}."
    [("name", "Ana"); ("lawyer", "")]
  = Template.Output "Hello Ana, case {{number}}.".
Proof.
  exact (proj1 renderTemplate_follows_markup
           [("name", "Ana"); ("lawyer", "")]
           [Markup.Plain (Markup.Text "Hello "); Markup.Plain (Markup.Var "name");
            Markup.Plain (Markup.Text ", case "); Markup.Plain (Markup.Var "number");
            Markup.If "lawyer" [Markup.Text " with "; Markup.Var "lawyer"];
            Markup.Plain (Markup.Text ".")]
           eq_refl eq_refl).
Defined.

(** * More of the code *)

(** ** Sorted queries *)

Section QueryFacts.

Lemma StronglySorted_omap {A B} (R : relation A) (R' : relation B) (f : A -> option B)
    (l : list A) :
  (forall x y x' y', R x y -> f x = Some x' -> f y = Some y' -> R' x' y') ->
  StronglySorted R l -> StronglySorted R' (omap f l).
Proof.
  intros HR. induction 1 as [|x l Hl IH Hx]; cbn; [constructor|].
  destruct (f x) as [x'|] eqn:Hfx; [|exact IH].
  constructor; [exact IH|]. apply Forall_forall. intros y' Hy'.
  apply list_elem_of_omap in Hy' as (y & Hy & Hfy).
  rewrite Forall_forall in Hx. eapply HR; eauto.
Qed.

Lemma StronglySorted_fmap {A B} (R : relation A) (R' : relation B) (f : A -> B)
    (l : list A) :
  (forall x y, R x y -> R' (f x) (f y)) ->
  StronglySorted R l -> StronglySorted R' (f <$> l).
Proof.
  intros HR. induction 1 as [|x l Hl IH Hx]; cbn; constructor; [exact IH|].
  apply Forall_forall. intros y' Hy'. apply list_elem_of_fmap in Hy' as (y & -> & Hy).
  rewrite Forall_forall in Hx. auto.
Qed.

Lemma StronglySorted_take {A} (R : relation A) (n : nat) (l : list A) :
  StronglySorted R l -> StronglySorted R (take n l).
Proof.
  intros H. rewrite <- (take_drop n l) in H. apply StronglySorted_app_1_l in H. exact H.
Qed.

Lemma StronglySorted_drop {A} (R : relation A) (n : nat) (l : list A) :
  StronglySorted R l -> StronglySorted R (drop n l).
Proof.
  intros H. rewrite <- (take_drop n l) in H. apply StronglySorted_app_1_r in H. exact H.
Qed.

(** What a [LIMIT] keeps goes before what it cuts. *)
Lemma take_before_drop {A} (R : relation A) (n : nat) (l : list A) (x y : A) :
  StronglySorted R l -> x ∈ take n l -> y ∈ drop n l -> R x y.
Proof.
  intros H Hx Hy. rewrite <- (take_drop n l) in H.
  eapply StronglySorted_app_1_elem_of; eauto.
Qed.

Lemma elem_of_merge_sort {A} (R : relation A) `{forall x y, Decision (R x y)}
    (l : list A) (x : A) :
  x ∈ merge_sort R l <-> x ∈ l.
Proof. rewrite merge_sort_Permutation. reflexivity. Qed.

Lemma length_merge_sort {A} (R : relation A) `{forall x y, Decision (R x y)} (l : list A) :
  List.length (merge_sort R l) = List.length l.
Proof. rewrite merge_sort_Permutation. reflexivity. Qed.

End QueryFacts.

(** ** Requests that are refused *)

Section Refusals.
Import Db Repo Services Effects CaseReads.

Lemma bind_exn {A B} (m : IO A) (k : A -> IO B) (w w' : World) (e : AppError) :
  bind m k w = (Exn e, w') ->
  m w = (Exn e, w') \/ exists a w1, m w = (Val a, w1) /\ k a w1 = (Exn e, w').
Proof.
  unfold bind. destruct (m w) as [[a|e0] w1]; intros H.
  - right. exists a, w1. auto.
  - left. injection H as -> ->. reflexivity.
Qed.

Lemma checkCaseAccess_state client_id lawyer_id userId userRole denied (w w' : World)
    (r : res AppError unit) :
  checkCaseAccess client_id lawyer_id userId userRole denied w = (r, w') -> w' = w.
Proof.
  unfold checkCaseAccess, clientRepository_findByUserId, lawyerRepository_findByUserId,
    bind, ret, throw.
  intros H. repeat case_match; simplify_eq; reflexivity.
Qed.

Lemma checkCaseAccess_error client_id lawyer_id userId userRole denied (w w' : World)
    (e : AppError) :
  checkCaseAccess client_id lawyer_id userId userRole denied w = (Exn e, w') ->
  e = ForbiddenError denied \/ e = ForbiddenError "You are not assigned to this case".
Proof.
  unfold checkCaseAccess, clientRepository_findByUserId, lawyerRepository_findByUserId,
    bind, ret, throw.
  intros H. repeat case_match; simplify_eq; auto.
Qed.

(** The check lets exactly the parties of the case pass. *)
Lemma checkCaseAccess_party (c : Case) userId userRole denied (w : World) :
  (party w c userId userRole
   /\ checkCaseAccess (c_client_id c) (c_lawyer_id c) userId userRole denied w = (Val tt, w))
  \/ (~ party w c userId userRole
      /\ exists msg,
           checkCaseAccess (c_client_id c) (c_lawyer_id c) userId userRole denied w
           = (Exn (ForbiddenError msg), w)).
Proof.
  unfold checkCaseAccess, party, clientRepository_findByUserId,
    lawyerRepository_findByUserId, bind, ret, throw.
  destruct userRole.
  - left. auto.
  - destruct (select_where _ (lawyers w)) as [l|]; [|right; split; [intros (? & ? & _); discriminate|eauto]].
    destruct (c_lawyer_id c) as [lid|]; [|right; split; [intros (? & _ & ?); discriminate|eauto]].
    destruct (N.eqb_spec (l_id l) lid) as [<-|Hne].
    + left. split; [eauto|reflexivity].
    + right. split; [|eauto]. intros (l' & [= <-] & [= ?]). congruence.
  - destruct (select_where _ (clients w)) as [cl|]; [|right; split; [intros (? & ? & _); discriminate|eauto]].
    destruct (N.eqb_spec (cl_id cl) (c_client_id c)) as [Heq|Hne].
    + left. split; [eauto|reflexivity].
    + right. split; [|eauto]. intros (cl' & [= <-] & ?). congruence.
Qed.

Lemma caseRepository_update_some id data (w : World) c :
  cases w !! id = Some c ->
  exists c' w',
    caseRepository_update id data w = (Val (Some c'), w')
    /\ cases w' !! id = Some c'
    /\ c' = (if no_fields data then c else apply_update (now w) data c)
    /\ w' = (if no_fields data then w else with_cases (<[id := c']> (cases w)) w).
Proof.
  intros Hc. unfold caseRepository_update, caseRepository_findById, findById.
  destruct (no_fields data); rewrite Hc.
  - eexists _, _. repeat split; auto.
  - eexists _, _. split; [reflexivity|]. cbn. rewrite lookup_insert_eq. auto.
Qed.

Lemma insert_case_event_some caseId ty actor description metadata (w : World) c :
  cases w !! caseId = Some c -> CaseEventType.in_sql_enum ty = true ->
  exists ev,
    insert_case_event caseId (Some ty) actor description metadata w
    = (Val ev, update_case_last_activity caseId (with_case_events (case_events w ++ [ev]) w))
    /\ e_case_id ev = caseId /\ e_event_type ev = ty /\ e_actor_id ev = actor
    /\ e_created_at ev = now w.
Proof.
  intros Hc Hty. unfold insert_case_event. rewrite Hty, Hc. cbn.
  eexists. split; [reflexivity|]. auto.
Qed.

Lemma insert_case_event_row caseId ty actor description metadata (w w' : World) ev :
  insert_case_event caseId ty actor description metadata w = (Val ev, w') ->
  e_actor_id ev = actor /\ e_created_at ev = now w /\ e_description ev = description
  /\ is_Some (cases w !! caseId).
Proof.
  unfold insert_case_event.
  destruct ty as [ty|]; [|discriminate].
  destruct (CaseEventType.in_sql_enum ty); cbn; [|discriminate].
  destruct (cases w !! caseId); [|discriminate].
  intros [= <- <-]. cbn. eauto.
Qed.

Lemma detach_catch_val (task : IO unit) (warning : string) (w w' : World)
    (r : res AppError unit) :
  detach_catch task warning w = (r, w') -> r = Val tt.
Proof.
  unfold detach_catch. destruct (task w) as [[[]|e] w1]; cbn; intros [= <- _]; reflexivity.
Qed.

Ltac exn_step H :=
  apply bind_exn in H;
  let a := fresh "a" in
  let w1 := fresh "w" in
  let H1 := fresh "Hval" in
  destruct H as [H | (a & w1 & H1 & H)].



Lemma saveFile_state maxSizeBytes writeFile_fails caseId file (w w' : World) (r : res AppError string) :
  saveFile maxSizeBytes writeFile_fails caseId file w = (r, w') -> w' = w.
Proof.
  unfold saveFile, ret, throw. repeat case_match; intros [= _ <-]; reflexivity.
Qed.

Lemma uploadDocument_refused isAllowedMimeType maxSizeBytes writeFile_fails
    sendDocumentUploadNotifications caseId file uploaderId userRole (w w' : World) (e : AppError) :
  uploadDocument isAllowedMimeType maxSizeBytes writeFile_fails
    sendDocumentUploadNotifications caseId file uploaderId userRole w = (Exn e, w') ->
  w' = w.
Proof.
  unfold uploadDocument, caseRepository_findById, findById.
  unfold bind at 1. cbn.
  destruct (cases w !! caseId) as [c|] eqn:Hc; [|intros [= _ <-]; auto].
  unfold bind at 1.
  match goal with
  | |- context [checkCaseAccess ?a ?b ?c ?d ?m ?ww] =>
      destruct (checkCaseAccess a b c d m ww) as [[[]|e0] w0] eqn:Hacc
  end.
  all: pose proof (checkCaseAccess_state _ _ _ _ _ _ _ _ Hacc) as ->.
  2: { intros [= _ <-]. reflexivity. }
  destruct (isAllowedMimeType (mimetype file)); cbn; [|intros [= _ <-]; reflexivity].
  unfold bind at 1.
  destruct (saveFile maxSizeBytes writeFile_fails caseId file w) as [[name|e0] w0] eqn:Hsave.
  all: pose proof (saveFile_state _ _ _ _ _ _ _ Hsave) as ->.
  2: { intros [= _ <-]. reflexivity. }
  unfold documentRepository_create, uuid_generate_v4, caseEventRepository_create,
    insert_case_event, bind; cbn. rewrite Hc. cbn.
  unfold detach_catch.
  repeat case_match; cbn; discriminate.
Qed.


End Refusals.

Section CaseMutations.
Import Db Repo Services Effects CaseReads.

Variable isAllowedMimeType : string -> bool.
Variable maxSizeBytes : Z.
Variable writeFile_fails : Uuid -> string -> bool.
Variable transport : EmailRequest -> nat -> Delivery.SendOutcome.
Variable random : nat -> Q.
Variable apiKey : option string.
Variable sendCaseCreationNotifications :
  Uuid -> Uuid -> string -> string -> string -> option Uuid -> option string -> IO unit.
Variable notifyClientCaseStatusUpdate :
  Uuid -> CaseStatus.t -> string -> CaseStatus.t -> IO unit.
Variable notifyLawyerAssignment : Uuid -> string -> Uuid -> IO unit.
Variable sendDocumentUploadNotifications :
  Uuid -> string -> Uuid -> UserRole.t -> string -> IO unit.

Lemma getCaseById_run caseId userId userRole (w : World) (c : Case) :
  cases w !! caseId = Some c ->
  (party w c userId userRole /\ getCaseById caseId userId userRole w = (Val c, w))
  \/ (~ party w c userId userRole
      /\ exists msg, getCaseById caseId userId userRole w = (Exn (ForbiddenError msg), w)).
Proof.
  intros Hc.
  destruct (checkCaseAccess_party c userId userRole
              "You do not have access to this case" w) as [[Hp H]|[Hp [msg H]]];
    [left|right]; (split; [exact Hp|]); [|exists msg].
  all: unfold getCaseById, caseRepository_findById, findById, bind.
  all: rewrite Hc, H; reflexivity.
Qed.

Lemma getCaseTimeline_outsider caseId userId userRole (w : World) (c : Case) :
  cases w !! caseId = Some c -> ~ party w c userId userRole ->
  exists msg, getCaseTimeline caseId userId userRole w = (Exn (ForbiddenError msg), w).
Proof.
  intros Hc Hp. unfold getCaseTimeline, caseRepository_findById, findById.
  unfold bind at 1. cbv beta iota. rewrite Hc. unfold bind.
  destruct (checkCaseAccess_party c userId userRole
              "You do not have access to this case" w) as [[Hp' _]|[_ [msg ->]]];
    [contradiction|eauto].
Qed.

Lemma sendMessage_outsider caseId senderId senderRole content (w : World) (c : Case) :
  cases w !! caseId = Some c -> ~ party w c senderId senderRole ->
  exists e, sendMessage transport random apiKey caseId senderId senderRole content w
            = (Exn e, w).
Proof.
  intros Hc Hp. unfold sendMessage.
  destruct (Text.trim content) as [|ch rest]; [unfold throw; eauto|].
  unfold caseRepository_findById, findById.
  unfold bind at 1. cbv beta iota. rewrite Hc. unfold bind at 1.
  destruct (checkCaseAccess_party c senderId senderRole
              "You do not have access to this case" w) as [[Hp' _]|[_ [msg ->]]];
    [contradiction|eauto].
Qed.

Lemma uploadDocument_outsider caseId file uploaderId userRole (w : World) (c : Case) :
  cases w !! caseId = Some c -> ~ party w c uploaderId userRole ->
  exists msg,
    uploadDocument isAllowedMimeType maxSizeBytes writeFile_fails
      sendDocumentUploadNotifications caseId file uploaderId userRole w
    = (Exn (ForbiddenError msg), w).
Proof.
  intros Hc Hp. unfold uploadDocument, caseRepository_findById, findById.
  unfold bind at 1. cbv beta iota. rewrite Hc. unfold bind at 1.
  destruct (checkCaseAccess_party c uploaderId userRole
              "You do not have access to these documents" w) as [[Hp' _]|[_ [msg ->]]];
    [contradiction|eauto].
Qed.

Lemma updateCase_outsider caseId data userId userRole (w : World) (c : Case) :
  cases w !! caseId = Some c -> ~ party w c userId userRole ->
  exists msg,
    updateCase notifyClientCaseStatusUpdate caseId data userId userRole w
    = (Exn (ForbiddenError msg), w).
Proof.
  intros Hc Hp. unfold updateCase, caseRepository_findById, findById.
  unfold bind at 1. cbv beta iota. rewrite Hc. unfold bind at 1.
  destruct userRole; cbn [ret throw]; cbv beta iota; [| |unfold throw; eauto].
  all: unfold bind at 1.
  all: match goal with
       | |- context [checkCaseAccess ?a ?b ?u ?d ?m ?ww] =>
           destruct (checkCaseAccess_party c u d m ww) as [[Hp' _]|[_ [msg ->]]]
       end; [contradiction|eauto].
Qed.

(** Unfold the runs of the steps that read, log, draw a number or write
    one row. *)
Ltac step_inv :=
  repeat match goal with
    | H : findById _ _ _ = (Val _, _) |- _ =>
        unfold findById in H; injection H as ? ?; subst
    | H : logger _ _ = (Val _, _) |- _ =>
        unfold logger, modify in H; injection H as ? ?; subst
    | H : uuid_generate_v4 _ = (Val _, _) |- _ =>
        unfold uuid_generate_v4 in H; injection H as ? ?; subst
    | H : checkCaseAccess _ _ _ _ _ _ = (_, _) |- _ =>
        apply checkCaseAccess_state in H; subst
    | H : insert_case_event _ _ _ _ _ _ = (Val _, _) |- _ =>
        apply insert_case_event_val in H; destruct H as (? & ? & ?); subst
    | H : caseEventRepository_create _ _ _ _ _ _ = (Val _, _) |- _ =>
        unfold caseEventRepository_create in H
    end.

Lemma caseRepository_update_val id data (w w' : World) (c c' : Case) :
  cases w !! id = Some c ->
  caseRepository_update id data w = (Val (Some c'), w') ->
  c' = (if no_fields data then c else apply_update (now w) data c)
  /\ cases w' = (if no_fields data then cases w else <[id := c']> (cases w))
  /\ case_events w' = case_events w /\ now w' = now w.
Proof.
  intros Hc. unfold caseRepository_update, caseRepository_findById, findById.
  destruct (no_fields data); rewrite Hc; intros [= <- <-]; auto.
Qed.

Lemma no_fields_keeps t data c :
  no_fields data = true -> apply_update t data c = c.
Proof.
  unfold no_fields, apply_update.
  destruct data as [[?|] [?|] [?|] [?|] [?|] [?|]]; cbn; try discriminate.
  intros _. destruct c; reflexivity.
Qed.

Lemma updateCase_val caseId data userId userRole (w w' : World) (r : Case) :
  (forall a b c d, Stated.notification_only (notifyClientCaseStatusUpdate a b c d)) ->
  updateCase notifyClientCaseStatusUpdate caseId data userId userRole w = (Val r, w') ->
  exists c,
    cases w !! caseId = Some c
    /\ userRole <> UserRole.CLIENT
    /\ party w c userId userRole
    /\ r = apply_update (now w) data c
    /\ ((exists st ev,
           uc_status data = Some st /\ st <> c_status c
           /\ case_events w' = (case_events w ++ [ev])%list
           /\ e_case_id ev = caseId
           /\ e_event_type ev = CaseEventType.STATUS_CHANGED
           /\ e_actor_id ev = Some userId
           /\ cases w' !! caseId = Some (touch (now w) r))
        \/ ((uc_status data = None \/ uc_status data = Some (c_status c))
            /\ case_events w' = case_events w
            /\ cases w' !! caseId = Some r)).
Proof.
  intros Hflow. unfold updateCase, caseRepository_findById.
  intros H. apply bind_val in H as (o & w0 & Hfind & H).
  unfold findById in Hfind. injection Hfind as <- <-.
  destruct (cases w !! caseId) as [c|] eqn:Hc; [|discriminate].
  exists c. split; [reflexivity|].
  apply bind_val in H as ([] & w1 & Hrole & H).
  assert (Hne : userRole <> UserRole.CLIENT /\ w1 = w).
  { destruct userRole; cbn in Hrole; try discriminate;
      injection Hrole as <-; split; congruence. }
  destruct Hne as [Hne ->]. split; [exact Hne|].
  apply bind_val in H as ([] & w2 & Hacc & H).
  destruct (checkCaseAccess_party c userId userRole
              "You do not have access to this case" w) as [[Hp _]|[_ [msg Hno]]];
    [|congruence].
  split; [exact Hp|].
  apply checkCaseAccess_state in Hacc as ->.
  apply bind_val in H as (o & w3 & Hup & H).
  destruct o as [c'|]; [|discriminate].
  destruct (caseRepository_update_val _ _ _ _ _ _ Hc Hup) as (Hc' & Hcs & Hev & Hnow).
  assert (Hr : c' = apply_update (now w) data c).
  { rewrite Hc'. destruct (no_fields data) eqn:Hnf; [|reflexivity].
    symmetry. apply no_fields_keeps. exact Hnf. }
  assert (Hrow : cases w3 !! caseId = Some c').
  { rewrite Hcs. destruct (no_fields data) eqn:Hnf.
    - rewrite Hc. rewrite Hr, no_fields_keeps; auto.
    - apply lookup_insert_eq. }
  clear Hc' Hcs Hup.
  apply bind_val in H as ([] & w4 & Hst & H).
  apply bind_val in H as ([] & w5 & Hlog & H).
  apply ret_val in H as [<- <-].
  unfold logger, modify in Hlog. injection Hlog as <-.
  split; [exact Hr|].
  destruct (uc_status data) as [st|] eqn:Hdata.
  - destruct (bool_decide (st = c_status c)) eqn:Hsame.
    + apply bool_decide_eq_true in Hsame as ->. apply ret_val in Hst as [_ <-].
      right. cbn. auto.
    + apply bool_decide_eq_false in Hsame.
      apply bind_val in Hst as (ev & w6 & Hins & Hst).
      unfold caseEventRepository_create in Hins.
      pose proof (insert_case_event_row _ _ _ _ _ _ _ _ Hins) as (Hactor & _).
      apply insert_case_event_val in Hins as (Hty & Hid & ->).
      apply detach_frame in Hst as [Hcs' Hev']; [|apply Hflow].
      left. exists st, ev. cbn. rewrite Hcs', Hev'. cbn.
      rewrite lookup_alter_eq, Hrow, Hev, Hnow. cbn.
      repeat split; auto; congruence.
  - apply ret_val in Hst as [_ <-]. right. cbn. auto.
Qed.

Lemma createWithEvent_exn data actorId (w w' : World) (e : AppError) :
  caseRepository_createWithEvent data actorId w = (Exn e, w') ->
  e = DatabaseError "cases_case_number_key"
  /\ case_number_taken
       ("CASE-" ++ Text.string_of_N (year w) ++ "-"
        ++ Text.lpad 5 "0" (Text.string_of_N (N.succ (case_number_seq w)))) w = true
  /\ w' = with_case_number_seq (N.succ (case_number_seq w))
            (with_next_uuid (N.succ (next_uuid w)) w).
Proof.
  unfold caseRepository_createWithEvent, transaction, uuid_generate_v4,
    generate_case_number, insert_case, bind. cbn.
  destruct (case_number_taken _ _) eqn:Htaken; cbn.
  - intros [= <- <-]. destruct w; auto.
  - unfold insert_case_event. cbn. rewrite lookup_insert_eq. cbn. discriminate.
Qed.

Lemma createCase_exn data actorId (w w' : World) (e : AppError) :
  createCase sendCaseCreationNotifications data actorId w = (Exn e, w') ->
  (w' = w /\ (e = NotFoundError "Client not found" \/ e = NotFoundError "Lawyer not found"))
  \/ (e = DatabaseError "cases_case_number_key"
      /\ w' = with_case_number_seq (N.succ (case_number_seq w))
                (with_next_uuid (N.succ (next_uuid w)) w)).
Proof.
  unfold createCase, clientRepository_findById, lawyerRepository_findById,
    userRepository_findById, findById.
  unfold bind at 1. cbv beta iota.
  destruct (clients w !! cc_client_id data) as [cl|]; [|intros [= <- <-]; auto].
  unfold bind at 1.
  assert (Hpre : exists r,
             (match cc_lawyer_id data with
              | Some lawyer_id =>
                  lawyer <- (fun w0 : World => (Val (lawyers w0 !! lawyer_id), w0)) ;;
                  match lawyer with
                  | Some _ => ret tt
                  | None => throw (NotFoundError "Lawyer not found")
                  end
              | None => ret tt
              end) w = (r, w)
             /\ (r = Val tt \/ r = Exn (NotFoundError "Lawyer not found"))).
  { destruct (cc_lawyer_id data) as [lid|]; [|eexists; split; [reflexivity|auto]].
    unfold bind. cbn. destruct (lawyers w !! lid); eexists; split; try reflexivity; auto. }
  destruct Hpre as (r0 & -> & [-> | ->]); [|intros [= <- <-]; auto].
  unfold bind at 1.
  destruct (caseRepository_createWithEvent data actorId w) as [[newCase|e0] w1] eqn:Hcreate.
  - unfold bind at 1. cbn [logger modify].
    intros H. exfalso. revert H.
    unfold bind at 1.
    match goal with
    | |- context [match ?m ?ww with _ => _ end] =>
        assert (Hname : exists o w2, m ww = (Val o, w2))
    end.
    { destruct (cc_lawyer_id data) as [lid|]; [|unfold ret; eauto].
      unfold bind. cbn. destruct (lawyers _ !! lid) as [l|]; cbn; [|eauto].
      destruct (users _ !! l_user_id l); cbn; eauto. }
    destruct Hname as (o & w2 & ->).
    unfold bind at 1.
    match goal with
    | |- context [detach_catch ?t ?m ?ww] =>
        destruct (detach_catch_returns t m ww) as [w3 ->]
    end.
    discriminate.
  - apply createWithEvent_exn in Hcreate as (-> & _ & ->).
    intros [= <- <-]. auto.
Qed.

Lemma assignLawyer_val caseId lawyerId assignedBy (w : World) (c : Case) (l : Lawyer) :
  (forall a b c, Stated.notification_only (notifyLawyerAssignment a b c)) ->
  cases w !! caseId = Some c -> lawyers w !! lawyerId = Some l ->
  exists w' ev,
    assignLawyer notifyLawyerAssignment caseId lawyerId assignedBy w
    = (Val (apply_update (now w) (only_lawyer lawyerId) c), w')
    /\ case_events w' = (case_events w ++ [ev])%list
    /\ e_case_id ev = caseId
    /\ e_event_type ev = CaseEventType.LAWYER_ASSIGNED
    /\ e_actor_id ev = Some assignedBy
    /\ cases w' !! caseId
       = Some (touch (now w) (apply_update (now w) (only_lawyer lawyerId) c)).
Proof.
  intros Hflow Hc Hl.
  destruct (assignLawyer notifyLawyerAssignment caseId lawyerId assignedBy w)
    as [[r|e] w'] eqn:Hrun.
  2: { exfalso. revert Hrun.
       unfold assignLawyer, caseRepository_findById, lawyerRepository_findById, findById,
         caseRepository_assignLawyer.
       unfold bind at 1. cbv beta iota. rewrite Hc.
       unfold bind at 1. cbv beta iota. rewrite Hl.
       destruct (caseRepository_update_some caseId (only_lawyer lawyerId) w c Hc)
         as (c' & w1 & Hup & Hc' & _).
       unfold bind at 1. rewrite Hup.
       unfold caseEventRepository_create, insert_case_event, bind; cbn; rewrite Hc'; cbn.
       unfold detach_catch.
       repeat case_match; cbn; discriminate. }
  revert Hrun.
  unfold assignLawyer, caseRepository_findById, lawyerRepository_findById,
    caseRepository_assignLawyer.
  intros H. apply bind_val in H as (o & w0 & Hfind & H).
  unfold findById in Hfind. injection Hfind as <- <-. rewrite Hc in H.
  apply bind_val in H as (o & w0 & Hfind & H).
  unfold findById in Hfind. injection Hfind as <- <-. rewrite Hl in H.
  apply bind_val in H as (o & w3 & Hup & H).
  destruct o as [c'|]; [|discriminate].
  destruct (caseRepository_update_val _ _ _ _ _ _ Hc Hup) as (Hc' & Hcs & Hev & Hnow).
  cbn in Hc', Hcs. subst c'.
  apply bind_val in H as (ev & w4 & Hins & H).
  apply bind_val in H as ([] & w5 & Hlog & H).
  apply bind_val in H as ([] & w6 & Hdet & H).
  apply ret_val in H as [<- <-].
  unfold logger, modify in Hlog. injection Hlog as <-.
  unfold caseEventRepository_create in Hins.
  pose proof (insert_case_event_row _ _ _ _ _ _ _ _ Hins) as (Hactor & _).
  apply insert_case_event_val in Hins as (Hty & Hid & ->).
  apply detach_frame in Hdet as [Hcs' Hev']; [|apply Hflow].
  exists w6, ev. split; [reflexivity|].
  rewrite Hcs', Hev'. cbn. rewrite lookup_alter_eq, Hcs, lookup_insert_eq, Hev, Hnow. cbn.
  repeat split; auto; congruence.
Qed.

End CaseMutations.



(** [X2] A successful [updateCase] is the work of an administrator or of
    the lawyer assigned to the case, never of a client.  The case keeps
    its id, number, client and creation time; its status is the one asked
    for, if any; [closed_at] becomes the current time when the status
    asked for is [closed] or [archived] and is otherwise kept, so that
    reopening a closed case does not clear it.  One [status_changed]
    event by the user is appended exactly when a status is asked for that
    differs from the old one; the stored row then carries the current
    time as its last activity, while the row returned still carries the
    old one. *)
Theorem updateCase_changes_what_is_asked
    (notifyClientCaseStatusUpdate :
       Db.Uuid -> CaseStatus.t -> string -> CaseStatus.t -> Db.IO unit)
    (caseId userId : Db.Uuid) (userRole : UserRole.t) (data : Repo.UpdateCaseData)
    (w w' : Db.World) (r : Db.Case) :
  (forall a b c d, Stated.notification_only (notifyClientCaseStatusUpdate a b c d)) ->
  Services.updateCase notifyClientCaseStatusUpdate caseId data userId userRole w
    = (Val r, w') ->
  exists c,
    Db.cases w !! caseId = Some c
    /\ userRole <> UserRole.CLIENT
    /\ Effects.party w c userId userRole
    /\ Db.c_id r = Db.c_id c
    /\ Db.c_case_number r = Db.c_case_number c
    /\ Db.c_client_id r = Db.c_client_id c
    /\ Db.c_created_at r = Db.c_created_at c
    /\ Db.c_last_activity_at r = Db.c_last_activity_at c
    /\ Db.c_status r = match Repo.uc_status data with
                       | Some st => st
                       | None => Db.c_status c
                       end
    /\ Db.c_closed_at r = match Repo.uc_status data with
                          | Some CaseStatus.CLOSED | Some CaseStatus.ARCHIVED =>
                              Some (Db.now w)
                          | _ => Db.c_closed_at c
                          end
    /\ ((exists st ev,
           Repo.uc_status data = Some st /\ st <> Db.c_status c
           /\ Db.case_events w' = (Db.case_events w ++ [ev])%list
           /\ Db.e_case_id ev = caseId
           /\ Db.e_event_type ev = CaseEventType.STATUS_CHANGED
           /\ Db.e_actor_id ev = Some userId
           /\ Db.cases w' !! caseId = Some (Repo.touch (Db.now w) r))
        \/ ((Repo.uc_status data = None \/ Repo.uc_status data = Some (Db.c_status c))
            /\ Db.case_events w' = Db.case_events w
            /\ Db.cases w' !! caseId = Some r)).
Proof.
  intros Hflow Hrun.
  destruct (updateCase_val _ _ _ _ _ _ _ _ Hflow Hrun)
    as (c & Hc & Hne & Hp & -> & Hev).
  exists c.
  repeat (split; [first [ assumption | reflexivity
                        | cbn; destruct (Repo.uc_status data); reflexivity ]|]).
  exact Hev.
Qed.

(** The administrator reopens nothing: she closes case 101. *)
Lemma updateCase_changes_what_is_asked_witness :
  exists c, Db.cases Sample.world !! 101%N = Some c /\ c = Sample.case_a.
Proof.
  destruct (updateCase_changes_what_is_asked
              (fun _ _ _ _ => ret tt) 101%N 3%N UserRole.ADMIN Requests.close
              Sample.world _ _ (fun _ _ _ _ => frame_ret tt) (surjective_pairing _))
    as (c & Hc & _).
  exists c. split; [exact Hc|]. vm_compute in Hc. injection Hc as <-. reflexivity.
Defined.

(** [X3] A case is open to its parties only: the administrators, the user
    of its client and the user of the lawyer assigned to it.  To a party
    [getCaseById] returns the case as stored; for anybody else
    [getCaseById], [getCaseTimeline], [updateCase], [uploadDocument] and
    [sendMessage] all end in an error, a [ForbiddenError] for the first
    four, and change nothing. *)
Theorem cases_are_open_to_their_parties_only
    (isAllowedMimeType : string -> bool) (maxSizeBytes : Z)
    (writeFile_fails : Db.Uuid -> string -> bool)
    (transport : Db.EmailRequest -> nat -> Delivery.SendOutcome) (random : nat -> Q)
    (apiKey : option string)
    (notifyClientCaseStatusUpdate :
       Db.Uuid -> CaseStatus.t -> string -> CaseStatus.t -> Db.IO unit)
    (sendDocumentUploadNotifications :
       Db.Uuid -> string -> Db.Uuid -> UserRole.t -> string -> Db.IO unit)
    (caseId userId : Db.Uuid) (userRole : UserRole.t)
    (data : Repo.UpdateCaseData) (file : Services.UploadedFile) (content : string)
    (w : Db.World) (c : Db.Case) :
  Db.cases w !! caseId = Some c ->
  (Effects.party w c userId userRole ->
   CaseReads.getCaseById caseId userId userRole w = (Val c, w))
  /\ (~ Effects.party w c userId userRole ->
      (exists msg, CaseReads.getCaseById caseId userId userRole w
                   = (Exn (Db.ForbiddenError msg), w))
      /\ (exists msg, CaseReads.getCaseTimeline caseId userId userRole w
                      = (Exn (Db.ForbiddenError msg), w))
      /\ (exists msg,
            Services.updateCase notifyClientCaseStatusUpdate caseId data userId userRole w
            = (Exn (Db.ForbiddenError msg), w))
      /\ (exists msg,
            Services.uploadDocument isAllowedMimeType maxSizeBytes writeFile_fails
              sendDocumentUploadNotifications caseId file userId userRole w
            = (Exn (Db.ForbiddenError msg), w))
      /\ exists e,
           Services.sendMessage transport random apiKey caseId userId userRole content w
           = (Exn e, w)).
Proof.
  intros Hc. split.
  - intros Hp. destruct (getCaseById_run caseId userId userRole w c Hc) as [[_ H]|[Hn _]];
      [exact H|contradiction].
  - intros Hn. split; [|split; [|split; [|split]]].
    + destruct (getCaseById_run caseId userId userRole w c Hc) as [[Hp _]|[_ H]];
        [contradiction|exact H].
    + apply (getCaseTimeline_outsider _ _ _ _ c); assumption.
    + apply (updateCase_outsider _ _ _ _ _ _ c); assumption.
    + apply (uploadDocument_outsider _ _ _ _ _ _ _ _ _ c); assumption.
    + apply (sendMessage_outsider _ _ _ _ _ _ _ _ c); assumption.
Qed.

(** Luis, a lawyer, asks for case 101, which has no lawyer. *)
Lemma cases_are_open_to_their_parties_only_witness :
  exists msg, CaseReads.getCaseById 101%N 2%N UserRole.LAWYER Sample.world
              = (Exn (Db.ForbiddenError msg), Sample.world).
Proof.
  refine (proj1 (proj2 (cases_are_open_to_their_parties_only
                   Requests.any_type Requests.ten_megabytes Requests.disk_ok
                   Sample.transport_down Sample.no_jitter Sample.key
                   Requests.quiet4 Requests.quiet5 101%N 2%N UserRole.LAWYER
                   Requests.close Requests.pdf "hello" Sample.world Sample.case_a
                   eq_refl) _)).
  intros (l & _ & Hl). discriminate Hl.
Defined.

(** [X4] A [createCase] that fails stores nothing: all tables and the
    outbox are as before.  Either the client or the lawyer named was not
    found, which is checked before any write, or the database refused
    the insert and the transaction was rolled back; the number drawn
    from the sequence [case_number_seq] is then lost. *)
Theorem createCase_failure_rolls_back
    (sendCaseCreationNotifications :
       Db.Uuid -> Db.Uuid -> string -> string -> string -> option Db.Uuid
       -> option string -> Db.IO unit)
    (data : Repo.CreateCaseData) (actorId : option Db.Uuid)
    (w w' : Db.World) (e : Db.AppError) :
  Services.createCase sendCaseCreationNotifications data actorId w = (Exn e, w') ->
  Effects.same_tables w w'
  /\ Db.outbox w' = Db.outbox w
  /\ ((exists msg, e = Db.NotFoundError msg)
      /\ Db.case_number_seq w' = Db.case_number_seq w
      \/ (exists msg, e = Db.DatabaseError msg)
         /\ Db.case_number_seq w' = N.succ (Db.case_number_seq w)).
Proof.
  intros H. apply createCase_exn in H as [[-> He] | [-> ->]].
  - split; [repeat split|]. split; [reflexivity|]. left.
    split; [|reflexivity]. destruct He as [-> | ->]; eauto.
  - split; [repeat split|]. split; [reflexivity|]. right. split; [eauto|reflexivity].
Qed.

(** The number [CASE-2027-00001] is taken by case 103. *)
Lemma createCase_failure_rolls_back_witness :
  Db.cases (snd (Services.createCase Requests.quiet7 Sample.new_case (Some 3%N)
                   Requests.world_taken))
  = Db.cases Requests.world_taken.
Proof.
  destruct (createCase_failure_rolls_back Requests.quiet7 Sample.new_case (Some 3%N)
              Requests.world_taken
              (snd (Services.createCase Requests.quiet7 Sample.new_case (Some 3%N)
                      Requests.world_taken))
              (Db.DatabaseError "cases_case_number_key"))
    as ((_ & _ & _ & H & _) & _).
  - vm_compute. reflexivity.
  - exact H.
Defined.

(** [X5] [assignLawyer] asks only that the case and the lawyer exist: it
    does not look at the availability of the lawyer, at the lawyer the
    case may already have, or at the role of the user who assigns.  It
    then returns the case with the new lawyer and otherwise unchanged,
    and appends one [lawyer_assigned] event by the assigning user. *)
Theorem assignLawyer_needs_only_existence
    (notifyLawyerAssignment : Db.Uuid -> string -> Db.Uuid -> Db.IO unit)
    (caseId lawyerId assignedBy : Db.Uuid) (w : Db.World) (c : Db.Case) (l : Db.Lawyer) :
  (forall a b c, Stated.notification_only (notifyLawyerAssignment a b c)) ->
  Db.cases w !! caseId = Some c ->
  Db.lawyers w !! lawyerId = Some l ->
  is_Some (Db.users w !! assignedBy) ->
  exists r w' ev,
    Services.assignLawyer notifyLawyerAssignment caseId lawyerId assignedBy w = (Val r, w')
    /\ Db.c_lawyer_id r = Some lawyerId
    /\ Db.c_id r = Db.c_id c /\ Db.c_case_number r = Db.c_case_number c
    /\ Db.c_client_id r = Db.c_client_id c /\ Db.c_status r = Db.c_status c
    /\ Db.c_title r = Db.c_title c /\ Db.c_closed_at r = Db.c_closed_at c
    /\ Db.case_events w' = (Db.case_events w ++ [ev])%list
    /\ Db.e_case_id ev = caseId
    /\ Db.e_event_type ev = CaseEventType.LAWYER_ASSIGNED
    /\ Db.e_actor_id ev = Some assignedBy
    /\ exists c', Db.cases w' !! caseId = Some c' /\ Db.c_lawyer_id c' = Some lawyerId.
Proof.
  intros Hflow Hc Hl _.
  destruct (assignLawyer_val notifyLawyerAssignment caseId lawyerId assignedBy w c l
              Hflow Hc Hl) as (w' & ev & Hrun & Hev & Hid & Hty & Hact & Hrow).
  eexists _, w', ev. split; [exact Hrun|].
  repeat (split; [first [assumption | reflexivity]|]).
  eexists. split; [exact Hrow|]. reflexivity.
Qed.

(** The administrator gives case 101 to the lawyer 21. *)
Lemma assignLawyer_needs_only_existence_witness :
  exists r w',
    Services.assignLawyer Requests.quiet3 101%N 21%N 3%N Sample.world = (Val r, w')
    /\ Db.c_lawyer_id r = Some 21%N.
Proof.
  destruct (assignLawyer_needs_only_existence Requests.quiet3 101%N 21%N 3%N Sample.world
              Sample.case_a {| Db.l_id := 21; Db.l_user_id := 2; Db.l_is_available := true |}
              (fun _ _ _ => frame_ret tt) eq_refl eq_refl (mk_is_Some _ _ eq_refl))
    as (r & w' & _ & Hrun & Hl & _).
  exists r, w'. auto.
Defined.



(** ** The intake form *)

Section IntakeFacts.
Import Db Repo Services Effects.

Lemma keeps_bind {X A B} (f : World -> X) (m : IO A) (k : A -> IO B) :
  keeps f m -> (forall a, keeps f (k a)) -> keeps f (bind m k).
Proof.
  intros Hm Hk w. unfold bind. specialize (Hm w).
  destruct (m w) as [[a|e] w1]; cbn in *; [|exact Hm].
  rewrite <- Hm. apply Hk.
Qed.


Lemma keeps_detach {X} (f : World -> X) (task : IO unit) (warning : string) :
  (forall l w, f (with_applog l w) = f w) ->
  keeps f task -> keeps f (detach_catch task warning).
Proof.
  intros Hlog Hm w. unfold detach_catch. specialize (Hm w).
  destruct (task w) as [[u|e] w1]; cbn in *; [exact Hm|].
  rewrite Hlog. exact Hm.
Qed.

Lemma keeps_run {X A} (f : World -> X) (m : IO A) (w w' : World) (r : res AppError A) :
  keeps f m -> m w = (r, w') -> f w' = f w.
Proof. intros Hm Hrun. specialize (Hm w). rewrite Hrun in Hm. exact Hm. Qed.




Section Uploading.
Variable isAllowedMimeType : string -> bool.
Variable maxSizeBytes : Z.
Variable writeFile_fails : Uuid -> string -> bool.
Variable sendDocumentUploadNotifications :
  Uuid -> string -> Uuid -> UserRole.t -> string -> IO unit.
Variable intakeNotifications : Uuid -> Uuid -> string -> option Uuid -> IO unit.

(** An upload that succeeds stores one document, of the case and the
    uploader, under the name of the file. *)
Lemma uploadDocument_val caseId file uploaderId userRole (w w' : World) (d : Document) :
  (forall a b c x e, keeps documents (sendDocumentUploadNotifications a b c x e)) ->
  uploadDocument isAllowedMimeType maxSizeBytes writeFile_fails
    sendDocumentUploadNotifications caseId file uploaderId userRole w = (Val d, w') ->
  documents w' = (documents w ++ [d])%list
  /\ d_case_id d = caseId /\ d_uploaded_by d = uploaderId
  /\ d_original_filename d = originalname file
  /\ isAllowedMimeType (mimetype file) = true
  /\ size file <= maxSizeBytes.
Proof.
  intros Hflow. unfold uploadDocument, caseRepository_findById.
  intros H. apply bind_val in H as (o & w0 & Hfind & H).
  unfold findById in Hfind. injection Hfind as <- <-.
  destruct (cases w !! caseId) as [c|] eqn:Hc; [|discriminate].
  apply bind_val in H as ([] & w1 & Hacc & H).
  apply checkCaseAccess_state in Hacc as ->.
  destruct (isAllowedMimeType (mimetype file)) eqn:Hmime; cbn in H; [|discriminate].
  apply bind_val in H as (name & w2 & Hsave & H).
  pose proof (saveFile_state _ _ _ _ _ _ _ Hsave) as ->.
  assert (Hname : name = originalname file /\ size file <= maxSizeBytes).
  { unfold saveFile in Hsave. destruct (Z.ltb_spec maxSizeBytes (size file)); [discriminate|].
    destruct (writeFile_fails caseId (originalname file)); [discriminate|].
    apply ret_val in Hsave as [<- _]. split; [reflexivity|lia]. }
  destruct Hname as [-> Hsize].
  apply bind_val in H as (doc & w3 & Hdoc & H).
  apply bind_val in H as (ev & w4 & Hev & H).
  apply bind_val in H as ([] & w5 & Hlog & H).
  apply bind_val in H as ([] & w6 & Hdet & H).
  apply ret_val in H as [<- <-].
  unfold documentRepository_create, uuid_generate_v4, bind in Hdoc.
  injection Hdoc as <- <-.
  unfold caseEventRepository_create in Hev.
  apply insert_case_event_val in Hev as (_ & _ & ->).
  unfold logger, modify in Hlog. injection Hlog as <-.
  eapply keeps_run in Hdet; [|apply (keeps_detach documents); [reflexivity|apply Hflow]].
  rewrite Hdet. cbn. repeat split; auto.
Qed.

(** The loop over the files never throws; it counts the uploads that
    succeeded, and each of them stored one document of the case and the
    user. *)
Lemma upload_files_run caseId userId files n (w : World) :
  (forall a b c x e, keeps documents (sendDocumentUploadNotifications a b c x e)) ->
  exists m w' docs,
    upload_files isAllowedMimeType maxSizeBytes writeFile_fails
      sendDocumentUploadNotifications caseId userId files n w = (Val m, w')
    /\ documents w' = (documents w ++ docs)%list
    /\ m = (n + List.length docs)%nat
    /\ (List.length docs <= List.length files)%nat
    /\ forall d, d ∈ docs ->
         d_case_id d = caseId /\ d_uploaded_by d = userId
         /\ exists file, file ∈ files /\ d_original_filename d = originalname file
                         /\ isAllowedMimeType (mimetype file) = true
                         /\ size file <= maxSizeBytes.
Proof.
  intros Hflow. revert n w. induction files as [|file rest IH]; intros n w.
  - exists n, w, []. cbn. rewrite app_nil_r.
    split; [reflexivity|]. split; [reflexivity|]. split; [lia|]. split; [lia|].
    intros d0 Hd. inversion Hd.
  - cbn [upload_files]. unfold bind at 1, try_catch.
    unfold bind at 1.
    destruct (uploadDocument isAllowedMimeType maxSizeBytes writeFile_fails
                sendDocumentUploadNotifications caseId file userId UserRole.CLIENT w)
      as [[d|e] w1] eqn:Hup.
    + apply uploadDocument_val in Hup as (Hdocs & Hcase & Hby & Hname & Hmime & Hsize);
        [|exact Hflow].
      cbn. destruct (IH (S n) w1) as (m & w' & docs & Hrun & Hd & Hm & Hlen & Hall).
      exists m, w', (d :: docs). rewrite Hrun. split; [reflexivity|].
      rewrite Hd, Hdocs, <- app_assoc. cbn. split; [reflexivity|].
      split; [lia|]. split; [lia|].
      intros d' Hd'. apply elem_of_cons in Hd' as [->|Hd'].
      * split; [exact Hcase|]. split; [exact Hby|]. exists file.
        split; [apply elem_of_cons; auto|]. auto.
      * destruct (Hall d' Hd') as (H1 & H2 & file' & Hin & H3).
        split; [exact H1|]. split; [exact H2|]. exists file'.
        split; [apply elem_of_cons; auto|]. exact H3.
    + apply uploadDocument_refused in Hup as ->.
      cbn. destruct (IH n (with_applog (applog w ++ [LogWarn "Failed to upload document"]) w))
        as (m & w' & docs & Hrun & Hd & Hm & Hlen & Hall).
      exists m, w', docs. rewrite Hrun. split; [reflexivity|].
      split; [exact Hd|]. split; [exact Hm|]. split; [lia|].
      intros d' Hd'. destruct (Hall d' Hd') as (H1 & H2 & file' & Hin & H3).
      split; [exact H1|]. split; [exact H2|]. exists file'.
      split; [apply elem_of_cons; auto|]. exact H3.
Qed.


Lemma transaction_exn {A} (m : IO A) (w w' : World) (e : AppError) :
  transaction m w = (Exn e, w') ->
  exists w2, m w = (Exn e, w2)
             /\ w' = with_applog (applog w2)
                       (with_case_number_seq (case_number_seq w2)
                          (with_next_uuid (next_uuid w2) w)).
Proof.
  unfold transaction. destruct (m w) as [[a|e0] w2]; [discriminate|].
  intros [= <- <-]. eauto.
Qed.

Lemma case_number_taken_cases (number : string) (w1 w2 : World) :
  cases w1 = cases w2 -> case_number_taken number w1 = case_number_taken number w2.
Proof. unfold case_number_taken. intros ->. reflexivity. Qed.

(** The transaction of the intake: the three rows and the event. *)
Lemma intake_transaction_run data (w : World) (number : string) :
  fst (generateCaseNumber (caseType data) w) = Val number ->
  let userId := next_uuid w in
  let clientId := N.succ userId in
  let caseId := N.succ clientId in
  let body :=
    (userId <- uuid_generate_v4 ;;
     modify (fun w => with_users
               (<[userId := {| u_id := userId; u_email := email data;
                               u_role := UserRole.CLIENT;
                               u_first_name := firstName data;
                               u_last_name := lastName data;
                               u_is_active := true |}]> (users w)) w) ;;;
     clientId <- uuid_generate_v4 ;;
     modify (fun w => with_clients
               (<[clientId := {| cl_id := clientId; cl_user_id := userId |}]>
                  (clients w)) w) ;;;
     caseNumber <- generateCaseNumber (caseType data) ;;
     caseId <- uuid_generate_v4 ;;
     insert_case caseId caseNumber clientId (lawyerId data)
       (underscores_to_spaces (CaseType.value (caseType data)) ++ " - "
        ++ firstName data ++ " " ++ lastName data)
       (Some (description data)) (Some (CaseType.value (caseType data)))
       CaseStatus.NEW 3 ;;;
     insert_case_event caseId (Some CaseEventType.CASE_CREATED) (Some userId)
       "Case created via intake form"
       [("source", "intake_form");
        ("client_name", firstName data ++ " " ++ lastName data)] ;;;
     ret (clientId, userId, caseId, caseNumber)) in
  (case_number_taken number w = true
   /\ transaction body w
      = (Exn (DatabaseError "cases_case_number_key"),
         with_next_uuid (N.succ caseId) w))
  \/ (case_number_taken number w = false
      /\ exists w1,
           transaction body w = (Val (clientId, userId, caseId, number), w1)
           /\ documents w1 = documents w
           /\ users w1 = <[userId := {| u_id := userId; u_email := email data;
                                        u_role := UserRole.CLIENT;
                                        u_first_name := firstName data;
                                        u_last_name := lastName data;
                                        u_is_active := true |}]> (users w)).
Proof.
  intros Hnum. cbv zeta.
  assert (Hstep : forall ww : World,
             year ww = year w -> cases ww = cases w ->
             generateCaseNumber (caseType data) ww = (Val number, ww)).
  { intros ww Hy Hcs.
    pose proof (generateCaseNumber_reads (caseType data) ww w Hy Hcs) as Hread.
    rewrite Hnum in Hread. rewrite generateCaseNumber_run in Hread |- *.
    cbn [fst] in Hread. congruence. }
  destruct (case_number_taken number w) eqn:Htaken; [left|right];
    (split; [reflexivity|]).
  - unfold transaction, bind, uuid_generate_v4, modify. cbv beta iota.
    rewrite Hstep by reflexivity. cbv beta iota. unfold insert_case.
    erewrite (case_number_taken_cases _ _ w) by reflexivity. rewrite Htaken.
    cbn. destruct w; reflexivity.
  - unfold transaction, bind, uuid_generate_v4, modify. cbv beta iota.
    rewrite Hstep by reflexivity. cbv beta iota. unfold insert_case.
    erewrite (case_number_taken_cases _ _ w) by reflexivity. rewrite Htaken.
    cbv beta iota.
    unfold insert_case_event. cbn. rewrite lookup_insert_eq. cbn.
    eexists. split; [reflexivity|]. cbn. auto.
Qed.

Lemma generateCaseNumber_val (t : CaseType.t) (w : World) :
  exists number, fst (generateCaseNumber t w) = Val number.
Proof. rewrite generateCaseNumber_run. cbn. eauto. Qed.


(** A successful intake, step by step. *)
Lemma processIntakeForm_steps data (w w' : World) (r : IntakeResult) :
  processIntakeForm isAllowedMimeType maxSizeBytes writeFile_fails
    sendDocumentUploadNotifications intakeNotifications data w = (Val r, w') ->
  exists w1 w2 w3,
    select_where (fun u => (u_email u =? toLowerCase (email data))%string) (users w) = None
    /\ r_userId r = next_uuid w
    /\ r_caseId r = N.succ (N.succ (next_uuid w))
    /\ documents w1 = documents w
    /\ users w1 = <[next_uuid w := {| u_id := next_uuid w; u_email := email data;
                                      u_role := UserRole.CLIENT;
                                      u_first_name := firstName data;
                                      u_last_name := lastName data;
                                      u_is_active := true |}]> (users w)
    /\ upload_files isAllowedMimeType maxSizeBytes writeFile_fails
         sendDocumentUploadNotifications (r_caseId r) (r_userId r) (files data) 0 w1
       = (Val (documentsUploaded r), w2)
    /\ documents w3 = documents w2 /\ users w3 = users w2
    /\ detach_catch
         (intakeNotifications (r_userId r) (r_caseId r) (r_caseNumber r) (lawyerId data))
         "Error sending intake notifications" w3 = (Val tt, w').
Proof.
  unfold processIntakeForm, userRepository_findByEmail.
  intros H. apply bind_val in H as (o & w0 & Hfind & H).
  injection Hfind as <- <-.
  destruct (select_where _ (users w)) as [u|] eqn:Hnone; [discriminate|].
  apply bind_val in H as (res & w1 & Htx & H).
  destruct (generateCaseNumber_val (caseType data) w) as [number Hnum].
  destruct (intake_transaction_run data w number Hnum)
    as [[Htaken Hrun] | [Hfree (w1' & Hrun & Hdocs & Husers)]];
    rewrite Hrun in Htx; [discriminate|].
  injection Htx as <- <-.
  apply bind_val in H as (m & w2 & Hup & H).
  apply bind_val in H as ([] & w3 & Hlog & H).
  apply bind_val in H as ([] & w4 & Hdet & H).
  apply ret_val in H as [<- <-].
  unfold logger, modify in Hlog. injection Hlog as <-.
  exists w1', w2, (with_applog (applog w2 ++ [LogInfo ("Intake form processed: Case " ++ number)]) w2).
  cbn. repeat split; auto.
Qed.



End Uploading.



End IntakeFacts.



(** [X9] When the number [generateCaseNumber] computes for the type of
    the form is carried by a case already, the intake of a new client
    fails with an error of the database.  The failure repairs nothing:
    in the database it leaves behind the same number is computed and is
    still taken, so the same form fails again. *)
Theorem taken_number_blocks_intake
    (isAllowedMimeType : string -> bool) (maxSizeBytes : Z)
    (writeFile_fails : Db.Uuid -> string -> bool)
    (sendDocumentUploadNotifications :
       Db.Uuid -> string -> Db.Uuid -> UserRole.t -> string -> Db.IO unit)
    (intakeNotifications : Db.Uuid -> Db.Uuid -> string -> option Db.Uuid -> Db.IO unit)
    (data : Services.IntakeFormData) (w : Db.World) (number : string) :
  fst (Services.userRepository_findByEmail (Services.email data) w) = Val None ->
  fst (Services.generateCaseNumber (Services.caseType data) w) = Val number ->
  Repo.case_number_taken number w = true ->
  exists msg w',
    Services.processIntakeForm isAllowedMimeType maxSizeBytes writeFile_fails
      sendDocumentUploadNotifications intakeNotifications data w
    = (Exn (Db.DatabaseError msg), w')
    /\ fst (Services.userRepository_findByEmail (Services.email data) w') = Val None
    /\ fst (Services.generateCaseNumber (Services.caseType data) w') = Val number
    /\ Repo.case_number_taken number w' = true.
Proof.
  intros Hnone Hnum Htaken.
  unfold Services.userRepository_findByEmail in Hnone. cbn in Hnone.
  injection Hnone as Hnone.
  destruct (intake_transaction_run data w number Hnum) as [[_ Hrun] | [Hfree _]];
    [|congruence].
  eexists _, _. split.
  - unfold Services.processIntakeForm, Services.userRepository_findByEmail.
    unfold bind at 1. cbv beta iota. rewrite Hnone.
    unfold bind at 1. rewrite Hrun. reflexivity.
  - split; [|split].
    + unfold Services.userRepository_findByEmail. cbn. rewrite Hnone. reflexivity.
    + rewrite <- Hnum. apply generateCaseNumber_reads; reflexivity.
    + rewrite <- Htaken. apply case_number_taken_cases. reflexivity.
Qed.

(** The database in which an older case carries 2027-PI-0003. *)
Lemma taken_number_blocks_intake_witness :
  exists msg w',
    Services.processIntakeForm Requests.any_type Requests.ten_megabytes
      Requests.disk_ok Requests.quiet5 Requests.quiet4 Sample.intake Requests.world_clash
    = (Exn (Db.DatabaseError msg), w').
Proof.
  destruct (taken_number_blocks_intake Requests.any_type Requests.ten_megabytes
              Requests.disk_ok Requests.quiet5 Requests.quiet4 Sample.intake
              Requests.world_clash "2027-PI-0003")
    as (msg & w' & H & _).
  - vm_compute. reflexivity.
  - vm_compute. reflexivity.
  - vm_compute. reflexivity.
  - exists msg, w'. exact H.
Defined.



(** [X8] In the result of an intake [documentsUploaded] is the number of
    document rows the intake stored, at most the number of files
    submitted.  Every one of these rows belongs to the new case, names
    the new user as uploader, and carries the name of a submitted file of
    an allowed type and size. *)
Theorem intake_counts_stored_documents
    (isAllowedMimeType : string -> bool) (maxSizeBytes : Z)
    (writeFile_fails : Db.Uuid -> string -> bool)
    (sendDocumentUploadNotifications :
       Db.Uuid -> string -> Db.Uuid -> UserRole.t -> string -> Db.IO unit)
    (intakeNotifications : Db.Uuid -> Db.Uuid -> string -> option Db.Uuid -> Db.IO unit)
    (data : Services.IntakeFormData) (w w' : Db.World) (r : Services.IntakeResult) :
  (forall a b c x y,
     Effects.keeps Db.documents (sendDocumentUploadNotifications a b c x y)) ->
  (forall a b c x, Effects.keeps Db.documents (intakeNotifications a b c x)) ->
  Services.processIntakeForm isAllowedMimeType maxSizeBytes writeFile_fails
    sendDocumentUploadNotifications intakeNotifications data w = (Val r, w') ->
  exists docs,
    Db.documents w' = (Db.documents w ++ docs)%list
    /\ Services.documentsUploaded r = List.length docs
    /\ (List.length docs <= List.length (Services.files data))%nat
    /\ forall d, d ∈ docs ->
         Db.d_case_id d = Services.r_caseId r
         /\ Db.d_uploaded_by d = Services.r_userId r
         /\ exists file,
              file ∈ Services.files data
              /\ Db.d_original_filename d = Services.originalname file
              /\ isAllowedMimeType (Services.mimetype file) = true
              /\ Services.size file <= maxSizeBytes.
Proof.
  intros HU HI Hrun.
  apply processIntakeForm_steps in Hrun
    as (w1 & w2 & w3 & _ & _ & _ & Hd1 & _ & Hup & Hd3 & _ & Hdet).
  eapply keeps_run in Hdet; [|apply (keeps_detach Db.documents); [reflexivity|apply HI]].
  destruct (upload_files_run isAllowedMimeType maxSizeBytes writeFile_fails
              sendDocumentUploadNotifications (Services.r_caseId r) (Services.r_userId r)
              (Services.files data) 0%nat w1 HU)
    as (m & w2' & docs & Hrun' & Hdocs & Hm & Hlen & Hall).
  rewrite Hup in Hrun'. injection Hrun' as <- <-.
  exists docs. rewrite Hdet, Hd3, Hdocs, Hd1.
  split; [reflexivity|]. split; [exact Hm|]. split; [exact Hlen|]. exact Hall.
Qed.

(** Eva submits one PDF file. *)
Lemma intake_counts_stored_documents_witness :
  exists docs,
    Db.documents (snd (Services.processIntakeForm Requests.any_type Requests.ten_megabytes
                         Requests.disk_ok Requests.quiet5 Requests.quiet4
                         Requests.intake_capital Sample.world))
    = (Db.documents Sample.world ++ docs)%list
    /\ List.length docs = 1%nat.
Proof.
  destruct (intake_counts_stored_documents Requests.any_type Requests.ten_megabytes
              Requests.disk_ok Requests.quiet5 Requests.quiet4
              Requests.intake_capital Sample.world
              (snd (Services.processIntakeForm Requests.any_type Requests.ten_megabytes
                      Requests.disk_ok Requests.quiet5 Requests.quiet4
                      Requests.intake_capital Sample.world))
              {| Services.r_clientId := 1001; Services.r_userId := 1000;
                 Services.r_caseId := 1002; Services.r_caseNumber := "2027-PI-0003";
                 Services.documentsUploaded := 1 |})
    as (docs & Hd & Hn & _).
  - intros a b c x y w. reflexivity.
  - intros a b c x w. reflexivity.
  - vm_compute. reflexivity.
  - exists docs. split; [exact Hd|]. symmetry. exact Hn.
Defined.

(** ** Messages *)

Section MessageFacts.
Import Db Repo Services Effects.

Lemma span_blank (s : string) :
  Template.all_chars Template.is_space_char s = true ->
  snd (Template.span Template.is_space_char s) = EmptyString.
Proof.
  induction s as [|c s IH]; [reflexivity|]. cbn [Template.all_chars Template.span].
  intros H. apply andb_true_iff in H as [Hc Hs]. rewrite Hc.
  specialize (IH Hs). destruct (Template.span Template.is_space_char s). exact IH.
Qed.

(** What is left after the leading white space is empty or starts with
    another character. *)
Lemma span_rest (s : string) :
  match snd (Template.span Template.is_space_char s) with
  | EmptyString => Template.all_chars Template.is_space_char s = true
  | String c _ => Template.is_space_char c = false
  end.
Proof.
  induction s as [|c s IH]; [reflexivity|]. cbn [Template.all_chars Template.span].
  destruct (Template.is_space_char c) eqn:Hc; [|exact Hc].
  destruct (Template.span Template.is_space_char s) as [a b]. exact IH.
Qed.

Lemma trim_end_blank (s : string) :
  Text.trim_end s = EmptyString <-> Template.all_chars Template.is_space_char s = true.
Proof.
  induction s as [|c s IH]; [split; reflexivity|]. cbn [Text.trim_end Template.all_chars].
  destruct (Text.trim_end s) as [|d r] eqn:Ht.
  - destruct (Template.is_space_char c); cbn.
    + split; [intros _; apply IH; reflexivity|reflexivity].
    + split; discriminate.
  - split; [discriminate|]. intros H. apply andb_true_iff in H as [_ H].
    apply IH in H. discriminate.
Qed.

Lemma trim_end_head (c : ascii) (s : string) :
  Template.is_space_char c = false ->
  exists r, Text.trim_end (String c s) = String c r.
Proof.
  intros Hc. cbn [Text.trim_end]. destruct (Text.trim_end s); rewrite ?Hc; eauto.
Qed.

Lemma trim_end_idempotent (s : string) : Text.trim_end (Text.trim_end s) = Text.trim_end s.
Proof.
  induction s as [|c s IH]; [reflexivity|]. cbn [Text.trim_end].
  destruct (Text.trim_end s) as [|d r] eqn:Ht.
  - destruct (Template.is_space_char c) eqn:Hc; [reflexivity|].
    cbn. rewrite Hc. reflexivity.
  - change (Text.trim_end (String c (String d r)))
      with (match Text.trim_end (String d r) with
            | EmptyString => if Template.is_space_char c then EmptyString
                             else String c EmptyString
            | String d' r' => String c (String d' r')
            end).
    rewrite IH. reflexivity.
Qed.

(** [trim] leaves nothing exactly of the strings of white space. *)
Lemma trim_blank (s : string) :
  Text.trim s = EmptyString <-> Template.all_chars Template.is_space_char s = true.
Proof.
  unfold Text.trim. pose proof (span_rest s) as Hrest.
  destruct (snd (Template.span Template.is_space_char s)) as [|c t] eqn:Hs.
  - split; [intros _; exact Hrest|reflexivity].
  - destruct (trim_end_head c t Hrest) as [r ->]. split; [discriminate|].
    intros H. apply span_blank in H. congruence.
Qed.

(** A trimmed string is its own trimming. *)
Lemma trim_idempotent (s : string) : Text.trim (Text.trim s) = Text.trim s.
Proof.
  unfold Text.trim. pose proof (span_rest s) as Hrest.
  destruct (snd (Template.span Template.is_space_char s)) as [|c t] eqn:Hs;
    [reflexivity|].
  destruct (trim_end_head c t Hrest) as [r Hr].
  rewrite Hr. cbn [Template.span]. rewrite Hrest. cbn [snd].
  rewrite <- Hr. apply trim_end_idempotent.
Qed.

Section WithTransport.
Variable transport : EmailRequest -> nat -> Delivery.SendOutcome.
Variable random : nat -> Q.
Variable apiKey : option string.

Lemma keeps_messages_send (req : EmailRequest) :
  keeps messages (emailNotificationService_send transport random apiKey req).
Proof.
  intros w. unfold emailNotificationService_send.
  destruct (Delivery.sendEmail (transport req) random apiKey Delivery.net0) as [[b|e] n];
    reflexivity.
Qed.

Lemma keeps_messages_create (input : CreateNotificationInput) :
  keeps messages (notificationService_create input).
Proof. intros w. reflexivity. Qed.

Lemma keeps_messages_notifyNewMessage caseId caseNumber senderId senderName content :
  keeps messages
    (notifyNewMessage transport random apiKey caseId caseNumber senderId senderName content).
Proof.
  unfold notifyNewMessage.
  apply keeps_bind; [intros w; reflexivity|]. intros w0.
  destruct (select_message_case_info caseId w0) as [info|]; [|intros w; reflexivity].
  destruct (N.eqb senderId (client_user_id info)); [destruct (lawyer_user_id info)|].
  - apply keeps_bind; [apply keeps_messages_create|]. intros _.
    apply keeps_detach; [reflexivity|].
    apply keeps_bind; [apply keeps_messages_send|]. intros _ w. reflexivity.
  - intros w. reflexivity.
  - apply keeps_bind; [apply keeps_messages_create|]. intros _.
    apply keeps_detach; [reflexivity|].
    apply keeps_bind; [apply keeps_messages_send|]. intros _ w. reflexivity.
Qed.

Lemma keeps_messages_notification caseId caseNumber senderId content :
  keeps messages
    (sendMessageNotification transport random apiKey caseId caseNumber senderId content).
Proof.
  unfold sendMessageNotification, userRepository_findById.
  apply keeps_bind; [intros w; reflexivity|]. intros sender.
  apply keeps_messages_notifyNewMessage.
Qed.

Lemma sendMessage_val caseId senderId senderRole content (w w' : World)
    (r : MessageWithSender) :
  sendMessage transport random apiKey caseId senderId senderRole content w = (Val r, w') ->
  Text.trim content <> EmptyString
  /\ msg r = {| m_id := next_uuid w; m_case_id := caseId; m_sender_id := senderId;
                m_content := Text.trim content; m_created_at := now w |}
  /\ messages w' = (messages w ++ [msg r])%list
  /\ exists ev,
       case_events w' = (case_events w ++ [ev])%list
       /\ e_case_id ev = caseId
       /\ e_event_type ev = CaseEventType.MESSAGE_SENT
       /\ e_actor_id ev = Some senderId.
Proof.
  unfold sendMessage.
  destruct (Text.trim content) as [|ch rest] eqn:Htrim; [discriminate|].
  rewrite <- Htrim. unfold caseRepository_findById, userRepository_findById.
  intros H. split; [congruence|].
  apply bind_val in H as (o & w0 & Hfind & H).
  unfold findById in Hfind. injection Hfind as <- <-.
  destruct (cases w !! caseId) as [c|] eqn:Hc; [|discriminate].
  apply bind_val in H as ([] & w1 & Hacc & H).
  apply checkCaseAccess_state in Hacc as ->.
  apply bind_val in H as (m & w2 & Hm & H).
  unfold messageRepository_create, uuid_generate_v4, bind in Hm. injection Hm as <- <-.
  apply bind_val in H as (ev & w3 & Hev & H).
  apply bind_val in H as (sender & w4 & Hs & H).
  unfold findById in Hs. injection Hs as <- <-.
  apply bind_val in H as ([] & w5 & Hlog & H).
  apply bind_val in H as ([] & w6 & Hdet & H).
  apply ret_val in H as [<- <-].
  unfold logger, modify in Hlog. injection Hlog as <-.
  unfold caseEventRepository_create in Hev.
  pose proof (insert_case_event_row _ _ _ _ _ _ _ _ Hev) as (Hactor & _).
  apply insert_case_event_val in Hev as (Hty & Hid & ->).
  pose proof (detach_frame _ _ _ _ _
                (frame_sendMessageNotification transport random apiKey caseId
                   (c_case_number c) senderId (Text.trim content)) Hdet) as [_ Hevs].
  eapply keeps_run in Hdet;
    [|apply (keeps_detach messages); [reflexivity|apply keeps_messages_notification]].
  cbn. split; [reflexivity|]. split; [rewrite Hdet; reflexivity|].
  exists ev. rewrite Hevs. cbn. repeat split; auto. congruence.
Qed.

Lemma sendMessage_error caseId senderId senderRole content (w w' : World) (e : AppError) :
  sendMessage transport random apiKey caseId senderId senderRole content w = (Exn e, w') ->
  ((exists msg, e = BadRequestError msg) /\ Text.trim content = EmptyString)
  \/ ((exists msg, e = NotFoundError msg \/ e = ForbiddenError msg)
      /\ Text.trim content <> EmptyString).
Proof.
  unfold sendMessage.
  destruct (Text.trim content) as [|ch rest]; [intros [= <- _]; left; eauto|].
  intros H. right. split; [|discriminate]. revert H.
  unfold caseRepository_findById, findById.
  unfold bind at 1. cbv beta iota.
  destruct (cases w !! caseId) as [c|] eqn:Hc; [|intros [= <- _]; eauto].
  unfold bind at 1.
  match goal with
  | |- context [checkCaseAccess ?a ?b ?c ?d ?m ?ww] =>
      destruct (checkCaseAccess a b c d m ww) as [[[]|e0] w0] eqn:Hacc
  end.
  2: { apply checkCaseAccess_error in Hacc. intros [= <- _].
       destruct Hacc as [-> | ->]; eauto. }
  apply checkCaseAccess_state in Hacc as ->.
  unfold messageRepository_create, uuid_generate_v4, caseEventRepository_create,
    insert_case_event, userRepository_findById, findById, bind; cbn.
  rewrite lookup_alter_eq, Hc. cbn.
  unfold detach_catch.
  repeat case_match; cbn; discriminate.
Qed.

End WithTransport.
End MessageFacts.

(** [X10] [sendMessage] refuses a text that is empty or made of white
    space only before it looks at the case or at the sender: the error
    is a [BadRequestError] and nothing is written.  No other text is
    refused with this error. *)
Theorem blank_messages_are_refused
    (transport : Db.EmailRequest -> nat -> Delivery.SendOutcome) (random : nat -> Q)
    (apiKey : option string) (caseId senderId : Db.Uuid) (senderRole : UserRole.t)
    (content : string) (w : Db.World) :
  (Template.all_chars Template.is_space_char content = true ->
   exists msg,
     Services.sendMessage transport random apiKey caseId senderId senderRole content w
     = (Exn (Db.BadRequestError msg), w))
  /\ (Template.all_chars Template.is_space_char content = false ->
      forall msg w',
        Services.sendMessage transport random apiKey caseId senderId senderRole content w
        <> (Exn (Db.BadRequestError msg), w')).
Proof.
  split.
  - intros Hblank. apply trim_blank in Hblank.
    unfold Services.sendMessage. rewrite Hblank. unfold throw. eauto.
  - intros Hsome msg w' Hrun.
    apply sendMessage_error in Hrun as [[_ Hblank] | [(m & [H | H]) _]];
      try discriminate H.
    apply trim_blank in Hblank. congruence.
Qed.

(** A message of two spaces and a line feed, for a case that does not
    exist. *)
Lemma blank_messages_are_refused_witness :
  exists msg,
    Services.sendMessage Sample.transport_down Sample.no_jitter Sample.key 999%N 1%N
      UserRole.CLIENT (String " " (String " " (String (ascii_of_nat 10) EmptyString)))
      Sample.world
    = (Exn (Db.BadRequestError msg), Sample.world).
Proof.
  apply (proj1 (blank_messages_are_refused Sample.transport_down Sample.no_jitter
                  Sample.key 999%N 1%N UserRole.CLIENT
                  (String " " (String " " (String (ascii_of_nat 10) EmptyString)))
                  Sample.world)).
  reflexivity.
Defined.

(** [X11] A message that [sendMessage] accepts is stored without the
    white space around it: the row appended to [messages], which is the
    row returned, carries the trimmed text, the case and the sender; the
    text is not empty and trimming it again changes nothing.  One
    [message_sent] event by the sender is appended to the log of the
    case. *)
Theorem sendMessage_stores_trimmed_text
    (transport : Db.EmailRequest -> nat -> Delivery.SendOutcome) (random : nat -> Q)
    (apiKey : option string) (caseId senderId : Db.Uuid) (senderRole : UserRole.t)
    (content : string) (w w' : Db.World) (r : Services.MessageWithSender) :
  Services.sendMessage transport random apiKey caseId senderId senderRole content w
    = (Val r, w') ->
  Db.messages w' = (Db.messages w ++ [Services.msg r])%list
  /\ Db.m_case_id (Services.msg r) = caseId
  /\ Db.m_sender_id (Services.msg r) = senderId
  /\ Db.m_content (Services.msg r) = Text.trim content
  /\ Db.m_content (Services.msg r) <> EmptyString
  /\ Text.trim (Db.m_content (Services.msg r)) = Db.m_content (Services.msg r)
  /\ exists ev,
       Db.case_events w' = (Db.case_events w ++ [ev])%list
       /\ Db.e_case_id ev = caseId
       /\ Db.e_event_type ev = CaseEventType.MESSAGE_SENT
       /\ Db.e_actor_id ev = Some senderId.
Proof.
  intros Hrun. apply sendMessage_val in Hrun as (Hne & Hmsg & Hmsgs & Hev).
  rewrite Hmsg in *. cbn. repeat split; auto. apply trim_idempotent.
Qed.

(** Ana writes on her case 101. *)
Lemma sendMessage_stores_trimmed_text_witness :
  Db.m_content (Services.msg Requests.ana_asks) = Text.trim "  Any news? ".
Proof.
  refine (proj1 (proj2 (proj2 (proj2
            (sendMessage_stores_trimmed_text Sample.transport_down Sample.no_jitter
               Sample.key 101%N 1%N UserRole.CLIENT "  Any news? " Sample.world
               (snd (Services.sendMessage Sample.transport_down Sample.no_jitter Sample.key
                       101%N 1%N UserRole.CLIENT "  Any news? " Sample.world))
               Requests.ana_asks _))))).
  vm_compute. reflexivity.
Defined.

(** ** The read state of messages *)

Section InboxFacts.
Import Db Repo Services Effects Inbox.

Lemma count_result_nat (n : nat) : count_result n = Text.Int (Z.of_nat n).
Proof.
  unfold count_result.
  pose proof (parseInt10_padded 0 (N.of_nat n)) as H.
  unfold Text.padStart in H. cbn [Nat.sub Text.repeat_char] in H.
  rewrite append_nil in H. rewrite H. f_equal. lia.
Qed.

Lemma unread_for_mark t caseId userId caseId' userId' (r : Row) :
  unread_for caseId userId
    (if unread_for caseId' userId' r then mark t r else r)
  = unread_for caseId userId r && negb (unread_for caseId' userId' r).
Proof.
  destruct (unread_for caseId' userId' r) eqn:H.
  - unfold unread_for, mark. cbn. rewrite !andb_false_r. reflexivity.
  - rewrite andb_true_r. reflexivity.
Qed.

Lemma length_filter_ext {A} (p q : A -> bool) (l : list A) :
  (forall x, x ∈ l -> p x = q x) ->
  List.length (filter (fun x => p x = true) l) = List.length (filter (fun x => q x = true) l).
Proof.
  induction l as [|x l IH]; intros H; [reflexivity|].
  rewrite !filter_cons. rewrite (H x) by (apply elem_of_cons; auto).
  destruct (decide (q x = true)); cbn; rewrite IH; auto.
  all: intros y Hy; apply H, elem_of_cons; auto.
Qed.

Lemma length_filter_fmap {A} (f : A -> A) (p : A -> bool) (l : list A) :
  List.length (filter (fun x => p x = true) (f <$> l))
  = List.length (filter (fun x => p (f x) = true) l).
Proof.
  induction l as [|x l IH]; [reflexivity|].
  cbn [fmap list_fmap]. rewrite !filter_cons.
  destruct (decide (p (f x) = true)); cbn; rewrite <- IH; reflexivity.
Qed.

Lemma length_filter_false {A} (p : A -> bool) (l : list A) :
  (forall x, x ∈ l -> p x = false) ->
  List.length (filter (fun x => p x = true) l) = 0%nat.
Proof.
  induction l as [|x l IH]; intros H; [reflexivity|].
  rewrite filter_cons. rewrite (H x) by (apply elem_of_cons; auto).
  destruct (decide (false = true)); [discriminate|].
  apply IH. intros y Hy. apply H, elem_of_cons; auto.
Qed.

Lemma markAll_run caseId userId (s : Store) :
  messageRepository_markAllAsReadForCase caseId userId s
  = (Val (List.length (filter (fun r => unread_for caseId userId r = true) (snd s))),
     (fst s,
      (fun r => if unread_for caseId userId r then mark (now (fst s)) r else r) <$> snd s)).
Proof. reflexivity. Qed.

Lemma unread_after_markAll caseId userId caseId' userId' (s : Store) (n : nat)
    (s' : Store) :
  messageRepository_markAllAsReadForCase caseId userId s = (Val n, s') ->
  List.length (filter (fun r => unread_for caseId' userId' r = true) (snd s'))
  = List.length (filter (fun r => unread_for caseId' userId' r
                                  && negb (unread_for caseId userId r) = true) (snd s)).
Proof.
  rewrite markAll_run. intros [= _ <-]. cbn [snd].
  etrans; [apply (length_filter_fmap _ (unread_for caseId' userId'))|].
  apply (length_filter_ext
           (fun r => unread_for caseId' userId'
                       (if unread_for caseId userId r then mark (now (fst s)) r else r))).
  intros r _. apply unread_for_mark.
Qed.

Lemma unread_for_other_case caseId caseId' userId userId' (r : Row) :
  caseId' <> caseId ->
  unread_for caseId' userId' r && negb (unread_for caseId userId r)
  = unread_for caseId' userId' r.
Proof.
  intros Hne. unfold unread_for.
  destruct (N.eqb_spec (m_case_id (message r)) caseId');
    destruct (N.eqb_spec (m_case_id (message r)) caseId); cbn;
    rewrite ?andb_true_r; try reflexivity.
  congruence.
Qed.

End InboxFacts.

Lemma markAll_clears caseId userId (s s' : Inbox.Store) (n : nat) :
  Inbox.messageRepository_markAllAsReadForCase caseId userId s = (Val n, s') ->
  fst (Inbox.messageRepository_getUnreadCountForCase caseId userId s') = Val (Text.Int 0).
Proof.
  intros Hrun. unfold Inbox.messageRepository_getUnreadCountForCase. cbn [fst].
  rewrite (unread_after_markAll _ _ _ _ _ _ _ Hrun).
  match goal with
  | |- context [List.length ?l] => replace (List.length l) with 0%nat
  end; [rewrite count_result_nat; reflexivity|].
  symmetry.
  apply (length_filter_false
           (fun r => Inbox.unread_for caseId userId r
                     && negb (Inbox.unread_for caseId userId r))).
  intros r _. apply andb_negb_r.
Qed.

(** [X12] After [markAllAsReadForCase(case, user)] the unread count of
    the case for the user is 0, and the number the call returns is the
    unread count from before.  The call touches nothing else: the world,
    the number of messages, the messages the user sent, and the unread
    counts of every other case, for any user, are as before. *)
Theorem marking_a_case_read_clears_its_count
    (caseId userId : Db.Uuid) (s s' : Inbox.Store) (n : nat) :
  Inbox.messageRepository_markAllAsReadForCase caseId userId s = (Val n, s') ->
  fst (Inbox.messageRepository_getUnreadCountForCase caseId userId s)
    = Val (Text.Int (Z.of_nat n))
  /\ fst (Inbox.messageRepository_getUnreadCountForCase caseId userId s')
     = Val (Text.Int 0)
  /\ fst s' = fst s
  /\ Inbox.message <$> snd s' = Inbox.message <$> snd s
  /\ (forall i r, snd s !! i = Some r ->
        Db.m_sender_id (Inbox.message r) = userId \/ Inbox.is_read r = true ->
        snd s' !! i = Some r)
  /\ forall otherCase anyUser,
       otherCase <> caseId ->
       fst (Inbox.messageRepository_getUnreadCountForCase otherCase anyUser s')
       = fst (Inbox.messageRepository_getUnreadCountForCase otherCase anyUser s).
Proof.
  intros Hrun. pose proof Hrun as Hrun'. rewrite markAll_run in Hrun'.
  injection Hrun' as Hn Hs.
  split; [|split; [|split; [|split; [|split]]]].
  - unfold Inbox.messageRepository_getUnreadCountForCase. cbn [fst].
    rewrite Hn, count_result_nat. reflexivity.
  - exact (markAll_clears _ _ _ _ _ Hrun).
  - rewrite <- Hs. reflexivity.
  - rewrite <- Hs. cbn [snd]. rewrite <- list_fmap_compose. apply list_fmap_ext.
    intros i r _. cbn. destruct (Inbox.unread_for caseId userId r); reflexivity.
  - intros i r Hi Hown. rewrite <- Hs. cbn [snd]. rewrite list_lookup_fmap, Hi. cbn.
    assert (Hno : Inbox.unread_for caseId userId r = false).
    { unfold Inbox.unread_for. destruct Hown as [-> | ->].
      - rewrite N.eqb_refl. cbn. rewrite andb_false_r. reflexivity.
      - cbn. apply andb_false_r. }
    rewrite Hno. reflexivity.
  - intros otherCase anyUser Hne.
    unfold Inbox.messageRepository_getUnreadCountForCase. cbn [fst].
    rewrite (unread_after_markAll _ _ _ _ _ _ _ Hrun).
    do 2 f_equal.
    apply (length_filter_ext
             (fun r => Inbox.unread_for otherCase anyUser r
                       && negb (Inbox.unread_for caseId userId r))).
    intros r _. apply unread_for_other_case. exact Hne.
Qed.

(** Luis reads the conversation of case 102: one message of Ana was
    unread. *)
Lemma marking_a_case_read_clears_its_count_witness :
  fst (Inbox.messageRepository_getUnreadCountForCase 102%N 2%N
         (snd (Inbox.messageRepository_markAllAsReadForCase 102%N 2%N
                 (Sample.world, Requests.inbox))))
  = Val (Text.Int 0).
Proof.
  refine (proj1 (proj2 (marking_a_case_read_clears_its_count 102%N 2%N
                          (Sample.world, Requests.inbox) _ 1%nat _))).
  reflexivity.
Defined.

Section InboxReads.
Import Db Repo Services Effects Inbox.

Lemma length_filter_or {A} (p q : A -> bool) (l : list A) :
  (forall x, x ∈ l -> p x = true -> q x = false) ->
  List.length (filter (fun x => p x || q x = true) l)
  = (List.length (filter (fun x => p x = true) l)
     + List.length (filter (fun x => q x = true) l))%nat.
Proof.
  induction l as [|x l IH]; intros H; [reflexivity|].
  rewrite !filter_cons.
  assert (IH' := IH (fun y Hy => H y (proj2 (elem_of_cons l y x) (or_intror Hy)))).
  pose proof (H x (proj2 (elem_of_cons l x x) (or_introl eq_refl))) as Hx.
  destruct (p x) eqn:Hp; cbn.
  - rewrite (Hx eq_refl). cbn.
    destruct (decide (true = true)); [|congruence].
    destruct (decide (false = true)); [discriminate|]. cbn. rewrite IH'. reflexivity.
  - destruct (q x) eqn:Hq; cbn.
    + destruct (decide (true = true)); [|congruence].
      destruct (decide (false = true)); [discriminate|]. cbn. rewrite IH'. lia.
    + destruct (decide (false = true)); [discriminate|]. exact IH'.
Qed.

Lemma unread_in_cons (c : Uuid) (cs : list Uuid) (userId : Uuid) (r : Row) :
  unread_in (c :: cs) userId r = unread_for c userId r || unread_in cs userId r.
Proof.
  unfold unread_in, unread_for. cbn [existsb].
  destruct (N.eqb (m_case_id (message r)) c); cbn; [|reflexivity].
  destruct (negb (N.eqb (m_sender_id (message r)) userId)); cbn;
    [|rewrite ?andb_false_r; reflexivity].
  destruct (negb (is_read r)); cbn; rewrite ?andb_false_r, ?andb_true_r; reflexivity.
Qed.

Lemma unread_in_exclusive (c : Uuid) (cs : list Uuid) (userId : Uuid) (r : Row) :
  c ∉ cs -> unread_for c userId r = true -> unread_in cs userId r = false.
Proof.
  intros Hc H. unfold unread_for in H. unfold unread_in.
  apply andb_true_iff in H as [H _]. apply andb_true_iff in H as [H _].
  apply N.eqb_eq in H.
  assert (Hno : existsb (N.eqb (m_case_id (message r))) cs = false).
  { apply not_true_is_false. intros Hex. apply existsb_exists in Hex as (y & Hy & Heq).
    apply N.eqb_eq in Heq. apply Hc. rewrite <- H, Heq. apply list_elem_of_In, Hy. }
  rewrite Hno. reflexivity.
Qed.

Lemma unread_in_sum (userId : Uuid) (caseIds : list Uuid) (rows : list Row) :
  NoDup caseIds ->
  List.length (filter (fun r => unread_in caseIds userId r = true) rows)
  = sum_list ((fun c => List.length (filter (fun r => unread_for c userId r = true) rows))
              <$> caseIds).
Proof.
  induction 1 as [|c cs Hc Hnd IH].
  - cbn. apply (length_filter_false (unread_in [] userId)). intros r _. reflexivity.
  - cbn [fmap list_fmap sum_list sum_list_with]. rewrite <- IH.
    etrans; [|apply (length_filter_or (unread_for c userId) (unread_in cs userId))].
    + apply (length_filter_ext (unread_in (c :: cs) userId)).
      intros r _. apply unread_in_cons.
    + intros r _. apply unread_in_exclusive, Hc.
Qed.

End InboxReads.

(** [X13] For case ids that are pairwise distinct, the number
    [getUnreadCountForUser] returns is the sum of the numbers
    [getUnreadCountForCase] returns for the single cases; for no case at
    all it is 0.  Neither function changes anything. *)
Theorem unread_count_for_user_adds_up
    (userId : Db.Uuid) (caseIds : list Db.Uuid) (s : Inbox.Store) :
  NoDup caseIds ->
  exists counts : list nat,
    Forall2 (fun c k =>
               Inbox.messageRepository_getUnreadCountForCase c userId s
               = (Val (Text.Int (Z.of_nat k)), s))
            caseIds counts
    /\ Inbox.messageRepository_getUnreadCountForUser userId caseIds s
       = (Val (Text.Int (Z.of_nat (sum_list counts))), s).
Proof.
  intros Hnd.
  exists ((fun c => List.length
                      (filter (fun r => Inbox.unread_for c userId r = true) (snd s)))
          <$> caseIds).
  split.
  - apply Forall2_fmap_r, Forall_Forall2_diag, Forall_forall. intros c _.
    unfold Inbox.messageRepository_getUnreadCountForCase. rewrite count_result_nat.
    reflexivity.
  - destruct caseIds as [|c cs]; [reflexivity|].
    rewrite <- (unread_in_sum userId (c :: cs) (snd s) Hnd).
    unfold Inbox.messageRepository_getUnreadCountForUser.
    rewrite count_result_nat. reflexivity.
Qed.

(** Ana counts her unread messages in the cases 101 and 102. *)
Lemma unread_count_for_user_adds_up_witness :
  exists counts : list nat,
    Inbox.messageRepository_getUnreadCountForUser 1%N [101%N; 102%N]
      (Sample.world, Requests.inbox)
    = (Val (Text.Int (Z.of_nat (sum_list counts))), (Sample.world, Requests.inbox)).
Proof.
  destruct (unread_count_for_user_adds_up 1%N [101%N; 102%N]
              (Sample.world, Requests.inbox)) as (counts & _ & H).
  - apply NoDup_cons. split; [|apply NoDup_singleton].
    intros H. apply list_elem_of_singleton in H. discriminate H.
  - exists counts. exact H.
Defined.

Section Conversations.
Import Db Repo Services Effects Inbox.

Lemma on_world_checkCaseAccess (c : Case) userId userRole denied (s : Store) :
  (party (fst s) c userId userRole
   /\ on_world (checkCaseAccess (c_client_id c) (c_lawyer_id c) userId userRole denied) s
      = (Val tt, s))
  \/ (~ party (fst s) c userId userRole
      /\ exists msg,
           on_world (checkCaseAccess (c_client_id c) (c_lawyer_id c) userId userRole
                       denied) s
           = (Exn (ForbiddenError msg), s)).
Proof.
  unfold on_world.
  destruct (checkCaseAccess_party c userId userRole denied (fst s))
    as [[Hp ->]|[Hp [msg ->]]]; [left|right]; (split; [exact Hp|]).
  - destruct s; reflexivity.
  - exists msg. destruct s; reflexivity.
Qed.

Lemma getMessagesByCaseId_val caseId userId userRole (s s' : Store)
    (rows : list RowWithSender) :
  getMessagesByCaseId caseId userId userRole s = (Val rows, s') ->
  (exists c, cases (fst s) !! caseId = Some c /\ party (fst s) c userId userRole)
  /\ rows = omap (with_sender (fst s))
              (merge_sort oldest_first
                 (filter (fun r => m_case_id (message r) = caseId) (snd s)))
  /\ exists n, messageRepository_markAllAsReadForCase caseId userId s = (Val n, s').
Proof.
  unfold getMessagesByCaseId. unfold bind at 1.
  unfold on_world at 1, caseRepository_findById, findById. cbv beta iota.
  destruct (cases (fst s) !! caseId) as [c|] eqn:Hc; [|discriminate].
  replace (fst s, snd s) with s by (destruct s; reflexivity).
  unfold bind at 1.
  destruct (on_world_checkCaseAccess c userId userRole
              "You do not have access to this case" s) as [[Hp ->]|[Hp [msg ->]]];
    [|discriminate].
  unfold bind, messageRepository_findByCaseId. rewrite markAll_run. cbn.
  intros [= <- <-]. split; [eauto|]. split; [reflexivity|]. eauto.
Qed.

End Conversations.

(** [X14] [getMessagesByCaseId] serves the parties of the case only.  It
    returns the messages of the case whose sender is a user, oldest
    first, as they were stored when the call began, and then marks the
    messages of the other side as read: afterwards the unread count of
    the case for the reader is 0, while a message that was unread is
    returned with [is_read = false] although the table now holds it as
    read. *)
Theorem reading_a_conversation_marks_it_read
    (caseId userId : Db.Uuid) (userRole : UserRole.t) (s s' : Inbox.Store)
    (rows : list Inbox.RowWithSender) :
  Inbox.getMessagesByCaseId caseId userId userRole s = (Val rows, s') ->
  (exists c, Db.cases (fst s) !! caseId = Some c
             /\ Effects.party (fst s) c userId userRole)
  /\ (forall r, (exists x, x ∈ rows /\ Inbox.shown x = r)
                <-> r ∈ snd s /\ Db.m_case_id (Inbox.message r) = caseId
                    /\ is_Some (Db.users (fst s) !! Db.m_sender_id (Inbox.message r)))
  /\ StronglySorted Inbox.oldest_first (Inbox.shown <$> rows)
  /\ fst (Inbox.messageRepository_getUnreadCountForCase caseId userId s')
     = Val (Text.Int 0)
  /\ forall x, x ∈ rows ->
       Db.m_sender_id (Inbox.message (Inbox.shown x)) <> userId ->
       Inbox.is_read (Inbox.shown x) = false ->
       Inbox.mark (Db.now (fst s)) (Inbox.shown x) ∈ snd s'.
Proof.
  intros Hrun. apply getMessagesByCaseId_val in Hrun as (Hparty & -> & n & Hmark).
  split; [exact Hparty|].
  assert (Hmem : forall x,
             x ∈ omap (Inbox.with_sender (fst s))
                   (merge_sort Inbox.oldest_first
                      (filter (fun r => Db.m_case_id (Inbox.message r) = caseId) (snd s)))
             <-> exists r, r ∈ snd s /\ Db.m_case_id (Inbox.message r) = caseId
                           /\ Inbox.with_sender (fst s) r = Some x).
  { intros x. rewrite list_elem_of_omap. split.
    - intros (r & Hr & Hx). apply elem_of_merge_sort in Hr.
      apply list_elem_of_filter in Hr as [Hc Hr]. eauto.
    - intros (r & Hr & Hc & Hx). exists r. split; [|exact Hx].
      apply elem_of_merge_sort. apply list_elem_of_filter. auto. }
  assert (Hshown : forall r x, Inbox.with_sender (fst s) r = Some x -> Inbox.shown x = r).
  { intros r x. unfold Inbox.with_sender.
    destruct (Db.users (fst s) !! _); [|discriminate]. intros [= <-]. reflexivity. }
  split; [|split; [|split]].
  - intros r. split.
    + intros (x & Hx & <-). apply Hmem in Hx as (r & Hr & Hc & Hx).
      rewrite (Hshown _ _ Hx). split; [exact Hr|]. split; [exact Hc|].
      unfold Inbox.with_sender in Hx.
      destruct (Db.users (fst s) !! _); [eauto|discriminate].
    + intros (Hr & Hc & [u Hu]).
      eexists. split.
      * apply Hmem. exists r. split; [exact Hr|]. split; [exact Hc|].
        unfold Inbox.with_sender. rewrite Hu. reflexivity.
      * reflexivity.
  - rewrite list_fmap_omap.
    eapply (StronglySorted_omap Inbox.oldest_first Inbox.oldest_first);
      [|apply StronglySorted_merge_sort; apply _].
    intros a b a' b' Hab Ha Hb. cbn in Ha, Hb.
    destruct (Inbox.with_sender (fst s) a) as [xa|] eqn:Hxa; [|discriminate].
    destruct (Inbox.with_sender (fst s) b) as [xb|] eqn:Hxb; [|discriminate].
    cbn in Ha, Hb. injection Ha as <-. injection Hb as <-.
    rewrite (Hshown _ _ Hxa), (Hshown _ _ Hxb). exact Hab.
  - exact (markAll_clears _ _ _ _ _ Hmark).
  - intros x Hx Hsender Hunread. apply Hmem in Hx as (r & Hr & Hc & Hx).
    rewrite (Hshown _ _ Hx). rewrite markAll_run in Hmark. injection Hmark as _ <-.
    cbn [snd]. apply list_elem_of_fmap. exists r. split; [|exact Hr].
    rewrite (Hshown _ _ Hx) in Hsender, Hunread.
    unfold Inbox.unread_for. rewrite Hc, N.eqb_refl, Hunread.
    destruct (N.eqb_spec (Db.m_sender_id (Inbox.message r)) userId); [contradiction|].
    reflexivity.
Qed.

(** Luis opens the conversation of case 102. *)
Lemma reading_a_conversation_marks_it_read_witness :
  exists rows s',
    Inbox.getMessagesByCaseId 102%N 2%N UserRole.LAWYER (Sample.world, Requests.inbox)
    = (Val rows, s')
    /\ fst (Inbox.messageRepository_getUnreadCountForCase 102%N 2%N s') = Val (Text.Int 0).
Proof.
  destruct (Inbox.getMessagesByCaseId 102%N 2%N UserRole.LAWYER
              (Sample.world, Requests.inbox)) as [[rows|e] s'] eqn:Hrun.
  - exists rows, s'. split; [reflexivity|].
    exact (proj1 (proj2 (proj2 (proj2
             (reading_a_conversation_marks_it_read _ _ _ _ _ _ Hrun))))).
  - vm_compute in Hrun. discriminate Hrun.
Defined.

(** ** Notifications *)

Section NoticeFacts.
Import Db Repo Services Effects Notices.

Lemma length_filter_Permutation {A} (p : A -> bool) (l1 l2 : list A) :
  l1 ≡ₚ l2 ->
  List.length (filter (fun x => p x = true) l1)
  = List.length (filter (fun x => p x = true) l2).
Proof. intros H. rewrite H. reflexivity. Qed.

Lemma rows_fmap {A} (f : A -> A) (m : gmap Uuid A) :
  snd <$> map_to_list (f <$> m) ≡ₚ f <$> (snd <$> map_to_list m).
Proof.
  rewrite map_to_list_fmap, <- !list_fmap_compose. apply Permutation_refl'.
  apply list_fmap_ext. intros i [k x] _. reflexivity.
Qed.

Lemma unread_count_run (userId : Uuid) (w : World) :
  notificationService_getUnreadCount userId w
  = (Val (Text.Int (Z.of_nat (List.length
                                (filter (fun n => unread_of userId n = true)
                                   (snd <$> map_to_list (notifications w)))))), w).
Proof.
  unfold notificationService_getUnreadCount.
  pose proof (count_result_nat
                (List.length (filter (fun n => unread_of userId n = true)
                                (snd <$> map_to_list (notifications w))))) as H.
  unfold Inbox.count_result in H. rewrite H. reflexivity.
Qed.

Lemma unread_of_marked (u v : Uuid) (t : Timestamp) (n : Notification) :
  unread_of v (if N.eqb (n_user_id n) u && negb (n_is_read n) then mark_read t n else n)
  = unread_of v n && negb (N.eqb (n_user_id n) u).
Proof.
  unfold unread_of.
  destruct (N.eqb_spec (n_user_id n) u) as [->|Hne]; cbn.
  - destruct (n_is_read n) eqn:Hr; cbn; rewrite ?Hr; cbn; rewrite ?andb_false_r; reflexivity.
  - rewrite andb_true_r. reflexivity.
Qed.

Lemma unread_after_markAll_notifications (u v : Uuid) (w : World) :
  List.length (filter (fun n => unread_of v n = true)
                 (snd <$> map_to_list
                            (notifications (snd (notificationService_markAllAsRead u w)))))
  = List.length (filter (fun n => unread_of v n && negb (N.eqb (n_user_id n) u) = true)
                   (snd <$> map_to_list (notifications w))).
Proof.
  unfold notificationService_markAllAsRead. cbn [snd].
  change (notifications (with_notifications ?m w)) with m.
  etrans; [apply length_filter_Permutation, rows_fmap|].
  etrans; [apply (length_filter_fmap _ (unread_of v))|].
  apply (length_filter_ext
           (fun n => unread_of v
                       (if N.eqb (n_user_id n) u && negb (n_is_read n)
                        then mark_read (now w) n else n))).
  intros n _. apply unread_of_marked.
Qed.

End NoticeFacts.

(** [X15] [markAllAsRead] leaves the user without unread notifications:
    afterwards [getUnreadCount] is 0 and the list of the unread ones is
    empty, no notification is created or deleted, and the unread count of
    every other user is as before.  The number the function returns is 0
    whatever it marked, since its [UPDATE] returns no rows. *)
Theorem markAllAsRead_clears_the_unread_count (userId : Db.Uuid) (w w' : Db.World) (n : nat) :
  Services.notificationService_markAllAsRead userId w = (Val n, w') ->
  n = 0%nat
  /\ fst (Notices.notificationService_getUnreadCount userId w') = Val (Text.Int 0)
  /\ fst (Notices.notificationService_getByUserId userId true w') = Val []
  /\ (forall id, is_Some (Db.notifications w' !! id) <-> is_Some (Db.notifications w !! id))
  /\ forall other,
       other <> userId ->
       fst (Notices.notificationService_getUnreadCount other w')
       = fst (Notices.notificationService_getUnreadCount other w).
Proof.
  intros Hrun.
  assert (Hw : w' = snd (Services.notificationService_markAllAsRead userId w))
    by (rewrite Hrun; reflexivity).
  assert (Hzero : List.length
                    (filter (fun x => Notices.unread_of userId x = true)
                       (snd <$> map_to_list (Db.notifications w'))) = 0%nat).
  { rewrite Hw, unread_after_markAll_notifications.
    apply (length_filter_false
             (fun x => Notices.unread_of userId x && negb (N.eqb (Db.n_user_id x) userId))).
    intros x _. unfold Notices.unread_of.
    destruct (N.eqb (Db.n_user_id x) userId); cbn; rewrite ?andb_false_r; reflexivity. }
  split; [|split; [|split; [|split]]].
  - unfold Services.notificationService_markAllAsRead in Hrun. congruence.
  - rewrite unread_count_run. cbn [fst]. rewrite Hzero. reflexivity.
  - unfold Notices.notificationService_getByUserId. cbn [fst]. f_equal.
    apply length_zero_iff_nil in Hzero.
    assert (Hl : filter (fun x => Notices.listed userId true x = true)
                   (snd <$> map_to_list (Db.notifications w')) = []) by exact Hzero.
    rewrite Hl. reflexivity.
  - intros id. rewrite Hw. unfold Services.notificationService_markAllAsRead. cbn.
    rewrite lookup_fmap. destruct (Db.notifications w !! id); cbn; split; intros [x H];
      try discriminate; eauto.
  - intros other Hne. rewrite !unread_count_run. cbn [fst]. do 3 f_equal.
    rewrite Hw, unread_after_markAll_notifications.
    apply (length_filter_ext
             (fun x => Notices.unread_of other x && negb (N.eqb (Db.n_user_id x) userId))).
    intros x _. unfold Notices.unread_of.
    destruct (N.eqb_spec (Db.n_user_id x) other) as [->|]; cbn; [|reflexivity].
    destruct (N.eqb_spec other userId); [contradiction|]. cbn. apply andb_true_r.
Qed.

(** Ana marks all her notifications as read. *)
Lemma markAllAsRead_clears_the_unread_count_witness :
  fst (Notices.notificationService_getUnreadCount 1%N
         (snd (Services.notificationService_markAllAsRead 1%N Sample.world)))
  = Val (Text.Int 0).
Proof.
  exact (proj1 (proj2 (markAllAsRead_clears_the_unread_count 1%N Sample.world _ _
                         (surjective_pairing _)))).
Defined.

(** [X16] [getByUserId] returns notifications of the user only, unread
    ones only when [unreadOnly] is set, at most 50 of them and the newest
    first.  They are the newest: a notification of the user that
    qualifies and is not returned is not newer than any that is
    returned.  The call changes nothing. *)
Theorem getByUserId_lists_the_newest_fifty
    (userId : Db.Uuid) (unreadOnly : bool) (w : Db.World) :
  exists rows,
    Notices.notificationService_getByUserId userId unreadOnly w = (Val rows, w)
    /\ (List.length rows <= 50)%nat
    /\ StronglySorted Notices.latest_first rows
    /\ (forall n, n ∈ rows ->
          Db.n_user_id n = userId
          /\ (unreadOnly = true -> Db.n_is_read n = false)
          /\ exists id, Db.notifications w !! id = Some n)
    /\ forall id n,
         Db.notifications w !! id = Some n ->
         Db.n_user_id n = userId ->
         (unreadOnly = true -> Db.n_is_read n = false) ->
         n ∈ rows
         \/ forall shown, shown ∈ rows -> Db.n_created_at n <= Db.n_created_at shown.
Proof.
  set (found := filter (fun n => Notices.listed userId unreadOnly n = true)
                  (snd <$> map_to_list (Db.notifications w))).
  set (sorted := merge_sort Notices.latest_first found).
  assert (Hsorted : StronglySorted Notices.latest_first sorted)
    by (apply StronglySorted_merge_sort; apply _).
  exists (take 50 sorted). split; [reflexivity|].
  split; [rewrite length_take; lia|].
  split; [apply StronglySorted_take, Hsorted|].
  split.
  - intros n Hn. apply elem_of_take in Hn as (i & Hi & _).
    apply list_elem_of_lookup_2 in Hi. apply elem_of_merge_sort in Hi.
    apply list_elem_of_filter in Hi as [Hl Hin]. unfold Notices.listed in Hl.
    apply andb_true_iff in Hl as [Hu Hr]. apply N.eqb_eq in Hu.
    split; [exact Hu|]. split.
    + intros ->. apply negb_true_iff in Hr. exact Hr.
    + apply list_elem_of_fmap in Hin as ([k x] & -> & Hin).
      apply elem_of_map_to_list in Hin. eauto.
  - intros id n Hid Hu Hr.
    assert (Hin : n ∈ sorted).
    { apply elem_of_merge_sort, list_elem_of_filter. split.
      - unfold Notices.listed. rewrite Hu, N.eqb_refl. cbn.
        destruct unreadOnly; [|reflexivity]. rewrite (Hr eq_refl). reflexivity.
      - apply list_elem_of_fmap. exists (id, n). split; [reflexivity|].
        apply elem_of_map_to_list, Hid. }
    rewrite <- (take_drop 50 sorted) in Hin. apply elem_of_app in Hin as [Hin|Hin].
    + left. exact Hin.
    + right. intros shown Hshown.
      exact (take_before_drop Notices.latest_first 50 sorted shown n Hsorted Hshown Hin).
Qed.

(** ** Lists of cases and statistics *)

Section ListFacts.
Import Db Repo Services Effects CaseLists.

Variable ilike : string -> string -> bool.
Variable order_by : string -> bool -> list Case -> list Case.
Hypothesis order_by_permutes : forall column asc rows, order_by column asc rows ≡ₚ rows.








End ListFacts.



Section Paging.
Import Db Repo Services Effects CaseLists.




End Paging.





Section Statistics.
Import Db Repo Services Effects CaseLists.

Variable ilike : string -> string -> bool.
Variable order_by : string -> bool -> list Case -> list Case.




Lemma scoped_none (c : Case) : scoped no_filters c = true.
Proof. reflexivity. Qed.




End Statistics.



(** ** Documents *)

Section DocumentFacts.
Import Db Repo Services Effects Documents.

Lemma head_filter_Some {A} (P : A -> Prop) `{!forall x, Decision (P x)} (l : list A) (a : A) :
  head (filter P l) = Some a -> a ∈ l /\ P a.
Proof.
  intros Hh. apply head_Some_elem_of in Hh. apply list_elem_of_filter in Hh as [H1 H2]. auto.
Qed.

Lemma getDocumentById_val documentId userId userRole (w w' : World) (d : Document) :
  getDocumentById documentId userId userRole w = (Val d, w') ->
  w' = w
  /\ head (filter (fun x => d_id x = documentId) (documents w)) = Some d
  /\ exists c, cases w !! d_case_id d = Some c /\ party w c userId userRole.
Proof.
  unfold getDocumentById, documentRepository_findById, caseRepository_findById, findById.
  unfold bind at 1.
  destruct (head (filter (fun x => d_id x = documentId) (documents w))) as [d0|] eqn:Hd;
    [|discriminate].
  unfold bind at 1. destruct (cases w !! d_case_id d0) as [c|] eqn:Hc; [|discriminate].
  destruct (checkCaseAccess_party c userId userRole
              "You do not have access to these documents" w) as [[Hp H]|[Hp [msg H]]];
    unfold bind; rewrite H; [|discriminate].
  intros [= <- <-]. split; [reflexivity|]. split; [reflexivity|]. eauto.
Qed.

Lemma getDocumentById_exn documentId userId userRole (w w' : World) (e : AppError) :
  getDocumentById documentId userId userRole w = (Exn e, w') -> w' = w.
Proof.
  unfold getDocumentById, documentRepository_findById, caseRepository_findById, findById.
  unfold bind at 1.
  destruct (head (filter (fun x => d_id x = documentId) (documents w))) as [d0|] eqn:Hd;
    [|intros [= _ <-]; reflexivity].
  unfold bind at 1. destruct (cases w !! d_case_id d0) as [c|] eqn:Hc;
    [|intros [= _ <-]; reflexivity].
  destruct (checkCaseAccess_party c userId userRole
              "You do not have access to these documents" w) as [[Hp H]|[Hp [msg H]]];
    unfold bind; rewrite H; [discriminate|].
  intros [= _ <-]. reflexivity.
Qed.

Lemma getDocumentById_run documentId userId userRole (w : World) (d : Document) (c : Case) :
  head (filter (fun x => d_id x = documentId) (documents w)) = Some d ->
  cases w !! d_case_id d = Some c ->
  (party w c userId userRole /\ getDocumentById documentId userId userRole w = (Val d, w))
  \/ (~ party w c userId userRole
      /\ exists msg,
           getDocumentById documentId userId userRole w = (Exn (ForbiddenError msg), w)).
Proof.
  intros Hd Hc.
  destruct (checkCaseAccess_party c userId userRole
              "You do not have access to these documents" w) as [[Hp H]|[Hp [msg H]]];
    [left|right]; (split; [exact Hp|]); [|exists msg].
  all: unfold getDocumentById, documentRepository_findById, caseRepository_findById,
         findById, bind.
  all: rewrite Hd, Hc, H; reflexivity.
Qed.

Lemma getDocumentsByCaseId_run caseId userId userRole (w : World) (c : Case) :
  cases w !! caseId = Some c ->
  (party w c userId userRole
   /\ getDocumentsByCaseId caseId userId userRole w
      = (Val (merge_sort newest_upload_first
                (filter (fun d => d_case_id d = caseId) (documents w))), w))
  \/ (~ party w c userId userRole
      /\ exists msg,
           getDocumentsByCaseId caseId userId userRole w = (Exn (ForbiddenError msg), w)).
Proof.
  intros Hc.
  destruct (checkCaseAccess_party c userId userRole
              "You do not have access to these documents" w) as [[Hp H]|[Hp [msg H]]];
    [left|right]; (split; [exact Hp|]); [|exists msg].
  all: unfold getDocumentsByCaseId, documentRepository_findByCaseId,
         caseRepository_findById, findById, bind.
  all: rewrite Hc, H; reflexivity.
Qed.

Section Disk.
Variable fileExists : Document -> bool.
Variable unlink_fails : Document -> bool.
Variable readFile_fails : Document -> bool.

Lemma downloadDocument_outsider documentId userId userRole (w : World) (d : Document)
    (c : Case) :
  head (filter (fun x => d_id x = documentId) (documents w)) = Some d ->
  cases w !! d_case_id d = Some c ->
  ~ party w c userId userRole ->
  exists msg,
    downloadDocument fileExists readFile_fails documentId userId userRole w
    = (Exn (ForbiddenError msg), w).
Proof.
  intros Hd Hc Hn.
  destruct (getDocumentById_run documentId userId userRole w d c Hd Hc)
    as [[Hp _]|[_ [msg H]]]; [contradiction|].
  exists msg. unfold downloadDocument, bind. rewrite H. reflexivity.
Qed.

(** A download that succeeds. *)
Lemma downloadDocument_val documentId userId userRole (w w' : World) (d : Document) :
  downloadDocument fileExists readFile_fails documentId userId userRole w = (Val d, w') ->
  head (filter (fun x => d_id x = documentId) (documents w)) = Some d
  /\ fileExists d = true
  /\ (exists c, cases w !! d_case_id d = Some c /\ party w c userId userRole)
  /\ exists ev,
       w' = update_case_last_activity (d_case_id d)
              (with_case_events (case_events w ++ [ev]) w)
       /\ e_case_id ev = d_case_id d
       /\ e_event_type ev = CaseEventType.DOCUMENT_DOWNLOADED
       /\ e_actor_id ev = Some userId /\ e_created_at ev = now w.
Proof.
  unfold downloadDocument. intros H.
  apply bind_val in H as (d0 & w0 & Hget & H).
  apply getDocumentById_val in Hget as (-> & Hd & c & Hc & Hp).
  destruct (fileExists d0) eqn:Hthere; cbn [negb] in H; [|discriminate].
  apply bind_val in H as ([] & w1 & Hbuf & H).
  assert (w1 = w) as ->.
  { unfold getFileBuffer in Hbuf. rewrite Hthere in Hbuf. cbn [negb] in Hbuf.
    destruct (readFile_fails d0); [discriminate|]. apply ret_val in Hbuf as [_ ->].
    reflexivity. }
  apply bind_val in H as (o & w2 & Hfind & H).
  unfold caseRepository_findById, findById in Hfind. injection Hfind as <- <-.
  rewrite Hc in H.
  apply bind_val in H as (ev & w3 & Hev & H).
  apply ret_val in H as [<- <-].
  unfold caseEventRepository_create in Hev.
  pose proof (insert_case_event_row _ _ _ _ _ _ _ _ Hev) as (Hactor & Htime & _ & _).
  apply insert_case_event_val in Hev as (Hty & Hcase & ->).
  split; [exact Hd|]. split; [exact Hthere|]. split; [eauto|].
  exists ev. split; [reflexivity|]. injection Hty as Hty. auto.
Qed.

End Disk.

End DocumentFacts.

(** [X22] The documents of a case are open to its parties only.  To a
    party [getDocumentsByCaseId] returns exactly the documents of the
    case, newest first; for anybody else it ends in a [ForbiddenError],
    as do [getDocumentById] and [downloadDocument] on every document of
    the case, and nothing is changed or logged. *)
Theorem documents_are_open_to_parties_only
    (fileExists readFile_fails : Db.Document -> bool)
    (caseId userId : Db.Uuid) (userRole : UserRole.t) (w : Db.World) (c : Db.Case) :
  Db.cases w !! caseId = Some c ->
  (Effects.party w c userId userRole ->
   exists docs,
     Documents.getDocumentsByCaseId caseId userId userRole w = (Val docs, w)
     /\ docs ≡ₚ filter (fun d => Db.d_case_id d = caseId) (Db.documents w)
     /\ StronglySorted Documents.newest_upload_first docs)
  /\ (~ Effects.party w c userId userRole ->
      (exists msg, Documents.getDocumentsByCaseId caseId userId userRole w
                   = (Exn (Db.ForbiddenError msg), w))
      /\ forall documentId d,
           head (filter (fun x => Db.d_id x = documentId) (Db.documents w)) = Some d ->
           Db.d_case_id d = caseId ->
           (exists msg, Documents.getDocumentById documentId userId userRole w
                        = (Exn (Db.ForbiddenError msg), w))
           /\ exists msg,
                Documents.downloadDocument fileExists readFile_fails
                  documentId userId userRole w
                = (Exn (Db.ForbiddenError msg), w)).
Proof.
  intros Hc. split.
  - intros Hp.
    destruct (getDocumentsByCaseId_run caseId userId userRole w c Hc) as [[_ H]|[Hn _]];
      [|contradiction].
    eexists. split; [exact H|]. split.
    + apply merge_sort_Permutation.
    + apply (StronglySorted_merge_sort _).
  - intros Hn. split.
    + destruct (getDocumentsByCaseId_run caseId userId userRole w c Hc) as [[Hp _]|[_ H]];
        [contradiction|exact H].
    + intros documentId d Hd Hcase. subst caseId. split.
      * destruct (getDocumentById_run documentId userId userRole w d c Hd Hc)
          as [[Hp _]|[_ H]]; [contradiction|exact H].
      * apply (downloadDocument_outsider _ _ _ _ _ _ d c); assumption.
Qed.

(** Luis, who is not the lawyer of case 101, asks for its documents. *)
Lemma documents_are_open_to_parties_only_witness :
  exists msg, Documents.getDocumentsByCaseId 101%N 2%N UserRole.LAWYER Papers.world
              = (Exn (Db.ForbiddenError msg), Papers.world).
Proof.
  refine (proj1 (proj2 (documents_are_open_to_parties_only Papers.there Papers.sound
                          101%N 2%N UserRole.LAWYER Papers.world Sample.case_a eq_refl) _)).
  intros (l & _ & Hl). discriminate Hl.
Defined.

(** [X23] A download is case activity.  When [downloadDocument] returns a
    document, the user is a party of its case and the file is on the
    disk; the call has appended one [document_downloaded] event of that
    user to the case, which moves [last_activity_at] of the case to the
    time of the download, and has changed no document. *)
Theorem downloads_count_as_case_activity
    (fileExists readFile_fails : Db.Document -> bool)
    (documentId userId : Db.Uuid) (userRole : UserRole.t) (w w' : Db.World)
    (d : Db.Document) :
  Documents.downloadDocument fileExists readFile_fails documentId userId userRole w
  = (Val d, w') ->
  d ∈ Db.documents w /\ Db.d_id d = documentId /\ fileExists d = true
  /\ (exists c, Db.cases w !! Db.d_case_id d = Some c
                /\ Effects.party w c userId userRole
                /\ Db.cases w' !! Db.d_case_id d = Some (Repo.touch (Db.now w) c))
  /\ (exists ev, Db.case_events w' = (Db.case_events w ++ [ev])%list
                 /\ Db.e_case_id ev = Db.d_case_id d
                 /\ Db.e_event_type ev = CaseEventType.DOCUMENT_DOWNLOADED
                 /\ Db.e_actor_id ev = Some userId
                 /\ Db.e_created_at ev = Db.now w)
  /\ Db.documents w' = Db.documents w.
Proof.
  intros H.
  apply downloadDocument_val in H
    as (Hd & Hthere & (c & Hc & Hp) & ev & -> & Hcase & Hty & Hactor & Htime).
  apply head_filter_Some in Hd as [Hin Hid].
  split; [exact Hin|]. split; [exact Hid|]. split; [exact Hthere|]. split.
  - exists c. split; [exact Hc|]. split; [exact Hp|].
    unfold Repo.update_case_last_activity. cbn.
    rewrite lookup_alter_eq, Hc. reflexivity.
  - split; [|reflexivity]. exists ev. cbn. auto.
Qed.

(** Ana downloads the contract of her case 102. *)
Lemma downloads_count_as_case_activity_witness :
  Db.c_last_activity_at
  <$> Db.cases (snd (Documents.downloadDocument Papers.there Papers.sound
                       402%N 1%N UserRole.CLIENT Papers.world)) !! 102%N
  = Some Sample.t0.
Proof.
  destruct (downloads_count_as_case_activity Papers.there Papers.sound
              402%N 1%N UserRole.CLIENT Papers.world
              (snd (Documents.downloadDocument Papers.there Papers.sound
                      402%N 1%N UserRole.CLIENT Papers.world))
              Papers.contract)
    as (_ & _ & _ & (c & _ & _ & Hc) & _).
  - vm_compute. reflexivity.
  - exact (f_equal (fmap Db.c_last_activity_at) Hc).
Defined.

(** [X24] Who may delete a document is decided without looking at the
    case: an administrator and the user who uploaded it may, whether or
    not they are a party of the case, and nobody else, party or not.
    The deletion removes the rows with the identifier of the document
    and leaves the cases and their events as they are; when the file
    cannot be removed from the disk the row stays. *)
Theorem deleteDocument_asks_for_uploader_or_admin
    (fileExists unlink_fails : Db.Document -> bool)
    (documentId userId : Db.Uuid) (userRole : UserRole.t) (w : Db.World)
    (d : Db.Document) :
  head (filter (fun x => Db.d_id x = documentId) (Db.documents w)) = Some d ->
  (userRole <> UserRole.ADMIN -> Db.d_uploaded_by d <> userId ->
   exists msg,
     Documents.deleteDocument fileExists unlink_fails documentId userId userRole w
     = (Exn (Db.ForbiddenError msg), w))
  /\ (userRole = UserRole.ADMIN \/ Db.d_uploaded_by d = userId ->
      if fileExists d && unlink_fails d then
        exists e w',
          Documents.deleteDocument fileExists unlink_fails documentId userId userRole w
          = (Exn e, w')
          /\ Effects.same_tables w w'
      else
        exists w',
          Documents.deleteDocument fileExists unlink_fails documentId userId userRole w
          = (Val tt, w')
          /\ Db.documents w' = filter (fun x => Db.d_id x <> documentId) (Db.documents w)
          /\ Db.cases w' = Db.cases w /\ Db.case_events w' = Db.case_events w).
Proof.
  intros Hd.
  assert (Hrun : Documents.deleteDocument fileExists unlink_fails documentId userId
                   userRole w
                 = (if negb (bool_decide (userRole = UserRole.ADMIN))
                       && negb (N.eqb (Db.d_uploaded_by d) userId)
                    then throw (Db.ForbiddenError
                                  "You do not have permission to delete this document")
                    else Documents.deleteFile fileExists unlink_fails d ;;;
                         Documents.documentRepository_delete documentId ;;;
                         Db.logger (LogInfo ("Document deleted: "
                                             ++ Db.d_original_filename d))) w).
  { unfold Documents.deleteDocument, Documents.documentRepository_findById.
    unfold bind at 1. rewrite Hd. reflexivity. }
  rewrite Hrun. clear Hrun. split.
  - intros Hrole Hby. rewrite bool_decide_eq_false_2 by exact Hrole.
    destruct (N.eqb_spec (Db.d_uploaded_by d) userId) as [|_]; [contradiction|].
    cbn. eauto.
  - intros Hmay.
    assert (Hgo : negb (bool_decide (userRole = UserRole.ADMIN))
                  && negb (N.eqb (Db.d_uploaded_by d) userId) = false).
    { destruct Hmay as [->| ->]; [reflexivity|].
      rewrite N.eqb_refl. apply andb_false_r. }
    rewrite Hgo. unfold Documents.deleteFile.
    destruct (fileExists d); [destruct (unlink_fails d)|]; cbn.
    + eexists _, _. split; [reflexivity|]. repeat split.
    + eexists. split; [reflexivity|]. auto.
    + eexists. split; [reflexivity|]. auto.
Qed.

(** Luis deletes the memo he uploaded to case 101, of which he is no
    party. *)
Lemma deleteDocument_asks_for_uploader_or_admin_witness :
  (forall l, ~ (Db.c_lawyer_id Sample.case_a = Some l))
  /\ exists w',
       Documents.deleteDocument Papers.there Papers.sound 401%N 2%N UserRole.LAWYER
         Papers.world = (Val tt, w')
       /\ Db.documents w' = [Papers.contract].
Proof.
  split; [intros l Hl; discriminate Hl|].
  destruct (proj2 (deleteDocument_asks_for_uploader_or_admin Papers.there Papers.sound
                     401%N 2%N UserRole.LAWYER Papers.world Papers.memo eq_refl)
              (or_intror eq_refl))
    as (w' & Hrun & Hdocs & _).
  exists w'. split; [exact Hrun|]. rewrite Hdocs. reflexivity.
Defined.

Section SeveralFiles.
Import Db Repo Services Effects Documents.

Variable isAllowedMimeType : string -> bool.
Variable maxSizeBytes : Z.
Variable writeFile_fails : Uuid -> string -> bool.
Variable sendDocumentUploadNotifications :
  Uuid -> string -> Uuid -> UserRole.t -> string -> IO unit.
Hypothesis flow_keeps_documents :
  forall a b c x y, keeps documents (sendDocumentUploadNotifications a b c x y).

(** The loop: the documents it has stored are those of the files it has
    passed, in their order, of the case and of the uploader. *)
Lemma uploadDocuments_loop_run caseId uploaderId userRole (files : list UploadedFile)
    (acc : list Document) (w : World) :
  match uploadDocuments_loop isAllowedMimeType maxSizeBytes writeFile_fails
          sendDocumentUploadNotifications caseId files uploaderId userRole acc w with
  | (Val docs, w') =>
      exists new, docs = (acc ++ new)%list
                  /\ documents w' = (documents w ++ new)%list
                  /\ (d_original_filename <$> new = originalname <$> files
                      /\ Forall (fun d => d_case_id d = caseId
                                          /\ d_uploaded_by d = uploaderId) new)
  | (Exn e, w') =>
      exists done file rest new,
        files = (done ++ file :: rest)%list
        /\ documents w' = (documents w ++ new)%list
        /\ (d_original_filename <$> new = originalname <$> done
            /\ Forall (fun d => d_case_id d = caseId /\ d_uploaded_by d = uploaderId) new)
        /\ uploadDocument isAllowedMimeType maxSizeBytes writeFile_fails
             sendDocumentUploadNotifications caseId file uploaderId userRole w'
           = (Exn e, w')
  end.
Proof.
  revert acc w. induction files as [|file rest IH]; intros acc w.
  - cbn. exists []. rewrite !app_nil_r. repeat split. constructor.
  - cbn [uploadDocuments_loop]. unfold bind at 1.
    destruct (uploadDocument isAllowedMimeType maxSizeBytes writeFile_fails
                sendDocumentUploadNotifications caseId file uploaderId userRole w)
      as [[d|e] w1] eqn:Hup.
    + eapply uploadDocument_val in Hup; [|exact flow_keeps_documents].
      destruct Hup as (Hdocs & Hcase & Hby & Hname & _).
      specialize (IH (acc ++ [d])%list w1).
      destruct (uploadDocuments_loop _ _ _ _ caseId rest uploaderId userRole _ w1)
        as [[docs|e] w'].
      * destruct IH as (new & -> & Hw' & Hnames & Hall).
        exists (d :: new). rewrite <- app_assoc. split; [reflexivity|].
        rewrite Hw', Hdocs, <- app_assoc. split; [reflexivity|]. split.
        -- cbn. rewrite Hname, Hnames. reflexivity.
        -- constructor; auto.
      * destruct IH as (done & file' & rest' & new & -> & Hw' & [Hnames Hall] & Hfail).
        exists (file :: done), file', rest', (d :: new). split; [reflexivity|].
        rewrite Hw', Hdocs, <- app_assoc. split; [reflexivity|]. split; [|exact Hfail].
        split.
        -- cbn. rewrite Hname, Hnames. reflexivity.
        -- constructor; auto.
    + pose proof (uploadDocument_refused _ _ _ _ _ _ _ _ _ _ _ Hup) as ->.
      exists [], file, rest, []. rewrite app_nil_r.
      repeat split; [constructor|exact Hup].
Qed.

End SeveralFiles.

(** [X25] [uploadDocuments], for an uploader who is a user, stores the
    files one after the other and stops at the first one that is
    refused; nothing is taken back.  When
    it fails, the documents of the files before the refused one are in
    the table, one for each of these files and in their order, and the
    error is the one [uploadDocument] gives for the refused file in that
    state.  When it succeeds, it returns one stored document for every
    file, in the order of the files. *)
Theorem uploadDocuments_is_not_atomic
    (isAllowedMimeType : string -> bool) (maxSizeBytes : Z)
    (writeFile_fails : Db.Uuid -> string -> bool)
    (sendDocumentUploadNotifications :
       Db.Uuid -> string -> Db.Uuid -> UserRole.t -> string -> Db.IO unit)
    (caseId uploaderId : Db.Uuid) (userRole : UserRole.t)
    (files : list Services.UploadedFile) (w w' : Db.World)
    (r : res Db.AppError (list Db.Document)) :
  (forall a b c x y,
     Effects.keeps Db.documents (sendDocumentUploadNotifications a b c x y)) ->
  is_Some (Db.users w !! uploaderId) ->
  Documents.uploadDocuments isAllowedMimeType maxSizeBytes writeFile_fails
    sendDocumentUploadNotifications caseId files uploaderId userRole w = (r, w') ->
  match r with
  | Val docs =>
      Db.documents w' = (Db.documents w ++ docs)%list
      /\ Db.d_original_filename <$> docs = Services.originalname <$> files
      /\ Forall (fun d => Db.d_case_id d = caseId /\ Db.d_uploaded_by d = uploaderId) docs
  | Exn e =>
      exists done file rest docs,
        files = (done ++ file :: rest)%list
        /\ Db.documents w' = (Db.documents w ++ docs)%list
        /\ Db.d_original_filename <$> docs = Services.originalname <$> done
        /\ Forall (fun d => Db.d_case_id d = caseId /\ Db.d_uploaded_by d = uploaderId) docs
        /\ Services.uploadDocument isAllowedMimeType maxSizeBytes writeFile_fails
             sendDocumentUploadNotifications caseId file uploaderId userRole w'
           = (Exn e, w')
  end.
Proof.
  intros Hflow _ Hrun.
  pose proof (uploadDocuments_loop_run isAllowedMimeType maxSizeBytes writeFile_fails
                sendDocumentUploadNotifications Hflow caseId uploaderId userRole
                files [] w) as H.
  unfold Documents.uploadDocuments in Hrun. rewrite Hrun in H.
  destruct r as [docs|e].
  - destruct H as (new & -> & Hw' & Hnames & Hall). cbn. auto.
  - destruct H as (done & file & rest & new & Hfiles & Hw' & [Hnames Hall] & Hfail).
    exists done, file, rest, new. auto.
Qed.

(** Ana sends a PDF file and a scan of two bytes to a volume that takes
    files of one byte: the PDF file stays. *)
Lemma uploadDocuments_is_not_atomic_witness :
  exists e w' doc,
    Documents.uploadDocuments Requests.any_type Papers.one_byte Requests.disk_ok
      Requests.quiet5 102%N [Requests.pdf; Papers.scan] 1%N UserRole.CLIENT Papers.world
    = (Exn e, w')
    /\ Db.documents w' = (Db.documents Papers.world ++ [doc])%list
    /\ Db.d_original_filename doc = "a.pdf".
Proof.
  destruct (Documents.uploadDocuments Requests.any_type Papers.one_byte Requests.disk_ok
              Requests.quiet5 102%N [Requests.pdf; Papers.scan] 1%N UserRole.CLIENT
              Papers.world) as [[docs|e] w'] eqn:Hrun.
  - vm_compute in Hrun. discriminate Hrun.
  - pose proof (uploadDocuments_is_not_atomic Requests.any_type Papers.one_byte
                  Requests.disk_ok Requests.quiet5 102%N 1%N UserRole.CLIENT
                  [Requests.pdf; Papers.scan] Papers.world w' (Exn e)
                  (fun a b c x y w0 => eq_refl) (ex_intro _ Sample.ana eq_refl) Hrun)
      as (done & file & rest & docs & Hfiles & Hw' & Hnames & _ & Hfail).
    destruct done as [|f1 [|f2 done]].
    + injection Hfiles as <- <-. exfalso.
      destruct docs; [|discriminate Hnames]. rewrite app_nil_r in Hw'.
      vm_compute in Hrun. injection Hrun as _ <-. discriminate Hw'.
    + injection Hfiles as <- <- <-.
      destruct docs as [|doc [|doc2 docs]]; try discriminate Hnames.
      exists e, w', doc. split; [reflexivity|]. split; [exact Hw'|].
      injection Hnames as Hn. exact Hn.
    + exfalso. injection Hfiles as _ _ Hrest.
      destruct done; discriminate Hrest.
Defined.

(** ** The inactivity job: its setting and its counts *)

Section ThresholdFacts.
Import Db Services Text Config.




End ThresholdFacts.



Section ReminderFacts.
Import Db Repo Services.

Variable transport : EmailRequest -> nat -> Delivery.SendOutcome.
Variable random : nat -> Q.
Variable apiKey : option string.
Variable fault : string -> Uuid -> bool.

(** The three steps for one case always end in an error, the last of
    them at the latest, and write no event. *)
Lemma process_inactive_case_fails (ic : InactiveCase) (w : World) :
  exists e w',
    process_inactive_case transport random apiKey fault ic w = (Exn e, w')
    /\ case_events w' = case_events w.
Proof.
  unfold process_inactive_case, sendInactivityNotification, updateNotificationTimestamp,
    logInactivityEvent, faulty, notificationService_create, emailNotificationService_send,
    caseEventRepository_create, insert_case_event, bind, ret, get, modify, logger,
    uuid_generate_v4.
  destruct (fault "INSERT INTO notifications" (ic_id ic)); cbn; [eauto|].
  destruct (Delivery.sendEmail _ _ _ _) as [[b|e] n]; cbn.
  all: destruct (fault "UPDATE cases" (ic_id ic)); cbn; [eauto|].
  all: destruct (fault "INSERT INTO case_events" (ic_id ic)); cbn; eauto.
Qed.

Lemma inactivity_loop_fails (rows : list InactiveCase) (s f : nat) (w : World) :
  exists w',
    inactivity_loop transport random apiKey fault rows s f w
    = (Val (s, (f + List.length rows)%nat), w')
    /\ case_events w' = case_events w.
Proof.
  revert f w. induction rows as [|ic rest IH]; intros f w.
  - exists w. cbn. rewrite Nat.add_0_r. auto.
  - cbn [inactivity_loop]. unfold bind at 1, try_catch, inactivity_try.
    unfold bind at 1.
    destruct (process_inactive_case_fails ic w) as (e & w1 & -> & Hev).
    rewrite bind_logger. cbn [ret].
    destruct (IH (S f) (with_applog (applog w1 ++ [inactivity_catch ic]) w1))
      as (w' & Hrun & Hev').
    exists w'. rewrite Hrun.
    split; [do 3 f_equal; cbn; lia|]. rewrite Hev'. exact Hev.
Qed.

End ReminderFacts.

(** [X27] A run of the inactivity job ends without an error and reports
    no case as notified: its last log line counts 0 notifications sent
    and every selected case as failed, and no reminder event is written,
    whatever the mail service and the database do.  (The event type the
    job asks for is no member of [CaseEventType], so the insert of the
    event is refused for every case, after the notification and the
    stamp.) *)
Theorem inactivity_job_counts_every_case_as_failed
    (transport : Db.EmailRequest -> nat -> Delivery.SendOutcome) (random : nat -> Q)
    (apiKey : option string) (fault : string -> Db.Uuid -> bool)
    (configured : option Z) (w : Db.World) :
  exists w' lines,
    Services.inactivityCheckJob_run transport random apiKey fault configured w
    = (Val tt, w')
    /\ Db.applog w'
       = (lines
          ++ [LogInfo ("Inactivity check completed: 0 notifications sent, "
                       ++ Services.show_nat
                            (List.length
                               (Services.select_inactive_cases
                                  (Services.inactivityDaysThreshold_or configured 21) w))
                       ++ " failed")])%list
    /\ Db.case_events w' = Db.case_events w.
Proof.
  unfold Services.inactivityCheckJob_run. cbv zeta.
  rewrite bind_logger. unfold bind at 1, Services.getInactiveCasesForNotification at 1.
  rewrite bind_logger. unfold bind at 1.
  match goal with
  | |- context [Services.inactivity_loop _ _ _ _ ?rows 0%nat 0%nat ?ww] =>
      destruct (inactivity_loop_fails transport random apiKey fault rows 0%nat 0%nat ww)
        as (w2 & Hrun & Hev)
  end.
  rewrite Hrun. eexists _, _. split; [reflexivity|]. split.
  - cbn. reflexivity.
  - etrans; [|exact Hev]. reflexivity.
Qed.

(** In the sample database case 101 is due: it is notified and stamped,
    and reported as failed. *)
Lemma inactivity_job_counts_every_case_as_failed_witness :
  exists w' lines,
    Services.inactivityCheckJob_run Sample.transport_down Sample.no_jitter Sample.key
      Sample.no_fault None Sample.world = (Val tt, w')
    /\ Db.applog w'
       = (lines ++ [LogInfo "Inactivity check completed: 0 notifications sent, 1 failed"])%list.
Proof.
  destruct (inactivity_job_counts_every_case_as_failed Sample.transport_down
              Sample.no_jitter Sample.key Sample.no_fault None Sample.world)
    as (w' & lines & Hrun & Hlog & _).
  exists w', lines. split; [exact Hrun|]. exact Hlog.
Defined.

(** ** The notifications of a new case *)

Section NewCaseFacts.
Import Db Repo Services Effects CaseNotices.

Lemma announced_nobody caseId (w w' : World) :
  next_uuid w' = next_uuid w -> notifications w' = notifications w ->
  users w' = users w -> clients w' = clients w -> lawyers w' = lawyers w ->
  cases w' = cases w -> case_events w' = case_events w ->
  messages w' = messages w -> documents w' = documents w -> now w' = now w ->
  announced caseId [] w w'.
Proof.
  intros Hid Hn. intros. unfold announced. cbn. rewrite Hid, Hn, N.add_0_r.
  repeat split; auto. intros i user Hi. inversion Hi.
Qed.

Lemma announced_trans caseId (a b : list Uuid) (w w1 w2 : World) :
  announced caseId a w w1 -> announced caseId b w1 w2 ->
  announced caseId (a ++ b) w w2.
Proof.
  intros (Hid1 & Hold1 & Hnew1 & Hu1 & Hc1 & Hl1 & Hk1 & He1 & Hm1 & Hd1 & Ht1)
         (Hid2 & Hold2 & Hnew2 & Hu2 & Hc2 & Hl2 & Hk2 & He2 & Hm2 & Hd2 & Ht2).
  unfold announced. rewrite length_app.
  split; [lia|]. split; [|split].
  - intros k Hk. rewrite Hold2 by lia. apply Hold1. lia.
  - intros i user Hi. apply lookup_app_Some in Hi as [Hi|[Hlen Hi]].
    + destruct (Hnew1 i user Hi) as (n & Hn & Hrest).
      exists n. split; [|exact Hrest].
      rewrite Hold2; [exact Hn|]. apply lookup_lt_Some in Hi. lia.
    + destruct (Hnew2 _ user Hi) as (n & Hn & H1 & H2 & H3 & H4 & H5).
      exists n. rewrite Ht1 in H5. repeat split; auto.
      rewrite <- Hn. f_equal. lia.
  - repeat split; congruence.
Qed.

Lemma create_announces (input : CreateNotificationInput) caseId (w : World) :
  type input = NotificationType.NEW_CASE -> Services.caseId input = Some caseId ->
  exists row w',
    notificationService_create input w = (Val row, w')
    /\ announced caseId [userId input] w w'
    /\ outbox w' = outbox w.
Proof.
  intros Hty Hcase. eexists _, _.
  split; [unfold notificationService_create, uuid_generate_v4, bind, get, modify,
            logger, ret; reflexivity|].
  split; [|reflexivity].
  unfold announced. cbn. split; [lia|]. split; [|split].
  - intros k Hk. apply lookup_insert_ne. lia.
  - intros [|i] user Hi; [|inversion Hi]. injection Hi as <-.
    rewrite N.add_0_r, lookup_insert_eq. eexists. split; [reflexivity|]. cbn. auto.
  - repeat split.
Qed.

Lemma for_each_announces (mk : Uuid -> CreateNotificationInput) caseId
    (to : list Uuid) (w : World) :
  (forall a, type (mk a) = NotificationType.NEW_CASE
             /\ Services.caseId (mk a) = Some caseId /\ userId (mk a) = a) ->
  exists w',
    for_each (fun a => notificationService_create (mk a) ;;; ret tt) to w = (Val tt, w')
    /\ announced caseId to w w'
    /\ outbox w' = outbox w.
Proof.
  intros Hmk. revert w. induction to as [|a rest IH]; intros w.
  - exists w. split; [reflexivity|]. split; [|reflexivity].
    apply announced_nobody; reflexivity.
  - destruct (Hmk a) as (Hty & Hcase & Hto).
    destruct (create_announces (mk a) caseId w Hty Hcase) as (row & w1 & Hrun & Ha & Ho).
    destruct (IH w1) as (w' & Hrest & Hb & Ho').
    exists w'. cbn [for_each]. unfold bind at 1. unfold bind at 1. rewrite Hrun.
    unfold ret at 1. cbv beta iota. split; [exact Hrest|]. split; [|congruence].
    rewrite Hto in Ha. exact (announced_trans caseId [a] rest w w1 w' Ha Hb).
Qed.

Lemma select_active_admins_users (w w' : World) :
  users w' = users w -> select_active_admins w' = select_active_admins w.
Proof. intros H. unfold select_active_admins. rewrite H. reflexivity. Qed.

Lemma select_lawyer_user_tables lawyerId (w w' : World) :
  users w' = users w -> lawyers w' = lawyers w ->
  select_lawyer_user lawyerId w' = select_lawyer_user lawyerId w.
Proof. intros Hu Hl. unfold select_lawyer_user. rewrite Hu, Hl. reflexivity. Qed.

Lemma announced_users caseId to (w w' : World) :
  announced caseId to w w' -> users w' = users w /\ lawyers w' = lawyers w.
Proof. intros (_ & _ & _ & Hu & _ & Hl & _). auto. Qed.

Section WithMail.
Variable transport : EmailRequest -> nat -> Delivery.SendOutcome.
Variable random : nat -> Q.
Variable apiKey : option string.

(** A mail is handed to the sender, which returns. *)
Lemma send_run (req : EmailRequest) (w : World) :
  exists b,
    emailNotificationService_send transport random apiKey req w
    = (Val b, with_outbox (outbox w ++ [req]) w).
Proof.
  unfold emailNotificationService_send.
  destruct (sendEmail_returns (transport req) random apiKey Delivery.net0) as (b & n & ->).
  eauto.
Qed.

Lemma notifyLawyerNewCase_run lawyerId clientName caseNumber caseType caseId (w : World) :
  exists w',
    notifyLawyerNewCase transport random apiKey lawyerId clientName caseNumber caseType
      caseId w = (Val tt, w')
    /\ match select_lawyer_user lawyerId w with
       | Some (l, u) =>
           announced caseId [l_user_id l] w w'
           /\ outbox w' = (outbox w ++ [{| em_to := u_email u;
                                            em_template := "caseAssignedToLawyer";
                                            em_case_id := Some caseId |}])%list
       | None => announced caseId [] w w' /\ outbox w' = outbox w
       end.
Proof.
  unfold notifyLawyerNewCase. unfold bind at 1, get at 1.
  destruct (select_lawyer_user lawyerId w) as [[l u]|].
  - match goal with
    | |- context [notificationService_create ?input] =>
        destruct (create_announces input caseId w eq_refl eq_refl)
          as (row & w1 & Hrun & Ha & Ho)
    end.
    unfold bind at 1. rewrite Hrun. unfold detach_catch. unfold bind at 1.
    match goal with
    | |- context [emailNotificationService_send _ _ _ ?req ?ww] =>
        destruct (send_run req ww) as (b & ->)
    end.
    unfold ret. eexists. split; [reflexivity|]. split.
    + destruct Ha as (H1 & H2 & H3 & H4). split; [exact H1|]. split; [exact H2|].
      split; [exact H3|]. exact H4.
    + cbn. rewrite Ho. reflexivity.
  - eexists. split; [reflexivity|]. split; [|reflexivity].
    apply announced_nobody; reflexivity.
Qed.

Lemma notifyClientCaseCreated_run userId caseNumber caseType caseId lawyerName (w : World) :
  exists w',
    notifyClientCaseCreated userId caseNumber caseType caseId lawyerName w = (Val tt, w')
    /\ announced caseId [userId] w w'
    /\ outbox w' = outbox w.
Proof.
  unfold notifyClientCaseCreated. cbv zeta.
  match goal with
  | |- context [notificationService_create ?input] =>
      destruct (create_announces input caseId w eq_refl eq_refl)
        as (row & w1 & Hrun & Ha & Ho)
  end.
  exists w1. unfold bind at 1. rewrite Hrun. auto.
Qed.

Lemma notifyAdminsNewCase_run clientName caseNumber caseType caseId lawyerName (w : World) :
  exists w',
    notifyAdminsNewCase clientName caseNumber caseType caseId lawyerName w = (Val tt, w')
    /\ announced caseId (select_active_admins w) w w'
    /\ outbox w' = outbox w.
Proof.
  unfold notifyAdminsNewCase. unfold bind at 1, get at 1. cbv zeta.
  match goal with
  | |- context [for_each (fun admin => notificationService_create (@?mk admin) ;;; ret tt)] =>
      apply (for_each_announces mk caseId)
  end.
  intros a. auto.
Qed.

(** The whole flow for a client who is a user. *)
Lemma sendCaseCreationNotifications_run clientUserId caseId caseNumber caseTitle caseType
    lawyerId lawyerName (w : World) (user : User) :
  users w !! clientUserId = Some user ->
  exists w' mails,
    sendCaseCreationNotifications transport random apiKey clientUserId caseId caseNumber
      caseTitle caseType lawyerId lawyerName w = (Val tt, w')
    /\ announced caseId (recipients clientUserId lawyerId w) w w'
    /\ outbox w' = (outbox w ++ mails)%list
    /\ em_to <$> mails
       = u_email user
         :: match lawyerId with
            | Some lawyerId =>
                match select_lawyer_user lawyerId w with
                | Some (_, u) => [u_email u]
                | None => []
                end
            | None => []
            end.
Proof.
  intros Hu. unfold sendCaseCreationNotifications, userRepository_findById, findById.
  unfold bind at 1. rewrite Hu. cbv zeta.
  destruct (notifyClientCaseCreated_run clientUserId caseNumber caseType caseId
              lawyerName w) as (w1 & Hrun1 & Ha1 & Ho1).
  unfold bind at 1. rewrite Hrun1.
  set (req := {| em_to := u_email user; em_template := "caseSubmitted";
                 em_case_id := None |}).
  destruct (send_run req w1) as (b & Hrun2).
  unfold bind at 1. rewrite Hrun2.
  set (w2 := with_outbox (outbox w1 ++ [req]) w1).
  assert (Ha2 : announced caseId [] w1 w2) by (apply announced_nobody; reflexivity).
  destruct (notifyAdminsNewCase_run (u_first_name user ++ " " ++ u_last_name user)
              caseNumber caseType caseId lawyerName w2) as (w3 & Hrun3 & Ha3 & Ho3).
  unfold bind at 1. rewrite Hrun3.
  pose proof (announced_trans _ _ _ _ _ _ Ha1 Ha2) as Ha12.
  destruct (announced_users _ _ _ _ Ha12) as [Hu2 Hl2].
  rewrite (select_active_admins_users _ _ Hu2) in Ha3.
  pose proof (announced_trans _ _ _ _ _ _ Ha12 Ha3) as Ha123.
  destruct (announced_users _ _ _ _ Ha123) as [Hu3 Hl3].
  unfold recipients.
  destruct lawyerId as [lawyerId|].
  - destruct (notifyLawyerNewCase_run lawyerId
                (u_first_name user ++ " " ++ u_last_name user) caseNumber caseType caseId w3)
      as (w4 & Hrun4 & H4).
    rewrite (select_lawyer_user_tables _ _ _ Hu3 Hl3) in H4.
    rewrite Hrun4.
    destruct (select_lawyer_user lawyerId w) as [[l u]|]; destruct H4 as [Ha4 Ho4].
    + eexists w4, [req; _]. split; [reflexivity|]. split; [|split].
      * exact (announced_trans _ _ _ _ _ _ Ha123 Ha4).
      * rewrite Ho4, Ho3. subst w2. cbn. rewrite Ho1, <- app_assoc. reflexivity.
      * reflexivity.
    + eexists w4, [req]. split; [reflexivity|]. split; [|split].
      * exact (announced_trans _ _ _ _ _ _ Ha123 Ha4).
      * rewrite Ho4, Ho3. subst w2. cbn. rewrite Ho1. reflexivity.
      * reflexivity.
  - eexists w3, [req]. split; [reflexivity|]. split; [|split].
    + rewrite app_nil_r. exact Ha123.
    + rewrite Ho3. subst w2. cbn. rewrite Ho1. reflexivity.
    + reflexivity.
Qed.

End WithMail.

End NewCaseFacts.

(** [X28] [sendCaseCreationNotifications], called for a case that
    exists, never fails.  Without the user of the client it does nothing.
    Otherwise it stores one unread notification of the type [NEW_CASE]
    about the case for the client, for every active administrator and for
    the lawyer given with the case, when the lawyer and the lawyer's user
    exist; the rows get the next identifiers in this order, and every
    other notification, the cases, their events and the other tables stay
    as they are.  One mail for the client and one for that lawyer are
    handed to the sender. *)
Theorem new_case_is_announced
    (transport : Db.EmailRequest -> nat -> Delivery.SendOutcome) (random : nat -> Q)
    (apiKey : option string) (clientUserId caseId : Db.Uuid)
    (caseNumber caseTitle caseType : string) (lawyerId : option Db.Uuid)
    (lawyerName : option string) (w : Db.World) :
  is_Some (Db.cases w !! caseId) ->
  match Db.users w !! clientUserId with
  | None =>
      CaseNotices.sendCaseCreationNotifications transport random apiKey clientUserId
        caseId caseNumber caseTitle caseType lawyerId lawyerName w = (Val tt, w)
  | Some user =>
      exists w' mails,
        CaseNotices.sendCaseCreationNotifications transport random apiKey clientUserId
          caseId caseNumber caseTitle caseType lawyerId lawyerName w = (Val tt, w')
        /\ CaseNotices.announced caseId
             (CaseNotices.recipients clientUserId lawyerId w) w w'
        /\ Db.outbox w' = (Db.outbox w ++ mails)%list
        /\ Db.em_to <$> mails
           = Db.u_email user
             :: match lawyerId with
                | Some lawyerId =>
                    match CaseNotices.select_lawyer_user lawyerId w with
                    | Some (_, u) => [Db.u_email u]
                    | None => []
                    end
                | None => []
                end
  end.
Proof.
  intros _. destruct (Db.users w !! clientUserId) as [user|] eqn:Hu.
  - apply sendCaseCreationNotifications_run. exact Hu.
  - unfold CaseNotices.sendCaseCreationNotifications, Repo.userRepository_findById,
      Repo.findById, bind. rewrite Hu. reflexivity.
Qed.

(** A case of Ana is announced to her and to the administrator. *)
Lemma new_case_is_announced_witness :
  exists w' n,
    CaseNotices.sendCaseCreationNotifications Sample.transport_down Sample.no_jitter
      Sample.key 1%N 101%N "2027-PI-0005" "Fall" "personal_injury" None None Sample.world
    = (Val tt, w')
    /\ Db.notifications w' !! 1001%N = Some n
    /\ Db.n_user_id n = 3%N.
Proof.
  pose proof (new_case_is_announced Sample.transport_down Sample.no_jitter Sample.key
                1%N 101%N "2027-PI-0005" "Fall" "personal_injury" None None Sample.world
                (mk_is_Some _ _ eq_refl))
    as H.
  change (Db.users Sample.world !! 1%N) with (Some Sample.ana) in H.
  destruct H as (w' & mails & Hrun & (_ & _ & Hnew & _) & _).
  destruct (Hnew 1%nat 3%N eq_refl) as (n & Hn & Hto & _).
  exists w', n. split; [exact Hrun|]. split; [exact Hn|exact Hto].
Defined.

Section NewCases.
Import Db Repo Services Effects CaseNotices.

Lemma recipients_tables clientUserId lawyerId (w w' : World) :
  users w' = users w -> lawyers w' = lawyers w ->
  recipients clientUserId lawyerId w' = recipients clientUserId lawyerId w.
Proof.
  intros Hu Hl. unfold recipients.
  rewrite (select_active_admins_users _ _ Hu).
  destruct lawyerId as [lawyerId|]; [|reflexivity].
  rewrite (select_lawyer_user_tables _ _ _ Hu Hl). reflexivity.
Qed.

(** The row and the event of a new case. *)
Lemma createWithEvent_val data actorId (w w1 : World) (r : Case) :
  caseRepository_createWithEvent data actorId w = (Val r, w1) ->
  c_id r = next_uuid w
  /\ next_uuid w1 = N.succ (next_uuid w)
  /\ notifications w1 = notifications w /\ users w1 = users w /\ lawyers w1 = lawyers w
  /\ now w1 = now w
  /\ exists ev, case_events w1 = (case_events w ++ [ev])%list
                /\ e_event_type ev = CaseEventType.CASE_CREATED
                /\ e_case_id ev = c_id r.
Proof.
  unfold caseRepository_createWithEvent. intros H. apply transaction_val in H.
  apply bind_val in H as (id & wa & Hid & H).
  unfold uuid_generate_v4 in Hid. injection Hid as <- <-.
  apply bind_val in H as (number & wb & Hnum & H).
  unfold generate_case_number in Hnum. injection Hnum as <- <-.
  apply bind_val in H as (newCase & wc & Hins & H).
  apply insert_case_val in Hins as (Hcid & _ & _ & ->).
  apply bind_val in H as (ev & wd & Hev & H).
  apply ret_val in H as [<- <-].
  apply insert_case_event_val in Hev as (Hty & Hcase & ->).
  cbn. split; [exact Hcid|]. repeat split.
  exists ev. split; [reflexivity|]. injection Hty as Hty. auto.
Qed.

Section WithFlow.
Variable P : Uuid -> Uuid -> string -> string -> string -> option Uuid -> option string
             -> IO unit.

(** A successful [createCase]: the transaction, the log line, and the
    detached flow. *)
Lemma createCase_steps data actorId (w w' : World) (r : Case) (cl : Client) :
  clients w !! cc_client_id data = Some cl ->
  createCase P data actorId w = (Val r, w') ->
  exists w1 title caseType lawyerName,
    caseRepository_createWithEvent data actorId w = (Val r, w1)
    /\ detach_catch
         (P (cl_user_id cl) (c_id r) (c_case_number r) title caseType
            (cc_lawyer_id data) lawyerName)
         "Failed to send case creation notifications"
         (with_applog (applog w1 ++ [LogInfo ("Case created: " ++ c_case_number r)]) w1)
       = (Val tt, w').
Proof.
  intros Hcl. unfold createCase, clientRepository_findById, findById.
  unfold bind at 1. rewrite Hcl. intros H.
  apply bind_val in H as ([] & w0 & Hchk & H).
  assert (w0 = w) as ->.
  { destruct (cc_lawyer_id data) as [lid|]; [|apply ret_val in Hchk as [_ <-]; reflexivity].
    unfold lawyerRepository_findById, findById, bind in Hchk.
    destruct (lawyers w !! lid); [|discriminate]. apply ret_val in Hchk as [_ <-].
    reflexivity. }
  apply bind_val in H as (newCase & w1 & Hnew & H).
  rewrite bind_logger in H.
  apply bind_val in H as (lawyerName & w3 & Hname & H).
  assert (w3 = with_applog (applog w1 ++ [LogInfo ("Case created: "
                                                   ++ c_case_number newCase)]) w1) as ->.
  { revert Hname. generalize (with_applog (applog w1 ++ [LogInfo ("Case created: "
                                             ++ c_case_number newCase)]) w1).
    intros w2 Hname.
    destruct (cc_lawyer_id data) as [lid|]; [|apply ret_val in Hname as [_ <-]; reflexivity].
    unfold lawyerRepository_findById, userRepository_findById, findById, bind in Hname.
    destruct (lawyers w2 !! lid) as [l|]; [|apply ret_val in Hname as [_ <-]; reflexivity].
    destruct (users w2 !! l_user_id l); apply ret_val in Hname as [_ <-]; reflexivity. }
  apply bind_val in H as ([] & w4 & Hdet & H).
  apply ret_val in H as [<- <-].
  eexists w1, _, _, lawyerName. split; [exact Hnew|exact Hdet].
Qed.

End WithFlow.

End NewCases.

(** [X29] What [createCase] leaves behind once its notifications have
    run, for a client whose user exists: the case carries the next
    identifier and has one [case_created] event; the client, every active
    administrator and the lawyer given with the case each have a new
    unread notification of the type [NEW_CASE] about the case, stored
    under the identifiers that follow the one of the case; and no earlier
    notification is changed. *)
Theorem createCase_announces_the_case
    (transport : Db.EmailRequest -> nat -> Delivery.SendOutcome) (random : nat -> Q)
    (apiKey : option string) (data : Repo.CreateCaseData) (actorId : option Db.Uuid)
    (w w' : Db.World) (r : Db.Case) (cl : Db.Client) (user : Db.User) :
  Db.clients w !! Repo.cc_client_id data = Some cl ->
  Db.users w !! Db.cl_user_id cl = Some user ->
  Services.createCase (CaseNotices.sendCaseCreationNotifications transport random apiKey)
    data actorId w = (Val r, w') ->
  Db.c_id r = Db.next_uuid w
  /\ (exists ev, Db.case_events w' = (Db.case_events w ++ [ev])%list
                 /\ Db.e_event_type ev = CaseEventType.CASE_CREATED
                 /\ Db.e_case_id ev = Db.c_id r)
  /\ (forall (i : nat) to,
        CaseNotices.recipients (Db.cl_user_id cl) (Repo.cc_lawyer_id data) w !! i = Some to ->
        exists n,
          Db.notifications w' !! (Db.next_uuid w + 1 + N.of_nat i)%N = Some n
          /\ Db.n_user_id n = to
          /\ Db.n_type n = NotificationType.NEW_CASE
          /\ Db.n_case_id n = Some (Db.c_id r)
          /\ Db.n_is_read n = false)
  /\ forall k, (k < Db.next_uuid w)%N ->
               Db.notifications w' !! k = Db.notifications w !! k.
Proof.
  intros Hcl Hu Hrun.
  apply (createCase_steps _ _ _ _ _ _ cl Hcl) in Hrun
    as (w1 & title & caseType & lawyerName & Hnew & Hdet).
  apply createWithEvent_val in Hnew
    as (Hid & Hnext & Hnot & Husers & Hlawyers & Hnow & ev & Hev & Hty & Hcase).
  set (w2 := Db.with_applog _ w1) in Hdet.
  assert (Hu2 : Db.users w2 !! Db.cl_user_id cl = Some user).
  { subst w2. cbn. rewrite Husers. exact Hu. }
  destruct (sendCaseCreationNotifications_run transport random apiKey (Db.cl_user_id cl)
              (Db.c_id r) (Db.c_case_number r) title caseType (Repo.cc_lawyer_id data)
              lawyerName w2 user Hu2) as (w3 & mails & Hflow & Ha & _).
  unfold Services.detach_catch in Hdet. rewrite Hflow in Hdet. injection Hdet as <-.
  rewrite (recipients_tables _ _ w w2) in Ha by (subst w2; cbn; assumption).
  destruct Ha as (_ & Hold & Hadd & _ & _ & _ & _ & Hevents & _).
  split; [exact Hid|]. split; [|split].
  - exists ev. rewrite Hevents. subst w2. cbn. auto.
  - intros i to Hi. destruct (Hadd i to Hi) as (n & Hn & H1 & H2 & H3 & H4 & _).
    exists n. split; [|auto].
    rewrite <- Hn. f_equal. subst w2. cbn. rewrite Hnext. lia.
  - intros k Hk. rewrite Hold.
    + subst w2. cbn. rewrite Hnot. reflexivity.
    + left. subst w2. cbn. rewrite Hnext. lia.
Qed.

(** The administrator opens a case for Ana: the case gets the identifier
    1000, Ana the notification 1001 and the administrator 1002. *)
Lemma createCase_announces_the_case_witness :
  exists n,
    Db.notifications
      (snd (Services.createCase
              (CaseNotices.sendCaseCreationNotifications Sample.transport_down
                 Sample.no_jitter Sample.key)
              Sample.new_case (Some 3%N) Sample.world)) !! 1002%N = Some n
    /\ Db.n_user_id n = 3%N /\ Db.n_case_id n = Some 1000%N.
Proof.
  destruct (Services.createCase
              (CaseNotices.sendCaseCreationNotifications Sample.transport_down
                 Sample.no_jitter Sample.key)
              Sample.new_case (Some 3%N) Sample.world) as [[r|e] w'] eqn:Hrun.
  - destruct (createCase_announces_the_case Sample.transport_down Sample.no_jitter
                Sample.key Sample.new_case (Some 3%N) Sample.world w' r
                {| Db.cl_id := 11; Db.cl_user_id := 1 |} Sample.ana
                eq_refl eq_refl Hrun) as (Hid & _ & Hadd & _).
    destruct (Hadd 1%nat 3%N eq_refl) as (n & Hn & Hto & _ & Hcase & _).
    exists n. split; [exact Hn|]. split; [exact Hto|].
    rewrite Hcase, Hid. reflexivity.
  - vm_compute in Hrun. discriminate Hrun.
Defined.

(** ** The numbers of the SQL sequence *)

Section DigitFacts.
Import Decimal Text.













End DigitFacts.


